(** * Bungee: grain specification, resampler selection, call-order guard

    A shallow embedding of the parts of the Bungee time-stretcher that decide
    how a grain is specified ([Grain::specify]), how the resamplers are
    selected ([Resample::Operations::setup]), how the resampling loop treats
    muted rows ([Resample::Loop::run]), how the grain ring reports that it is
    flushed ([Grains::flushed]) and how the call-order guard works
    ([Instrumentation::Call]); with them [Resample::resample] and the
    buffers it works on, [Grains::rotate], the map of the input chunk and
    its check ([Grain::inputChunkMap], [Grain::overlapCheck]), the three
    calls of the stretcher, the input buffer of [Stream]
    ([Stream::InputBuffer]) and the mute counts that [main] computes.

    Conventions of the embedding.
    - [double] is IEEE 754 binary64 and [float] is binary32, both as
      [spec_float] with the operations of [SpecFloat] (round to nearest even).
    - [int] is a 32-bit signed integer carried as [Z]; an operation whose C++
      behaviour is undefined (signed overflow, a conversion from a floating
      value that does not fit, an index out of bounds) returns [None].
    - The build modelled is the default one: [BUNGEE_SELF_TEST] is 0, so
      [BUNGEE_ASSERT1], [BUNGEE_ASSERT2] and [FloatingPointExceptions] expand
      to nothing.
    - [assert] of [<cassert>], which [Stream.h] uses, is there or not by
      [NDEBUG], a parameter of the functions that have one.  Taking the
      address [&v[i]] of an element of a [std::vector] needs [i < v.size()],
      as reading it does.
    - [eigen_assert] is compiled out: a block of an Eigen array
      ([topRows], [middleRows], [bottomRows]) that does not lie inside the
      array, a [resize] to a negative size and a comparison of arrays of
      different shapes are undefined behaviour, as is [std::clamp] with
      bounds out of order. *)

From Stdlib Require Import ZArith List Bool Lia String DecimalString.
From Stdlib Require Import Floats.SpecFloat.
From Stdlib Require Permutation.
Import ListNotations.
Local Open Scope Z_scope.

(** ** The option monad used for undefined behaviour and aborts *)

Definition bind {A B : Type} (o : option A) (k : A -> option B) : option B :=
  match o with
  | Some a => k a
  | None => None
  end.

Notation "x <- o ;; k" := (bind o (fun x => k))
  (at level 61, o at next level, right associativity).
Notation "' p <- o ;; k" := (bind o (fun x => let p := x in k))
  (at level 61, p pattern, o at next level, right associativity).

(** ** C++ scalars *)

Module Cxx.

Definition INT_MIN : Z := - 2 ^ 31.
Definition INT_MAX : Z := 2 ^ 31 - 1.

(** A value of type [int]: defined only inside the 32-bit range. *)
Definition int (z : Z) : option Z :=
  if (INT_MIN <=? z) && (z <=? INT_MAX) then Some z else None.

(** [1 << n] on [int]. *)
Definition shl1 (n : Z) : option Z :=
  if (0 <=? n) && (n <? 31) then Some (Z.shiftl 1 n) else None.

(** [std::clamp<int>(v, lo, hi)]. *)
Definition clamp (v lo hi : Z) : Z :=
  if v <? lo then lo else if hi <? v then hi else v.

(** *** binary64 *)

Definition double : Type := spec_float.

Definition dprec : Z := 53.
Definition demax : Z := 1024.

Definition dadd : double -> double -> double := SFadd dprec demax.
Definition dsub : double -> double -> double := SFsub dprec demax.
Definition dmul : double -> double -> double := SFmul dprec demax.
Definition ddiv : double -> double -> double := SFdiv dprec demax.
Definition dopp : double -> double := SFopp.
Definition dabs : double -> double := SFabs.
Definition deqb : double -> double -> bool := SFeqb.
Definition dltb : double -> double -> bool := SFltb.
Definition dleb : double -> double -> bool := SFleb.
Definition dgtb (x y : double) : bool := SFltb y x.

Definition quiet_NaN : double := S754_nan.

(** [std::isnan]. *)
Definition isnan (x : double) : bool :=
  match x with
  | S754_nan => true
  | _ => false
  end.

(** Conversion of an integer to [double] (exact below 2^53). *)
Definition of_int (z : Z) : double := binary_normalize dprec demax z 0 false.

Definition d1 : double := of_int 1.
Definition dhalf : double := ddiv d1 (of_int 2).

(** [std::round]: to the nearest integer, halfway cases away from zero. *)
Definition round (x : double) : double :=
  match x with
  | S754_finite s m e =>
      if 0 <=? e then x
      else
        let n := (Zpos m + 2 ^ (- e - 1)) / 2 ^ (- e) in
        binary_normalize dprec demax (cond_Zopp s n) 0 s
  | _ => x
  end.

(** [std::ceil]. *)
Definition ceil (x : double) : double :=
  match x with
  | S754_finite s m e =>
      if 0 <=? e then x
      else
        let n := if s then Zpos m / 2 ^ (- e)
                 else (Zpos m + 2 ^ (- e) - 1) / 2 ^ (- e) in
        binary_normalize dprec demax (cond_Zopp s n) 0 s
  | _ => x
  end.

(** The integer a floating value truncates to, when it has one. *)
Definition trunc (x : spec_float) : option Z :=
  match x with
  | S754_zero _ => Some 0
  | S754_finite s m e => Some (cond_Zopp s (Z.shiftl (Zpos m) e))
  | _ => None
  end.

(** Conversion [double -> int]: truncation; undefined when the truncated
    value is not representable. *)
Definition to_int (x : double) : option Z :=
  z <- trunc x ;; int z.

(** *** binary32 *)

Definition float : Type := spec_float.

Definition fprec : Z := 24.
Definition femax : Z := 128.

Definition fadd : float -> float -> float := SFadd fprec femax.
Definition fsub : float -> float -> float := SFsub fprec femax.
Definition fmul : float -> float -> float := SFmul fprec femax.
Definition feqb : float -> float -> bool := SFeqb.

Definition f0 : float := S754_zero false.
Definition f1 : float := binary_normalize fprec femax 1 0 false.
Definition fhalf : float := binary_normalize fprec femax 1 (-1) false.

(** Conversion [double -> float]. *)
Definition to_float (x : double) : float :=
  match x with
  | S754_finite s m e => binary_round fprec femax s m e
  | _ => x
  end.

(** Conversion of an integer to [float]. *)
Definition float_of_int (z : Z) : float :=
  binary_normalize fprec femax z 0 false.

(** Conversion [float -> intptr_t] (64 bits). *)
Definition to_intptr (x : float) : option Z :=
  z <- trunc x ;;
  if (- 2 ^ 63 <=? z) && (z <? 2 ^ 63) then Some z else None.

End Cxx.

Import Cxx.

(** ** bungee/Bungee.h *)

(** Modelled from the spec: [enum ResampleMode] is declared in
    [bungee/Modes.h], which is not among the sources; the spec lists its
    five values. *)
Inductive ResampleMode : Type :=
  | resampleMode_autoOut
  | resampleMode_autoIn
  | resampleMode_autoInOut
  | resampleMode_forceOut
  | resampleMode_forceIn.

Definition ResampleMode_eqb (a b : ResampleMode) : bool :=
  match a, b with
  | resampleMode_autoOut, resampleMode_autoOut
  | resampleMode_autoIn, resampleMode_autoIn
  | resampleMode_autoInOut, resampleMode_autoInOut
  | resampleMode_forceOut, resampleMode_forceOut
  | resampleMode_forceIn, resampleMode_forceIn => true
  | _, _ => false
  end.

Record Request : Type := mkRequest {
  position : double;
  speed : double;
  pitch : double;
  reset : bool;
  resampleMode : ResampleMode
}.

Record InputChunk : Type := mkInputChunk {
  chunk_begin : Z;
  chunk_end : Z
}.

Record SampleRates : Type := mkSampleRates {
  rate_input : Z;
  rate_output : Z
}.

(** ** src/Resample.h *)

Module Resample.

(** The two instantiations of the [Mode] template parameter. *)
Inductive Mode : Type :=
  | Input    (* external buffer -> internal buffer *)
  | Output.  (* internal buffer -> external buffer *)

(** The two interpolation kernels. *)
Inductive Interpolation : Type :=
  | Nearest
  | Bilinear.

(** A pointer to an instantiation [resample<Interpolation, Mode>];
    [nullptr] is [None]. *)
Definition Function : Type := option (Interpolation * Mode).

Record Operation : Type := mkOperation {
  function : Function;
  ratio : double
}.

Record Operations : Type := mkOperations {
  input : Operation;
  output : Operation
}.

(** [Operations::setup]: returns the updated operations and the value the
    method returns. *)
Definition setup (sampleRates : SampleRates) (pitch : double)
    (resampleMode : ResampleMode) : Operations * double :=
  let resampleRatio :=
    ddiv (dmul pitch (of_int (rate_input sampleRates)))
         (of_int (rate_output sampleRates)) in
  let input_ratio := ddiv d1 resampleRatio in
  let output_ratio := resampleRatio in
  let input_function : Function := Some (Bilinear, Input) in
  let output_function : Function := Some (Bilinear, Output) in
  let '(input_function, output_function) :=
    if ResampleMode_eqb resampleMode resampleMode_forceOut then
      (None, output_function)
    else if ResampleMode_eqb resampleMode resampleMode_forceIn then
      (input_function, None)
    else if deqb resampleRatio d1 then
      (None, None)
    else if ResampleMode_eqb resampleMode resampleMode_autoIn then
      (input_function, None)
    else if ResampleMode_eqb resampleMode resampleMode_autoOut then
      (None, output_function)
    else if ResampleMode_eqb resampleMode resampleMode_autoInOut
            && dgtb resampleRatio d1 then
      (input_function, None)
    else if ResampleMode_eqb resampleMode resampleMode_autoInOut
            && dltb resampleRatio d1 then
      (None, output_function)
    else
      (None, output_function) in
  let input_ratio :=
    match input_function with
    | None => d1
    | Some _ => input_ratio
    end in
  let rates :=
    ddiv (of_int (rate_input sampleRates))
         (of_int (rate_output sampleRates)) in
  match output_function with
  | Some _ =>
      (mkOperations (mkOperation input_function input_ratio)
                    (mkOperation output_function output_ratio),
       ddiv rates output_ratio)
  | None =>
      (mkOperations (mkOperation input_function input_ratio)
                    (mkOperation output_function d1),
       rates)
  end.

(** *** Buffers

    An Eigen array is kept as the flat, column-major storage its [data()]
    pointer addresses: the coefficient of row [r] and column [c] is at
    index [r + c * colStride]. *)
Record Array : Type := mkArray {
  data : list float;
  rows : Z;
  cols : Z;
  colStride : Z
}.

Definition load (l : list float) (i : Z) : option float :=
  if i <? 0 then None else nth_error l (Z.to_nat i).

Fixpoint update (l : list float) (n : nat) (v : float) : list float :=
  match l, n with
  | [], _ => []
  | _ :: t, O => v :: t
  | h :: t, S n' => h :: update t n' v
  end.

(** A store through a reference; it needs the element to exist. *)
Definition store (l : list float) (i : Z) (v : float) : option (list float) :=
  match load l i with
  | Some _ => Some (update l (Z.to_nat i) v)
  | None => None
  end.

(** [array.setZero()] on an owned array. *)
Definition setZero (a : Array) : Array :=
  mkArray (map (fun _ => f0) (data a)) (rows a) (cols a) (colStride a).

Record Internal : Type := mkInternal {
  array : Array;
  frameCount : Z;
  offset : double
}.

Record External : Type := mkExternal {
  ref : Array;
  unmutedBegin : Z;
  unmutedEnd : Z;
  activeFrameCount : Z
}.

(** The four assertions of [External::check]. *)
Definition check (e : External) : Prop :=
  0 <= unmutedBegin e /\ unmutedBegin e <= unmutedEnd e
  /\ unmutedEnd e <= activeFrameCount e
  /\ activeFrameCount e <= rows (ref e).

(** [filterTap<Mode, first>]: the new values of the two references. *)
Definition filterTap (mode : Mode) (first : bool)
    (internal external coefficient gain : float) : float * float :=
  match mode with
  | Input => (fadd internal (fmul external (fmul coefficient gain)), external)
  | Output =>
      if first then (internal, fmul internal coefficient)
      else (internal, fadd external (fmul internal coefficient))
  end.

(** One call of [filterTap] on [internal[i]] and [external[j]]. *)
Definition tap (mode : Mode) (first : bool) (coefficient gain : float)
    (i j : Z) (mem : list float * list float)
    : option (list float * list float) :=
  let '(internal, external) := mem in
  vi <- load internal i ;;
  ve <- load external j ;;
  let '(vi', ve') := filterTap mode first vi ve coefficient gain in
  internal' <- store internal i vi' ;;
  external' <- store external j ve' ;;
  Some (internal', external').

(** The loop over channels of [Nearest::step]; [row] is the offset the
    caller added to the external pointer. *)
Fixpoint Nearest_channels (mode : Mode) (n : nat) (c : Z) (integer : Z)
    (internalStride row externalStride : Z) (gain : float)
    (mem : list float * list float) : option (list float * list float) :=
  match n with
  | O => Some mem
  | S n' =>
      mem' <- tap mode true f1 gain (integer + c * internalStride)
                  (row + c * externalStride) mem ;;
      Nearest_channels mode n' (c + 1) integer internalStride row
                       externalStride gain mem'
  end.

(** The loop over channels of [Bilinear::step]. *)
Fixpoint Bilinear_channels (mode : Mode) (n : nat) (c : Z) (integer : Z)
    (fraction : float) (internalStride row externalStride : Z) (gain : float)
    (mem : list float * list float) : option (list float * list float) :=
  match n with
  | O => Some mem
  | S n' =>
      mem1 <- tap mode true fraction gain (integer + 1 + c * internalStride)
                  (row + c * externalStride) mem ;;
      mem2 <- tap mode false (fsub f1 fraction) gain
                  (integer + 0 + c * internalStride)
                  (row + c * externalStride) mem1 ;;
      Bilinear_channels mode n' (c + 1) integer fraction internalStride row
                        externalStride gain mem2
  end.

(** [Interpolation::step<Mode>]. *)
Definition step (interpolation : Interpolation) (mode : Mode) (x : float)
    (channelCount : Z) (internalStride row externalStride : Z) (gain : float)
    (mem : list float * list float) : option (list float * list float) :=
  match interpolation with
  | Nearest =>
      integer <- to_intptr (fadd x fhalf) ;;
      Nearest_channels mode (Z.to_nat channelCount) 0 integer internalStride
                       row externalStride gain mem
  | Bilinear =>
      integer <- to_intptr x ;;
      let fraction := fsub x (float_of_int integer) in
      Bilinear_channels mode (Z.to_nat channelCount) 0 integer fraction
                        internalStride row externalStride gain mem
  end.

(** [RatioState<ratioIsConstant>]; the constant variant has no gradient
    member and its [step] leaves the ratio alone. *)
Record RatioState : Type := mkRatioState {
  ratioIsConstant : bool;
  ratioGradient : double;
  rs_ratio : double;
  x : double
}.

Definition RatioState_new (constant : bool)
    (offset ratioBegin ratioGradient : double) : RatioState :=
  if constant then mkRatioState true ratioGradient ratioBegin offset
  else mkRatioState false ratioGradient
         (dadd ratioBegin (dmul dhalf ratioGradient)) offset.

Definition RatioState_step (s : RatioState) : RatioState :=
  if ratioIsConstant s then
    mkRatioState true (ratioGradient s) (rs_ratio s) (dadd (x s) (rs_ratio s))
  else
    mkRatioState false (ratioGradient s)
      (dadd (rs_ratio s) (ratioGradient s)) (dadd (x s) (rs_ratio s)).

(** Conversion of a [ptrdiff_t] to [size_t], as the comparisons of the row
    loop do. *)
Definition to_size_t (z : Z) : Z := z mod 2 ^ 64.

(** The row loop of [Loop::run], [n] rows from [row] on. *)
Fixpoint run_rows (interpolation : Interpolation) (mode : Mode) (n : nat)
    (row : Z) (external : External) (internalStride : Z)
    (ratioState : RatioState) (mem : list float * list float)
    : option (RatioState * (list float * list float)) :=
  match n with
  | O => Some (ratioState, mem)
  | S n' =>
      mem' <-
        (if (to_size_t (unmutedBegin external) <=? row)
            && (row <? to_size_t (unmutedEnd external))
         then step interpolation mode (to_float (x ratioState))
                   (cols (ref external)) internalStride row
                   (colStride (ref external))
                   (to_float (rs_ratio ratioState)) mem
         else Some mem) ;;
      run_rows interpolation mode n' (row + 1) external internalStride
               (RatioState_step ratioState) mem'
  end.

(** [Loop<Interpolation, Mode>::run]: the final ratio state, the internal
    buffer and the storage of the external one. *)
Definition run (interpolation : Interpolation) (mode : Mode)
    (ratioState : RatioState) (internal : Internal) (external : External)
    : option (RatioState * Internal * Array) :=
  let a :=
    match mode with
    | Input => setZero (array internal)
    | Output => array internal
    end in
  ' (ratioState', (idata, edata)) <-
    run_rows interpolation mode
             (Z.to_nat (to_size_t (activeFrameCount external))) 0 external
             (colStride a) ratioState (data a, data (ref external)) ;;
  Some (ratioState',
        mkInternal (mkArray idata (rows a) (cols a) (colStride a))
                   (frameCount internal) (offset internal),
        mkArray edata (rows (ref external)) (cols (ref external))
                (colStride (ref external))).

(** [Internal::align] and [Internal::padding].  [bytes] is Eigen's
    [EIGEN_DEFAULT_ALIGN_BYTES], a constant of the build that is not
    negative; [sizeof(float)] is 4. *)
Definition align (bytes : Z) : Z := Z.max (Z.quot bytes 4) 1.

Definition padding (bytes : Z) : Z :=
  Z.quot (32 + align bytes - 1) (align bytes) * align bytes.

(** [Internal::Internal].  [contents] stands for the coefficients of the
    array, which the constructor leaves uninitialised. *)
Definition Internal_new (bytes maxFrameCount channelCount : Z)
    (contents : list float) : Internal :=
  let rows := padding bytes + maxFrameCount + padding bytes in
  mkInternal (mkArray contents rows channelCount rows) 0 (S754_zero false).

(** [Internal::unpadded]: the first row and the number of rows of the block
    [array.middleRows(padding, array.rows() - 2 * padding)]. *)
Definition unpadded (bytes : Z) (internal : Internal) : Z * Z :=
  (padding bytes, rows (array internal) - 2 * padding bytes).

(** [External::External]; the call of [check] in its body is a no-op in the
    build modelled. *)
Definition External_new (ref : Array) (muteHead muteTail : Z) : External :=
  mkExternal ref muteHead (rows ref - muteTail) (rows ref).

(** The literals [1e-2] and [1.1] as binary64 numbers. *)
Definition d1e_2 : double := S754_finite false 5764607523034235 (-59).
Definition d1_1 : double := S754_finite false 4953959590107546 (-52).

(** Conversion [double -> ptrdiff_t] (64 bits). *)
Definition to_ptrdiff (x : double) : option Z := to_intptr x.

(** [resampleSpecial<Interpolation, Mode, ratioIsConstant>]: the internal
    buffer after the call and the storage of the external one. *)
Definition resampleSpecial (bytes : Z) (interpolation : Interpolation)
    (mode : Mode) (ratioIsConstant : bool) (internal : Internal)
    (external : External) (ratioBegin ratioEnd : double)
    : option (Internal * Array) :=
  let ratioGradient :=
    ddiv (dsub ratioEnd ratioBegin) (of_int (activeFrameCount external)) in
  let ratioState :=
    RatioState_new ratioIsConstant
      (dadd (of_int (padding bytes)) (offset internal))
      ratioBegin ratioGradient in
  ' (ratioState, internal, edata) <-
    run interpolation mode ratioState internal external ;;
  Some (mkInternal (array internal) (frameCount internal)
                   (dsub (x ratioState) (of_int (padding bytes))),
        edata).

(** [resample<Interpolation, Mode>]: the internal and the external buffer
    after the call. *)
Definition resample (bytes : Z) (interpolation : Interpolation) (mode : Mode)
    (internal : Internal) (external : External)
    (ratioBegin ratioEnd : double) (alignEnd : bool)
    : option (Internal * External) :=
  idealFrameCount <-
    to_ptrdiff
      (round (ddiv (dmul (of_int 2)
                         (dsub (of_int (frameCount internal))
                               (offset internal)))
                   (dadd ratioBegin ratioEnd))) ;;
  let truncate := rows (ref external) <? idealFrameCount in
  let activeFrameCount :=
    if negb truncate then idealFrameCount else activeFrameCount external in
  if 0 <? activeFrameCount then
    let ratioEnd :=
      if alignEnd then
        let meanRatio :=
          ddiv (dsub (of_int (frameCount internal)) (offset internal))
               (of_int activeFrameCount) in
        dsub (dmul (of_int 2) meanRatio) ratioBegin
      else ratioEnd in
    let unmutedBegin := clamp (unmutedBegin external) 0 activeFrameCount in
    let unmutedEnd :=
      clamp (unmutedEnd external) unmutedBegin activeFrameCount in
    let external :=
      mkExternal (ref external) unmutedBegin unmutedEnd activeFrameCount in
    ' (internal, edata) <-
      resampleSpecial bytes interpolation mode (deqb ratioBegin ratioEnd)
                      internal external ratioBegin ratioEnd ;;
    let offset := dsub (offset internal) (of_int (frameCount internal)) in
    let offset :=
      if dgtb (dabs offset) (if alignEnd then d1e_2 else dmul ratioEnd d1_1)
      then S754_zero false else offset in
    Some (mkInternal (array internal) (frameCount internal) offset,
          mkExternal edata unmutedBegin unmutedEnd activeFrameCount)
  else
    Some (internal,
          mkExternal (ref external) (unmutedBegin external)
                     (unmutedEnd external) activeFrameCount).

End Resample.

(** ** src/Instrumentation.h, src/Instrumentation.cpp *)

Module Instrumentation.

Local Open Scope string_scope.

Record Instrumentation : Type := mkInstrumentation {
  enabled : bool;
  expected : Z;
  firstGrain : bool
}.

(** The state of a freshly constructed object. *)
Definition Instrumentation_new : Instrumentation :=
  mkInstrumentation false 0 true.

Definition enableInstrumentation (i : Instrumentation) (enable : bool)
    : Instrumentation :=
  mkInstrumentation enable (expected i) (firstGrain i).

(** [Instrumentation::log], generic platform: the lines written to
    [stderr] for an already formatted message. *)
Definition log (i : Instrumentation) (message : string) : list string :=
  if enabled i then ["Bungee: " ++ message] else [].

(** The array [names] of the constructor of [Call]; its callers pass 0, 1
    or 2. *)
Definition names (sequence : Z) : string :=
  if (sequence =? 0)%Z then "specifyGrain"
  else if (sequence =? 1)%Z then "analyseGrain"
  else "synthesiseGrain".

Definition fatal (sequence expected : Z) : string :=
  "FATAL: stretcher functions called in the wrong order: "
  ++ names sequence ++ " was called when expecting a call to "
  ++ names expected.

(** [%d] of an [int]. *)
Definition decimal (z : Z) : string := NilZero.string_of_int (Z.to_int z).

(** What a guarded call comes to. *)
Inductive Outcome (A : Type) : Type :=
  | Returns (a : A)   (* the call goes on with state [a] *)
  | Aborts.           (* [std::abort] was called *)
Arguments Returns {A} a.
Arguments Aborts {A}.

(** [Instrumentation::Call::Call]: the lines logged and the outcome. *)
Definition Call (instrumentation : Instrumentation) (sequence : Z)
    : list string * Outcome Instrumentation :=
  if negb (sequence =? expected instrumentation)%Z then
    (log instrumentation (fatal sequence (expected instrumentation)),
     Aborts)
  else
    ([], Returns (mkInstrumentation (enabled instrumentation)
                    (Z.rem (sequence + 1) 3)
                    (firstGrain instrumentation))).

(** A sequence of guarded calls on one instance: the lines logged and the
    state reached, or the abort. *)
Fixpoint calls (instrumentation : Instrumentation) (sequence : list Z)
    : list string * Outcome Instrumentation :=
  match sequence with
  | [] => ([], Returns instrumentation)
  | s :: rest =>
      match Call instrumentation s with
      | (lines, Returns i') =>
          let '(lines', o) := calls i' rest in ((lines ++ lines')%list, o)
      | (lines, Aborts) => (lines, Aborts)
      end
  end.

End Instrumentation.

(** ** src/Output.h

    [Output.h] is not among the sources.  The objects it declares are
    carried without their layout: an object is what its constructor was
    given, or the samples that the output pipeline left in it. *)

Module OutputH.

(** Modelled from the spec: [Output::Segment], the time-domain synthesis
    segment of a grain. *)
Inductive Segment : Type :=
  | Segment_new (log2SynthesisHop channelCount : Z)
  | Segment_of (samples : list float).

(** Modelled from the spec: [Output], which owns the inverse-transform
    scratch, the overlap-add accumulator and the state of the output
    resampler. *)
Inductive Output : Type :=
  | Output_new (sampleRates : SampleRates) (log2SynthesisHop channelCount : Z)
  | Output_of (samples : list float).

End OutputH.

(** ** src/Grain.h, src/Grain.cpp *)

Module GrainH.

(** Modelled from the spec: [Partials::Partial] is declared in [Partials.h],
    which is not among the sources; the spec gives it a peak bin and the
    band of bins locked to that peak. *)
Record Partial : Type := mkPartial {
  peak : Z;
  band_begin : Z;
  band_end : Z
}.

Record Analysis : Type := mkAnalysis {
  positionError : double;
  hopIdeal : double;
  analysis_speed : double;
  hop : Z
}.

(** The members of [struct Grain] that the functions below read or write.
    [phase] and [rotation] hold [Phase::Type] values (16-bit fixed point).
    Of the spectrum [transformed] only the number of columns is kept, and
    of [inputResampled] only its [frameCount]; the [delta] array is left
    out. *)
Record Grain : Type := mkGrain {
  log2TransformLength : Z;
  request : Request;
  requestHop : double;
  continuous : bool;
  passthrough : Z;
  validBinCount : Z;
  muteFrameCountHead : Z;
  muteFrameCountTail : Z;
  resampleOperations : Resample.Operations;
  inputChunk : InputChunk;
  analysis : Analysis;
  transformed_cols : Z;
  phase : list Z;
  energy : list float;
  rotation : list Z;
  partials : list Partial;
  inputResampled_frameCount : Z;
  inputCopy : Resample.Array;
  segment : OutputH.Segment
}.

End GrainH.

Import GrainH.

Module GrainImpl.

Import Resample Instrumentation.

(** Modelled from the spec: [Fourier::binCount] is declared in [Fourier.h],
    which is not among the sources; the spec gives a transform of length
    [2^log2TransformLength] its [2^log2TransformLength / 2 + 1] bins. *)
Definition binCount (log2TransformLength : Z) : nat :=
  Z.to_nat (2 ^ log2TransformLength / 2 + 1).

(** [Grain::Grain].  The constructor leaves [request.reset] and
    [request.resampleMode] uninitialised; [specify] overwrites the whole
    request before either is read, and the values below stand for them.  The
    argument of [inputResampled] is the capacity of that buffer; its
    [frameCount] member starts at 0, as [Resample::Internal] declares it.
    [Fourier::resize] is not among the sources; the spec gives the spectrum
    a column for each channel.  [inputCopy] starts as the empty array. *)
Definition Grain_new (log2SynthesisHop channelCount : Z) : Grain :=
  let log2TransformLength := log2SynthesisHop + 3 in
  {| log2TransformLength := log2TransformLength;
     request := mkRequest quiet_NaN quiet_NaN d1 false resampleMode_autoOut;
     requestHop := S754_zero false;
     continuous := false;
     passthrough := 0;
     validBinCount := 0;
     muteFrameCountHead := 0;
     muteFrameCountTail := 0;
     resampleOperations :=
       mkOperations (mkOperation None d1) (mkOperation None d1);
     inputChunk := mkInputChunk 0 0;
     analysis :=
       mkAnalysis (S754_zero false) (S754_zero false) (S754_zero false) 0;
     transformed_cols := channelCount;
     phase := repeat 0 (binCount log2TransformLength);
     energy := repeat f0 (binCount log2TransformLength);
     rotation := repeat 0 (binCount log2TransformLength);
     partials := [];
     inputResampled_frameCount := 0;
     inputCopy := mkArray [] 0 0 0;
     segment := OutputH.Segment_new log2SynthesisHop channelCount |}.

(** [Grain::valid]. *)
Definition valid (g : Grain) : bool := negb (isnan (position (request g))).

(** [Grain::reverse]. *)
Definition reverse (g : Grain) : bool := hop (analysis g) <? 0.

(** [Grain::specify].  The call of [setup] passes the request's resample
    mode, as the declaration of [setup] in [Resample.h] requires.  The
    [Instrumentation::log] call of the body only prints and is left out.
    The result is the grain after the call and the chunk returned. *)
Definition specify (g : Grain) (r : Request) (previous : Grain)
    (sampleRates : SampleRates) (log2SynthesisHop : Z)
    (bufferStartPosition : double) : option (Grain * InputChunk) :=
  let request := r in
  let '(resampleOperations, setup_result) :=
    setup sampleRates (pitch request) (resampleMode request) in
  one_shl_hop <- shl1 log2SynthesisHop ;;
  let unitHop := dmul (of_int one_shl_hop) setup_result in
  let requestHop :=
    dsub (position request) (position (GrainH.request previous)) in
  let requestHop :=
    if isnan requestHop || reset request
    then dmul (speed request) unitHop
    else requestHop in
  let hopIdeal := dmul requestHop (ratio (input resampleOperations)) in
  let continuous :=
    negb (reset request)
    && negb (isnan (position (GrainH.request previous))) in
  ' (positionError, hop) <-
    (if continuous then
       let positionError :=
         dsub (positionError (analysis previous)) hopIdeal in
       hop <- to_int (round (dopp positionError)) ;;
       Some (dadd positionError (of_int hop), hop)
     else
       hop <- to_int (round hopIdeal) ;;
       Some (dsub (round (position request)) (position request), hop)) ;;
  let analysis_speed := ddiv hopIdeal (of_int one_shl_hop) in
  passthrough <-
    (if deqb (dabs analysis_speed) d1 then to_int analysis_speed
     else Some 0) ;;
  let passthrough :=
    if continuous && negb (passthrough =? GrainH.passthrough previous)
    then 0 else passthrough in
  log2TransformLength <- int (log2SynthesisHop + 3) ;;
  frameCount <- shl1 log2TransformLength ;;
  let halfInputFrameCount := Z.quot frameCount 2 in
  halfInputFrameCount <-
    (if negb (deqb (ratio (input resampleOperations)) d1) then
       h <- to_int (round (ddiv (of_int halfInputFrameCount)
                                (ratio (input resampleOperations)))) ;;
       int (h + 1)
     else Some halfInputFrameCount) ;;
  chunk_begin <- int (- halfInputFrameCount) ;;
  let chunk_end := halfInputFrameCount in
  let grain (c : InputChunk) : Grain :=
    {| log2TransformLength := log2TransformLength;
       request := request;
       requestHop := requestHop;
       continuous := continuous;
       passthrough := passthrough;
       validBinCount := validBinCount g;
       muteFrameCountHead := muteFrameCountHead g;
       muteFrameCountTail := muteFrameCountTail g;
       resampleOperations := resampleOperations;
       inputChunk := c;
       analysis := mkAnalysis positionError hopIdeal analysis_speed hop;
       transformed_cols := transformed_cols g;
       phase := phase g;
       energy := energy g;
       rotation := rotation g;
       partials := partials g;
       inputResampled_frameCount := frameCount;
       inputCopy := inputCopy g;
       segment := segment g |} in
  if isnan (position request) then
    Some (grain (mkInputChunk chunk_begin chunk_end), mkInputChunk 0 0)
  else
    offset <- to_int (round (dsub (position request) bufferStartPosition)) ;;
    chunk_begin <- int (chunk_begin + offset) ;;
    chunk_end <- int (chunk_end + offset) ;;
    Some (grain (mkInputChunk chunk_begin chunk_end),
          mkInputChunk chunk_begin chunk_end).

(** The integers [0, 1, ..., n - 1]. *)
Definition upto (n : Z) : list Z := map Z.of_nat (seq 0 (Z.to_nat n)).

(** All the values of a list of reads, when every read is defined. *)
Fixpoint gather (l : list (option float)) : option (list float) :=
  match l with
  | [] => Some []
  | o :: rest => v <- o ;; vs <- gather rest ;; Some (v :: vs)
  end.

(** The coefficients of [a.middleRows(start, n)], column after column.
    The block has to lie inside the array, and its coefficients inside the
    storage. *)
Definition middleRows (a : Array) (start n : Z) : option (list float) :=
  if (start <? 0) || (n <? 0) || (rows a <? start + n) then None
  else
    gather
      (flat_map
         (fun c =>
            map (fun r => load (data a) (start + r + c * colStride a))
                (upto n))
         (upto (cols a))).

(** What [overlapCheck] leaves in [inputCopy], an array of [frameCount]
    rows and as many columns as [input]: zero in the first
    [muteFrameCountHead] rows and the last [muteFrameCountTail] rows, the
    coefficients of [input] in the [activeRows] rows between.  The three
    blocks have to lie inside the array. *)
Definition overlapCheck_copy (input : Array)
    (frameCount muteFrameCountHead muteFrameCountTail activeRows : Z)
    : option Array :=
  if (frameCount <? 0) || (cols input <? 0)
     || (muteFrameCountHead <? 0) || (frameCount <? muteFrameCountHead)
     || (muteFrameCountTail <? 0) || (frameCount <? muteFrameCountTail)
     || (activeRows <? 0)
  then None
  else
    coefficients <-
      gather
        (flat_map
           (fun c =>
              map (fun r =>
                     if (muteFrameCountHead <=? r)
                        && (r <? muteFrameCountHead + activeRows)
                     then load (data input) (r + c * colStride input)
                     else Some f0)
                  (upto frameCount))
           (upto (cols input))) ;;
    Some (mkArray coefficients frameCount (cols input) frameCount).

(** [array.hasNaN()]. *)
Definition hasNaN (coefficients : list float) : bool :=
  existsb isnan coefficients.

(** [(a == b).all()] on two blocks of the same shape. *)
Fixpoint all_equal (a b : list float) : bool :=
  match a, b with
  | x :: a', y :: b' => feqb x y && all_equal a' b'
  | _, _ => true
  end.

(** The message that [overlapCheck] logs for a mismatch. *)
Definition unexpected_input (overlapStart begin overlapFrames : Z)
    : string :=
  ("UNEXPECTED INPUT: the "
   ++ (if (overlapStart =? begin)%Z then "first" else "last")
   ++ " " ++ decimal overlapFrames
   ++ " frames of this grain's input audio chunk are different to the "
   ++ (if (overlapStart =? begin)%Z then "last" else "first")
   ++ " " ++ decimal overlapFrames
   ++ " frames of the previous grain's audio audio input chunk")%string.

(** The grain with another [inputCopy]. *)
Definition with_inputCopy (g : Grain) (copy : Array) : Grain :=
  {| log2TransformLength := log2TransformLength g;
     request := request g;
     requestHop := requestHop g;
     continuous := continuous g;
     passthrough := passthrough g;
     validBinCount := validBinCount g;
     muteFrameCountHead := muteFrameCountHead g;
     muteFrameCountTail := muteFrameCountTail g;
     resampleOperations := resampleOperations g;
     inputChunk := inputChunk g;
     analysis := analysis g;
     transformed_cols := transformed_cols g;
     phase := phase g;
     energy := energy g;
     rotation := rotation g;
     partials := partials g;
     inputResampled_frameCount := inputResampled_frameCount g;
     inputCopy := copy;
     segment := segment g |}.

(** [Grain::overlapCheck], with the body of [Grain.cpp]; its messages go
    through [Instrumentation::log] of the instrumentation that [Grain.h]
    passes.  The result is the lines logged and either the grain with its
    new [inputCopy] or the abort. *)
Definition overlapCheck (g : Grain) (input : Array)
    (muteFrameCountHead muteFrameCountTail : Z) (previous : Grain)
    (instrumentation : Instrumentation)
    : option (list string * Outcome Grain) :=
  frameCount <- int (chunk_end (inputChunk g) - chunk_begin (inputChunk g)) ;;
  activeRows <- int (frameCount - muteFrameCountHead) ;;
  activeRows <- int (activeRows - muteFrameCountTail) ;;
  copy <-
    overlapCheck_copy input frameCount muteFrameCountHead muteFrameCountTail
                      activeRows ;;
  let g' := with_inputCopy g copy in
  if hasNaN (data copy) then
    Some (log instrumentation "Bungee: NaN detected in input audio", Aborts)
  else
    let overlapStart :=
      Z.max (chunk_begin (inputChunk g))
            (chunk_begin (inputChunk previous)) in
    let overlapEnd :=
      Z.min (chunk_end (inputChunk g)) (chunk_end (inputChunk previous)) in
    overlapFrames <- int (overlapEnd - overlapStart) ;;
    if (0 <? overlapFrames) && (0 <? rows (inputCopy previous)) then
      start <- int (overlapStart - chunk_begin (inputChunk g)) ;;
      overlapCurrent <- middleRows copy start overlapFrames ;;
      start <- int (overlapStart - chunk_begin (inputChunk previous)) ;;
      overlapPrevious <- middleRows (inputCopy previous) start overlapFrames ;;
      if negb (cols copy =? cols (inputCopy previous)) then None
      else if negb (all_equal overlapCurrent overlapPrevious) then
        Some (log instrumentation
                  (unexpected_input overlapStart (chunk_begin (inputChunk g))
                                    overlapFrames),
              Returns g')
      else Some ([], Returns g')
    else Some ([], Returns g').

(** [Grain::inputChunkMap]; [data] is [None] for [nullptr], and a null
    pointer addresses no coefficient.  [std::clamp] needs [frameCount] not
    to be negative.  [Assert::level] is 0 in the build modelled, so
    [overlapCheck] runs when instrumentation is enabled.  The result is the
    lines logged and either the abort or the grain, the map returned, and
    the values that the reference parameters [muteFrameCountHead] and
    [muteFrameCountTail] hold when the function returns. *)
Definition inputChunkMap (g : Grain) (data : option (list float))
    (stride : Z) (muteFrameCountHead muteFrameCountTail : Z)
    (previous : Grain) (instrumentation : Instrumentation)
    : option (list string * Outcome (Grain * Array * Z * Z)) :=
  frameCount <- int (chunk_end (inputChunk g) - chunk_begin (inputChunk g)) ;;
  let '(muteFrameCountHead, muteFrameCountTail) :=
    match data with
    | None => (frameCount, 0)
    | Some _ => (muteFrameCountHead, muteFrameCountTail)
    end in
  if frameCount <? 0 then None
  else
    let muteFrameCountHead := clamp muteFrameCountHead 0 frameCount in
    let muteFrameCountTail := clamp muteFrameCountTail 0 frameCount in
    let m :=
      mkArray (match data with Some samples => samples | None => [] end)
              frameCount (transformed_cols g) stride in
    if enabled instrumentation then
      match overlapCheck g m muteFrameCountHead muteFrameCountTail previous
                         instrumentation with
      | Some (lines, Returns g') =>
          Some (lines, Returns (g', m, muteFrameCountHead, muteFrameCountTail))
      | Some (lines, Aborts) => Some (lines, Aborts)
      | None => None
      end
    else Some ([], Returns (g, m, muteFrameCountHead, muteFrameCountTail)).

End GrainImpl.

(** ** src/Grains.cpp *)

Module Grains.

(** [Grains::flushed] over the [vector] of grains. *)
Fixpoint flushed (vector : list Grain) : bool :=
  match vector with
  | [] => true
  | grain :: rest =>
      if negb (isnan (position (request grain))) then false
      else flushed rest
  end.

(** Exchange of the four heavy buffers of two grains. *)
Definition swap_buffers (a b : Grain) : Grain * Grain :=
  ({| log2TransformLength := log2TransformLength a;
      request := request a;
      requestHop := requestHop a;
      continuous := continuous a;
      passthrough := passthrough a;
      validBinCount := validBinCount a;
      muteFrameCountHead := muteFrameCountHead a;
      muteFrameCountTail := muteFrameCountTail a;
      resampleOperations := resampleOperations a;
      inputChunk := inputChunk a;
      analysis := analysis a;
      transformed_cols := transformed_cols a;
      phase := phase b;
      energy := energy b;
      rotation := rotation b;
      partials := partials b;
      inputResampled_frameCount := inputResampled_frameCount a;
      inputCopy := inputCopy a;
      segment := segment a |},
   {| log2TransformLength := log2TransformLength b;
      request := request b;
      requestHop := requestHop b;
      continuous := continuous b;
      passthrough := passthrough b;
      validBinCount := validBinCount b;
      muteFrameCountHead := muteFrameCountHead b;
      muteFrameCountTail := muteFrameCountTail b;
      resampleOperations := resampleOperations b;
      inputChunk := inputChunk b;
      analysis := analysis b;
      transformed_cols := transformed_cols b;
      phase := phase a;
      energy := energy a;
      rotation := rotation a;
      partials := partials a;
      inputResampled_frameCount := inputResampled_frameCount b;
      inputCopy := inputCopy b;
      segment := segment b |}).

(** [Grains::rotate]: the back of the vector moves to the front, then
    grains 0 and 2 exchange their heavy buffers.  A vector with fewer than
    three grains has no grain 2. *)
Definition rotate (vector : list Grain) : option (list Grain) :=
  match rev vector with
  | [] => None
  | back :: others =>
      match back :: rev others with
      | g0 :: g1 :: g2 :: rest =>
          let '(g0', g2') := swap_buffers g0 g2 in
          Some (g0' :: g1 :: g2' :: rest)
      | _ => None
      end
  end.

End Grains.

(** ** src/Stretcher.h, src/Stretcher.cpp *)

Module Stretcher.

Import Resample GrainImpl Instrumentation.

(** The numeric code that the model does not follow, as the values it
    leaves in the members modelled here.  It is not among the sources, but
    for the call of the input resampler in [Grain::resampleInput], whose
    arguments do not fit the function that [Resample.h] declares.
    - [analysis_kernel]: the input resampler run by [Grain::resampleInput],
      [Input::applyAnalysisWindow], the forward transform and the analysis
      of the spectrum.  From [log2SynthesisHop], the ring, the input audio
      [data] with its [stride], the two mute counts as [inputChunkMap]
      leaves them, the two mute counts as [resampleInput] leaves them and
      the valid bin count, it gives the transform length returned by
      [applyAnalysisWindow] and the new [energy], [phase] and [partials] of
      grain 0.
    - [propagation]: the rotation that horizontal phase propagation gives
      to every bin of a grain that is not a passthrough grain.
    - [inverse]: the rotation of the spectrum and the inverse transform
      into [output.inverseTransformed], as the new state of [output].
    - [applySynthesisWindow]: [Output::applySynthesisWindow], as the
      segments it leaves in the grains of the ring, first grain first, and
      the new state of [output].
    - [lapPadding]: [Output::Segment::lapPadding], as its two segments
      afterwards.
    - [segment_resample]: [Output::Segment::resample], as the segment and
      the state of [output] afterwards. *)
Record Kernels : Type := mkKernels {
  analysis_kernel :
    Z -> list Grain -> option (list float) -> Z -> Z -> Z -> Z -> Z -> Z ->
    Z * list float * list Z * list Partial;
  propagation : Z -> Grain -> Grain -> list Z;
  inverse : Grain -> OutputH.Output -> OutputH.Output;
  applySynthesisWindow :
    Z -> list Grain -> OutputH.Output ->
    list OutputH.Segment * OutputH.Output;
  lapPadding :
    OutputH.Segment -> OutputH.Segment -> OutputH.Segment * OutputH.Segment;
  segment_resample :
    OutputH.Segment -> OutputH.Output -> Operation -> Operation ->
    OutputH.Segment * OutputH.Output
}.

(** The members of [Internal::Stretcher] modelled: the [Instrumentation]
    base, the sample rates and hop of the [Timing] base, the ring and the
    member [output].  The scratch members [transforms], [input],
    [previousWindowedInput] and [temporary] are left out. *)
Record Stretcher : Type := mkStretcher {
  instrumentation : Instrumentation;
  sampleRates : SampleRates;
  log2SynthesisHop : Z;
  grains : list Grain;
  stretcher_output : OutputH.Output
}.

(** How a member function of the stretcher ends. *)
Inductive Result (A : Type) : Type :=
  | Done (a : A)   (* it returns *)
  | Abort          (* [std::abort] was called *)
  | Undefined.     (* undefined behaviour *)
Arguments Done {A} a.
Arguments Abort {A}.
Arguments Undefined {A}.

(** [Stretcher::Stretcher].  [log2SynthesisHop] is the member the [Timing]
    base derives from the sample rates and [log2SynthesisHopAdjust];
    [Timing.h] is not among the sources and the derived value is taken as
    the argument. *)
Definition Stretcher_new (sampleRates : SampleRates) (channelCount : Z)
    (log2SynthesisHop : Z) : Stretcher :=
  mkStretcher Instrumentation_new sampleRates log2SynthesisHop
    (map (fun _ : unit => Grain_new log2SynthesisHop channelCount)
         (repeat tt 4))
    (OutputH.Output_new sampleRates log2SynthesisHop channelCount).

(** [Stretcher::specifyGrain]. *)
Definition specifyGrain (s : Stretcher) (request : Request)
    (bufferStartPosition : double) : Result (Stretcher * InputChunk) :=
  match Call (instrumentation s) 0 with
  | (_, Aborts) => Abort
  | (_, Returns call) =>
      match Grains.rotate (grains s) with
      | Some (grain :: previous :: rest) =>
          match specify grain request previous (sampleRates s)
                        (log2SynthesisHop s) bufferStartPosition with
          | Some (grain', chunk) =>
              Done (mkStretcher call (sampleRates s) (log2SynthesisHop s)
                      (grain' :: previous :: rest) (stretcher_output s),
                    chunk)
          | None => Undefined
          end
      | _ => Undefined
      end
  end.

(** [Grain::resampleInput], as far as the two mute counts go. *)
Definition resampleInput_mute (g : Grain)
    (muteFrameCountHead muteFrameCountTail : Z) : Z * Z :=
  match function (input (resampleOperations g)) with
  | Some _ => (0, 0)
  | None => (muteFrameCountHead, muteFrameCountTail)
  end.

(** The grain after an analysis: the two mute counts that
    [Stretcher::analyseGrain] was given, and the members that the analysis
    sets. *)
Definition analysed (grain : Grain)
    (muteFrameCountHead muteFrameCountTail : Z)
    (validBinCount log2TransformLength : Z) (energy : list float)
    (phase : list Z) (partials : list Partial) : Grain :=
  {| log2TransformLength := log2TransformLength;
     request := request grain;
     requestHop := requestHop grain;
     continuous := continuous grain;
     passthrough := passthrough grain;
     validBinCount := validBinCount;
     muteFrameCountHead := muteFrameCountHead;
     muteFrameCountTail := muteFrameCountTail;
     resampleOperations := resampleOperations grain;
     inputChunk := inputChunk grain;
     analysis := analysis grain;
     transformed_cols := transformed_cols grain;
     phase := phase;
     energy := energy;
     rotation := rotation grain;
     partials := partials;
     inputResampled_frameCount := inputResampled_frameCount grain;
     inputCopy := inputCopy grain;
     segment := segment grain |}.

(** [Stretcher::analyseGrain], as far as the members modelled go; [data]
    is [None] for [nullptr].  The two [Instrumentation::log] calls of the
    body only print and are left out, and so are the lines that
    [inputChunkMap] logs.  The call of [inputChunkMap] passes the
    instrumentation of the stretcher, as the declaration in [Grain.h]
    requires. *)
Definition analyseGrain (k : Kernels) (s : Stretcher)
    (data : option (list float)) (stride : Z)
    (muteFrameCountHead muteFrameCountTail : Z) : Result Stretcher :=
  match Call (instrumentation s) 1 with
  | (_, Aborts) => Abort
  | (_, Returns call) =>
      match grains s with
      | grain :: previous :: rest =>
          let grain :=
            analysed grain muteFrameCountHead muteFrameCountTail 0
                     (log2TransformLength grain) (energy grain)
                     (phase grain) (partials grain) in
          if valid grain then
            match inputChunkMap grain data stride muteFrameCountHead
                                muteFrameCountTail previous call with
            | None => Undefined
            | Some (_, Aborts) => Abort
            | Some (_, Returns (grain, m, head, tail)) =>
                let '(head', tail') := resampleInput_mute grain head tail in
                let n :=
                  Z.of_nat (binCount (log2TransformLength grain)) - 1 in
                match to_int (ceil (ddiv (of_int n)
                                 (ratio (output (resampleOperations grain)))))
                with
                | Some c =>
                    match int (Z.min c n + 1) with
                    | Some validBinCount =>
                        let '(log2TransformLength, energy, phase, partials) :=
                          analysis_kernel k (log2SynthesisHop s)
                                          (grain :: previous :: rest)
                                          data stride head tail head' tail'
                                          validBinCount in
                        Done (mkStretcher call (sampleRates s)
                                (log2SynthesisHop s)
                                (analysed grain
                                          (GrainH.muteFrameCountHead grain)
                                          (GrainH.muteFrameCountTail grain)
                                          validBinCount log2TransformLength
                                          energy phase partials
                                 :: previous :: rest)
                                (stretcher_output s))
                    | None => Undefined
                    end
                | None => Undefined
                end
            end
          else
            Done (mkStretcher call (sampleRates s) (log2SynthesisHop s)
                    (grain :: previous :: rest) (stretcher_output s))
      | _ => Undefined
      end
  end.

(** Modelled from the spec: [Synthesis::synthesise] is declared in
    [Synthesis.h], which is not among the sources.  The spec says that a
    passthrough grain skips phase rotation entirely, and that otherwise
    the rotation of each bin comes from horizontal phase propagation.
    The result is the [rotation] member of the grain. *)
Definition synthesise (k : Kernels) (log2SynthesisHop : Z)
    (grain previous : Grain) : list Z :=
  if negb (passthrough grain =? 0) then map (fun _ => 0) (rotation grain)
  else propagation k log2SynthesisHop grain previous.

(** The grain with another [rotation]. *)
Definition with_rotation (grain : Grain) (rotation : list Z) : Grain :=
  {| log2TransformLength := log2TransformLength grain;
     request := request grain;
     requestHop := requestHop grain;
     continuous := continuous grain;
     passthrough := passthrough grain;
     validBinCount := validBinCount grain;
     muteFrameCountHead := muteFrameCountHead grain;
     muteFrameCountTail := muteFrameCountTail grain;
     resampleOperations := resampleOperations grain;
     inputChunk := inputChunk grain;
     analysis := analysis grain;
     transformed_cols := transformed_cols grain;
     phase := phase grain;
     energy := energy grain;
     rotation := rotation;
     partials := partials grain;
     inputResampled_frameCount := inputResampled_frameCount grain;
     inputCopy := inputCopy grain;
     segment := segment grain |}.

(** The grain with another [segment]. *)
Definition with_segment (grain : Grain) (segment : OutputH.Segment)
    : Grain :=
  {| log2TransformLength := log2TransformLength grain;
     request := request grain;
     requestHop := requestHop grain;
     continuous := continuous grain;
     passthrough := passthrough grain;
     validBinCount := validBinCount grain;
     muteFrameCountHead := muteFrameCountHead grain;
     muteFrameCountTail := muteFrameCountTail grain;
     resampleOperations := resampleOperations grain;
     inputChunk := inputChunk grain;
     analysis := analysis grain;
     transformed_cols := transformed_cols grain;
     phase := phase grain;
     energy := energy grain;
     rotation := rotation grain;
     partials := partials grain;
     inputResampled_frameCount := inputResampled_frameCount grain;
     inputCopy := inputCopy grain;
     segment := segment |}.

(** The ring with the segments that [applySynthesisWindow] left, first
    grain first. *)
Fixpoint with_segments (ring : list Grain) (segments : list OutputH.Segment)
    : list Grain :=
  match ring, segments with
  | grain :: ring', segment :: segments' =>
      with_segment grain segment :: with_segments ring' segments'
  | _, _ => ring
  end.

(** [Stretcher::synthesiseGrain], as far as the members modelled go.  A
    valid grain 0 gets its rotation from [Synthesis::synthesise] and is
    transformed back; then, whether grain 0 is valid or not,
    [applySynthesisWindow], [lapPadding] on the segments of grains 3 and 2
    and [resample] on the segment of grain 3 run.  Of the output chunk,
    its [request] members are modelled, by [outputChunk_request] below. *)
Definition synthesiseGrain (k : Kernels) (s : Stretcher) : Result Stretcher :=
  match Call (instrumentation s) 2 with
  | (_, Aborts) => Abort
  | (_, Returns call) =>
      match grains s with
      | grain :: previous :: rest =>
          let '(grain, output) :=
            if valid grain then
              let grain :=
                with_rotation grain
                  (synthesise k (log2SynthesisHop s) grain previous) in
              (grain, inverse k grain (stretcher_output s))
            else (grain, stretcher_output s) in
          let '(segments, output) :=
            applySynthesisWindow k (log2SynthesisHop s)
                                 (grain :: previous :: rest) output in
          match with_segments (grain :: previous :: rest) segments with
          | g0 :: g1 :: g2 :: g3 :: rest =>
              let '(segment3, segment2) :=
                lapPadding k (segment g3) (segment g2) in
              let '(segment3, output) :=
                segment_resample k segment3 output
                                 (Resample.output (resampleOperations g2))
                                 (Resample.output (resampleOperations g1)) in
              Done (mkStretcher call (sampleRates s) (log2SynthesisHop s)
                      (g0 :: g1 :: with_segment g2 segment2
                       :: with_segment g3 segment3 :: rest)
                      output)
          | _ => Undefined
          end
      | _ => Undefined
      end
  end.

(** [isFlushed], as the function table of [Stretcher.h] defines it. *)
Definition isFlushed (s : Stretcher) : bool := Grains.flushed (grains s).

(** The requests that [synthesiseGrain] leaves [outputChunk.request[begin]]
    and [outputChunk.request[end]] pointing at, those of grains 2 and 1, as
    they stand when the call has returned in state [s]. *)
Definition outputChunk_request (s : Stretcher) : option (Request * Request) :=
  match grains s with
  | _ :: g1 :: g2 :: _ => Some (request g2, request g1)
  | _ => None
  end.

End Stretcher.

(** ** bungee/Stream.h *)

Module Stream.

Import Instrumentation.

(** The members of [Stream::InputBuffer], the reference to the stretcher
    apart.  The buffer holds [channelCount] blocks of [channelStride]
    samples; [buffer_begin] and [buffer_end] are the members [begin] and
    [end]. *)
Record InputBuffer : Type := mkInputBuffer {
  channelStride : Z;
  channelCount : Z;
  buffer : list float;
  buffer_begin : Z;
  buffer_end : Z;
  inputChunk : InputChunk
}.

(** [InputBuffer::InputBuffer]: a zero-filled vector of
    [channelStride * channelCount] samples and no frame held.  [None] also
    stands for the exception that a negative size throws. *)
Definition InputBuffer_new (maxFrameCount channelCount : Z)
    : option InputBuffer :=
  size <- int (maxFrameCount * channelCount) ;;
  if size <? 0 then None
  else Some (mkInputBuffer maxFrameCount channelCount
                           (repeat f0 (Z.to_nat size)) 0 0
                           (mkInputChunk 0 0)).

(** [&buffer[i]]: the index, which has to be that of an element. *)
Definition element (buffer : list float) (i : Z) : option Z :=
  if (0 <=? i) && (i <? Z.of_nat (List.length buffer)) then Some i else None.

(** The assignments of [std::move(first, first + n, d_first)] inside the
    buffer, one element after the other from the front. *)
Fixpoint move_elements (buffer : list float) (first d_first : Z) (n : nat)
    : option (list float) :=
  match n with
  | O => Some buffer
  | S n' =>
      v <- Resample.load buffer first ;;
      buffer' <- Resample.store buffer d_first v ;;
      move_elements buffer' (first + 1) (d_first + 1) n'
  end.

(** [std::move(first, last, d_first)]; the range must not be reversed. *)
Definition std_move (buffer : list float) (first last d_first : Z)
    : option (list float) :=
  if last <? first then None
  else move_elements buffer first d_first (Z.to_nat (last - first)).

(** The assignments of [std::copy(first, first + n, d_first)] from the
    array [source] into the buffer. *)
Fixpoint copy_elements (source : list float) (first : Z)
    (buffer : list float) (d_first : Z) (n : nat) : option (list float) :=
  match n with
  | O => Some buffer
  | S n' =>
      v <- Resample.load source first ;;
      buffer' <- Resample.store buffer d_first v ;;
      copy_elements source (first + 1) buffer' (d_first + 1) n'
  end.

Definition std_copy (source : list float) (first last : Z)
    (buffer : list float) (d_first : Z) : option (list float) :=
  if last <? first then None
  else copy_elements source first buffer d_first (Z.to_nat (last - first)).

(** The assignments of [std::fill(first, first + n, value)]. *)
Fixpoint fill_elements (buffer : list float) (first : Z) (n : nat)
    (value : float) : option (list float) :=
  match n with
  | O => Some buffer
  | S n' =>
      buffer' <- Resample.store buffer first value ;;
      fill_elements buffer' (first + 1) n' value
  end.

Definition std_fill (buffer : list float) (first last : Z) (value : float)
    : option (list float) :=
  if last <? first then None
  else fill_elements buffer first (Z.to_nat (last - first)) value.

(** The loop of [append] that moves what is kept of every channel to the
    front of its block, from [x] on.  [fuel] bounds the number of
    iterations; the loop does not end when it runs out. *)
Fixpoint compact (fuel : nat) (b : InputBuffer) (x : Z)
    (buffer : list float) : option (list float) :=
  if x <? Z.of_nat (List.length buffer) then
    match fuel with
    | O => None
    | S fuel' =>
        i <- int (x + chunk_begin (inputChunk b)) ;;
        i <- int (i - buffer_begin b) ;;
        first <- element buffer i ;;
        j <- int (x + buffer_end b) ;;
        j <- int (j - buffer_begin b) ;;
        last <- element buffer j ;;
        d_first <- element buffer x ;;
        buffer' <- std_move buffer first last d_first ;;
        x' <- int (x + channelStride b) ;;
        compact fuel' b x' buffer'
    end
  else Some buffer.

(** The loop of [append] over the channels, from channel [c] on, [n]
    channels; [begin] is the member [begin] as the loop finds it.
    [inputPointers] is [None] for [nullptr], else the arrays
    [inputPointers[c]]. *)
Fixpoint append_channels (n : nat) (c : Z) (b : InputBuffer) (begin : Z)
    (discard inputFrameCount : Z) (inputPointers : option (list (list float)))
    (buffer : list float) : option (list float) :=
  match n with
  | O => Some buffer
  | S n' =>
      held <- int (buffer_end b - begin) ;;
      block <- int (c * channelStride b) ;;
      i <- int (held + block) ;;
      buffer' <-
        match inputPointers with
        | Some pointers =>
            source <- nth_error pointers (Z.to_nat c) ;;
            d_first <- element buffer i ;;
            std_copy source discard inputFrameCount buffer d_first
        | None =>
            first <- element buffer i ;;
            count <- int (inputFrameCount - discard) ;;
            j <- int (i + count) ;;
            last <- element buffer j ;;
            std_fill buffer first last f0
        end ;;
      append_channels n' (c + 1) b begin discard inputFrameCount
                      inputPointers buffer'
  end.

(** [InputBuffer::append].  [NDEBUG] says whether [assert] is compiled
    out; a failed [assert] aborts. *)
Definition append (NDEBUG : bool) (b : InputBuffer) (inputFrameCount : Z)
    (inputPointers : option (list (list float)))
    : option (Outcome InputBuffer) :=
  ' (buffer, begin, discard) <-
    (if chunk_begin (inputChunk b) <? buffer_end b then
       if buffer_begin b <? chunk_begin (inputChunk b) then
         buffer <- compact (S (List.length (buffer b))) b 0 (buffer b) ;;
         Some (buffer, chunk_begin (inputChunk b), 0)
       else Some (buffer b, buffer_begin b, 0)
     else
       ahead <- int (chunk_begin (inputChunk b) - buffer_begin b) ;;
       Some (buffer b, buffer_end b, Z.min ahead inputFrameCount)) ;;
  buffer <-
    append_channels (Z.to_nat (channelCount b)) 0 b begin discard
                    inputFrameCount inputPointers buffer ;;
  begin <- int (begin + discard) ;;
  end_ <- int (buffer_end b + inputFrameCount) ;;
  let b' :=
    mkInputBuffer (channelStride b) (channelCount b) buffer begin end_
                  (inputChunk b) in
  if NDEBUG then Some (Returns b')
  else if negb (begin <=? end_) then Some Aborts
  else
    held <- int (end_ - begin) ;;
    if negb (held <=? channelStride b) then Some Aborts
    else Some (Returns b').

(** [InputBuffer::analyseGrain]: the arguments of its call of
    [Stretcher::analyseGrain], which are the index in [buffer] that the data
    pointer [buffer.data() - muteHead] addresses, the channel stride and the
    two mute counts.  [NDEBUG] says whether [assert] is compiled out; a
    failed [assert] aborts. *)
Definition analyseGrain (NDEBUG : bool) (b : InputBuffer)
    : option (Outcome (Z * Z * Z * Z)) :=
  muteHead <- int (buffer_begin b - chunk_begin (inputChunk b)) ;;
  muteTail <- int (chunk_end (inputChunk b) - buffer_end b) ;;
  let call := Returns (- muteHead, channelStride b, muteHead, muteTail) in
  if NDEBUG then Some call
  else
    frameCount <-
      int (chunk_end (inputChunk b) - chunk_begin (inputChunk b)) ;;
    if (frameCount <=? muteHead) || (muteTail <=? 0) then Some call
    else Some Aborts.

End Stream.

(** ** cmd/main.cpp *)

Module Main.

(** The two mute counts that the granular loop of [main] passes to
    [analyseGrain] for the chunk [specifyGrain] returned;
    [inputFrameCount] is [processor.inputFrameCount]. *)
Definition muteFrameCounts (inputChunk : InputChunk) (inputFrameCount : Z)
    : option (Z * Z) :=
  negated <- int (- chunk_begin inputChunk) ;;
  excess <- int (chunk_end inputChunk - inputFrameCount) ;;
  Some (Z.max 0 negated, Z.max 0 excess).

End Main.

(** ** Notions used to state the properties *)

Module Notions.

Import Resample GrainImpl Stretcher Instrumentation.

(** The ratio [r = pitch * sampleRates.input / sampleRates.output] of
    [Operations::setup]. *)
Definition resampleRatio (sampleRates : SampleRates) (pitch : double)
    : double :=
  ddiv (dmul pitch (of_int (rate_input sampleRates)))
       (of_int (rate_output sampleRates)).

(** The calls [e, e+1, e+2, e, ...] of the call cycle, [n] of them. *)
Fixpoint cycle (n : nat) (e : Z) : list Z :=
  match n with
  | O => []
  | S n' => e :: cycle n' ((e + 1) mod 3)
  end.

(** What the caller passes for one grain. *)
Record GrainInput : Type := mkGrainInput {
  gi_request : Request;
  gi_bufferStartPosition : double;
  gi_data : option (list float);
  gi_stride : Z;
  gi_muteHead : Z;
  gi_muteTail : Z
}.

(** One grain: [specifyGrain], [analyseGrain], [synthesiseGrain]. *)
Definition grain_cycle (k : Kernels) (s : Stretcher) (gi : GrainInput)
    : Result Stretcher :=
  match specifyGrain s (gi_request gi) (gi_bufferStartPosition gi) with
  | Done (s1, _) =>
      match analyseGrain k s1 (gi_data gi) (gi_stride gi) (gi_muteHead gi)
                         (gi_muteTail gi) with
      | Done s2 => synthesiseGrain k s2
      | Abort => Abort
      | Undefined => Undefined
      end
  | Abort => Abort
  | Undefined => Undefined
  end.

(** A run of grains. *)
Fixpoint process (k : Kernels) (s : Stretcher) (l : list GrainInput)
    : Result Stretcher :=
  match l with
  | [] => Done s
  | gi :: rest =>
      match grain_cycle k s gi with
      | Done s' => process k s' rest
      | Abort => Abort
      | Undefined => Undefined
      end
  end.

(** A grain is invalid when its request position is NaN. *)
Definition invalid (g : Grain) : Prop :=
  isnan (position (request g)) = true.

Definition invalid_input (gi : GrainInput) : Prop :=
  isnan (position (gi_request gi)) = true.

(** Kernels that produce an empty analysis and leave the objects of the
    output pipeline as they find them, for concrete runs. *)
Definition null_kernels : Kernels :=
  mkKernels (fun _ ring _ _ _ _ _ _ _ =>
               (match ring with
                | grain :: _ => log2TransformLength grain
                | [] => 0
                end, [], [], []))
            (fun _ _ _ => [])
            (fun _ output => output)
            (fun _ ring output => (map segment ring, output))
            (fun trailing current => (trailing, current))
            (fun segment output _ _ => (segment, output)).


(** The stretcher [s] after [enableInstrumentation(enable)]. *)
Definition with_instrumentation (s : Stretcher) (enable : bool) : Stretcher :=
  mkStretcher (enableInstrumentation (instrumentation s) enable)
              (sampleRates s) (log2SynthesisHop s) (grains s)
              (stretcher_output s).



(** The members of a grain that [Stretcher::analyseGrain] does not write,
    the input copy apart. *)
Definition kept_by_analysis (g : Grain) :=
  (request g, requestHop g, continuous g, passthrough g,
   resampleOperations g, GrainH.inputChunk g, analysis g,
   transformed_cols g, rotation g, inputResampled_frameCount g, segment g).


(** A grain without what its segment holds, to compare grains apart from
    their segments. *)
Definition but_segment (g : Grain) : Grain :=
  with_segment g (OutputH.Segment_of []).

(** A request at [position] with unit speed and pitch. *)
Definition unit_request (position : double) : Request :=
  mkRequest position d1 d1 false resampleMode_autoOut.

(** A grain input without audio. *)
Definition silent_input (position : double) : GrainInput :=
  mkGrainInput (unit_request position) (S754_zero false) None 0 0 0.

(** [|x| <= 1/2] on binary64. *)
Definition within_half (x : double) : Prop := dleb (dabs x) dhalf = true.

(** The input chunk as the specification words it: empty for a NaN
    position, else centred on [round(position - bufferStartPosition)] with
    half-width [transformLength / 2], scaled by [1 / inputRatio] when the
    input resampler is active. *)
Definition spec_inputChunk (r : Request) (ops : Operations)
    (log2SynthesisHop : Z) (bufferStartPosition : double)
    : option InputChunk :=
  if isnan (position r) then Some (mkInputChunk 0 0)
  else
    let half0 := 2 ^ (log2SynthesisHop + 3) / 2 in
    half <-
      match function (input ops) with
      | Some _ => to_int (round (ddiv (of_int half0) (ratio (input ops))))
      | None => Some half0
      end ;;
    centre <- to_int (round (dsub (position r) bufferStartPosition)) ;;
    Some (mkInputChunk (centre - half) (centre + half)).

(** The passthrough flag as the specification words it: armed when
    [|analysis.speed| == 1] and the previous grain was passthrough. *)
Definition spec_passthrough_armed (analysis_speed : double)
    (previous : Grain) : bool :=
  deqb (dabs analysis_speed) d1 && negb (passthrough previous =? 0).

(** Zero and finite values. *)
Definition is_finite (x : spec_float) : bool :=
  match x with
  | S754_zero _ | S754_finite _ _ _ => true
  | _ => false
  end.

Definition is_zero (x : spec_float) : bool :=
  match x with
  | S754_zero _ => true
  | _ => false
  end.

(** Equality up to the sign of zero. *)
Definition same_value (x y : spec_float) : Prop :=
  x = y \/ (is_zero x = true /\ is_zero y = true).

(** The test the row loop of [Loop::run] makes before it interpolates a
    row. *)
Definition unmuted (external : External) (row : Z) : bool :=
  (to_size_t (unmutedBegin external) <=? row)
  && (row <? to_size_t (unmutedEnd external)).

(** Two input-mode computations agree when they return the same internal
    storage, each with its own external storage untouched, or are both
    undefined. *)
Definition agree (e1 e2 : list float)
    (o1 o2 : option (list float * list float)) : Prop :=
  match o1, o2 with
  | Some (i1, e1'), Some (i2, e2') => i1 = i2 /\ e1' = e1 /\ e2' = e2
  | None, None => True
  | _, _ => False
  end.

Definition agree_rows (e1 e2 : list float)
    (o1 o2 : option (RatioState * (list float * list float))) : Prop :=
  match o1, o2 with
  | Some (rs1, (i1, e1')), Some (rs2, (i2, e2')) =>
      rs1 = rs2 /\ i1 = i2 /\ e1' = e1 /\ e2' = e2
  | None, None => True
  | _, _ => False
  end.

(** The external buffer [e] over other storage. *)
Definition with_data (e : External) (d : list float) : External :=
  mkExternal (mkArray d (rows (ref e)) (cols (ref e)) (colStride (ref e)))
             (unmutedBegin e) (unmutedEnd e) (activeFrameCount e).

(** What a run of the loop leaves outside the external buffer. *)
Definition internal_result (o : option (RatioState * Internal * Array))
    : option (RatioState * Internal) :=
  match o with
  | Some (rs, i, _) => Some (rs, i)
  | None => None
  end.

(** A two-channel internal buffer of six rows holding 1/2 everywhere, and
    a two-channel external buffer of four rows holding 1 everywhere, of
    which rows 1 and 2 are unmuted. *)
Definition example_internal : Internal :=
  mkInternal (mkArray (repeat fhalf 12) 6 2 6) 4 (S754_zero false).

Definition example_external : External :=
  mkExternal (mkArray (repeat f1 8) 4 2 4) 1 3 4.

Definition example_ratioState : RatioState :=
  RatioState_new true d1 dhalf (S754_zero false).

(** A value of the model that is a binary64 number: zero, an infinity,
    NaN, or a finite float in canonical form. *)
Definition binary64 (x : double) : Prop :=
  valid_binary dprec demax x = true.

(** A request whose three floating-point members are binary64 numbers. *)
Definition binary64_request (r : Request) : Prop :=
  binary64 (position r) /\ binary64 (speed r) /\ binary64 (pitch r).

(** The float of an integer [n] in [1, 2^52], with sign [s]. *)
Definition float_of (s : bool) (n : Z) : double :=
  S754_finite s (Z.to_pos (n * 2 ^ (53 - Zdigits2 n))) (Zdigits2 n - 53).

(** The request and the analysis record of a grain. *)
Definition core (g : Grain) : Request * Analysis := (request g, analysis g).

(** What the bound on the position error needs of a grain: its request
    position and its position error are binary64 numbers, and the error of
    a valid grain is within one half. *)
Definition bounded_error (q : Request * Analysis) : Prop :=
  binary64 (position (fst q))
  /\ binary64 (positionError (snd q))
  /\ (isnan (position (fst q)) = false ->
      within_half (positionError (snd q))).

(** [x] is NaN or has the sign bit [s]. *)
Definition sign_is (s : bool) (x : spec_float) : Prop :=
  match x with
  | S754_nan => True
  | S754_zero s' | S754_infinity s' | S754_finite s' _ _ => s' = s
  end.

(** The members of a grain that [Grains::rotate] moves with the grain, and
    the four buffers it exchanges. *)
Definition descriptor (g : Grain) :=
  (log2TransformLength g, GrainH.request g, requestHop g, continuous g,
   passthrough g, validBinCount g, muteFrameCountHead g,
   muteFrameCountTail g, resampleOperations g, GrainH.inputChunk g,
   analysis g, transformed_cols g, inputResampled_frameCount g,
   inputCopy g, segment g).

Definition buffers (g : Grain) :=
  (phase g, energy g, rotation g, partials g).

(** The sample of channel [c] at index [i] of what [Stream::process] was
    given: zero for [nullptr]. *)
Definition input_sample (inputPointers : option (list (list float)))
    (c i : Z) : float :=
  match inputPointers with
  | Some pointers => nth (Z.to_nat i) (nth (Z.to_nat c) pointers []) f0
  | None => f0
  end.

(** The input buffer [b] holds the frames [begin, end) of [stream], which
    gives the sample of each channel and frame, and is not full. *)
Definition holds (b : Stream.InputBuffer) (stream : Z -> Z -> float) : Prop :=
  1 <= Stream.channelStride b
  /\ 0 <= Stream.channelCount b
  /\ Z.of_nat (List.length (Stream.buffer b))
     = Stream.channelStride b * Stream.channelCount b
  /\ 0 <= Stream.buffer_begin b <= Stream.buffer_end b
  /\ Stream.buffer_end b - Stream.buffer_begin b < Stream.channelStride b
  /\ forall c f : Z,
       0 <= c < Stream.channelCount b ->
       Stream.buffer_begin b <= f < Stream.buffer_end b ->
       load (Stream.buffer b)
            (f - Stream.buffer_begin b + c * Stream.channelStride b)
       = Some (stream c f).

(** The stream after [inputFrameCount] frames were appended at the end of
    what [b] holds. *)
Definition appended (b : Stream.InputBuffer)
    (inputPointers : option (list (list float))) (stream : Z -> Z -> float)
    : Z -> Z -> float :=
  fun c f =>
    if f <? Stream.buffer_end b then stream c f
    else input_sample inputPointers c (f - Stream.buffer_end b).

(** The assignment [inputBuffer.inputChunk = ...] of [Stream::process]. *)
Definition with_chunk (b : Stream.InputBuffer) (chunk : InputChunk)
    : Stream.InputBuffer :=
  Stream.mkInputBuffer (Stream.channelStride b) (Stream.channelCount b)
                       (Stream.buffer b) (Stream.buffer_begin b)
                       (Stream.buffer_end b) chunk.

(** The first frame [InputBuffer::append] keeps. *)
Definition kept_from (b : Stream.InputBuffer) (inputFrameCount : Z) : Z :=
  if chunk_begin (Stream.inputChunk b) <? Stream.buffer_end b
  then Z.max (Stream.buffer_begin b) (chunk_begin (Stream.inputChunk b))
  else Stream.buffer_end b
       + Z.min (chunk_begin (Stream.inputChunk b) - Stream.buffer_begin b)
               inputFrameCount.

(** Two external storages of the same size that hold the same samples at
    the positions [W]. *)
Definition agree_on (W : Z -> Prop) (e1 e2 : list float) : Prop :=
  List.length e1 = List.length e2
  /\ forall j : Z, W j -> load e1 j = load e2 j.

(** The sample that an output-mode step at position [x] gives channel [c]
    of its row: the internal sample nearest to [x] times 1, or the two
    internal samples around [x] weighted by the fraction of [x]. *)
Definition interpolated (interpolation : Interpolation) (internal : Array)
    (x : float) (c : Z) : option float :=
  match interpolation with
  | Nearest =>
      integer <- to_intptr (fadd x fhalf) ;;
      v <- load (data internal) (integer + c * colStride internal) ;;
      Some (fmul v f1)
  | Bilinear =>
      integer <- to_intptr x ;;
      let fraction := fsub x (float_of_int integer) in
      v1 <- load (data internal) (integer + 1 + c * colStride internal) ;;
      v0 <- load (data internal) (integer + 0 + c * colStride internal) ;;
      Some (fadd (fmul v1 fraction) (fmul v0 (fsub f1 fraction)))
  end.

(** Two pairs of buffers of the same sizes. *)
Definition same_sizes (mem mem' : list float * list float) : Prop :=
  List.length (fst mem') = List.length (fst mem)
  /\ List.length (snd mem') = List.length (snd mem).

End Notions.

(** * Properties *)

Import Resample GrainImpl Stretcher Instrumentation Notions.

(** ** Comparisons of binary64 values *)

Lemma SFcompare_antisym (x y : spec_float) :
  SFcompare y x = option_map CompOpp (SFcompare x y).
Proof.
  destruct x as [sx | sx | | sx mx ex], y as [sy | sy | | sy my ey];
    simpl; try reflexivity;
    try (destruct sx; reflexivity); try (destruct sy; reflexivity);
    try (destruct sx, sy; reflexivity).
  destruct sx, sy; simpl; try reflexivity;
    rewrite (Z.compare_antisym ex ey);
    destruct (ex ?= ey); simpl; try reflexivity;
    change (Pos.compare_cont Eq my mx) with (Pos.compare my mx);
    change (Pos.compare_cont Eq mx my) with (Pos.compare mx my);
    rewrite (Pos.compare_antisym mx my);
    destruct (Pos.compare mx my); reflexivity.
Qed.

Lemma deqb_not_dgtb (x y : double) : deqb x y = true -> dgtb x y = false.
Proof.
  unfold deqb, dgtb, SFeqb, SFltb. rewrite (SFcompare_antisym x y).
  destruct (SFcompare x y) as [[ | | ] | ]; simpl; congruence.
Qed.

Lemma deqb_not_dltb (x y : double) : deqb x y = true -> dltb x y = false.
Proof.
  unfold deqb, dltb, SFeqb, SFltb.
  destruct (SFcompare x y) as [[ | | ] | ]; simpl; congruence.
Qed.

Lemma dgtb_not_deqb (x y : double) : dgtb x y = true -> deqb x y = false.
Proof.
  intros H. destruct (deqb x y) eqn:E; [| reflexivity].
  apply deqb_not_dgtb in E. congruence.
Qed.

Lemma dltb_not_deqb (x y : double) : dltb x y = true -> deqb x y = false.
Proof.
  intros H. destruct (deqb x y) eqn:E; [| reflexivity].
  apply deqb_not_dltb in E. congruence.
Qed.

Lemma dltb_not_dgtb (x y : double) : dltb x y = true -> dgtb x y = false.
Proof.
  unfold dgtb, dltb, SFltb. rewrite (SFcompare_antisym x y).
  destruct (SFcompare x y) as [[ | | ] | ]; simpl; congruence.
Qed.

(** ** Selection of the resamplers *)

Section Setup.

Variables (sampleRates : SampleRates) (pitch : double).

Let r : double := resampleRatio sampleRates pitch.

Let ops (m : ResampleMode) : Operations := fst (setup sampleRates pitch m).

Lemma setup_forceIn :
  ops resampleMode_forceIn =
  mkOperations (mkOperation (Some (Bilinear, Input)) (ddiv d1 r))
               (mkOperation None d1).
Proof. reflexivity. Qed.

Lemma setup_forceOut :
  ops resampleMode_forceOut =
  mkOperations (mkOperation None d1)
               (mkOperation (Some (Bilinear, Output)) r).
Proof. reflexivity. Qed.

Lemma setup_unity (m : ResampleMode) :
  m <> resampleMode_forceIn -> m <> resampleMode_forceOut ->
  deqb r d1 = true ->
  ops m = mkOperations (mkOperation None d1) (mkOperation None d1).
Proof.
  intros Hin Hout H. unfold ops, setup. fold (resampleRatio sampleRates pitch). fold r.
  destruct m; simpl; try congruence; rewrite H; reflexivity.
Qed.

Lemma setup_autoInOut_above :
  dgtb r d1 = true ->
  ops resampleMode_autoInOut =
  mkOperations (mkOperation (Some (Bilinear, Input)) (ddiv d1 r))
               (mkOperation None d1).
Proof.
  intros H. unfold ops, setup. fold (resampleRatio sampleRates pitch). fold r. simpl.
  rewrite (dgtb_not_deqb _ _ H), H. reflexivity.
Qed.

Lemma setup_autoInOut_below :
  dltb r d1 = true ->
  ops resampleMode_autoInOut =
  mkOperations (mkOperation None d1)
               (mkOperation (Some (Bilinear, Output)) r).
Proof.
  intros H. unfold ops, setup. fold (resampleRatio sampleRates pitch). fold r. simpl.
  rewrite (dltb_not_deqb _ _ H), (dltb_not_dgtb _ _ H), H. reflexivity.
Qed.

End Setup.

(** C2 (as amended): for every sample-rate pair, every pitch and every
    resample mode, with [r = pitch * sampleRates.input / sampleRates.output],
    [setup] leaves: under [forceIn] the input resampler alone, with ratio
    [1/r], and the output a pass-through of ratio 1; under [forceOut] the
    output resampler alone, with ratio [r]; under [autoInOut] the input side
    when [r > 1] and the output side when [r < 1]; and, when [r == 1] and the
    mode is not a forced one, no resampler at all.  The forced modes keep
    their resampler also when [r == 1]. *)
Theorem setup_selects_resamplers
    (sampleRates : SampleRates) (pitch : double) (mode : ResampleMode) :
  let r := resampleRatio sampleRates pitch in
  let ops := fst (setup sampleRates pitch mode) in
  let input_only :=
    mkOperations (mkOperation (Some (Bilinear, Input)) (ddiv d1 r))
                 (mkOperation None d1) in
  let output_only :=
    mkOperations (mkOperation None d1)
                 (mkOperation (Some (Bilinear, Output)) r) in
  let neither := mkOperations (mkOperation None d1) (mkOperation None d1) in
  (mode = resampleMode_forceIn -> ops = input_only)
  /\ (mode = resampleMode_forceOut -> ops = output_only)
  /\ (mode = resampleMode_autoInOut -> dgtb r d1 = true -> ops = input_only)
  /\ (mode = resampleMode_autoInOut -> dltb r d1 = true -> ops = output_only)
  /\ (mode <> resampleMode_forceIn -> mode <> resampleMode_forceOut ->
      deqb r d1 = true -> ops = neither).
Proof.
  cbv zeta. repeat split.
  - intros ->. apply setup_forceIn.
  - intros ->. apply setup_forceOut.
  - intros ->. apply setup_autoInOut_above.
  - intros ->. apply setup_autoInOut_below.
  - intros. now apply setup_unity.
Qed.

(** C2, instance: 48 kHz to 48 kHz at pitch 2 under [autoInOut] has
    [r = 2 > 1] and resamples on the input side with ratio 1/2. *)
Lemma setup_selects_resamplers_witness :
  fst (setup (mkSampleRates 48000 48000) (of_int 2) resampleMode_autoInOut) =
  mkOperations (mkOperation (Some (Bilinear, Input)) dhalf)
               (mkOperation None d1).
Proof.
  exact (proj1 (proj2 (proj2
           (setup_selects_resamplers (mkSampleRates 48000 48000) (of_int 2)
              resampleMode_autoInOut))) eq_refl eq_refl).
Defined.

(** C2, as stated, fails: at 48 kHz to 48 kHz and pitch 1 the ratio [r] is
    exactly 1, yet [forceIn] keeps the input resampler and [forceOut] keeps
    the output resampler. *)
Lemma setup_unity_forced_counterexample :
  let rates := mkSampleRates 48000 48000 in
  deqb (resampleRatio rates d1) d1 = true
  /\ function (input (fst (setup rates d1 resampleMode_forceIn)))
     = Some (Bilinear, Input)
  /\ function (output (fst (setup rates d1 resampleMode_forceOut)))
     = Some (Bilinear, Output).
Proof. vm_compute. repeat split. Qed.

(** ** The call-order guard *)

Lemma Call_in_order (i : Instrumentation) :
  Call i (expected i) =
  ([], Returns (mkInstrumentation (enabled i) (Z.rem (expected i + 1) 3)
                                  (firstGrain i))).
Proof. unfold Call. rewrite Z.eqb_refl. reflexivity. Qed.

Lemma Call_out_of_order (i : Instrumentation) (sequence : Z) :
  sequence <> expected i ->
  Call i sequence = (log i (fatal sequence (expected i)), Aborts).
Proof.
  intros H. unfold Call. apply Z.eqb_neq in H. rewrite H. reflexivity.
Qed.

Lemma calls_abort_iff (l : list Z) :
  forall i : Instrumentation,
    0 <= expected i < 3 ->
    (snd (calls i l) = Aborts <-> l <> cycle (List.length l) (expected i)).
Proof.
  induction l as [| s rest IH]; intros i He; simpl.
  - split; [discriminate | congruence].
  - destruct (Z.eq_dec s (expected i)) as [-> | Hne].
    + rewrite Call_in_order.
      set (i' := mkInstrumentation _ _ _).
      assert (He' : 0 <= expected i' < 3).
      { simpl. rewrite Z.rem_mod_nonneg by lia.
        apply Z.mod_pos_bound. lia. }
      specialize (IH i' He').
      destruct (calls i' rest) as [lines o] eqn:E. simpl in *.
      rewrite Z.rem_mod_nonneg in IH by lia.
      rewrite IH. split; intros H; congruence.
    + rewrite (Call_out_of_order _ _ Hne). simpl.
      split; [congruence | reflexivity].
Qed.

(** C4 (as amended): on one instance the guarded calls must follow the cycle
    specifyGrain (0), analyseGrain (1), synthesiseGrain (2), specifyGrain ...
    from the call the instance expects: a sequence of calls ends in an abort
    exactly when it leaves that cycle.  A call out of order always aborts, and
    writes the fatal message to the log only when instrumentation is enabled;
    a call in order logs nothing, never aborts and makes the next call of the
    cycle the expected one. *)
Theorem call_order_guard (i : Instrumentation) (l : list Z) :
  0 <= expected i < 3 ->
  (snd (calls i l) = Aborts <-> l <> cycle (List.length l) (expected i))
  /\ (forall sequence : Z,
        sequence <> expected i ->
        Call i sequence =
        (if enabled i
         then [("Bungee: " ++ fatal sequence (expected i))%string]
         else [],
         Aborts))
  /\ Call i (expected i) =
     ([], Returns (mkInstrumentation (enabled i) ((expected i + 1) mod 3)
                                     (firstGrain i))).
Proof.
  intros He. split; [| split].
  - now apply calls_abort_iff.
  - intros sequence Hne. now rewrite (Call_out_of_order _ _ Hne).
  - rewrite Call_in_order, Z.rem_mod_nonneg by lia. reflexivity.
Qed.

(** C4, instance: on a fresh instance with instrumentation enabled, two full
    cycles run through, and [analyseGrain] called first aborts with the fatal
    line in the log. *)
Lemma call_order_guard_witness :
  let i := enableInstrumentation Instrumentation_new true in
  snd (calls i [0; 1; 2; 0; 1; 2]) <> Aborts
  /\ Call i 1 =
     (["Bungee: FATAL: stretcher functions called in the wrong order: analyseGrain was called when expecting a call to specifyGrain"%string],
      Aborts).
Proof.
  pose (i := enableInstrumentation Instrumentation_new true).
  assert (He : 0 <= expected i < 3) by (simpl; lia).
  destruct (call_order_guard i [0; 1; 2; 0; 1; 2] He) as [Hseq [Hout _]].
  split.
  - intros Habort. apply Hseq in Habort. apply Habort. reflexivity.
  - apply (Hout 1). simpl. lia.
Defined.

(** C4, as stated, fails: a freshly constructed instance has instrumentation
    disabled, and [analyseGrain] called when [specifyGrain] is expected
    aborts without any line being logged. *)
Lemma call_order_silent_abort_counterexample :
  1 <> expected Instrumentation_new
  /\ Call Instrumentation_new 1 = ([], Aborts).
Proof. split; [simpl; lia | reflexivity]. Qed.

(** The three member functions of the stretcher abort exactly when the guard
    does. *)
Lemma specifyGrain_guard (s : Stretcher) (r : Request) (b : double) :
  specifyGrain s r b = Abort <-> expected (instrumentation s) <> 0.
Proof.
  unfold specifyGrain, Call.
  destruct (0 =? expected (instrumentation s)) eqn:E; simpl.
  - apply Z.eqb_eq in E.
    split; [| lia].
    destruct (Grains.rotate (grains s)) as [[| g [| p rest]] |];
      try discriminate.
    destruct (specify _ _ _ _ _ _) as [[g' c] |]; discriminate.
  - apply Z.eqb_neq in E. split; [lia | reflexivity].
Qed.

Lemma analyseGrain_guard (k : Kernels) (s : Stretcher)
    (data : option (list float)) (stride head tail : Z) :
  expected (instrumentation s) <> 1 ->
  analyseGrain k s data stride head tail = Abort.
Proof.
  intros E. unfold analyseGrain, Call.
  destruct (1 =? expected (instrumentation s)) eqn:E1; [| reflexivity].
  apply Z.eqb_eq in E1. lia.
Qed.

(** The pairs that the output pipeline of [synthesiseGrain] binds, one
    after the other. *)
Ltac pipeline H :=
  repeat match type of H with
         | context [match ?e with pair _ _ => _ end] =>
             let a := fresh "a" in
             let b := fresh "b" in
             let E := fresh "E" in
             destruct e as [a b] eqn:E
         end.

Lemma synthesiseGrain_guard (k : Kernels) (s : Stretcher) :
  synthesiseGrain k s = Abort <-> expected (instrumentation s) <> 2.
Proof.
  unfold synthesiseGrain, Call.
  destruct (2 =? expected (instrumentation s)) eqn:E; cbn [negb].
  - apply Z.eqb_eq in E.
    split; [| lia]. intros H. exfalso.
    destruct (grains s) as [| g [| p rest]]; try discriminate H.
    destruct (valid g); pipeline H;
      destruct (with_segments _ _) as [| g0 [| g1 [| g2 [| g3 rest']]]];
      try discriminate H; pipeline H; discriminate H.
  - apply Z.eqb_neq in E. split; [lia | reflexivity].
Qed.

(** ** What [Grain::specify] leaves in the grain *)

Lemma int_Some (z v : Z) : int z = Some v -> v = z /\ INT_MIN <= z <= INT_MAX.
Proof.
  unfold int. destruct ((INT_MIN <=? z) && (z <=? INT_MAX)) eqn:E; [| discriminate].
  intros [= <-]. apply andb_true_iff in E. lia.
Qed.

Lemma shl1_Some (n v : Z) :
  shl1 n = Some v -> v = 2 ^ n /\ 0 <= n < 31.
Proof.
  unfold shl1. destruct ((0 <=? n) && (n <? 31)) eqn:E; [| discriminate].
  intros [= <-]. apply andb_true_iff in E.
  rewrite Z.shiftl_1_l. lia.
Qed.

(** One step through a [bind] that is known to succeed. *)
Ltac bind_step H v E :=
  match type of H with
  | bind ?o _ = Some _ =>
      destruct o as [v |] eqn:E; [simpl bind in H | discriminate H]
  end.

(** ** What [inputChunkMap] and the calls of the stretcher leave *)

Lemma clamp_top (n : Z) : 0 <= n -> clamp n 0 n = n /\ clamp 0 0 n = 0.
Proof.
  intros Hn. unfold clamp.
  destruct (n <? 0) eqn:E1; [apply Z.ltb_lt in E1; lia |].
  rewrite !Z.ltb_irrefl. destruct (n <? 0); auto.
Qed.

Lemma overlapCheck_returns (g : Grain) (input : Array) (head tail : Z)
    (previous : Grain) (i : Instrumentation) (lines : list string)
    (g' : Grain) :
  overlapCheck g input head tail previous i = Some (lines, Returns g') ->
  exists copy : Array, g' = with_inputCopy g copy.
Proof.
  intros H. unfold overlapCheck in H.
  bind_step H fc Efc. bind_step H a0 Ea0. bind_step H a1 Ea1.
  bind_step H copy Ecopy. exists copy.
  destruct (hasNaN (data copy)); [discriminate H |].
  cbv zeta in H. bind_step H ov Eov.
  destruct ((0 <? ov) && (0 <? rows (inputCopy previous))).
  - bind_step H s1 E1. bind_step H oc Eoc. bind_step H s2 E2.
    bind_step H op Eop.
    destruct (negb (cols copy =? cols (inputCopy previous)));
      [discriminate H |].
    destruct (negb (all_equal oc op)); now injection H as _ <-.
  - now injection H as _ <-.
Qed.

Lemma inputChunkMap_returns (g : Grain) (data : option (list float))
    (stride head tail : Z) (previous : Grain) (i : Instrumentation)
    (lines : list string) (g' : Grain) (m : Array) (head' tail' : Z) :
  inputChunkMap g data stride head tail previous i
  = Some (lines, Returns (g', m, head', tail')) ->
  let frameCount := chunk_end (inputChunk g) - chunk_begin (inputChunk g) in
  0 <= frameCount <= INT_MAX
  /\ m = mkArray (match data with Some samples => samples | None => [] end)
                 frameCount (transformed_cols g) stride
  /\ head' = match data with
             | None => frameCount
             | Some _ => clamp head 0 frameCount
             end
  /\ tail' = match data with
             | None => 0
             | Some _ => clamp tail 0 frameCount
             end
  /\ exists copy : Array,
       g' = if enabled i then with_inputCopy g copy else g.
Proof.
  intros H frameCount. unfold inputChunkMap in H. fold frameCount in H.
  bind_step H fc Efc. apply int_Some in Efc. destruct Efc as [-> Hfc].
  destruct (frameCount <? 0) eqn:Eneg.
  { destruct data; discriminate H. }
  apply Z.ltb_ge in Eneg.
  destruct (clamp_top frameCount Eneg) as [Htop Hzero].
  split; [lia |].
  destruct data as [samples |]; cbv iota beta zeta in H;
    try rewrite Htop, Hzero in H;
    (destruct (enabled i);
     [ destruct (overlapCheck _ _ _ _ _ _) as [[lines0 [g0 |]] |] eqn:Eo;
       try discriminate H;
       injection H as _ <- <- <- <-;
       destruct (overlapCheck_returns _ _ _ _ _ _ _ _ Eo) as [copy ->];
       split; [reflexivity |]; split; [reflexivity |];
       split; [reflexivity |]; now exists copy
     | injection H as _ <- <- <- <-;
       split; [reflexivity |]; split; [reflexivity |];
       split; [reflexivity |]; now exists (inputCopy g) ]).
Qed.

Lemma analyseGrain_Done (k : Kernels) (s s' : Stretcher)
    (data : option (list float)) (stride head tail : Z) :
  analyseGrain k s data stride head tail = Done s' ->
  exists (grain previous : Grain) (rest : list Grain) (grain' : Grain),
    grains s = grain :: previous :: rest
    /\ grains s' = grain' :: previous :: rest
    /\ expected (instrumentation s) = 1
    /\ instrumentation s'
       = mkInstrumentation (enabled (instrumentation s)) 2
                           (firstGrain (instrumentation s))
    /\ sampleRates s' = sampleRates s
    /\ log2SynthesisHop s' = log2SynthesisHop s
    /\ stretcher_output s' = stretcher_output s
    /\ let grain0 :=
         analysed grain head tail 0 (log2TransformLength grain)
                  (energy grain) (phase grain) (partials grain) in
       let n := Z.of_nat (binCount (log2TransformLength grain)) - 1 in
       if valid grain then
         exists (lines : list string) (grain1 : Grain) (m : Array)
                (h t c : Z),
           inputChunkMap grain0 data stride head tail previous
                         (instrumentation s')
           = Some (lines, Returns (grain1, m, h, t))
           /\ to_int (ceil (ddiv (of_int n)
                                 (ratio (output (resampleOperations grain)))))
              = Some c
           /\ INT_MIN <= Z.min c n + 1 <= INT_MAX
           /\ grain'
              = let '(l, e, p, pa) :=
                  analysis_kernel k (log2SynthesisHop s)
                    (grain1 :: previous :: rest) data stride h t
                    (fst (resampleInput_mute grain1 h t))
                    (snd (resampleInput_mute grain1 h t))
                    (Z.min c n + 1) in
                analysed grain1 head tail (Z.min c n + 1) l e p pa
       else grain' = grain0.
Proof.
  intros H. unfold analyseGrain, Call in H.
  destruct (1 =? expected (instrumentation s)) eqn:E1;
    cbn [negb] in H; [| discriminate H].
  apply Z.eqb_eq in E1.
  destruct (grains s) as [| grain [| previous rest]] eqn:Eg;
    try discriminate H.
  change (Z.rem (1 + 1) 3) with 2 in H.
  set (call := mkInstrumentation (enabled (instrumentation s)) 2
                                 (firstGrain (instrumentation s))) in *.
  set (grain0 := analysed grain head tail 0 (log2TransformLength grain)
                          (energy grain) (phase grain) (partials grain))
    in *.
  change (valid grain0) with (valid grain) in H.
  destruct (valid grain) eqn:Ev.
  - destruct (inputChunkMap grain0 data stride head tail previous call)
      as [[lines [[[[grain1 m] h] t] |]] |] eqn:Em; try discriminate H.
    destruct (inputChunkMap_returns _ _ _ _ _ _ _ _ _ _ _ _ Em)
      as [_ [_ [_ [_ [copy Hg1]]]]].
    assert (Hops : resampleOperations grain1 = resampleOperations grain)
      by (rewrite Hg1; destruct (enabled call); reflexivity).
    assert (Hlog : log2TransformLength grain1 = log2TransformLength grain)
      by (rewrite Hg1; destruct (enabled call); reflexivity).
    assert (Hmh : GrainH.muteFrameCountHead grain1 = head)
      by (rewrite Hg1; destruct (enabled call); reflexivity).
    assert (Hmt : GrainH.muteFrameCountTail grain1 = tail)
      by (rewrite Hg1; destruct (enabled call); reflexivity).
    destruct (resampleInput_mute grain1 h t) as [h' t'] eqn:Er.
    rewrite Hops, Hlog, Hmh, Hmt in H.
    destruct (to_int _) as [c |] eqn:Ec; [| discriminate H].
    destruct (int _) as [v |] eqn:Ei; [| discriminate H].
    apply int_Some in Ei. destruct Ei as [-> Hi].
    destruct (analysis_kernel _ _ _ _ _ _ _ _ _ _) as [[[l e] p] pa] eqn:Ek.
    injection H as <-.
    eexists grain, previous, rest, _.
    cbn [grains instrumentation sampleRates log2SynthesisHop
         stretcher_output].
    do 7 (split; [first [reflexivity | symmetry; exact E1] |]).
    rewrite Ev. cbv zeta. exists lines, grain1, m, h, t, c.
    split; [exact Em |]. split; [exact Ec |]. split; [exact Hi |].
    rewrite Er. cbn [fst snd]. rewrite Ek. reflexivity.
  - injection H as <-.
    eexists grain, previous, rest, _.
    cbn [grains instrumentation sampleRates log2SynthesisHop
         stretcher_output].
    do 7 (split; [first [reflexivity | symmetry; exact E1] |]).
    rewrite Ev. reflexivity.
Qed.

(** The members that [analyseGrain] leaves alone, and the two it copies
    from its arguments. *)
Lemma analyseGrain_kept (k : Kernels) (s s' : Stretcher)
    (data : option (list float)) (stride head tail : Z) :
  analyseGrain k s data stride head tail = Done s' ->
  exists (grain grain' : Grain) (others : list Grain),
    grains s = grain :: others
    /\ grains s' = grain' :: others
    /\ kept_by_analysis grain' = kept_by_analysis grain
    /\ muteFrameCountHead grain' = head
    /\ muteFrameCountTail grain' = tail
    /\ (enabled (instrumentation s) = false ->
        inputCopy grain' = inputCopy grain).
Proof.
  intros H.
  destruct (analyseGrain_Done _ _ _ _ _ _ _ H)
    as [grain [previous [rest [grain' [Hs [Hs' [_ [Hi [_ [_ [_ Hg]]]]]]]]]]].
  exists grain, grain', (previous :: rest).
  split; [exact Hs |]. split; [exact Hs' |].
  cbv zeta in Hg. destruct (valid grain).
  - destruct Hg as [lines [grain1 [m [h [t [c [Hm [_ [_ ->]]]]]]]]].
    destruct (inputChunkMap_returns _ _ _ _ _ _ _ _ _ _ _ _ Hm)
      as [_ [_ [_ [_ [copy ->]]]]].
    rewrite Hi. cbn [enabled].
    destruct (enabled (instrumentation s)); cbv iota;
      match goal with
      | |- context [analysis_kernel ?a ?b ?c ?d ?e ?f ?g ?h ?i ?j] =>
          destruct (analysis_kernel a b c d e f g h i j) as [[[l0 e0] p0] pa0]
      end;
      repeat split; first [discriminate | intros _; reflexivity].
  - subst grain'. repeat split.
Qed.

Lemma but_segment_with_segment (g : Grain) (segment : OutputH.Segment) :
  but_segment (with_segment g segment) = but_segment g.
Proof. reflexivity. Qed.

Lemma with_segments_but_segment (segments : list OutputH.Segment) :
  forall ring : list Grain,
    map but_segment (with_segments ring segments) = map but_segment ring.
Proof.
  induction segments as [| segment segments IH]; intros [| g ring];
    try reflexivity.
  cbn [with_segments map]. now rewrite IH.
Qed.

Lemma synthesiseGrain_Done (k : Kernels) (s s' : Stretcher) :
  synthesiseGrain k s = Done s' ->
  exists (grain previous : Grain) (rest : list Grain),
    grains s = grain :: previous :: rest
    /\ (4 <= List.length (grains s))%nat
    /\ expected (instrumentation s) = 2
    /\ instrumentation s'
       = mkInstrumentation (enabled (instrumentation s)) 0
                           (firstGrain (instrumentation s))
    /\ sampleRates s' = sampleRates s
    /\ log2SynthesisHop s' = log2SynthesisHop s
    /\ map but_segment (grains s')
       = map but_segment
           ((if valid grain then
               with_rotation grain
                 (synthesise k (log2SynthesisHop s) grain previous)
             else grain) :: previous :: rest).
Proof.
  intros H. unfold synthesiseGrain, Call in H.
  destruct (2 =? expected (instrumentation s)) eqn:E1;
    cbn [negb] in H; [| discriminate H].
  apply Z.eqb_eq in E1.
  destruct (grains s) as [| grain [| previous rest]] eqn:Eg;
    try discriminate H.
  change (Z.rem (2 + 1) 3) with 0 in H.
  exists grain, previous, rest.
  set (grain' := if valid grain then _ else grain).
  assert (Hrun :
    exists (segments : list OutputH.Segment) (output' : OutputH.Output),
      match with_segments (grain' :: previous :: rest) segments with
      | g0 :: g1 :: g2 :: g3 :: rest0 =>
          let '(segment3, segment2) :=
            lapPadding k (segment g3) (segment g2) in
          let '(segment3, output) :=
            segment_resample k segment3 output'
                             (Resample.output (resampleOperations g2))
                             (Resample.output (resampleOperations g1)) in
          Done (mkStretcher
                  (mkInstrumentation (enabled (instrumentation s)) 0
                                     (firstGrain (instrumentation s)))
                  (sampleRates s) (log2SynthesisHop s)
                  (g0 :: g1 :: with_segment g2 segment2
                   :: with_segment g3 segment3 :: rest0)
                  output)
      | _ => Undefined
      end = Done s').
  { unfold grain'. destruct (valid grain); pipeline H;
      eexists _, _; exact H. }
  clear H. destruct Hrun as [segments [output' H]].
  pose proof (with_segments_but_segment segments (grain' :: previous :: rest))
    as Hsame.
  assert (Hlen : List.length (with_segments (grain' :: previous :: rest)
                                            segments)
                 = List.length (grain' :: previous :: rest)).
  { rewrite <- (length_map but_segment), Hsame. apply length_map. }
  destruct (with_segments _ _) as [| g0 [| g1 [| g2 [| g3 rest0]]]];
    try discriminate H.
  pipeline H. injection H as <-.
  cbn [grains instrumentation sampleRates log2SynthesisHop].
  split; [reflexivity |].
  split; [cbn [List.length] in Hlen |- *; lia |].
  split; [symmetry; exact E1 |].
  do 3 (split; [reflexivity |]).
  rewrite <- Hsame. reflexivity.
Qed.

Section Specify.

Variables (g : Grain) (r : Request) (previous : Grain).
Variables (sampleRates : SampleRates) (log2SynthesisHop : Z).
Variable bufferStartPosition : double.
Variables (g' : Grain) (chunk : InputChunk).

Hypothesis Hspecify :
  specify g r previous sampleRates log2SynthesisHop bufferStartPosition
  = Some (g', chunk).

(** The quantities of the body, named as in the source. *)
Let ops : Operations := fst (setup sampleRates (pitch r) (resampleMode r)).
Let unitHop : double :=
  dmul (of_int (2 ^ log2SynthesisHop))
       (snd (setup sampleRates (pitch r) (resampleMode r))).
Let difference : double := dsub (position r) (position (request previous)).
Let hop_requested : double :=
  if isnan difference || reset r then dmul (speed r) unitHop else difference.
Let ideal : double := dmul hop_requested (ratio (input ops)).
Let is_continuous : bool :=
  negb (reset r) && negb (isnan (position (request previous))).
Let speed_ratio : double := ddiv ideal (of_int (2 ^ log2SynthesisHop)).
Let half0 : Z := Z.quot (2 ^ (log2SynthesisHop + 3)) 2.

Lemma specify_inv :
  0 <= log2SynthesisHop < 28
  /\ request g' = r
  /\ resampleOperations g' = ops
  /\ requestHop g' = hop_requested
  /\ continuous g' = is_continuous
  /\ hopIdeal (analysis g') = ideal
  /\ analysis_speed (analysis g') = speed_ratio
  /\ (if is_continuous then
        to_int (round (dopp (dsub (positionError (analysis previous)) ideal)))
        = Some (hop (analysis g'))
        /\ positionError (analysis g')
           = dadd (dsub (positionError (analysis previous)) ideal)
                  (of_int (hop (analysis g')))
      else
        to_int (round ideal) = Some (hop (analysis g'))
        /\ positionError (analysis g')
           = dsub (round (position r)) (position r))
  /\ (exists p0 : Z,
        (if deqb (dabs speed_ratio) d1 then to_int speed_ratio else Some 0)
        = Some p0
        /\ passthrough g'
           = if is_continuous && negb (p0 =? passthrough previous)
             then 0 else p0)
  /\ (exists half : Z,
        (if negb (deqb (ratio (input ops)) d1) then
           exists h : Z,
             to_int (round (ddiv (of_int half0) (ratio (input ops))))
             = Some h
             /\ half = h + 1
         else half = half0)
        /\ - INT_MAX <= half <= INT_MAX
        /\ if isnan (position r) then
             chunk = mkInputChunk 0 0
             /\ inputChunk g' = mkInputChunk (- half) half
           else
             exists offset : Z,
               to_int (round (dsub (position r) bufferStartPosition))
               = Some offset
               /\ chunk = mkInputChunk (- half + offset) (half + offset)
               /\ inputChunk g' = chunk).
Proof.
  pose proof Hspecify as H. unfold specify in H.
  remember (setup sampleRates (pitch r) (resampleMode r)) as so eqn:Es in H.
  destruct so as [o ret].
  assert (Ho : ops = o) by (unfold ops; rewrite <- Es; reflexivity).
  assert (Hu : unitHop = dmul (of_int (2 ^ log2SynthesisHop)) ret)
    by (unfold unitHop; rewrite <- Es; reflexivity).
  destruct (shl1 log2SynthesisHop) as [sh |] eqn:Esh; [| discriminate H].
  simpl bind in H. apply shl1_Some in Esh. destruct Esh as [-> Hrange].
  rewrite <- Ho, <- Hu in H. fold difference in H. fold hop_requested in H.
  fold ideal in H. fold is_continuous in H.
  match type of H with bind ?o _ = _ =>
    destruct o as [[pe hp] |] eqn:Epe; [| discriminate H] end.
  simpl bind in H. fold speed_ratio in H.
  match type of H with bind ?o _ = _ =>
    destruct o as [p0 |] eqn:Ep0; [| discriminate H] end.
  simpl bind in H.
  destruct (int (log2SynthesisHop + 3)) as [l2t |] eqn:El2t;
    [| discriminate H].
  simpl bind in H. apply int_Some in El2t. destruct El2t as [-> _].
  destruct (shl1 (log2SynthesisHop + 3)) as [fc |] eqn:Efc;
    [| discriminate H].
  simpl bind in H. apply shl1_Some in Efc. destruct Efc as [-> Hrange3].
  fold half0 in H.
  match type of H with bind ?o _ = _ =>
    destruct o as [half |] eqn:Ehalf; [| discriminate H] end.
  simpl bind in H.
  destruct (int (- half)) as [b |] eqn:Eb; [| discriminate H].
  simpl bind in H. apply int_Some in Eb. destruct Eb as [-> Hb].
  assert (Hhalf : - INT_MAX <= half <= INT_MAX).
  { destruct (negb (deqb (ratio (input ops)) d1)).
    - bind_step Ehalf h Eh. apply int_Some in Ehalf.
      unfold INT_MIN, INT_MAX in *. lia.
    - injection Ehalf as <-. unfold half0, INT_MAX.
      assert (2 ^ (log2SynthesisHop + 3) <= 2 ^ 30)
        by (apply Z.pow_le_mono_r; lia).
      assert (0 < 2 ^ (log2SynthesisHop + 3))
        by (apply Z.pow_pos_nonneg; lia).
      pose proof (Z.quot_pos (2 ^ (log2SynthesisHop + 3)) 2).
      pose proof (Z.quot_lt (2 ^ (log2SynthesisHop + 3)) 2).
      change (2 ^ 30) with 1073741824 in *.
      change (2 ^ 31) with 2147483648 in *. lia. }
  assert (Hpe :
    if is_continuous then
      to_int (round (dopp (dsub (positionError (analysis previous)) ideal)))
      = Some hp
      /\ pe = dadd (dsub (positionError (analysis previous)) ideal)
                   (of_int hp)
    else
      to_int (round ideal) = Some hp
      /\ pe = dsub (round (position r)) (position r)).
  { destruct is_continuous.
    - bind_step Epe h Eh. injection Epe as <- <-. split; reflexivity.
    - bind_step Epe h Eh. injection Epe as <- <-. split; reflexivity. }
  assert (Hh :
    if negb (deqb (ratio (input ops)) d1) then
      exists h : Z,
        to_int (round (ddiv (of_int half0) (ratio (input ops)))) = Some h
        /\ half = h + 1
    else half = half0).
  { destruct (negb (deqb (ratio (input ops)) d1)).
    - bind_step Ehalf h Eh. apply int_Some in Ehalf.
      exists h. split; [reflexivity | tauto].
    - now injection Ehalf as <-. }
  destruct (isnan (position r)) eqn:Enan.
  - injection H as <- <-.
    cbn [request resampleOperations requestHop continuous analysis
         hopIdeal analysis_speed hop positionError passthrough inputChunk].
    split; [lia |].
    do 6 (split; [reflexivity |]).
    split; [exact Hpe |].
    split; [exists p0; split; reflexivity |].
    exists half. split; [exact Hh |]. split; [exact Hhalf |].
    split; reflexivity.
  - bind_step H off Eoff.
    bind_step H b Eb. apply int_Some in Eb. destruct Eb as [-> Hb'].
    bind_step H e Ee. apply int_Some in Ee. destruct Ee as [-> He'].
    injection H as <- <-.
    cbn [request resampleOperations requestHop continuous analysis
         hopIdeal analysis_speed hop positionError passthrough inputChunk].
    split; [lia |].
    do 6 (split; [reflexivity |]).
    split; [exact Hpe |].
    split; [exists p0; split; reflexivity |].
    exists half. split; [exact Hh |]. split; [exact Hhalf |].
    exists off. repeat split.
Qed.

End Specify.

(** ** The ring of grains *)

Lemma flushed_iff (vector : list Grain) :
  Grains.flushed vector = true <-> Forall invalid vector.
Proof.
  unfold invalid. induction vector as [| g rest IH]; simpl.
  - split; [constructor | reflexivity].
  - destruct (isnan (position (request g))) eqn:E; simpl.
    + rewrite IH. split; intros H.
      * constructor; assumption.
      * now inversion H.
    + split; [discriminate |]. intros H. inversion H. congruence.
Qed.

(** C9: a stretcher that has just been constructed is flushed, because each
    of the four grains of its ring is constructed with a NaN request position
    (and a request pitch of 1). *)
Theorem fresh_stretcher_is_flushed
    (sampleRates : SampleRates) (channelCount log2SynthesisHop : Z) :
  let s := Stretcher_new sampleRates channelCount log2SynthesisHop in
  isFlushed s = true
  /\ List.length (grains s) = 4%nat
  /\ Forall (fun g => position (request g) = quiet_NaN
                      /\ pitch (request g) = d1) (grains s).
Proof.
  cbv zeta. split; [reflexivity |]. split; [reflexivity |].
  repeat constructor.
Qed.

(** ** Mute counts of the input chunk *)

Lemma clamp_bounds (v lo hi : Z) : lo <= hi -> lo <= clamp v lo hi <= hi.
Proof.
  intros H. unfold clamp.
  destruct (v <? lo) eqn:E1; [lia |].
  destruct (hi <? v) eqn:E2; lia.
Qed.



(** ** Requests held by the ring across the three calls *)

Lemma specifyGrain_requests (s s' : Stretcher) (r : Request) (b : double)
    (c : InputChunk) (g0 g1 g2 g3 : Grain) :
  specifyGrain s r b = Done (s', c) ->
  grains s = [g0; g1; g2; g3] ->
  map request (grains s') = [r; request g0; request g1; request g2].
Proof.
  intros H Hring. unfold specifyGrain in H.
  destruct (Call (instrumentation s) 0) as [lines [call |]];
    [| discriminate H].
  rewrite Hring in H. cbn [Grains.rotate rev app Grains.swap_buffers] in H.
  destruct (specify _ r g0 _ _ _) as [[g' c'] |] eqn:E; [| discriminate H].
  injection H as <- <-.
  pose proof (specify_inv _ _ _ _ _ _ _ _ E) as [_ [Hr _]].
  cbn [grains map request]. now rewrite Hr.
Qed.

Lemma analyseGrain_requests (k : Kernels) (s s' : Stretcher)
    (data : option (list float)) (stride head tail : Z) :
  analyseGrain k s data stride head tail = Done s' ->
  map request (grains s') = map request (grains s).
Proof.
  intros H.
  destruct (analyseGrain_kept _ _ _ _ _ _ _ H)
    as [grain [grain' [others [-> [-> [Hkept _]]]]]].
  unfold kept_by_analysis in Hkept. cbn [map]. congruence.
Qed.

(** Two rings that differ in their segments only give every other member
    the same values. *)
Lemma map_but_segment {A : Type} (f : Grain -> A) (l l' : list Grain) :
  (forall g : Grain, f (but_segment g) = f g) ->
  map but_segment l = map but_segment l' ->
  map f l = map f l'.
Proof.
  intros Hf H.
  transitivity (map f (map but_segment l)).
  - rewrite map_map. apply map_ext. intros g. symmetry. apply Hf.
  - rewrite H, map_map. apply map_ext. exact Hf.
Qed.

Lemma synthesiseGrain_requests (k : Kernels) (s s' : Stretcher) :
  synthesiseGrain k s = Done s' ->
  map request (grains s') = map request (grains s).
Proof.
  intros H.
  destruct (synthesiseGrain_Done _ _ _ H)
    as [grain [previous [rest [Hs [_ [_ [_ [_ [_ Hsame]]]]]]]]].
  rewrite (map_but_segment request _ _ (fun g => eq_refl) Hsame), Hs.
  cbn [map]. destruct (valid grain); reflexivity.
Qed.

(** One grain pushes its request on the front of the ring's requests and
    drops the oldest. *)
Lemma grain_cycle_requests (k : Kernels) (s s' : Stretcher) (gi : GrainInput)
    (q0 q1 q2 q3 : Request) :
  grain_cycle k s gi = Done s' ->
  map request (grains s) = [q0; q1; q2; q3] ->
  map request (grains s') = [gi_request gi; q0; q1; q2].
Proof.
  intros H Hring. unfold grain_cycle in H.
  destruct (specifyGrain s _ _) as [[s1 c] | |] eqn:E1; try discriminate H.
  destruct (analyseGrain k s1 _ _ _ _) as [s2 | |] eqn:E2; try discriminate H.
  apply synthesiseGrain_requests in H.
  apply analyseGrain_requests in E2.
  destruct (grains s) as [| g0 [| g1 [| g2 [| g3 [| g4 rest]]]]] eqn:Eg;
    try discriminate Hring.
  injection Hring as <- <- <- <-.
  rewrite H, E2. exact (specifyGrain_requests _ _ _ _ _ _ _ _ _ E1 Eg).
Qed.

Lemma process_invalid_grains (k : Kernels) (l : list GrainInput) :
  forall (s s' : Stretcher) (q0 q1 q2 q3 : Request),
    process k s l = Done s' ->
    Forall invalid_input l ->
    map request (grains s) = [q0; q1; q2; q3] ->
    (4 <= List.length l)%nat ->
    Forall invalid (grains s').
Proof.
  assert (Hmap : forall v : list Grain,
            Forall (fun q => isnan (position q) = true) (map request v) ->
            Forall invalid v).
  { induction v as [| g v IH]; simpl; intros H; inversion H; subst;
      constructor; auto. }
  assert (Hstep : forall (n : nat) (l : list GrainInput)
                    (s s' : Stretcher) (q0 q1 q2 q3 : Request),
            process k s l = Done s' ->
            Forall invalid_input l ->
            map request (grains s) = [q0; q1; q2; q3] ->
            exists p0 p1 p2 p3 : Request,
              map request (grains s') = [p0; p1; p2; p3]
              /\ ((1 <= List.length l)%nat -> isnan (position p0) = true)
              /\ ((2 <= List.length l)%nat -> isnan (position p1) = true)
              /\ ((3 <= List.length l)%nat -> isnan (position p2) = true)
              /\ ((4 <= List.length l)%nat -> isnan (position p3) = true)).
  { intros _. clear l.
    induction l as [| gi rest IH] using rev_ind;
      intros s s' q0 q1 q2 q3 H Hnan Hring.
    - injection H as <-. exists q0, q1, q2, q3. simpl.
      split; [exact Hring |]. repeat split; intros Hlen; lia.
    - apply Forall_app in Hnan. destruct Hnan as [Hrest Hgi].
      inversion Hgi as [| ? ? Hgi' _]; subst. unfold invalid_input in Hgi'.
      assert (Happ : exists s1, process k s rest = Done s1
                                /\ grain_cycle k s1 gi = Done s').
      { clear - H. revert s H.
        induction rest as [| x rest IHr]; intros s H; simpl in *.
        - destruct (grain_cycle k s gi) as [s1 | |] eqn:E; try discriminate H.
          injection H as <-. exists s. split; [reflexivity | exact E].
        - destruct (grain_cycle k s x) as [s1 | |]; try discriminate H.
          apply IHr. exact H. }
      destruct Happ as [s1 [H1 H2]].
      destruct (IH _ _ _ _ _ _ H1 Hrest Hring)
        as [p0 [p1 [p2 [p3 [Hr1 [A1 [A2 [A3 A4]]]]]]]].
      pose proof (grain_cycle_requests _ _ _ _ _ _ _ _ H2 Hr1) as Hr'.
      exists (gi_request gi), p0, p1, p2.
      rewrite length_app. simpl List.length.
      split; [exact Hr' |].
      split; [intros _; exact Hgi' |].
      split; [intros Hlen; apply A1; lia |].
      split; [intros Hlen; apply A2; lia |].
      intros Hlen; apply A3; lia.
  }
  intros s s' q0 q1 q2 q3 H Hnan Hring Hlen.
  destruct (Hstep 0%nat l s s' q0 q1 q2 q3 H Hnan Hring)
    as [p0 [p1 [p2 [p3 [Hr [A1 [A2 [A3 A4]]]]]]]].
  apply Hmap. rewrite Hr.
  repeat constructor; [apply A1 | apply A2 | apply A3 | apply A4]; lia.
Qed.

(** C5 (as amended): for a stretcher with its ring of four grains in any
    state, after at least four consecutive grains whose request position is
    NaN, [isFlushed] returns true; and [isFlushed] returns true exactly when
    every grain of the ring has a NaN request position. *)
Theorem flushed_after_four_invalid_grains
    (k : Kernels) (s s' : Stretcher) (l : list GrainInput) :
  List.length (grains s) = 4%nat ->
  Forall invalid_input l ->
  (4 <= List.length l)%nat ->
  process k s l = Done s' ->
  isFlushed s' = true
  /\ (forall t : Stretcher, isFlushed t = true <-> Forall invalid (grains t)).
Proof.
  intros Hring Hnan Hlen H. split.
  - apply flushed_iff.
    destruct (grains s) as [| g0 [| g1 [| g2 [| g3 [| g4 rest]]]]] eqn:Eg;
      try discriminate Hring.
    apply (process_invalid_grains k l s s' (request g0) (request g1)
             (request g2) (request g3)); try assumption.
    now rewrite Eg.
  - intros t. apply flushed_iff.
Qed.

(** C5, instance: a fresh stretcher processes one valid grain at position
    1000 and then four grains with a NaN position. *)
Lemma flushed_after_four_invalid_grains_witness :
  exists s s' : Stretcher,
    process null_kernels
            (Stretcher_new (mkSampleRates 48000 48000) 1 9)
            [silent_input (of_int 1000)] = Done s
    /\ process null_kernels s
               [silent_input quiet_NaN; silent_input quiet_NaN;
                silent_input quiet_NaN; silent_input quiet_NaN] = Done s'
    /\ isFlushed s' = true.
Proof.
  pose (s0 := Stretcher_new (mkSampleRates 48000 48000) 1 9).
  pose (nans := [silent_input quiet_NaN; silent_input quiet_NaN;
                 silent_input quiet_NaN; silent_input quiet_NaN]).
  destruct (process null_kernels s0 [silent_input (of_int 1000)])
    as [s | |] eqn:E1; [| vm_compute in E1; discriminate E1
                        | vm_compute in E1; discriminate E1].
  destruct (process null_kernels s nans) as [s' | |] eqn:E2.
  - exists s, s'. split; [exact E1 |]. split; [exact E2 |].
    assert (Hring : List.length (grains s) = 4%nat).
    { vm_compute in E1. injection E1 as <-. reflexivity. }
    assert (Hnan : Forall invalid_input nans) by (repeat constructor).
    assert (Hlen : (4 <= List.length nans)%nat) by (simpl; lia).
    exact (proj1 (flushed_after_four_invalid_grains null_kernels s s' nans
                    Hring Hnan Hlen E2)).
  - exfalso. vm_compute in E1. injection E1 as <-.
    vm_compute in E2. discriminate E2.
  - exfalso. vm_compute in E1. injection E1 as <-.
    vm_compute in E2. discriminate E2.
Defined.

(** C5, as stated, fails: after one valid grain, three grains with a NaN
    position leave the valid request in the last slot of the ring and
    [isFlushed] returns false. *)
Lemma three_invalid_grains_counterexample :
  exists s' : Stretcher,
    process null_kernels
            (Stretcher_new (mkSampleRates 48000 48000) 1 9)
            [silent_input (of_int 1000); silent_input quiet_NaN;
             silent_input quiet_NaN; silent_input quiet_NaN] = Done s'
    /\ isFlushed s' = false.
Proof.
  eexists. split; [vm_compute; reflexivity | reflexivity].
Qed.

(** ** Facts about binary floating-point arithmetic *)

Section Rounding.

Variables prec emax : Z.

Lemma iter_pos_invariant {A : Type} (f : A -> A) (P : A -> Prop) :
  (forall a, P a -> P (f a)) ->
  forall (n : positive) (a : A), P a -> P (iter_pos f n a).
Proof.
  intros Hf. induction n as [n IH | n IH |]; intros a Ha; simpl; auto.
Qed.

Lemma shr_1_nonneg (mrs : shr_record) :
  0 <= shr_m mrs -> 0 <= shr_m (shr_1 mrs).
Proof.
  destruct mrs as [m r s]. simpl.
  destruct m as [| [p | p |] | p]; simpl; intros H; lia.
Qed.

Lemma shr_nonneg (mrs : shr_record) (e n : Z) :
  0 <= shr_m mrs -> 0 <= shr_m (fst (shr mrs e n)).
Proof.
  intros H. unfold shr. destruct n as [| p | p]; simpl; try assumption.
  apply (iter_pos_invariant shr_1 (fun x => 0 <= shr_m x)); auto.
  apply shr_1_nonneg.
Qed.

Lemma shr_record_of_loc_m (m : Z) (l : location) :
  shr_m (shr_record_of_loc m l) = m.
Proof. destruct l as [| [ | | ]]; reflexivity. Qed.

Lemma shr_fexp_nonneg (m e : Z) (l : location) :
  0 <= m -> 0 <= shr_m (fst (shr_fexp prec emax m e l)).
Proof.
  intros H. unfold shr_fexp. apply shr_nonneg.
  now rewrite shr_record_of_loc_m.
Qed.

Lemma round_nearest_even_nonneg (m : Z) (l : location) :
  0 <= m -> 0 <= round_nearest_even m l.
Proof.
  intros H. unfold round_nearest_even.
  destruct l as [| [ | | ]]; try lia. destruct (Z.even m); lia.
Qed.

(** Rounding a non-negative mantissa never yields NaN. *)
Lemma binary_round_aux_not_nan (s : bool) (m e : Z) (l : location) :
  0 <= m -> binary_round_aux prec emax s m e l <> S754_nan.
Proof.
  intros H. unfold binary_round_aux.
  pose proof (shr_fexp_nonneg m e l H) as H1.
  destruct (shr_fexp prec emax m e l) as [mrs' e'].
  cbn [fst] in H1.
  pose proof (shr_fexp_nonneg _ e' loc_Exact
                (round_nearest_even_nonneg _ (loc_of_shr_record mrs') H1))
    as H2.
  destruct (shr_fexp prec emax _ e' loc_Exact) as [mrs'' e''].
  cbn [fst] in H2.
  destruct (shr_m mrs'') as [| p | p]; try discriminate; try lia.
  destruct (e'' <=? emax - prec); discriminate.
Qed.

Lemma binary_round_not_nan (s : bool) (m : positive) (e : Z) :
  binary_round prec emax s m e <> S754_nan.
Proof.
  unfold binary_round. destruct (shl_align _ _ _) as [mz ez].
  apply binary_round_aux_not_nan. lia.
Qed.

Lemma binary_normalize_not_nan (m e : Z) (s : bool) :
  binary_normalize prec emax m e s <> S754_nan.
Proof.
  destruct m; simpl; try discriminate; apply binary_round_not_nan.
Qed.

(** The sign given to the rounding is the sign of the result. *)
Lemma binary_round_aux_opp (s : bool) (m e : Z) (l : location) :
  SFopp (binary_round_aux prec emax s m e l)
  = binary_round_aux prec emax (negb s) m e l.
Proof.
  unfold binary_round_aux.
  destruct (shr_fexp prec emax m e l) as [mrs' e'].
  destruct (shr_fexp prec emax _ e' loc_Exact) as [mrs'' e''].
  destruct (shr_m mrs'') as [| p | p]; try reflexivity.
  destruct (e'' <=? emax - prec); reflexivity.
Qed.

Lemma binary_round_opp (s : bool) (m : positive) (e : Z) :
  SFopp (binary_round prec emax s m e) = binary_round prec emax (negb s) m e.
Proof.
  unfold binary_round. destruct (shl_align _ _ _) as [mz ez].
  apply binary_round_aux_opp.
Qed.

End Rounding.

Lemma to_int_finite (x : double) (z : Z) :
  to_int x = Some z -> is_finite x = true.
Proof. destruct x; simpl; try discriminate; reflexivity. Qed.

Lemma round_finite_inv (x : double) :
  is_finite (round x) = true -> is_finite x = true.
Proof. destruct x; simpl; auto. Qed.

Lemma dsub_finite_inv (a b : double) :
  is_finite (dsub a b) = true -> is_finite a = true /\ is_finite b = true.
Proof.
  destruct a as [sa | sa | | sa ma ea], b as [sb | sb | | sb mb eb];
    [> try (intros; split; reflexivity);
       try (cbn; discriminate);
       try (destruct sa, sb; cbn; discriminate) .. | ].
  intros _. split; reflexivity.
Qed.

Lemma dsub_isnan (a b : double) :
  is_finite a = true -> isnan (dsub a b) = isnan b.
Proof.
  destruct a as [sa | sa | | sa ma ea], b as [sb | sb | | sb mb eb];
    [> try (cbn; discriminate); try reflexivity;
       try (destruct sa, sb; reflexivity) .. | ].
  intros _. change (isnan (S754_finite sb mb eb)) with false.
  unfold dsub, SFsub.
  match goal with |- isnan ?x = false =>
    destruct x eqn:E; try reflexivity end.
  exfalso. exact (binary_normalize_not_nan _ _ _ _ _ E).
Qed.

(** [-(a - b)] and [b - a] are the same value. *)
Lemma dsub_swap (a b : double) : same_value (dopp (dsub a b)) (dsub b a).
Proof.
  unfold same_value.
  destruct a as [sa | sa | | sa ma ea], b as [sb | sb | | sb mb eb];
    [> try (left; reflexivity);
       try (destruct sa, sb; cbn; auto; fail) .. | ].
  unfold dopp, dsub, SFsub. rewrite (Z.min_comm eb ea).
  set (ez := Z.min ea eb).
  set (A := cond_Zopp sa (Zpos (fst (shl_align ma ea ez)))).
  set (B := cond_Zopp sb (Zpos (fst (shl_align mb eb ez)))).
  replace (B - A) with (- (A - B)) by lia.
  destruct (A - B) as [| p | p]; cbn [Z.opp binary_normalize].
  - right. split; reflexivity.
  - left. apply binary_round_opp.
  - left. apply binary_round_opp.
Qed.

Lemma round_same_value (x y : double) :
  same_value x y -> to_int (round x) = to_int (round y).
Proof.
  intros [-> | [Hx Hy]]; [reflexivity |].
  destruct x; try discriminate Hx. destruct y; try discriminate Hy.
  reflexivity.
Qed.

Lemma d1_eq : d1 = S754_finite false 4503599627370496 (-52).
Proof. vm_compute. reflexivity. Qed.

Lemma dhalf_eq : dhalf = S754_finite false 4503599627370496 (-53).
Proof. vm_compute. reflexivity. Qed.

(** A value whose magnitude compares equal to 1 is 1 or -1, and converts to
    that integer. *)
Lemma dabs_one (x : double) :
  deqb (dabs x) d1 = true ->
  exists s : bool,
    x = S754_finite s 4503599627370496 (-52)
    /\ to_int x = Some (cond_Zopp s 1).
Proof.
  rewrite d1_eq. unfold deqb, SFeqb.
  destruct x as [s | s | | s m e];
    cbn [dabs SFabs SFcompare]; try discriminate;
    try (destruct s; discriminate).
  destruct (e ?= -52) eqn:Ee; try discriminate.
  apply Z.compare_eq in Ee. subst e.
  rewrite Pos.compare_cont_spec. unfold Pos.switch_Eq.
  destruct (Pos.compare m 4503599627370496) eqn:Em; try discriminate.
  apply Pos.compare_eq in Em. subst m. intros _.
  exists s. split; [reflexivity |]. destruct s; vm_compute; reflexivity.
Qed.

(** ** The hop and the position error of a specified grain *)

Lemma isnan_true (x : double) : isnan x = true -> x = S754_nan.
Proof. destruct x; try discriminate; reflexivity. Qed.

Lemma setup_input_pass_through (sampleRates : SampleRates) (pitch : double)
    (mode : ResampleMode) :
  let ops := fst (setup sampleRates pitch mode) in
  function (input ops) = None -> ratio (input ops) = d1.
Proof.
  unfold setup.
  match goal with
  | |- context [let '(a, b) := ?X in _] => destruct X as [[fi |] [fo |]]
  end; cbn; congruence.
Qed.

(** C1: for every call of [Grain::specify] that returns, [requestHop] is
    [request.position - previous.request.position], or
    [request.speed * unitHop] when either position is NaN or [request.reset]
    is set; [hopIdeal] is [requestHop * inputResampleRatio]; a continuous
    grain (no reset, previous position not NaN) has
    [hop = round(hopIdeal - previous.positionError)] and
    [positionError = previous.positionError - hopIdeal + hop]; any other
    grain has [hop = round(hopIdeal)] and
    [positionError = round(request.position) - request.position]. *)
Theorem specify_hop_and_position_error
    (g : Grain) (r : Request) (previous : Grain) (sampleRates : SampleRates)
    (log2SynthesisHop : Z) (bufferStartPosition : double)
    (g' : Grain) (chunk : InputChunk) :
  specify g r previous sampleRates log2SynthesisHop bufferStartPosition
  = Some (g', chunk) ->
  let unitHop :=
    dmul (of_int (Z.shiftl 1 log2SynthesisHop))
         (snd (setup sampleRates (pitch r) (resampleMode r))) in
  let inputResampleRatio := ratio (input (resampleOperations g')) in
  let previous_error := positionError (analysis previous) in
  requestHop g'
  = (if isnan (position r) || isnan (position (request previous)) || reset r
     then dmul (speed r) unitHop
     else dsub (position r) (position (request previous)))
  /\ hopIdeal (analysis g') = dmul (requestHop g') inputResampleRatio
  /\ continuous g'
     = negb (reset r) && negb (isnan (position (request previous)))
  /\ (continuous g' = true ->
      to_int (round (dsub (hopIdeal (analysis g')) previous_error))
      = Some (hop (analysis g'))
      /\ positionError (analysis g')
         = dadd (dsub previous_error (hopIdeal (analysis g')))
                (of_int (hop (analysis g'))))
  /\ (continuous g' = false ->
      to_int (round (hopIdeal (analysis g'))) = Some (hop (analysis g'))
      /\ positionError (analysis g')
         = dsub (round (position r)) (position r)).
Proof.
  intros H. cbv zeta.
  destruct (specify_inv _ _ _ _ _ _ _ _ H)
    as [Hrange [Hr [Hops [Hrh [Hc [Hi [Hs [Hpe [_ [half [_ [_ Hchunk]]]]]]]]]]]].
  rewrite Z.shiftl_1_l.
  assert (Hnan : isnan (dsub (position r) (position (request previous)))
                 = isnan (position r) || isnan (position (request previous))).
  { destruct (isnan (position r)) eqn:En.
    - apply isnan_true in En. rewrite En. reflexivity.
    - destruct Hchunk as [offset [Ho _]].
      apply to_int_finite, round_finite_inv, dsub_finite_inv in Ho.
      destruct Ho as [Hfin _]. now rewrite (dsub_isnan _ _ Hfin). }
  split; [| split; [| split; [| split]]].
  - rewrite Hrh, Hnan. reflexivity.
  - rewrite Hi, Hrh, Hops. reflexivity.
  - exact Hc.
  - intros Hcont. rewrite Hc in Hcont. rewrite Hcont in Hpe.
    destruct Hpe as [Hhop Hpe]. rewrite Hi. split; [| exact Hpe].
    rewrite <- Hhop. symmetry. apply round_same_value, dsub_swap.
  - intros Hcont. rewrite Hc in Hcont. rewrite Hcont in Hpe.
    rewrite Hi. exact Hpe.
Qed.

(** C1, instance: after a grain at position 1000, a grain at position
    1512.5 is continuous; its hop is 513 and its position error 1/2. *)
Lemma specify_hop_and_position_error_witness :
  exists (previous g' : Grain) (c chunk : InputChunk),
    specify (Grain_new 9 1) (unit_request (of_int 1000)) (Grain_new 9 1)
            (mkSampleRates 48000 48000) 9 (S754_zero false)
    = Some (previous, c)
    /\ specify (Grain_new 9 1)
               (unit_request (ddiv (of_int 3025) (of_int 2))) previous
               (mkSampleRates 48000 48000) 9 (S754_zero false)
       = Some (g', chunk)
    /\ continuous g' = true
    /\ hop (analysis g') = 513
    /\ positionError (analysis g')
       = dadd (dsub (positionError (analysis previous))
                    (hopIdeal (analysis g'))) (of_int 513).
Proof.
  eexists. eexists. eexists. eexists.
  split; [vm_compute; reflexivity |].
  match goal with
  | |- ?S = Some (?a, ?b) /\ _ =>
      assert (E : S = Some (a, b)) by (vm_compute; reflexivity)
  end.
  split; [exact E |].
  pose proof (specify_hop_and_position_error _ _ _ _ _ _ _ _ E)
    as [_ [_ [_ [Hcont _]]]].
  split; [reflexivity |]. split; [reflexivity |].
  exact (proj2 (Hcont eq_refl)).
Defined.

(** ** The input chunk of a specified grain *)

(** C3 (as amended): for every call of [Grain::specify] that returns, a NaN
    request position gives the empty chunk; otherwise the chunk is
    [centre - half, centre + half) with
    [centre = round(request.position - bufferStartPosition)], where [half]
    is [transformLength / 2] when the input ratio is 1 (in particular when
    the input resampler is not active) and
    [round(transformLength / 2 / inputRatio) + 1] when it is not 1. *)
Theorem specify_input_chunk
    (g : Grain) (r : Request) (previous : Grain) (sampleRates : SampleRates)
    (log2SynthesisHop : Z) (bufferStartPosition : double)
    (g' : Grain) (chunk : InputChunk) :
  specify g r previous sampleRates log2SynthesisHop bufferStartPosition
  = Some (g', chunk) ->
  let inputRatio := ratio (input (resampleOperations g')) in
  let half0 := 2 ^ (log2SynthesisHop + 3) / 2 in
  (isnan (position r) = true -> chunk = mkInputChunk 0 0)
  /\ (isnan (position r) = false ->
      exists centre half : Z,
        to_int (round (dsub (position r) bufferStartPosition)) = Some centre
        /\ (deqb inputRatio d1 = true -> half = half0)
        /\ (deqb inputRatio d1 = false ->
            exists h : Z,
              to_int (round (ddiv (of_int half0) inputRatio)) = Some h
              /\ half = h + 1)
        /\ (function (input (resampleOperations g')) = None -> half = half0)
        /\ chunk = mkInputChunk (centre - half) (centre + half)).
Proof.
  intros H. cbv zeta.
  destruct (specify_inv _ _ _ _ _ _ _ _ H)
    as [Hrange [_ [Hops [_ [_ [_ [_ [_ [_ [half [Hh [_ Hchunk]]]]]]]]]]]].
  rewrite <- Hops in Hh.
  rewrite Z.quot_div_nonneg in Hh
    by (try apply Z.pow_nonneg; lia).
  split.
  - intros En. rewrite En in Hchunk. tauto.
  - intros En. rewrite En in Hchunk.
    destruct Hchunk as [offset [Ho [Hc _]]].
    exists offset, half. split; [exact Ho |].
    assert (Hone : deqb (ratio (input (resampleOperations g'))) d1 = true ->
                   half = 2 ^ (log2SynthesisHop + 3) / 2).
    { intros E. rewrite E in Hh. exact Hh. }
    split; [exact Hone |]. split; [| split].
    + intros E. rewrite E in Hh. exact Hh.
    + intros Hf. apply Hone. rewrite Hops in *.
      rewrite (setup_input_pass_through _ _ _ Hf). reflexivity.
    + rewrite Hc. f_equal; lia.
Qed.

(** C3, instance: at position 1000 with pitch 2 under [forceIn] the input
    ratio is 1/2 and the chunk is [1000 - 4097, 1000 + 4097). *)
Lemma specify_input_chunk_witness :
  exists (g' : Grain) (chunk : InputChunk),
    specify (Grain_new 9 1)
            (mkRequest (of_int 1000) d1 (of_int 2) false resampleMode_forceIn)
            (Grain_new 9 1) (mkSampleRates 48000 48000) 9 (S754_zero false)
    = Some (g', chunk)
    /\ ratio (input (resampleOperations g')) = dhalf
    /\ exists centre half : Z,
         centre = 1000 /\ half = 4096 + 1
         /\ chunk = mkInputChunk (centre - half) (centre + half).
Proof.
  eexists. eexists.
  match goal with
  | |- ?S = Some (?a, ?b) /\ _ =>
      assert (E : S = Some (a, b)) by (vm_compute; reflexivity)
  end.
  split; [exact E |]. split; [reflexivity |].
  pose proof (specify_input_chunk _ _ _ _ _ _ _ _ E) as [_ Hvalid].
  destruct (Hvalid eq_refl) as [centre [half [Hc [_ [Hscaled [_ Hchunk]]]]]].
  destruct (Hscaled eq_refl) as [h [Hh Hhalf]].
  exists centre, half.
  vm_compute in Hc. injection Hc as <-.
  vm_compute in Hh. injection Hh as <-.
  split; [reflexivity |]. split; [exact Hhalf | exact Hchunk].
Defined.

(** C3, as stated, fails: in the same call the chunk returned is
    [-3097, 5097), one frame wider on each side than the chunk
    [-3096, 5096) whose half-width is [transformLength / 2] scaled by
    [1 / inputRatio]. *)
Lemma specify_input_chunk_counterexample :
  exists (g' : Grain) (chunk : InputChunk),
    let r := mkRequest (of_int 1000) d1 (of_int 2) false resampleMode_forceIn in
    specify (Grain_new 9 1) r (Grain_new 9 1) (mkSampleRates 48000 48000) 9
            (S754_zero false)
    = Some (g', chunk)
    /\ chunk = mkInputChunk (-3097) 5097
    /\ spec_inputChunk r (resampleOperations g') 9 (S754_zero false)
       = Some (mkInputChunk (-3096) 5096).
Proof.
  eexists. eexists. cbv zeta.
  split; [vm_compute; reflexivity |].
  split; [reflexivity | vm_compute; reflexivity].
Qed.

(** ** The passthrough flag *)

Lemma synthesise_passthrough (k : Kernels) (log2SynthesisHop : Z)
    (grain previous : Grain) :
  passthrough grain <> 0 ->
  Forall (fun rot => rot = 0) (synthesise k log2SynthesisHop grain previous).
Proof.
  intros H. unfold synthesise.
  apply Z.eqb_neq in H. rewrite H. cbn [negb].
  induction (rotation grain); simpl; constructor; auto.
Qed.

(** C7 (as amended): for every call of [Grain::specify] that returns,
    [passthrough] is non-zero exactly when [|analysis.speed| == 1] and
    either the grain is not continuous or the previous grain's [passthrough]
    equals [int(analysis.speed)]; it is then [int(analysis.speed)], that is
    1 or -1, and it is 0 in every other case.  When a valid grain has a
    non-zero [passthrough], the rotation synthesis leaves in it is zero in
    every bin. *)
Theorem specify_passthrough
    (g : Grain) (r : Request) (previous : Grain) (sampleRates : SampleRates)
    (log2SynthesisHop : Z) (bufferStartPosition : double)
    (g' : Grain) (chunk : InputChunk) :
  specify g r previous sampleRates log2SynthesisHop bufferStartPosition
  = Some (g', chunk) ->
  let v := analysis_speed (analysis g') in
  (passthrough g' <> 0 <->
   deqb (dabs v) d1 = true
   /\ (continuous g' = false \/ to_int v = Some (passthrough previous)))
  /\ (passthrough g' <> 0 ->
      to_int v = Some (passthrough g')
      /\ (passthrough g' = 1 \/ passthrough g' = -1))
  /\ (forall (k : Kernels) (s s' : Stretcher) (grain : Grain)
        (rest : list Grain),
        synthesiseGrain k s = Done s' ->
        grains s = grain :: rest ->
        valid grain = true ->
        passthrough grain <> 0 ->
        exists (grain' : Grain) (rest' : list Grain),
          grains s' = grain' :: rest'
          /\ Forall (fun rot => rot = 0) (rotation grain')).
Proof.
  intros H. cbv zeta.
  destruct (specify_inv _ _ _ _ _ _ _ _ H)
    as [_ [_ [_ [_ [Hc [_ [Hs [_ [[p0 [Hp0 Hp]] _]]]]]]]]].
  rewrite <- Hs, <- Hc in *.
  set (v := analysis_speed (analysis g')) in *.
  assert (Hcases :
    (deqb (dabs v) d1 = true /\ to_int v = Some p0 /\ (p0 = 1 \/ p0 = -1))
    \/ (deqb (dabs v) d1 = false /\ p0 = 0)).
  { destruct (deqb (dabs v) d1) eqn:E.
    - left. destruct (dabs_one v E) as [s [_ Hi]].
      rewrite Hi in Hp0. injection Hp0 as <-.
      split; [reflexivity |]. split; [exact Hi |]. destruct s; simpl; auto.
    - right. injection Hp0 as <-. split; reflexivity. }
  split; [| split].
  - destruct Hcases as [[E [Hi Hp01]] | [E ->]].
    + split.
      * intros Hne. split; [exact E |].
        destruct (continuous g'); [| left; reflexivity].
        right. cbn [andb] in Hp.
        destruct (p0 =? passthrough previous) eqn:Eq; cbn [negb] in Hp.
        -- apply Z.eqb_eq in Eq. congruence.
        -- congruence.
      * intros [_ [Hcont | Hprev]].
        -- rewrite Hcont in Hp. cbn [andb] in Hp. lia.
        -- rewrite Hi in Hprev. injection Hprev as Hprev.
           rewrite <- Hprev, Z.eqb_refl, andb_false_r in Hp. lia.
    + split.
      * intros Hne. exfalso. apply Hne. rewrite Hp.
        destruct (continuous g' && negb (0 =? passthrough previous));
          reflexivity.
      * intros [E' _]. congruence.
  - intros Hne.
    destruct Hcases as [[E [Hi Hp01]] | [E ->]].
    + destruct (continuous g' && negb (p0 =? passthrough previous));
        [congruence |].
      rewrite Hp. split; [exact Hi | exact Hp01].
    + exfalso. apply Hne. rewrite Hp.
      destruct (continuous g' && negb (0 =? passthrough previous));
        reflexivity.
  - intros k s s' grain rest Hsyn Hring Hvalid Hpass.
    destruct (synthesiseGrain_Done _ _ _ Hsyn)
      as [g0 [p [r0 [Hs0 [_ [_ [_ [_ [_ Hsame]]]]]]]]].
    rewrite Hring in Hs0. injection Hs0 as <- ->.
    rewrite Hvalid in Hsame.
    pose proof (map_but_segment rotation _ _ (fun g => eq_refl) Hsame)
      as Hrot.
    destruct (grains s') as [| grain' rest']; [discriminate Hrot |].
    exists grain', rest'. split; [reflexivity |].
    cbn [map] in Hrot. injection Hrot as -> _.
    cbn [rotation with_rotation]. now apply synthesise_passthrough.
Qed.

(** C7, instance: the first grain of a fresh ring, at unit speed, is not
    continuous and is armed with [passthrough = 1]. *)
Lemma specify_passthrough_witness :
  exists (g' : Grain) (chunk : InputChunk),
    specify (Grain_new 9 1) (unit_request (of_int 1000)) (Grain_new 9 1)
            (mkSampleRates 48000 48000) 9 (S754_zero false)
    = Some (g', chunk)
    /\ passthrough g' = 1
    /\ to_int (analysis_speed (analysis g')) = Some (passthrough g').
Proof.
  eexists. eexists.
  match goal with
  | |- ?S = Some (?a, ?b) /\ _ =>
      assert (E : S = Some (a, b)) by (vm_compute; reflexivity)
  end.
  split; [exact E |]. split; [reflexivity |].
  pose proof (specify_passthrough _ _ _ _ _ _ _ _ E) as [_ [Hval _]].
  apply Hval. cbn. discriminate.
Defined.

(** C7, as stated, fails: in that call [|analysis.speed| == 1] and the
    previous grain is not a passthrough grain (its [passthrough] is 0), yet
    the grain is armed. *)
Lemma specify_passthrough_counterexample :
  exists (g' : Grain) (chunk : InputChunk),
    specify (Grain_new 9 1) (unit_request (of_int 1000)) (Grain_new 9 1)
            (mkSampleRates 48000 48000) 9 (S754_zero false)
    = Some (g', chunk)
    /\ passthrough (Grain_new 9 1) = 0
    /\ spec_passthrough_armed (analysis_speed (analysis g')) (Grain_new 9 1)
       = false
    /\ passthrough g' = 1.
Proof.
  eexists. eexists.
  split; [vm_compute; reflexivity |].
  split; [reflexivity |]. split; [vm_compute; reflexivity | reflexivity].
Qed.

(** ** Muted rows in the resampling loop *)

Section ResampleLoop.

Lemma nth_error_update_other (l : list float) (n m : nat) (v : float) :
  n <> m -> nth_error (update l n v) m = nth_error l m.
Proof.
  revert n m. induction l as [| h t IH]; intros [| n] [| m] Hne;
    simpl; try reflexivity; try congruence.
  apply IH. congruence.
Qed.

Lemma update_same (l : list float) (n : nat) (v : float) :
  nth_error l n = Some v -> update l n v = l.
Proof.
  revert n. induction l as [| h t IH]; intros [| n] H; simpl in *;
    try discriminate.
  - congruence.
  - f_equal. now apply IH.
Qed.

Lemma load_update_other (l : list float) (j j' : Z) (v : float) :
  0 <= j -> j' <> j -> load (update l (Z.to_nat j) v) j' = load l j'.
Proof.
  intros Hj Hne. unfold load. destruct (j' <? 0) eqn:E; [reflexivity |].
  apply nth_error_update_other. apply Z.ltb_ge in E. lia.
Qed.

Lemma load_Some_nonneg (l : list float) (j : Z) (v : float) :
  load l j = Some v -> 0 <= j /\ nth_error l (Z.to_nat j) = Some v.
Proof.
  unfold load. destruct (j <? 0) eqn:E; [discriminate |].
  apply Z.ltb_ge in E. auto.
Qed.

Lemma store_Some (l : list float) (j : Z) (v old : float) :
  load l j = Some old -> store l j v = Some (update l (Z.to_nat j) v).
Proof. intros H. unfold store. now rewrite H. Qed.

(** [tap] as a function of the two elements it loads. *)
Lemma tap_eq (mode : Mode) (first : bool) (coefficient gain : float)
    (i j : Z) (il el : list float) :
  tap mode first coefficient gain i j (il, el)
  = match load il i, load el j with
    | Some vi, Some ve =>
        Some (update il (Z.to_nat i)
                     (fst (filterTap mode first vi ve coefficient gain)),
              update el (Z.to_nat j)
                     (snd (filterTap mode first vi ve coefficient gain)))
    | _, _ => None
    end.
Proof.
  unfold tap. destruct (load il i) as [vi |] eqn:Ei; [| reflexivity].
  destruct (load el j) as [ve |] eqn:Ej; [| reflexivity].
  cbn [bind]. destruct (filterTap mode first vi ve coefficient gain)
    as [vi' ve'].
  rewrite (store_Some _ _ vi' _ Ei), (store_Some _ _ ve' _ Ej).
  reflexivity.
Qed.

(** A tap writes the external storage at index [j] only. *)
Lemma tap_external_frame (mode : Mode) (first : bool)
    (coefficient gain : float) (i j : Z) (mem mem' : list float * list float)
    (j' : Z) :
  tap mode first coefficient gain i j mem = Some mem' ->
  j' <> j -> load (snd mem') j' = load (snd mem) j'.
Proof.
  destruct mem as [il el]. rewrite tap_eq.
  destruct (load il i) as [vi |]; [| discriminate].
  destruct (load el j) as [ve |] eqn:Ej; [| discriminate].
  intros [= <-] Hne. cbn [snd].
  apply load_update_other; [| assumption].
  now apply load_Some_nonneg in Ej.
Qed.

(** In output mode a tap leaves the internal storage as it is. *)
Lemma tap_Output_internal (first : bool) (coefficient gain : float)
    (i j : Z) (mem mem' : list float * list float) :
  tap Output first coefficient gain i j mem = Some mem' ->
  fst mem' = fst mem.
Proof.
  destruct mem as [il el]. rewrite tap_eq.
  destruct (load il i) as [vi |] eqn:Ei; [| discriminate].
  destruct (load el j) as [ve |]; [| discriminate].
  intros [= <-]. cbn [fst]. apply update_same.
  apply load_Some_nonneg in Ei. destruct first; cbn; tauto.
Qed.

(** In input mode a tap leaves the external storage as it is. *)
Lemma tap_Input_external (first : bool) (coefficient gain : float)
    (i j : Z) (mem mem' : list float * list float) :
  tap Input first coefficient gain i j mem = Some mem' ->
  snd mem' = snd mem.
Proof.
  destruct mem as [il el]. rewrite tap_eq.
  destruct (load il i) as [vi |]; [| discriminate].
  destruct (load el j) as [ve |] eqn:Ej; [| discriminate].
  intros [= <-]. cbn [snd]. apply update_same.
  apply load_Some_nonneg in Ej. cbn. tauto.
Qed.

Lemma tap_Input_agree (first : bool) (coefficient gain : float)
    (i j : Z) (il e1 e2 : list float) :
  load e1 j = load e2 j ->
  agree e1 e2 (tap Input first coefficient gain i j (il, e1))
              (tap Input first coefficient gain i j (il, e2)).
Proof.
  intros H. rewrite !tap_eq, <- H. unfold agree.
  destruct (load il i) as [vi |]; [| exact I].
  destruct (load e1 j) as [ve |] eqn:Ej; [| exact I].
  cbn [filterTap fst snd]. split; [reflexivity |].
  symmetry in H. apply load_Some_nonneg in Ej, H.
  split; apply update_same; tauto.
Qed.

Variables (internalStride row externalStride : Z) (gain : float).

Lemma Nearest_channels_frame (mode : Mode) (integer : Z) (j' : Z) (n : nat) :
  forall (c : Z) (mem mem' : list float * list float),
    Nearest_channels mode n c integer internalStride row externalStride
                     gain mem = Some mem' ->
    (forall c', c <= c' < c + Z.of_nat n ->
                j' <> row + c' * externalStride) ->
    load (snd mem') j' = load (snd mem) j'.
Proof.
  induction n as [| n IH]; intros c mem mem' H Hj;
    cbn [Nearest_channels Bilinear_channels] in H.
  - now injection H as <-.
  - destruct (tap mode true f1 gain _ _ mem) as [mem1 |] eqn:E1;
      [| discriminate H].
    cbn [bind] in H.
    rewrite (IH _ _ _ H) by (intros c' Hc'; apply Hj; lia).
    apply (tap_external_frame _ _ _ _ _ _ _ _ _ E1). apply Hj. lia.
Qed.

Lemma Bilinear_channels_frame (mode : Mode) (integer : Z) (fraction : float)
    (j' : Z) (n : nat) :
  forall (c : Z) (mem mem' : list float * list float),
    Bilinear_channels mode n c integer fraction internalStride row
                      externalStride gain mem = Some mem' ->
    (forall c', c <= c' < c + Z.of_nat n ->
                j' <> row + c' * externalStride) ->
    load (snd mem') j' = load (snd mem) j'.
Proof.
  induction n as [| n IH]; intros c mem mem' H Hj;
    cbn [Nearest_channels Bilinear_channels] in H.
  - now injection H as <-.
  - destruct (tap mode true fraction gain _ _ mem) as [mem1 |] eqn:E1;
      [| discriminate H].
    cbn [bind] in H.
    destruct (tap mode false _ gain _ _ mem1) as [mem2 |] eqn:E2;
      [| discriminate H].
    cbn [bind] in H.
    rewrite (IH _ _ _ H) by (intros c' Hc'; apply Hj; lia).
    rewrite (tap_external_frame _ _ _ _ _ _ _ _ _ E2) by (apply Hj; lia).
    apply (tap_external_frame _ _ _ _ _ _ _ _ _ E1). apply Hj. lia.
Qed.

Lemma Nearest_channels_Output_internal (integer : Z) (n : nat) :
  forall (c : Z) (mem mem' : list float * list float),
    Nearest_channels Output n c integer internalStride row externalStride
                     gain mem = Some mem' ->
    fst mem' = fst mem.
Proof.
  induction n as [| n IH]; intros c mem mem' H;
    cbn [Nearest_channels Bilinear_channels] in H.
  - now injection H as <-.
  - destruct (tap Output true f1 gain _ _ mem) as [mem1 |] eqn:E1;
      [| discriminate H].
    cbn [bind] in H. rewrite (IH _ _ _ H).
    apply (tap_Output_internal _ _ _ _ _ _ _ E1).
Qed.

Lemma Bilinear_channels_Output_internal (integer : Z) (fraction : float)
    (n : nat) :
  forall (c : Z) (mem mem' : list float * list float),
    Bilinear_channels Output n c integer fraction internalStride row
                      externalStride gain mem = Some mem' ->
    fst mem' = fst mem.
Proof.
  induction n as [| n IH]; intros c mem mem' H;
    cbn [Nearest_channels Bilinear_channels] in H.
  - now injection H as <-.
  - destruct (tap Output true fraction gain _ _ mem) as [mem1 |] eqn:E1;
      [| discriminate H].
    cbn [bind] in H.
    destruct (tap Output false _ gain _ _ mem1) as [mem2 |] eqn:E2;
      [| discriminate H].
    cbn [bind] in H. rewrite (IH _ _ _ H).
    rewrite (tap_Output_internal _ _ _ _ _ _ _ E2).
    apply (tap_Output_internal _ _ _ _ _ _ _ E1).
Qed.

Lemma Nearest_channels_Input_agree (integer : Z) (e1 e2 : list float)
    (n : nat) :
  forall (c : Z) (il : list float),
    (forall c', c <= c' < c + Z.of_nat n ->
                load e1 (row + c' * externalStride)
                = load e2 (row + c' * externalStride)) ->
    agree e1 e2
      (Nearest_channels Input n c integer internalStride row externalStride
                        gain (il, e1))
      (Nearest_channels Input n c integer internalStride row externalStride
                        gain (il, e2)).
Proof.
  induction n as [| n IH]; intros c il Hj;
    cbn [Nearest_channels Bilinear_channels].
  - repeat split.
  - assert (Hc : load e1 (row + c * externalStride)
                 = load e2 (row + c * externalStride))
      by (apply Hj; lia).
    pose proof (tap_Input_agree true f1 gain
                  (integer + c * internalStride) _ il e1 e2 Hc) as Ht.
    unfold agree in Ht.
    destruct (tap Input true f1 gain _ _ (il, e1)) as [[i1 e1'] |];
      destruct (tap Input true f1 gain _ _ (il, e2)) as [[i2 e2'] |];
      try contradiction; [| exact I].
    destruct Ht as [-> [-> ->]]. cbn [bind].
    apply IH. intros c' Hc'. apply Hj. lia.
Qed.

Lemma Bilinear_channels_Input_agree (integer : Z) (fraction : float)
    (e1 e2 : list float) (n : nat) :
  forall (c : Z) (il : list float),
    (forall c', c <= c' < c + Z.of_nat n ->
                load e1 (row + c' * externalStride)
                = load e2 (row + c' * externalStride)) ->
    agree e1 e2
      (Bilinear_channels Input n c integer fraction internalStride row
                         externalStride gain (il, e1))
      (Bilinear_channels Input n c integer fraction internalStride row
                         externalStride gain (il, e2)).
Proof.
  induction n as [| n IH]; intros c il Hj;
    cbn [Nearest_channels Bilinear_channels].
  - repeat split.
  - assert (Hc : load e1 (row + c * externalStride)
                 = load e2 (row + c * externalStride))
      by (apply Hj; lia).
    pose proof (tap_Input_agree true fraction gain
                  (integer + 1 + c * internalStride) _ il e1 e2 Hc) as Ht.
    unfold agree in Ht.
    destruct (tap Input true fraction gain _ _ (il, e1)) as [[i1 e1'] |];
      destruct (tap Input true fraction gain _ _ (il, e2)) as [[i2 e2'] |];
      try contradiction; [| exact I].
    destruct Ht as [-> [-> ->]]. cbn [bind].
    pose proof (tap_Input_agree false (fsub f1 fraction) gain
                  (integer + 0 + c * internalStride) _ i2 e1 e2 Hc) as Ht.
    unfold agree in Ht.
    destruct (tap Input false _ gain _ _ (i2, e1)) as [[i1' e1'] |];
      destruct (tap Input false _ gain _ _ (i2, e2)) as [[i2' e2'] |];
      try contradiction; [| exact I].
    destruct Ht as [-> [-> ->]]. cbn [bind].
    apply IH. intros c' Hc'. apply Hj. lia.
Qed.

End ResampleLoop.

Section ResampleRows.

Variables (interpolation : Interpolation) (channelCount : Z).
Variables (internalStride externalStride : Z).

Lemma step_frame (mode : Mode) (x gain : float) (row : Z)
    (mem mem' : list float * list float) (j' : Z) :
  step interpolation mode x channelCount internalStride row externalStride
       gain mem = Some mem' ->
  (forall c', 0 <= c' < channelCount -> j' <> row + c' * externalStride) ->
  load (snd mem') j' = load (snd mem) j'.
Proof.
  intros H Hj. unfold step in H.
  destruct interpolation;
    match type of H with bind ?o _ = _ =>
      destruct o as [integer |]; [cbn [bind] in H | discriminate H] end.
  - apply (Nearest_channels_frame _ _ _ _ _ _ _ _ _ _ _ H).
    intros c' Hc'. apply Hj. lia.
  - apply (Bilinear_channels_frame _ _ _ _ _ _ _ _ _ _ _ _ H).
    intros c' Hc'. apply Hj. lia.
Qed.

Lemma step_Output_internal (x gain : float) (row : Z)
    (mem mem' : list float * list float) :
  step interpolation Output x channelCount internalStride row
       externalStride gain mem = Some mem' ->
  fst mem' = fst mem.
Proof.
  intros H. unfold step in H.
  destruct interpolation;
    match type of H with bind ?o _ = _ =>
      destruct o as [integer |]; [cbn [bind] in H | discriminate H] end.
  - apply (Nearest_channels_Output_internal _ _ _ _ _ _ _ _ _ H).
  - apply (Bilinear_channels_Output_internal _ _ _ _ _ _ _ _ _ _ H).
Qed.

Lemma step_Input_agree (x gain : float) (row : Z) (il e1 e2 : list float) :
  (forall c', 0 <= c' < channelCount ->
              load e1 (row + c' * externalStride)
              = load e2 (row + c' * externalStride)) ->
  agree e1 e2
    (step interpolation Input x channelCount internalStride row
          externalStride gain (il, e1))
    (step interpolation Input x channelCount internalStride row
          externalStride gain (il, e2)).
Proof.
  intros Hj. unfold step.
  destruct interpolation;
    match goal with |- agree _ _ (bind ?o _) _ =>
      destruct o as [integer |]; [cbn [bind] | exact I] end.
  - apply Nearest_channels_Input_agree. intros c' Hc'. apply Hj. lia.
  - apply Bilinear_channels_Input_agree. intros c' Hc'. apply Hj. lia.
Qed.

End ResampleRows.

Lemma unmuted_range (external : External) (row : Z) :
  check external -> activeFrameCount external < 2 ^ 63 ->
  unmuted external row = true ->
  unmutedBegin external <= row < unmutedEnd external.
Proof.
  intros [H0 [H1 [H2 H3]]] H63 H. unfold unmuted, to_size_t in H.
  assert (2 ^ 63 < 2 ^ 64) by (apply Z.pow_lt_mono_r; lia).
  rewrite !Z.mod_small in H by lia.
  apply andb_true_iff in H. lia.
Qed.

Lemma unmuted_of_range (external : External) (row : Z) :
  check external -> activeFrameCount external < 2 ^ 63 ->
  unmutedBegin external <= row < unmutedEnd external ->
  unmuted external row = true.
Proof.
  intros [H0 [H1 [H2 H3]]] H63 H. unfold unmuted, to_size_t.
  assert (2 ^ 63 < 2 ^ 64) by (apply Z.pow_lt_mono_r; lia).
  rewrite !Z.mod_small by lia.
  apply andb_true_iff. lia.
Qed.

Section ResampleRun.

Variables (interpolation : Interpolation) (external : External).
Variable internalStride : Z.

Lemma run_rows_frame (mode : Mode) (j' : Z) (n : nat) :
  forall (row0 : Z) (rs rs' : RatioState)
         (mem mem' : list float * list float),
    run_rows interpolation mode n row0 external internalStride rs mem
    = Some (rs', mem') ->
    (forall row c',
        row0 <= row < row0 + Z.of_nat n -> unmuted external row = true ->
        0 <= c' < cols (ref external) ->
        j' <> row + c' * colStride (ref external)) ->
    load (snd mem') j' = load (snd mem) j'.
Proof.
  induction n as [| n IH]; intros row0 rs rs' mem mem' H Hj;
    cbn [run_rows] in H.
  - now injection H as _ <-.
  - fold (unmuted external row0) in H.
    match type of H with bind ?o _ = _ =>
      destruct o as [mem1 |] eqn:E; [cbn [bind] in H | discriminate H] end.
    rewrite (IH _ _ _ _ _ H)
      by (intros r c' Hr Hu Hc; apply Hj; try assumption; lia).
    destruct (unmuted external row0) eqn:Eu.
    + apply (step_frame _ _ _ _ _ _ _ _ _ _ _ E).
      intros c' Hc'. apply Hj; try assumption; lia.
    + now injection E as <-.
Qed.

Lemma run_rows_Output_internal (n : nat) :
  forall (row0 : Z) (rs rs' : RatioState)
         (mem mem' : list float * list float),
    run_rows interpolation Output n row0 external internalStride rs mem
    = Some (rs', mem') ->
    fst mem' = fst mem.
Proof.
  induction n as [| n IH]; intros row0 rs rs' mem mem' H;
    cbn [run_rows] in H.
  - now injection H as _ <-.
  - match type of H with bind ?o _ = _ =>
      destruct o as [mem1 |] eqn:E; [cbn [bind] in H | discriminate H] end.
    rewrite (IH _ _ _ _ _ H).
    match type of E with (if ?b then _ else _) = _ => destruct b end.
    + apply (step_Output_internal _ _ _ _ _ _ _ _ _ E).
    + now injection E as <-.
Qed.

Lemma run_rows_Input_agree (e1 e2 : list float) (n : nat) :
  forall (row0 : Z) (rs : RatioState) (il : list float),
    (forall row c',
        row0 <= row < row0 + Z.of_nat n -> unmuted external row = true ->
        0 <= c' < cols (ref external) ->
        load e1 (row + c' * colStride (ref external))
        = load e2 (row + c' * colStride (ref external))) ->
    agree_rows e1 e2
      (run_rows interpolation Input n row0 external internalStride rs
                (il, e1))
      (run_rows interpolation Input n row0 external internalStride rs
                (il, e2)).
Proof.
  induction n as [| n IH]; intros row0 rs il Hj; cbn [run_rows].
  - repeat split.
  - fold (unmuted external row0).
    destruct (unmuted external row0) eqn:Eu.
    + assert (Hprem : forall c', 0 <= c' < cols (ref external) ->
                load e1 (row0 + c' * colStride (ref external))
                = load e2 (row0 + c' * colStride (ref external)))
        by (intros c' Hc'; apply Hj; try assumption; lia).
      pose proof (step_Input_agree interpolation (cols (ref external))
                    internalStride (colStride (ref external))
                    (to_float (x rs)) (to_float (rs_ratio rs)) row0 il e1 e2
                    Hprem) as Hs.
      unfold agree in Hs.
      destruct (step interpolation Input _ _ _ _ _ _ (il, e1))
        as [[i1 e1'] |];
        destruct (step interpolation Input _ _ _ _ _ _ (il, e2))
          as [[i2 e2'] |]; cbn [bind]; try contradiction; [| exact I].
      destruct Hs as [-> [-> ->]].
      apply IH. intros r c' Hr Hu Hc. apply Hj; try assumption; lia.
    + cbn [bind].
      apply IH. intros r c' Hr Hu Hc. apply Hj; try assumption; lia.
Qed.

End ResampleRun.

(** C6 (as amended): for a run of the resampling loop over an external
    buffer that passes [External::check] (with its rows inside the column
    stride): in output mode the rows outside [unmutedBegin, unmutedEnd) are
    not written, they keep the values they had (nothing sets them to zero),
    and the internal buffer is left as it is; in input mode the external
    buffer is left as it is and the rows outside the range contribute
    nothing to the accumulated internal buffer, the rows inside the range
    being the only ones read: any other external storage that agrees on
    those rows gives the same internal buffer and ratio state. *)
Theorem run_muted_rows
    (interpolation : Interpolation) (ratioState : RatioState)
    (internal : Internal) (external : External) :
  check external ->
  activeFrameCount external < 2 ^ 63 ->
  rows (ref external) <= colStride (ref external) ->
  let stride := colStride (ref external) in
  let inside (row : Z) :=
    unmutedBegin external <= row < unmutedEnd external in
  (forall ratioState' internal' external',
      run interpolation Output ratioState internal external
      = Some (ratioState', internal', external') ->
      internal' = internal
      /\ forall row c,
           0 <= row < rows (ref external) -> ~ inside row ->
           0 <= c < cols (ref external) ->
           load (data external') (row + c * stride)
           = load (data (ref external)) (row + c * stride))
  /\ (forall ratioState' internal' external',
        run interpolation Input ratioState internal external
        = Some (ratioState', internal', external') ->
        external' = ref external)
  /\ (forall other : list float,
        (forall row c,
            inside row -> 0 <= c < cols (ref external) ->
            load other (row + c * stride)
            = load (data (ref external)) (row + c * stride)) ->
        internal_result
          (run interpolation Input ratioState internal
               (with_data external other))
        = internal_result
            (run interpolation Input ratioState internal external)).
Proof.
  intros Hcheck H63 Hstride. cbv zeta.
  pose proof Hcheck as [H0 [H1 [H2 H3]]].
  split; [| split].
  - intros rs' internal' external' H. unfold run in H.
    match type of H with bind ?o _ = _ =>
      destruct o as [[rs1 [idata edata]] |] eqn:E;
        [cbn [bind] in H | discriminate H] end.
    injection H as <- <- <-.
    pose proof (run_rows_Output_internal _ _ _ _ _ _ _ _ _ E) as Hi.
    cbn [fst] in Hi. subst idata. split.
    + destruct internal as [[d r c s] fc off]. reflexivity.
    + intros row c Hrow Hout Hc. cbn [data].
      apply (run_rows_frame _ _ _ _ _ _ _ _ _ _ _ E).
      intros row' c' Hrow' Hu Hc' Heq.
      apply (unmuted_range _ _ Hcheck H63) in Hu.
      assert (c = c') by nia. subst c'. lia.
  - intros rs' internal' external' H. unfold run in H.
    match type of H with bind ?o _ = _ =>
      destruct o as [[rs1 [idata edata]] |] eqn:E;
        [cbn [bind] in H | discriminate H] end.
    injection H as <- <- <-.
    pose proof (run_rows_Input_agree interpolation external
                  (colStride (setZero (array internal)))
                  (data (ref external)) (data (ref external))
                  (Z.to_nat (to_size_t (activeFrameCount external))) 0
                  ratioState (data (setZero (array internal)))
                  (fun _ _ _ _ _ => eq_refl)) as Ha.
    rewrite E in Ha. cbn [agree_rows] in Ha. destruct Ha as [_ [_ [-> _]]].
    destruct (ref external) as [d r c s]. reflexivity.
  - intros other Hother. unfold run.
    change (run_rows interpolation Input
              (Z.to_nat (to_size_t (activeFrameCount (with_data external other))))
              0 (with_data external other)
              (colStride (setZero (array internal))) ratioState
              (data (setZero (array internal)),
               data (ref (with_data external other))))
      with (run_rows interpolation Input
              (Z.to_nat (to_size_t (activeFrameCount external)))
              0 (with_data external other)
              (colStride (setZero (array internal))) ratioState
              (data (setZero (array internal)), other)).
    assert (Hsame : forall n row0 rs mem,
              run_rows interpolation Input n row0 (with_data external other)
                       (colStride (setZero (array internal))) rs mem
              = run_rows interpolation Input n row0 external
                         (colStride (setZero (array internal))) rs mem).
    { induction n as [| n IH]; intros row0 rs mem; cbn [run_rows].
      - reflexivity.
      - cbn [with_data unmutedBegin unmutedEnd ref cols colStride].
        destruct ((to_size_t (unmutedBegin external) <=? row0)
                  && (row0 <? to_size_t (unmutedEnd external)));
          [destruct (step _ _ _ _ _ _ _ _ mem) as [mem' |] |];
          cbn [bind]; try reflexivity; apply IH. }
    rewrite Hsame.
    pose proof (run_rows_Input_agree interpolation external
                  (colStride (setZero (array internal)))
                  other (data (ref external))
                  (Z.to_nat (to_size_t (activeFrameCount external))) 0
                  ratioState (data (setZero (array internal)))) as Ha.
    assert (Hprem : forall row c',
              0 <= row
                < 0 + Z.of_nat (Z.to_nat (to_size_t (activeFrameCount external))) ->
              unmuted external row = true ->
              0 <= c' < cols (ref external) ->
              load other (row + c' * colStride (ref external))
              = load (data (ref external))
                     (row + c' * colStride (ref external))).
    { intros row c' _ Hu Hc'. apply Hother; [| assumption].
      apply (unmuted_range _ _ Hcheck H63 Hu). }
    specialize (Ha Hprem). unfold agree_rows in Ha.
    destruct (run_rows interpolation Input _ 0 external _ ratioState
                (data (setZero (array internal)), other))
      as [[rs1 [i1 e1]] |];
      destruct (run_rows interpolation Input _ 0 external _ ratioState
                  (data (setZero (array internal)), data (ref external)))
        as [[rs2 [i2 e2]] |]; cbn [bind internal_result];
      try contradiction; [| reflexivity].
    destruct Ha as [-> [-> _]]. reflexivity.
Qed.

(** C6, instance: a bilinear output-mode run over the example buffers
    leaves the muted row 0 of channel 0 as it was. *)
Lemma run_muted_rows_witness :
  exists (ratioState' : RatioState) (internal' : Internal) (external' : Array),
    run Bilinear Output example_ratioState example_internal example_external
    = Some (ratioState', internal', external')
    /\ load (data external') (0 + 0 * 4)
       = load (data (ref example_external)) (0 + 0 * 4).
Proof.
  eexists. eexists. eexists.
  match goal with
  | |- ?R = Some (?a, ?b, ?c) /\ _ =>
      assert (E : R = Some (a, b, c)) by (vm_compute; reflexivity)
  end.
  split; [exact E |].
  assert (Hcheck : check example_external)
    by (unfold check; cbn; lia).
  assert (H63 : activeFrameCount example_external < 2 ^ 63)
    by (cbn; lia).
  assert (Hstride : rows (ref example_external)
                    <= colStride (ref example_external))
    by (cbn; lia).
  pose proof (run_muted_rows Bilinear example_ratioState example_internal
                example_external Hcheck H63 Hstride) as [Hout _].
  destruct (Hout _ _ _ E) as [_ Hrows].
  apply (Hrows 0 0); cbn; lia.
Defined.

(** C6, as stated, fails: in that output-mode run the rows 0 and 3 lie
    outside the unmuted range [1, 3) and still hold 1 afterwards, not 0,
    while the rows inside the range were written. *)
Lemma run_output_muted_rows_counterexample :
  exists (ratioState' : RatioState) (internal' : Internal) (external' : Array),
    run Bilinear Output example_ratioState example_internal example_external
    = Some (ratioState', internal', external')
    /\ unmutedBegin example_external = 1
    /\ unmutedEnd example_external = 3
    /\ load (data external') 0 = Some f1
    /\ load (data external') 3 = Some f1
    /\ load (data external') 1 = Some fhalf
    /\ f1 <> f0.
Proof.
  eexists. eexists. eexists.
  split; [vm_compute; reflexivity |].
  repeat split; try (vm_compute; reflexivity).
  vm_compute. discriminate.
Qed.

(** ** Canonical results of rounding

    The operations of [SpecFloat] return canonical floats: the exponent of
    a finite result is the one its number of digits calls for.  The section
    proves it for any format with [0 < prec < emax]. *)

Section Digits.

Lemma digits2_pos_bounds (p : positive) :
  2 ^ (Zpos (digits2_pos p) - 1) <= Zpos p < 2 ^ Zpos (digits2_pos p).
Proof.
  induction p as [p IH | p IH |]; cbn [digits2_pos].
  - rewrite Pos2Z.inj_succ.
    replace (Z.succ (Zpos (digits2_pos p)) - 1)
      with (Z.succ (Zpos (digits2_pos p) - 1)) by lia.
    rewrite !Z.pow_succ_r by lia. lia.
  - rewrite Pos2Z.inj_succ.
    replace (Z.succ (Zpos (digits2_pos p)) - 1)
      with (Z.succ (Zpos (digits2_pos p) - 1)) by lia.
    rewrite !Z.pow_succ_r by lia. lia.
  - simpl. lia.
Qed.

Lemma Zdigits2_nonneg (m : Z) : 0 <= Zdigits2 m.
Proof. destruct m; simpl; lia. Qed.

Lemma Zdigits2_pos (m : Z) : 0 < m -> 0 < Zdigits2 m.
Proof. destruct m; simpl; lia. Qed.

Lemma Zdigits2_bounds (m : Z) :
  0 < m -> 2 ^ (Zdigits2 m - 1) <= m < 2 ^ Zdigits2 m.
Proof.
  destruct m as [| p | p]; try lia. intros _. apply digits2_pos_bounds.
Qed.

(** The number of digits is the only [k] with [2^(k-1) <= m < 2^k]. *)
Lemma Zdigits2_unique (m k : Z) :
  0 < m -> 2 ^ (k - 1) <= m < 2 ^ k -> Zdigits2 m = k.
Proof.
  intros Hm [Hlo Hhi].
  pose proof (Zdigits2_bounds m Hm) as [Dlo Dhi].
  pose proof (Zdigits2_pos m Hm) as Hd.
  assert (Hk : 0 < k).
  { destruct (Z_lt_le_dec 0 k) as [| Hk0]; [assumption |].
    exfalso. destruct (Z.eq_dec k 0) as [-> | Hne].
    - simpl in Hhi. lia.
    - rewrite (Z.pow_neg_r 2 k) in Hhi by lia. lia. }
  destruct (Z.lt_trichotomy (Zdigits2 m) k) as [Hlt | [Heq | Hgt]].
  - exfalso.
    assert (2 ^ Zdigits2 m <= 2 ^ (k - 1))
      by (apply Z.pow_le_mono_r; lia). lia.
  - exact Heq.
  - exfalso.
    assert (2 ^ k <= 2 ^ (Zdigits2 m - 1))
      by (apply Z.pow_le_mono_r; lia). lia.
Qed.

Lemma Zdigits2_lower (m k : Z) : 0 < m -> 2 ^ (k - 1) <= m -> k <= Zdigits2 m.
Proof.
  intros Hm Hlo.
  pose proof (Zdigits2_bounds m Hm) as [Dlo Dhi].
  destruct (Z_lt_le_dec (Zdigits2 m) k) as [Hlt |]; [| assumption].
  exfalso.
  assert (2 ^ Zdigits2 m <= 2 ^ (k - 1))
    by (apply Z.pow_le_mono_r; pose proof (Zdigits2_nonneg m); lia).
  lia.
Qed.

Lemma Zdigits2_upper (m k : Z) : 0 < m -> 0 <= k -> m < 2 ^ k -> Zdigits2 m <= k.
Proof.
  intros Hm Hk Hhi.
  pose proof (Zdigits2_bounds m Hm) as [Dlo Dhi].
  destruct (Z_lt_le_dec k (Zdigits2 m)) as [Hlt |]; [| assumption].
  exfalso.
  assert (2 ^ k <= 2 ^ (Zdigits2 m - 1))
    by (apply Z.pow_le_mono_r; lia).
  lia.
Qed.

Lemma Zdigits2_mul_pow (m k : Z) :
  0 < m -> 0 <= k -> Zdigits2 (m * 2 ^ k) = Zdigits2 m + k.
Proof.
  intros Hm Hk.
  pose proof (Zdigits2_bounds m Hm) as [Dlo Dhi].
  pose proof (Zdigits2_pos m Hm) as Hd.
  assert (Hp : 0 < 2 ^ k) by (apply Z.pow_pos_nonneg; lia).
  apply Zdigits2_unique; [nia |].
  replace (Zdigits2 m + k - 1) with (Zdigits2 m - 1 + k) by lia.
  rewrite !Z.pow_add_r by lia. nia.
Qed.

Lemma Zdigits2_div_pow (m k : Z) :
  0 < m -> 0 <= k < Zdigits2 m -> Zdigits2 (m / 2 ^ k) = Zdigits2 m - k.
Proof.
  intros Hm Hk.
  pose proof (Zdigits2_bounds m Hm) as [Dlo Dhi].
  assert (Hp : 0 < 2 ^ k) by (apply Z.pow_pos_nonneg; lia).
  assert (Hlo : 2 ^ (Zdigits2 m - k - 1) <= m / 2 ^ k).
  { apply Z.div_le_lower_bound; [assumption |].
    rewrite <- Z.pow_add_r by lia.
    replace (k + (Zdigits2 m - k - 1)) with (Zdigits2 m - 1) by lia.
    assumption. }
  assert (Hhi : m / 2 ^ k < 2 ^ (Zdigits2 m - k)).
  { apply Z.div_lt_upper_bound; [assumption |].
    rewrite <- Z.pow_add_r by lia.
    replace (k + (Zdigits2 m - k)) with (Zdigits2 m) by lia.
    assumption. }
  apply Zdigits2_unique; [| split; assumption].
  assert (0 < 2 ^ (Zdigits2 m - k - 1)) by (apply Z.pow_pos_nonneg; lia).
  lia.
Qed.

Lemma div_pow_small (m k : Z) :
  0 <= m -> Zdigits2 m <= k -> m / 2 ^ k = 0.
Proof.
  intros Hm Hk. destruct (Z.eq_dec m 0) as [-> | Hne].
  - apply Z.div_0_l. pose proof (Z.pow_pos_nonneg 2 k).
    pose proof (Zdigits2_nonneg 0). lia.
  - assert (Hm' : 0 < m) by lia.
    pose proof (Zdigits2_bounds m Hm') as [Dlo Dhi].
    pose proof (Zdigits2_pos m Hm').
    apply Z.div_small. split; [lia |].
    assert (2 ^ Zdigits2 m <= 2 ^ k) by (apply Z.pow_le_mono_r; lia).
    lia.
Qed.

Lemma Zdigits2_succ (m : Z) :
  0 < m -> Zdigits2 m <= Zdigits2 (m + 1) <= Zdigits2 m + 1.
Proof.
  intros Hm.
  pose proof (Zdigits2_bounds m Hm) as [Dlo Dhi].
  pose proof (Zdigits2_pos m Hm).
  split.
  - apply Zdigits2_lower; lia.
  - apply Zdigits2_upper; try lia.
    rewrite Z.pow_add_r by lia. simpl (2 ^ 1). lia.
Qed.

Lemma iter_xO (m : positive) (k : positive) :
  Zpos (Pos.iter xO m k) = Zpos m * 2 ^ Zpos k.
Proof.
  induction k as [| k IH] using Pos.peano_ind.
  - cbn [Pos.iter]. rewrite Pos2Z.inj_xO. change (2 ^ 1) with 2. lia.
  - rewrite Pos.iter_succ, Pos2Z.inj_succ, Z.pow_succ_r by lia.
    rewrite Pos2Z.inj_xO, IH. lia.
Qed.

(** [shl_align] keeps the value and lowers the exponent to [e'] when [e']
    is below [e]. *)
Lemma shl_align_spec (m : positive) (e e' : Z) :
  shl_align m e e'
  = if e' <? e
    then (Z.to_pos (Zpos m * 2 ^ (e - e')), e')
    else (m, e).
Proof.
  unfold shl_align. destruct (e' - e) as [| d | d] eqn:E.
  - destruct (e' <? e) eqn:L; [lia | reflexivity].
  - destruct (e' <? e) eqn:L; [lia | reflexivity].
  - destruct (e' <? e) eqn:L; [| lia].
    replace (e - e') with (Zpos d) by lia.
    rewrite <- iter_xO. reflexivity.
Qed.

Lemma shr_1_div (mrs : shr_record) :
  0 <= shr_m mrs -> shr_m (shr_1 mrs) = shr_m mrs / 2.
Proof.
  destruct mrs as [m r s]. cbn [shr_m shr_1].
  destruct m as [| [p | p |] | p]; cbn [shr_m]; intros H; try lia.
  - reflexivity.
  - rewrite Pos2Z.inj_xI.
    apply Z.div_unique with (r := 1); lia.
  - rewrite Pos2Z.inj_xO.
    apply Z.div_unique with (r := 0); lia.
  - reflexivity.
Qed.

Lemma iter_shr_1_div (k : positive) :
  forall mrs : shr_record,
    0 <= shr_m mrs ->
    shr_m (iter_pos shr_1 k mrs) = shr_m mrs / 2 ^ Zpos k.
Proof.
  induction k as [k IH | k IH |]; intros mrs Hm; cbn [iter_pos].
  - assert (H1 : 0 <= shr_m (shr_1 mrs)) by now apply shr_1_nonneg.
    assert (H2 : 0 <= shr_m (iter_pos shr_1 k (shr_1 mrs))).
    { apply (iter_pos_invariant shr_1 (fun x => 0 <= shr_m x));
        auto using shr_1_nonneg. }
    rewrite (IH _ H2), (IH _ H1), shr_1_div by assumption.
    rewrite !Z.div_div by (try apply Z.pow_pos_nonneg; lia).
    f_equal. rewrite Pos2Z.inj_xI.
    rewrite <- Z.pow_add_r by lia.
    replace (2 * Zpos k + 1) with (1 + (Zpos k + Zpos k)) by lia.
    rewrite (Z.pow_add_r 2 1) by lia. reflexivity.
  - assert (H2 : 0 <= shr_m (iter_pos shr_1 k mrs)).
    { apply (iter_pos_invariant shr_1 (fun x => 0 <= shr_m x));
        auto using shr_1_nonneg. }
    rewrite (IH _ H2), (IH _ Hm).
    rewrite !Z.div_div by (try apply Z.pow_pos_nonneg; lia).
    f_equal. rewrite Pos2Z.inj_xO.
    rewrite <- Z.pow_add_r by lia. f_equal. lia.
  - rewrite shr_1_div by assumption. reflexivity.
Qed.

(** A right shift by [n] positions divides the mantissa by [2^n] and adds
    [n] to the exponent; a shift by nothing or less changes nothing. *)
Lemma shr_spec (mrs : shr_record) (e n : Z) :
  0 <= shr_m mrs ->
  shr_m (fst (shr mrs e n)) = shr_m mrs / 2 ^ Z.max 0 n
  /\ snd (shr mrs e n) = e + Z.max 0 n.
Proof.
  intros Hm. unfold shr. destruct n as [| p | p]; cbn [fst snd].
  - simpl. rewrite Z.div_1_r. lia.
  - rewrite iter_shr_1_div by assumption.
    replace (Z.max 0 (Zpos p)) with (Zpos p) by lia. split; reflexivity.
  - replace (Z.max 0 (Zneg p)) with 0 by lia.
    simpl. rewrite Z.div_1_r. lia.
Qed.

Lemma round_nearest_even_step (m : Z) (l : location) :
  round_nearest_even m l = m \/ round_nearest_even m l = m + 1.
Proof.
  unfold round_nearest_even.
  destruct l as [| [ | | ]]; auto. destruct (Z.even m); auto.
Qed.

End Digits.

Section Validity.

Variables prec emax : Z.
Hypothesis Hprec : 0 < prec.
Hypothesis Hemax : prec < emax.

Let emin := SpecFloat.emin prec emax.
Let fexp := SpecFloat.fexp prec emax.

Lemma fexp_spec (x : Z) : fexp x = Z.max (x - prec) (3 - emax - prec).
Proof. reflexivity. Qed.

(** Rounding yields a canonical float whenever the exponent it is given
    is not above the canonical one. *)
Lemma binary_round_aux_valid (s : bool) (m e : Z) (l : location) :
  0 <= m -> e <= fexp (Zdigits2 m + e) ->
  valid_binary prec emax (binary_round_aux prec emax s m e l) = true.
Proof.
  intros Hm He. unfold binary_round_aux, shr_fexp. fold fexp.
  pose proof (fexp_spec (Zdigits2 m + e)) as F0.
  remember (fexp (Zdigits2 m + e) - e) as k eqn:Hkdef.
  assert (Hk : 0 <= k) by lia.
  pose proof (shr_spec (shr_record_of_loc m l) e k) as [Hm1 He1];
    [rewrite shr_record_of_loc_m; assumption |].
  rewrite shr_record_of_loc_m in Hm1.
  replace (Z.max 0 k) with k in Hm1, He1 by lia.
  destruct (shr (shr_record_of_loc m l) e k) as [mrs' e'].
  cbn [fst snd] in Hm1, He1.
  remember (shr_m mrs') as m1 eqn:Hm1def.
  remember (round_nearest_even m1 (loc_of_shr_record mrs')) as m2 eqn:Hm2def.
  assert (Hpow : 0 < 2 ^ k) by (apply Z.pow_pos_nonneg; lia).
  assert (Hm1' : 0 <= m1) by (rewrite Hm1; apply Z.div_pos; lia).
  assert (Hm2 : m2 = m1 \/ m2 = m1 + 1)
    by (rewrite Hm2def; apply round_nearest_even_step).
  assert (Hm2' : 0 <= m2) by lia.
  pose proof (fexp_spec (Zdigits2 m2 + e')) as F2.
  remember (fexp (Zdigits2 m2 + e') - e') as k2 eqn:Hk2def.
  pose proof (shr_spec (shr_record_of_loc m2 loc_Exact) e' k2) as [Hm3 He3];
    [rewrite shr_record_of_loc_m; assumption |].
  rewrite shr_record_of_loc_m in Hm3.
  destruct (shr (shr_record_of_loc m2 loc_Exact) e' k2) as [mrs'' e''].
  cbn [fst snd] in Hm3, He3.
  destruct (shr_m mrs'') as [| p | p] eqn:Ep; [reflexivity | |].
  2:{ exfalso.
      assert (0 <= m2 / 2 ^ Z.max 0 k2)
        by (apply Z.div_pos; [| apply Z.pow_pos_nonneg]; lia).
      lia. }
  destruct (e'' <=? emax - prec) eqn:Ebound; [| reflexivity].
  cbn [valid_binary]. unfold bounded, canonical_mantissa. fold fexp.
  rewrite Ebound, andb_true_r. apply Z.eqb_eq.
  change (Zpos (digits2_pos p)) with (Zdigits2 (Zpos p)). rewrite Hm3.
  assert (Hm2pos : 0 < m2).
  { destruct (Z.eq_dec m2 0) as [E0 | ]; [| lia].
    rewrite E0, Z.div_0_l in Hm3; [lia |].
    pose proof (Z.pow_pos_nonneg 2 (Z.max 0 k2)). lia. }
  assert (K : e' <= fexp (Zdigits2 m2 + e') <= e' + 1).
  { destruct (Z.eq_dec m1 0) as [E1 | N1].
    - assert (E2 : m2 = 1) by lia.
      assert (Hd : Zdigits2 m <= k).
      { destruct (Z.eq_dec m 0) as [E0 | Nm]; [rewrite E0; simpl; lia |].
        apply Zdigits2_upper; try lia.
        destruct (Z_lt_le_dec m (2 ^ k)) as [| Hge]; [assumption |].
        exfalso.
        assert (1 <= m / 2 ^ k)
          by (apply Z.div_le_lower_bound; lia).
        lia. }
      assert (Hmin : e' = 3 - emax - prec) by lia.
      rewrite E2 in F2. change (Zdigits2 1) with 1 in F2.
      rewrite E2. change (Zdigits2 1) with 1. lia.
    - assert (Hmpos : 0 < m).
      { destruct (Z.eq_dec m 0) as [E0 |]; [| lia].
        rewrite E0, Z.div_0_l in Hm1; lia. }
      assert (Hkd : k < Zdigits2 m).
      { destruct (Z_lt_le_dec k (Zdigits2 m)) as [| Hge]; [assumption |].
        exfalso. rewrite (div_pow_small m k) in Hm1; lia. }
      assert (Hd1 : Zdigits2 m1 = Zdigits2 m - k)
        by (rewrite Hm1; apply Zdigits2_div_pow; lia).
      destruct Hm2 as [E2 | E2].
      + rewrite E2 in F2 |- *. rewrite Hd1 in F2 |- *.
        replace (Zdigits2 m - k + e') with (Zdigits2 m + e) in F2 |- * by lia.
        lia.
      + pose proof (Zdigits2_succ m1 ltac:(lia)) as Hs.
        rewrite <- E2 in Hs. lia. }
  destruct (Z_le_gt_dec k2 0) as [Hle | Hgt].
  - replace (Z.max 0 k2) with 0 in * by lia.
    rewrite Z.pow_0_r, Z.div_1_r.
    replace e'' with e' by lia. lia.
  - assert (Hk2 : k2 = 1) by lia.
    rewrite Hk2 in *. replace (Z.max 0 1) with 1 in * by lia.
    assert (Hd2 : 1 < Zdigits2 m2).
    { destruct (Z_lt_le_dec 1 (Zdigits2 m2)) as [| Hge]; [assumption |].
      exfalso. rewrite (div_pow_small m2 1) in Hm3; lia. }
    rewrite Zdigits2_div_pow by lia.
    replace (Zdigits2 m2 - 1 + e'') with (Zdigits2 m2 + e') by lia.
    lia.
Qed.

Lemma binary_round_valid (s : bool) (m : positive) (e : Z) :
  valid_binary prec emax (binary_round prec emax s m e) = true.
Proof.
  unfold binary_round. fold fexp. rewrite shl_align_spec.
  change (Zpos (digits2_pos m)) with (Zdigits2 (Zpos m)).
  destruct (fexp (Zdigits2 (Zpos m) + e) <? e) eqn:E.
  - apply Z.ltb_lt in E.
    set (c := fexp (Zdigits2 (Zpos m) + e)) in *.
    assert (Hp : 0 < 2 ^ (e - c)) by (apply Z.pow_pos_nonneg; lia).
    apply binary_round_aux_valid; [lia |].
    rewrite Z2Pos.id by lia.
    rewrite Zdigits2_mul_pow by lia.
    replace (Zdigits2 (Zpos m) + (e - c) + c)
      with (Zdigits2 (Zpos m) + e) by lia.
    fold c. lia.
  - apply Z.ltb_ge in E. apply binary_round_aux_valid; lia.
Qed.

Lemma binary_normalize_valid (m e : Z) (s : bool) :
  valid_binary prec emax (binary_normalize prec emax m e s) = true.
Proof.
  destruct m; cbn [binary_normalize]; try reflexivity;
    apply binary_round_valid.
Qed.

Lemma SFopp_valid (x : spec_float) :
  valid_binary prec emax x = true ->
  valid_binary prec emax (SFopp x) = true.
Proof. destruct x; auto. Qed.

Lemma SFadd_valid (x y : spec_float) :
  valid_binary prec emax x = true -> valid_binary prec emax y = true ->
  valid_binary prec emax (SFadd prec emax x y) = true.
Proof.
  intros Hx Hy.
  destruct x as [sx | sx | | sx mx ex], y as [sy | sy | | sy my ey];
    [> try exact Hx; try exact Hy; try reflexivity;
       try (destruct sx, sy; reflexivity) .. | ].
  apply binary_normalize_valid.
Qed.

Lemma SFsub_valid (x y : spec_float) :
  valid_binary prec emax x = true -> valid_binary prec emax y = true ->
  valid_binary prec emax (SFsub prec emax x y) = true.
Proof.
  intros Hx Hy.
  destruct x as [sx | sx | | sx mx ex], y as [sy | sy | | sy my ey];
    [> try exact Hx; try exact Hy; try reflexivity;
       try (destruct sx, sy; reflexivity) .. | ].
  apply binary_normalize_valid.
Qed.

Lemma canonical_spec (m : positive) (e : Z) :
  valid_binary prec emax (S754_finite false m e) = true ->
  e = Z.max (Zdigits2 (Zpos m) + e - prec) (3 - emax - prec)
  /\ e <= emax - prec.
Proof.
  cbn [valid_binary]. unfold bounded, canonical_mantissa. fold fexp.
  intros H. apply andb_true_iff in H. destruct H as [H1 H2].
  apply Z.eqb_eq in H1. apply Z.leb_le in H2.
  change (Zpos (digits2_pos m)) with (Zdigits2 (Zpos m)) in H1.
  rewrite fexp_spec in H1. lia.
Qed.

Lemma SFmul_valid (x y : spec_float) :
  valid_binary prec emax x = true -> valid_binary prec emax y = true ->
  valid_binary prec emax (SFmul prec emax x y) = true.
Proof.
  intros Hx Hy.
  destruct x as [sx | sx | | sx mx ex], y as [sy | sy | | sy my ey];
    [> try reflexivity .. | ].
  cbn [SFmul].
  apply (canonical_spec mx ex) in Hx. apply (canonical_spec my ey) in Hy.
  pose proof (Zdigits2_bounds (Zpos mx) ltac:(lia)) as [Xlo Xhi].
  pose proof (Zdigits2_bounds (Zpos my) ltac:(lia)) as [Ylo Yhi].
  pose proof (Zdigits2_pos (Zpos mx) ltac:(lia)) as Dx.
  pose proof (Zdigits2_pos (Zpos my) ltac:(lia)) as Dy.
  apply binary_round_aux_valid; [lia |].
  rewrite Pos2Z.inj_mul.
  assert (Hd : Zdigits2 (Zpos mx) + Zdigits2 (Zpos my) - 1
               <= Zdigits2 (Zpos mx * Zpos my)).
  { apply Zdigits2_lower; [lia |].
    replace (Zdigits2 (Zpos mx) + Zdigits2 (Zpos my) - 1 - 1)
      with ((Zdigits2 (Zpos mx) - 1) + (Zdigits2 (Zpos my) - 1)) by lia.
    rewrite Z.pow_add_r by lia.
    apply Z.mul_le_mono_nonneg; try assumption;
      apply Z.pow_nonneg; lia. }
  rewrite fexp_spec. lia.
Qed.

Lemma SFdiv_valid (x y : spec_float) :
  valid_binary prec emax (SFdiv prec emax x y) = true.
Proof.
  destruct x as [sx | sx | | sx mx ex], y as [sy | sy | | sy my ey];
    [> try reflexivity .. | ].
  cbn [SFdiv]. unfold SFdiv_core_binary. fold fexp.
  remember (Zdigits2 (Zpos mx)) as d1 eqn:Hd1.
  remember (Zdigits2 (Zpos my)) as d2 eqn:Hd2.
  pose proof (fexp_spec (d1 + ex - (d2 + ey))) as F0.
  remember (Z.min (fexp (d1 + ex - (d2 + ey))) (ex - ey)) as e' eqn:He'.
  remember (ex - ey - e') as s eqn:Hsdef.
  assert (Hs : 0 <= s) by lia.
  assert (Hm' : match s with
                | 0 => Zpos mx
                | Zpos _ => Z.shiftl (Zpos mx) s
                | Zneg _ => 0
                end = Zpos mx * 2 ^ s).
  { destruct s as [| p | p]; try lia.
    rewrite Z.shiftl_mul_pow2 by lia. reflexivity. }
  rewrite Hm'.
  remember (Zpos mx * 2 ^ s) as m' eqn:Hm'def.
  pose proof (Z.div_eucl_eq m' (Zpos my) ltac:(lia)) as Heq.
  pose proof (Z.mod_pos_bound m' (Zpos my) ltac:(lia)) as Hmod.
  unfold Z.modulo in Hmod.
  destruct (Z.div_eucl m' (Zpos my)) as [q r].
  assert (Hp : 0 < 2 ^ s) by (apply Z.pow_pos_nonneg; lia).
  assert (Hq : 0 <= q) by nia.
  apply binary_round_aux_valid; [assumption |].
  pose proof (fexp_spec (Zdigits2 q + e')) as F1.
  assert (Hd : d1 + s - d2 <= Zdigits2 q).
  { assert (Dm : Zdigits2 m' = d1 + s)
      by (rewrite Hm'def, Hd1; apply Zdigits2_mul_pow; lia).
    pose proof (Zdigits2_bounds m' ltac:(nia)) as [Mlo Mhi].
    pose proof (Zdigits2_bounds (Zpos my) ltac:(lia)) as [Ylo Yhi].
    rewrite <- Hd2 in Ylo, Yhi. rewrite Dm in Mlo, Mhi.
    pose proof (Zdigits2_pos (Zpos my) ltac:(lia)) as Dy.
    rewrite <- Hd2 in Dy.
    pose proof (Zdigits2_pos (Zpos mx) ltac:(lia)) as Dx.
    rewrite <- Hd1 in Dx.
    destruct (Z_le_gt_dec (d1 + s - d2) 0) as [Hle | Hgt].
    - pose proof (Zdigits2_nonneg q). lia.
    - assert (Hqpos : 0 < q).
      { destruct (Z.eq_dec q 0) as [E0 |]; [| lia]. exfalso.
        assert (2 ^ d2 <= 2 ^ (d1 + s - 1))
          by (apply Z.pow_le_mono_r; lia).
        subst q. lia. }
      apply Zdigits2_lower; [assumption |].
      destruct (Z_le_gt_dec (2 ^ (d1 + s - d2 - 1)) q) as [| Hlt];
        [assumption |].
      exfalso.
      assert (Hsplit : 2 ^ (d1 + s - 1) = 2 ^ (d1 + s - d2 - 1) * 2 ^ d2).
      { rewrite <- Z.pow_add_r by lia. f_equal. lia. }
      assert (0 < 2 ^ (d1 + s - d2 - 1))
        by (apply Z.pow_pos_nonneg; lia).
      nia. }
  lia.
Qed.

End Validity.

(** ** binary64: closure and exact results *)

Lemma dprec_pos : 0 < dprec.
Proof. reflexivity. Qed.

Lemma dprec_emax : dprec < demax.
Proof. reflexivity. Qed.

Ltac by_validity lemma :=
  unfold binary64; intros;
  apply lemma; try assumption; try exact dprec_pos; try exact dprec_emax.

Lemma dadd_binary64 (x y : double) :
  binary64 x -> binary64 y -> binary64 (dadd x y).
Proof. by_validity SFadd_valid. Qed.

Lemma dsub_binary64 (x y : double) :
  binary64 x -> binary64 y -> binary64 (dsub x y).
Proof. by_validity SFsub_valid. Qed.

Lemma dmul_binary64 (x y : double) :
  binary64 x -> binary64 y -> binary64 (dmul x y).
Proof. by_validity SFmul_valid. Qed.

Lemma ddiv_binary64 (x y : double) : binary64 (ddiv x y).
Proof. by_validity SFdiv_valid. Qed.

Lemma dopp_binary64 (x : double) : binary64 x -> binary64 (dopp x).
Proof. apply SFopp_valid. Qed.

Lemma of_int_binary64 (z : Z) : binary64 (of_int z).
Proof. by_validity binary_normalize_valid. Qed.

Lemma round_binary64 (x : double) : binary64 x -> binary64 (round x).
Proof.
  intros H. destruct x as [s | s | | s m e]; try exact H.
  unfold round. destruct (0 <=? e); [exact H |].
  by_validity binary_normalize_valid.
Qed.

Lemma d1_binary64 : binary64 d1.
Proof. apply of_int_binary64. Qed.

(** The exponent and mantissa of a finite binary64 number. *)
Lemma binary64_finite (s : bool) (m : positive) (e : Z) :
  binary64 (S754_finite s m e) ->
  e = Z.max (Zdigits2 (Zpos m) + e - 53) (-1074) /\ e <= 971.
Proof.
  intros H. unfold binary64 in H.
  assert (Hf : valid_binary dprec demax (S754_finite false m e) = true)
    by exact H.
  pose proof canonical_spec as C.
  specialize (C dprec demax).
  unfold dprec, demax in *.
  repeat match type of C with
         | (?A -> _) => specialize (C ltac:(lia))
         end.
  apply (C m e Hf).
Qed.

Lemma binary64_mantissa (s : bool) (m : positive) (e : Z) :
  binary64 (S754_finite s m e) ->
  Zpos m < 2 ^ 53 /\ (-1074 < e -> 2 ^ 52 <= Zpos m).
Proof.
  intros H. apply binary64_finite in H. destruct H as [He _].
  pose proof (Zdigits2_bounds (Zpos m) ltac:(lia)) as [Lo Hi].
  pose proof (Zdigits2_pos (Zpos m) ltac:(lia)) as Hd.
  split.
  - assert (2 ^ Zdigits2 (Zpos m) <= 2 ^ 53)
      by (apply Z.pow_le_mono_r; lia).
    lia.
  - intros Hn.
    assert (Zdigits2 (Zpos m) = 53) by lia.
    replace 52 with (Zdigits2 (Zpos m) - 1) by lia. exact Lo.
Qed.

(** Rounding an exact, canonical float returns it. *)
Lemma binary_round_aux_canonical (s : bool) (m : positive) (e : Z) :
  fexp dprec demax (Zdigits2 (Zpos m) + e) = e -> e <= 971 ->
  binary_round_aux dprec demax s (Zpos m) e loc_Exact = S754_finite s m e.
Proof.
  intros Hc He. unfold binary_round_aux, shr_fexp.
  rewrite Hc, Z.sub_diag. cbn [shr shr_record_of_loc shr_m
    loc_of_shr_record round_nearest_even].
  rewrite Hc, Z.sub_diag. cbn [shr shr_record_of_loc shr_m].
  replace (e <=? demax - dprec) with true; [reflexivity |].
  symmetry. apply Z.leb_le. unfold demax, dprec. lia.
Qed.

(** A mantissa of at most 53 digits whose canonical exponent is in range is
    rounded to itself, shifted to the canonical exponent. *)
Lemma binary_round_exact (s : bool) (p : positive) (e : Z) :
  let d := Zdigits2 (Zpos p) in
  d <= 53 -> -1074 <= d + e - 53 <= 971 ->
  binary_round dprec demax s p e
  = S754_finite s (Z.to_pos (Zpos p * 2 ^ (53 - d))) (d + e - 53).
Proof.
  intros d Hd He. unfold binary_round. rewrite shl_align_spec.
  change (Zpos (digits2_pos p)) with d.
  assert (Hf : fexp dprec demax (d + e) = d + e - 53).
  { unfold fexp, SpecFloat.emin, dprec, demax. lia. }
  rewrite Hf.
  assert (Hp : 0 < 2 ^ (53 - d)) by (apply Z.pow_pos_nonneg; lia).
  destruct (d + e - 53 <? e) eqn:E.
  - replace (e - (d + e - 53)) with (53 - d) by lia.
    rewrite <- (Z2Pos.id (Zpos p * 2 ^ (53 - d))) at 1 by lia.
    apply binary_round_aux_canonical; [| lia].
    rewrite Z2Pos.id by lia.
    pose proof (Zdigits2_pos (Zpos p) ltac:(lia)). fold d in H.
    rewrite Zdigits2_mul_pow by lia. fold d.
    replace (d + (53 - d) + (d + e - 53)) with (d + e) by lia.
    exact Hf.
  - apply Z.ltb_ge in E. assert (d = 53) by lia.
    replace (53 - d) with 0 by lia.
    rewrite Z.pow_0_r, Z.mul_1_r, Pos2Z.id.
    replace (d + e - 53) with e by lia.
    apply binary_round_aux_canonical; [| lia].
    fold d. rewrite Hf. lia.
Qed.

(** The float of a non-zero integer below [2^53] in magnitude. *)
Lemma of_int_exact (z : Z) (szero : bool) :
  z <> 0 -> Z.abs z < 2 ^ 53 ->
  let d := Zdigits2 z in
  binary_normalize dprec demax z 0 szero
  = S754_finite (z <? 0) (Z.to_pos (Z.abs z * 2 ^ (53 - d))) (d - 53)
    /\ 1 <= d <= 53.
Proof.
  intros Hz Hlt d.
  assert (Hd : 1 <= d <= 53).
  { unfold d. destruct z as [| p | p]; try lia.
    - pose proof (Zdigits2_pos (Zpos p) ltac:(lia)).
      pose proof (Zdigits2_upper (Zpos p) 53 ltac:(lia) ltac:(lia)).
      simpl in *. lia.
    - pose proof (Zdigits2_pos (Zpos p) ltac:(lia)).
      pose proof (Zdigits2_upper (Zpos p) 53 ltac:(lia) ltac:(lia)).
      simpl in *. lia. }
  split; [| exact Hd].
  destruct z as [| p | p]; [lia | |]; cbn [binary_normalize].
  - rewrite binary_round_exact; fold d;
      [| change (Zdigits2 (Zpos p)) with d; lia
       | change (Zdigits2 (Zpos p)) with d; lia].
    change (Zdigits2 (Zpos p)) with d.
    replace (d + 0 - 53) with (d - 53) by lia. reflexivity.
  - rewrite binary_round_exact;
      [| change (Zdigits2 (Zpos p)) with d; lia
       | change (Zdigits2 (Zpos p)) with d; lia].
    change (Zdigits2 (Zpos p)) with d.
    replace (d + 0 - 53) with (d - 53) by lia. reflexivity.
Qed.

(** ** The error of rounding to an integer *)

Lemma within_half_zero (s : bool) : within_half (S754_zero s).
Proof. unfold within_half. rewrite dhalf_eq. reflexivity. Qed.

Lemma within_half_finite (s : bool) (m : positive) (e : Z) :
  e < -53 \/ (e = -53 /\ Zpos m <= 2 ^ 52) ->
  within_half (S754_finite s m e).
Proof.
  intros H. unfold within_half. rewrite dhalf_eq. unfold dleb, SFleb.
  cbn [dabs SFabs SFcompare].
  destruct (Z.compare_spec e (-53)) as [E | E | E]; try reflexivity; try lia.
  rewrite Pos.compare_cont_spec. unfold Pos.switch_Eq.
  destruct (Pos.compare_spec m 4503599627370496) as [C | C | C];
    try reflexivity.
  exfalso. destruct H as [H | [_ H]]; [lia |].
  apply Pos2Z.pos_lt_pos in C. change (2 ^ 52) with 4503599627370496 in H.
  lia.
Qed.

(** The sum computed at exponent [ez] is returned exactly when it is at
    most one half. *)
Lemma normalize_small (M ez : Z) :
  -53 <= ez <= -1 -> Z.abs M <= 2 ^ (- ez - 1) ->
  within_half (binary_normalize dprec demax M ez false).
Proof.
  intros Hez HM.
  assert (Hcase : forall (s : bool) (p : positive),
            Zpos p <= 2 ^ (- ez - 1) ->
            within_half (binary_round dprec demax s p ez)).
  { intros s p Hp.
    pose proof (Zdigits2_pos (Zpos p) ltac:(lia)) as Hd.
    pose proof (Zdigits2_bounds (Zpos p) ltac:(lia)) as [Lo Hi].
    assert (Hpow : 2 ^ (- ez) = 2 * 2 ^ (- ez - 1)).
    { replace (- ez) with (Z.succ (- ez - 1)) at 1 by lia.
      apply Z.pow_succ_r. lia. }
    assert (Hpos : 0 < 2 ^ (- ez - 1)) by (apply Z.pow_pos_nonneg; lia).
    assert (Hdu : Zdigits2 (Zpos p) <= - ez)
      by (apply Zdigits2_upper; lia).
    rewrite binary_round_exact by lia.
    apply within_half_finite.
    destruct (Z.eq_dec (Zdigits2 (Zpos p)) (- ez)) as [E | N]; [| lia].
    right. split; [lia |].
    assert (Hpp : 0 < 2 ^ (53 - Zdigits2 (Zpos p)))
      by (apply Z.pow_pos_nonneg; lia).
    rewrite Z2Pos.id by lia.
    replace 52 with ((- ez - 1) + (53 - Zdigits2 (Zpos p))) by lia.
    rewrite Z.pow_add_r by lia.
    apply Z.mul_le_mono_nonneg_r; lia. }
  destruct M as [| p | p]; cbn [binary_normalize].
  - apply within_half_zero.
  - apply Hcase. lia.
  - apply Hcase. lia.
Qed.

(** A canonical float below one half in magnitude compares at most one
    half. *)
Lemma small_canonical (s s' : bool) (m : positive) (e : Z) :
  binary64 (S754_finite s m e) -> e < 0 -> Zpos m < 2 ^ (- e - 1) ->
  within_half (S754_finite s' m e).
Proof.
  intros Hv He Hm. apply binary64_mantissa in Hv. destruct Hv as [Hlt Hnorm].
  apply within_half_finite.
  destruct (Z_lt_le_dec e (-53)) as [| Hge]; [left; assumption |].
  right.
  assert (2 ^ (- e - 1) <= 2 ^ 52) by (apply Z.pow_le_mono_r; lia).
  destruct (Z.eq_dec e (-53)) as [-> | Hne]; [split; lia |].
  exfalso. specialize (Hnorm ltac:(lia)).
  assert (2 ^ (- e - 1) <= 2 ^ 51) by (apply Z.pow_le_mono_r; lia).
  change (2 ^ 52) with 4503599627370496 in *.
  change (2 ^ 51) with 2251799813685248 in *. lia.
Qed.

Section NearestInteger.

(** [x = m * 2^e] with [e < 0] and [n] the integer [std::round] picks for
    its magnitude. *)
Variables (m : positive) (e : Z).
Hypothesis He : e < 0.
Hypothesis Hm : Zpos m < 2 ^ 53.

Let n : Z := (Zpos m + 2 ^ (- e - 1)) / 2 ^ (- e).

Lemma pow_double : 2 ^ (- e) = 2 * 2 ^ (- e - 1).
Proof.
  replace (- e) with (Z.succ (- e - 1)) at 1 by lia.
  apply Z.pow_succ_r. lia.
Qed.

Lemma pow_half_pos : 0 < 2 ^ (- e - 1).
Proof. apply Z.pow_pos_nonneg; lia. Qed.

Lemma nearest_bounds :
  n * 2 ^ (- e) <= Zpos m + 2 ^ (- e - 1) < n * 2 ^ (- e) + 2 ^ (- e).
Proof.
  pose proof pow_double as D. pose proof pow_half_pos as P.
  pose proof (Z.div_mod (Zpos m + 2 ^ (- e - 1)) (2 ^ (- e)) ltac:(lia))
    as Hdm.
  pose proof (Z.mod_pos_bound (Zpos m + 2 ^ (- e - 1)) (2 ^ (- e))
                ltac:(lia)) as Hmod.
  fold n in Hdm. lia.
Qed.

Lemma nearest_nonneg : 0 <= n.
Proof.
  unfold n. pose proof pow_half_pos. pose proof pow_double.
  apply Z.div_pos; lia.
Qed.

Lemma nearest_zero : n = 0 -> Zpos m < 2 ^ (- e - 1).
Proof.
  intros Hn. pose proof nearest_bounds as B. pose proof pow_double as D.
  rewrite Hn in B. lia.
Qed.

Lemma nearest_error : Z.abs (Zpos m - n * 2 ^ (- e)) <= 2 ^ (- e - 1).
Proof.
  pose proof nearest_bounds as B. pose proof pow_double as D. lia.
Qed.

Lemma nearest_le : n <= 2 ^ 52.
Proof.
  pose proof nearest_bounds as [B _]. pose proof pow_double as D.
  pose proof pow_half_pos as P.
  destruct (Z_le_gt_dec n (2 ^ 52)) as [| Hgt]; [assumption |].
  exfalso.
  change (2 ^ 53) with 9007199254740992 in Hm.
  change (2 ^ 52) with 4503599627370496 in Hgt. nia.
Qed.

Lemma nearest_exponent : 1 <= n -> -53 <= e.
Proof.
  intros Hn. pose proof nearest_bounds as [B _]. pose proof pow_double as D.
  pose proof pow_half_pos as P.
  destruct (Z_le_gt_dec (-53) e) as [| Hlt]; [assumption |].
  exfalso.
  assert (2 ^ 53 <= 2 ^ (- e - 1)) by (apply Z.pow_le_mono_r; lia).
  assert (2 ^ (- e) <= n * 2 ^ (- e)) by nia.
  lia.
Qed.

(** The residual of the rounding, computed at the common exponent of [x]
    and of the float of [n], is at most one half. *)
Lemma nearest_residual (ez : Z) :
  1 <= n -> ez <= e -> -53 <= ez ->
  Z.abs (Zpos m * 2 ^ (e - ez) - n * 2 ^ (- ez)) <= 2 ^ (- ez - 1).
Proof.
  intros Hn Hez Hlo.
  pose proof nearest_error as Err.
  assert (P : 0 < 2 ^ (e - ez)) by (apply Z.pow_pos_nonneg; lia).
  assert (E1 : 2 ^ (- ez) = 2 ^ (e - ez) * 2 ^ (- e)).
  { rewrite <- Z.pow_add_r by lia. f_equal. lia. }
  assert (E2 : 2 ^ (- ez - 1) = 2 ^ (e - ez) * 2 ^ (- e - 1)).
  { rewrite <- Z.pow_add_r by lia. f_equal. lia. }
  rewrite E1, E2.
  replace (Zpos m * 2 ^ (e - ez) - n * (2 ^ (e - ez) * 2 ^ (- e)))
    with (2 ^ (e - ez) * (Zpos m - n * 2 ^ (- e))) by ring.
  rewrite Z.abs_mul, (Z.abs_eq (2 ^ (e - ez))) by lia.
  apply Z.mul_le_mono_nonneg_l; lia.
Qed.

End NearestInteger.

Lemma round_finite_neg (s : bool) (m : positive) (e : Z) :
  e < 0 ->
  round (S754_finite s m e)
  = binary_normalize dprec demax
      (cond_Zopp s ((Zpos m + 2 ^ (- e - 1)) / 2 ^ (- e))) 0 s.
Proof.
  intros He. unfold round.
  destruct (0 <=? e) eqn:E; [apply Z.leb_le in E; lia | reflexivity].
Qed.

Lemma round_finite_nonneg (s : bool) (m : positive) (e : Z) :
  0 <= e -> round (S754_finite s m e) = S754_finite s m e.
Proof.
  intros He. unfold round.
  destruct (0 <=? e) eqn:E; [reflexivity | apply Z.leb_gt in E; lia].
Qed.

Lemma float_of_nearest (s szero : bool) (n : Z) :
  1 <= n <= 2 ^ 52 ->
  binary_normalize dprec demax (cond_Zopp s n) 0 szero = float_of s n
  /\ 1 <= Zdigits2 n <= 53.
Proof.
  intros Hn.
  assert (Hz : cond_Zopp s n <> 0) by (destruct s; simpl; lia).
  assert (Ha : Z.abs (cond_Zopp s n) = n) by (destruct s; simpl; lia).
  assert (Hlt : Z.abs (cond_Zopp s n) < 2 ^ 53).
  { rewrite Ha. change (2 ^ 52) with 4503599627370496 in Hn.
    change (2 ^ 53) with 9007199254740992. lia. }
  assert (Hd : Zdigits2 (cond_Zopp s n) = Zdigits2 n).
  { destruct n as [| p | p]; try lia. destruct s; reflexivity. }
  assert (Hs : (cond_Zopp s n <? 0) = s).
  { destruct s; simpl; [apply Z.ltb_lt | apply Z.ltb_ge]; lia. }
  pose proof (of_int_exact (cond_Zopp s n) szero Hz Hlt) as [Heq Hrange].
  cbv zeta in Heq, Hrange. rewrite Hd in *. rewrite Ha, Hs in Heq.
  split; [exact Heq | exact Hrange].
Qed.

Lemma to_int_float_of (s : bool) (n : Z) :
  1 <= n -> Zdigits2 n <= 53 ->
  to_int (float_of s n) = int (cond_Zopp s n).
Proof.
  intros Hn Hd. unfold to_int, float_of, trunc. cbn [bind].
  assert (Hp : 0 < 2 ^ (53 - Zdigits2 n)) by (apply Z.pow_pos_nonneg; lia).
  rewrite Z2Pos.id by nia.
  rewrite Z.shiftl_div_pow2 by lia.
  replace (- (Zdigits2 n - 53)) with (53 - Zdigits2 n) by lia.
  rewrite Z.div_mul by lia. reflexivity.
Qed.

Lemma shl_align_fst (m : positive) (e ez : Z) :
  ez <= e -> Zpos (fst (shl_align m e ez)) = Zpos m * 2 ^ (e - ez).
Proof.
  intros H. rewrite shl_align_spec.
  destruct (ez <? e) eqn:E; cbn [fst].
  - apply Z.ltb_lt in E.
    assert (0 < 2 ^ (e - ez)) by (apply Z.pow_pos_nonneg; lia).
    rewrite Z2Pos.id by lia. reflexivity.
  - apply Z.ltb_ge in E. replace (e - ez) with 0 by lia.
    rewrite Z.pow_0_r. lia.
Qed.

Lemma float_of_aligned (n ez : Z) :
  1 <= n -> Zdigits2 n <= 53 -> ez <= Zdigits2 n - 53 ->
  Zpos (fst (shl_align (Z.to_pos (n * 2 ^ (53 - Zdigits2 n)))
                       (Zdigits2 n - 53) ez))
  = n * 2 ^ (- ez).
Proof.
  intros Hn Hd Hez. rewrite shl_align_fst by assumption.
  assert (Hp : 0 < 2 ^ (53 - Zdigits2 n)) by (apply Z.pow_pos_nonneg; lia).
  rewrite Z2Pos.id by nia.
  rewrite <- Z.mul_assoc, <- Z.pow_add_r by lia.
  f_equal. f_equal. lia.
Qed.

Section Residual.

Variables (s : bool) (m : positive) (e : Z).
Hypothesis Hv : binary64 (S754_finite s m e).
Hypothesis He : e < 0.

Let n : Z := (Zpos m + 2 ^ (- e - 1)) / 2 ^ (- e).

Hypothesis Hn : 1 <= n.

Let Hm : Zpos m < 2 ^ 53 := proj1 (binary64_mantissa s m e Hv).

Lemma nearest_facts :
  n <= 2 ^ 52 /\ -53 <= e /\ 1 <= Zdigits2 n <= 53.
Proof.
  split; [apply (nearest_le m e He Hm) |].
  split; [apply (nearest_exponent m e He Hm Hn) |].
  pose proof (nearest_le m e He Hm) as Hle. fold n in Hle.
  apply (float_of_nearest false false n). lia.
Qed.

(** [x + (-n)] and [n - x], as computed, are within one half. *)
Lemma dadd_residual :
  within_half (dadd (S754_finite s m e) (float_of (negb s) n)).
Proof.
  destruct nearest_facts as [Hle [Hlo Hd]].
  unfold dadd, float_of. cbn [SFadd].
  remember (Z.min e (Zdigits2 n - 53)) as ez eqn:Hez.
  rewrite shl_align_fst by lia.
  rewrite float_of_aligned by lia.
  apply normalize_small; [lia |].
  pose proof (nearest_residual m e He ez Hn ltac:(lia) ltac:(lia)) as R.
  fold n in R.
  destruct s; cbn [negb cond_Zopp]; lia.
Qed.

Lemma dsub_residual :
  within_half (dsub (float_of s n) (S754_finite s m e)).
Proof.
  destruct nearest_facts as [Hle [Hlo Hd]].
  unfold dsub, float_of. cbn [SFsub].
  remember (Z.min (Zdigits2 n - 53) e) as ez eqn:Hez.
  rewrite float_of_aligned by lia.
  rewrite shl_align_fst by lia.
  apply normalize_small; [lia |].
  pose proof (nearest_residual m e He ez Hn ltac:(lia) ltac:(lia)) as R.
  fold n in R.
  destruct s; cbn [negb cond_Zopp]; lia.
Qed.

End Residual.

(** The position error of a continuous grain: adding the rounded hop to the
    error carried so far leaves at most one half. *)
Lemma residual_continuous (x : double) (hop : Z) :
  binary64 x ->
  to_int (round (dopp x)) = Some hop ->
  within_half (dadd x (of_int hop)).
Proof.
  intros Hv Hhop. destruct x as [s | s | | s m e]; try discriminate Hhop.
  - cbn in Hhop. injection Hhop as <-.
    destruct s; apply within_half_zero.
  - cbn [dopp SFopp] in Hhop.
    destruct (Z_lt_le_dec e 0) as [He | He].
    + rewrite round_finite_neg in Hhop by assumption.
      pose proof (binary64_mantissa s m e Hv) as [Hm _].
      pose proof (nearest_nonneg m e He) as Hn0.
      set (n := (Zpos m + 2 ^ (- e - 1)) / 2 ^ (- e)) in *.
      destruct (Z.eq_dec n 0) as [E0 | N0].
      * rewrite E0 in Hhop.
        replace (cond_Zopp (negb s) 0) with 0 in Hhop
          by (destruct s; reflexivity).
        cbn in Hhop. injection Hhop as <-.
        change (of_int 0) with (S754_zero false).
        unfold dadd. cbn [SFadd].
        apply (small_canonical s s m e Hv He).
        apply (nearest_zero m e He E0).
      * assert (Hn : 1 <= n) by lia.
        destruct (nearest_facts s m e Hv He Hn) as [Hle [Hlo Hd]].
        fold n in Hle, Hd.
        destruct (float_of_nearest (negb s) (negb s) n ltac:(lia)) as [F _].
        rewrite F in Hhop.
        rewrite to_int_float_of in Hhop by lia.
        apply int_Some in Hhop. destruct Hhop as [-> _].
        unfold of_int.
        destruct (float_of_nearest (negb s) false n ltac:(lia)) as [F' _].
        rewrite F'.
        apply (dadd_residual s m e Hv He Hn).
    + rewrite round_finite_nonneg in Hhop by assumption.
      unfold to_int, trunc in Hhop. cbn [bind] in Hhop.
      apply int_Some in Hhop. destruct Hhop as [-> Hrange].
      rewrite Z.shiftl_mul_pow2 in * by assumption.
      assert (Hp : 0 < 2 ^ e) by (apply Z.pow_pos_nonneg; lia).
      set (v := Zpos m * 2 ^ e) in *.
      assert (Hv1 : 1 <= v) by (unfold v; nia).
      assert (Hv2 : v <= 2 ^ 52).
      { unfold INT_MIN, INT_MAX in Hrange.
        change (2 ^ 31) with 2147483648 in Hrange.
        change (2 ^ 52) with 4503599627370496.
        destruct s; cbn [negb cond_Zopp] in Hrange; lia. }
      unfold of_int.
      destruct (float_of_nearest (negb s) false v ltac:(lia)) as [F Hd].
      rewrite F. unfold dadd, float_of. cbn [SFadd].
      assert (Hdv : Zdigits2 v <= 32).
      { apply Zdigits2_upper; try lia.
        unfold INT_MIN, INT_MAX in Hrange.
        change (2 ^ 31) with 2147483648 in Hrange.
        change (2 ^ 32) with 4294967296.
        destruct s; cbn [negb cond_Zopp] in Hrange; lia. }
      remember (Z.min e (Zdigits2 v - 53)) as ez eqn:Hez.
      rewrite shl_align_fst by lia.
      rewrite float_of_aligned by lia.
      apply normalize_small; [lia |].
      assert (Heq : Zpos m * 2 ^ (e - ez) = v * 2 ^ (- ez)).
      { unfold v. rewrite <- Z.mul_assoc, <- Z.pow_add_r by lia.
        replace (e + - ez) with (e - ez) by lia. reflexivity. }
      assert (0 < 2 ^ (- ez - 1)) by (apply Z.pow_pos_nonneg; lia).
      destruct s; cbn [negb cond_Zopp]; lia.
Qed.

(** The position error of a grain that is not continuous: the distance from
    a position to the integer [std::round] gives is at most one half. *)
Lemma residual_reset (x : double) :
  binary64 x -> is_finite x = true ->
  within_half (dsub (round x) x).
Proof.
  intros Hv Hfin. destruct x as [s | s | | s m e]; try discriminate Hfin.
  - destruct s; apply within_half_zero.
  - destruct (Z_lt_le_dec e 0) as [He | He].
    + rewrite round_finite_neg by assumption.
      pose proof (binary64_mantissa s m e Hv) as [Hm _].
      pose proof (nearest_nonneg m e He) as Hn0.
      set (n := (Zpos m + 2 ^ (- e - 1)) / 2 ^ (- e)) in *.
      destruct (Z.eq_dec n 0) as [E0 | N0].
      * rewrite E0.
        replace (cond_Zopp s 0) with 0 by (destruct s; reflexivity).
        cbn [binary_normalize]. unfold dsub. cbn [SFsub].
        apply (small_canonical s (negb s) m e Hv He).
        apply (nearest_zero m e He E0).
      * assert (Hn : 1 <= n) by lia.
        destruct (nearest_facts s m e Hv He Hn) as [Hle [Hlo Hd]].
        fold n in Hle, Hd.
        destruct (float_of_nearest s s n ltac:(lia)) as [F _].
        rewrite F.
        apply (dsub_residual s m e Hv He Hn).
    + rewrite round_finite_nonneg by assumption.
      unfold dsub. cbn [SFsub]. rewrite Z.sub_diag.
      apply within_half_zero.
Qed.

(** ** The bound on the position error *)

Lemma setup_binary64 (sampleRates : SampleRates) (pitch : double)
    (mode : ResampleMode) :
  binary64 (ratio (input (fst (setup sampleRates pitch mode))))
  /\ binary64 (snd (setup sampleRates pitch mode)).
Proof.
  unfold setup.
  match goal with
  | |- context [let '(a, b) := ?X in _] => destruct X as [[fi |] [fo |]]
  end; cbn [fst snd input ratio]; split;
    try apply ddiv_binary64; apply d1_binary64.
Qed.

Lemma specify_bounded_error
    (g : Grain) (r : Request) (previous : Grain) (sampleRates : SampleRates)
    (log2SynthesisHop : Z) (bufferStartPosition : double)
    (g' : Grain) (chunk : InputChunk) :
  specify g r previous sampleRates log2SynthesisHop bufferStartPosition
  = Some (g', chunk) ->
  binary64_request r ->
  binary64 (position (request previous)) ->
  binary64 (positionError (analysis previous)) ->
  bounded_error (core g').
Proof.
  intros H [Hpos [Hspeed Hpitch]] Hprev Hpe.
  destruct (specify_inv _ _ _ _ _ _ _ _ H)
    as [_ [Hr [_ [_ [_ [_ [_ [Herr [_ [half [_ [_ Hchunk]]]]]]]]]]]].
  pose proof (setup_binary64 sampleRates (pitch r) (resampleMode r))
    as [Hratio Hret].
  set (ideal :=
         dmul (if isnan (dsub (position r) (position (request previous)))
                  || reset r
               then dmul (speed r)
                      (dmul (of_int (2 ^ log2SynthesisHop))
                         (snd (setup sampleRates (pitch r) (resampleMode r))))
               else dsub (position r) (position (request previous)))
              (ratio (input (fst (setup sampleRates (pitch r)
                                        (resampleMode r)))))) in *.
  assert (Hideal : binary64 ideal).
  { unfold ideal. apply dmul_binary64; [| exact Hratio].
    destruct (isnan _ || reset r).
    - apply dmul_binary64; [exact Hspeed |].
      apply dmul_binary64; [apply of_int_binary64 | exact Hret].
    - now apply dsub_binary64. }
  unfold bounded_error, core. cbn [fst snd]. rewrite Hr.
  split; [exact Hpos |].
  destruct (negb (reset r) && negb (isnan (position (request previous)))).
  - destruct Herr as [Hhop ->].
    assert (Hpe0 : binary64 (dsub (positionError (analysis previous)) ideal))
      by now apply dsub_binary64.
    split.
    + apply dadd_binary64; [exact Hpe0 | apply of_int_binary64].
    + intros _. now apply residual_continuous.
  - destruct Herr as [_ ->]. split.
    + apply dsub_binary64; [now apply round_binary64 | exact Hpos].
    + intros Hnan. rewrite Hnan in Hchunk.
      destruct Hchunk as [offset [Ho _]].
      apply to_int_finite, round_finite_inv, dsub_finite_inv in Ho.
      apply residual_reset; tauto.
Qed.

Lemma specifyGrain_core (s s' : Stretcher) (r : Request) (b : double)
    (c : InputChunk) (g0 g1 g2 g3 : Grain) :
  specifyGrain s r b = Done (s', c) ->
  grains s = [g0; g1; g2; g3] ->
  exists g g' : Grain,
    specify g r g0 (sampleRates s) (log2SynthesisHop s) b = Some (g', c)
    /\ sampleRates s' = sampleRates s
    /\ log2SynthesisHop s' = log2SynthesisHop s
    /\ map core (grains s') = [core g'; core g0; core g1; core g2].
Proof.
  intros H Hring. unfold specifyGrain in H.
  destruct (Call (instrumentation s) 0) as [lines [call |]];
    [| discriminate H].
  rewrite Hring in H. cbn [Grains.rotate rev app Grains.swap_buffers] in H.
  match type of H with
  | match specify ?g _ _ _ _ _ with _ => _ end = _ =>
      destruct (specify g r g0 (sampleRates s) (log2SynthesisHop s) b)
        as [[g' c'] |] eqn:E; [| discriminate H];
      injection H as <- <-; exists g, g'
  end.
  repeat split; try reflexivity. exact E.
Qed.

Lemma analyseGrain_core (k : Kernels) (s s' : Stretcher)
    (data : option (list float)) (stride head tail : Z) :
  analyseGrain k s data stride head tail = Done s' ->
  sampleRates s' = sampleRates s
  /\ log2SynthesisHop s' = log2SynthesisHop s
  /\ map core (grains s') = map core (grains s).
Proof.
  intros H.
  destruct (analyseGrain_Done _ _ _ _ _ _ _ H)
    as [g [p [r0 [g' [_ [_ [_ [_ [Hr [Hl _]]]]]]]]]].
  destruct (analyseGrain_kept _ _ _ _ _ _ _ H)
    as [grain [grain' [others [-> [-> [Hkept _]]]]]].
  split; [exact Hr |]. split; [exact Hl |].
  unfold kept_by_analysis in Hkept. unfold core. cbn [map]. congruence.
Qed.

Lemma synthesiseGrain_core (k : Kernels) (s s' : Stretcher) :
  synthesiseGrain k s = Done s' ->
  sampleRates s' = sampleRates s
  /\ log2SynthesisHop s' = log2SynthesisHop s
  /\ map core (grains s') = map core (grains s).
Proof.
  intros H.
  destruct (synthesiseGrain_Done _ _ _ H)
    as [grain [previous [rest [Hs [_ [_ [_ [Hr [Hl Hsame]]]]]]]]].
  split; [exact Hr |]. split; [exact Hl |].
  rewrite (map_but_segment core _ _ (fun g => eq_refl) Hsame), Hs.
  cbn [map]. destruct (valid grain); reflexivity.
Qed.

(** The bound is kept by every grain the stretcher processes. *)
Lemma grain_cycle_bounded_error (k : Kernels) (s s' : Stretcher)
    (gi : GrainInput) :
  grain_cycle k s gi = Done s' ->
  binary64_request (gi_request gi) ->
  List.length (grains s) = 4%nat ->
  Forall bounded_error (map core (grains s)) ->
  List.length (grains s') = 4%nat
  /\ Forall bounded_error (map core (grains s')).
Proof.
  intros H Hreq Hlen Hinv. unfold grain_cycle in H.
  destruct (specifyGrain s _ _) as [[s1 c] | |] eqn:E1; try discriminate H.
  destruct (analyseGrain k s1 _ _ _ _) as [s2 | |] eqn:E2; try discriminate H.
  apply synthesiseGrain_core in H. destruct H as [_ [_ H3]].
  apply analyseGrain_core in E2. destruct E2 as [_ [_ H2]].
  destruct (grains s) as [| g0 [| g1 [| g2 [| g3 [| g4 rest]]]]] eqn:Eg;
    try discriminate Hlen.
  destruct (specifyGrain_core _ _ _ _ _ _ _ _ _ E1 Eg)
    as [g [g' [Hs [_ [_ H1]]]]].
  assert (Hcore : map core (grains s')
                  = [core g'; core g0; core g1; core g2])
    by (rewrite H3, H2; exact H1).
  split.
  - rewrite <- (length_map core), Hcore. reflexivity.
  - rewrite Hcore.
    cbn [map] in Hinv.
    inversion Hinv as [| ? ? B0 Hinv1]; subst.
    inversion Hinv1 as [| ? ? B1 Hinv2]; subst.
    inversion Hinv2 as [| ? ? B2 _]; subst.
    constructor;
      [| constructor; [exact B0 |];
         constructor; [exact B1 |];
         constructor; [exact B2 | constructor]].
    destruct B0 as [P0 [E0 _]].
    apply (specify_bounded_error _ _ _ _ _ _ _ _ Hs Hreq P0 E0).
Qed.

Lemma process_bounded_error (k : Kernels) (l : list GrainInput) :
  forall s s' : Stretcher,
    process k s l = Done s' ->
    Forall (fun gi => binary64_request (gi_request gi)) l ->
    List.length (grains s) = 4%nat ->
    Forall bounded_error (map core (grains s)) ->
    Forall bounded_error (map core (grains s')).
Proof.
  induction l as [| gi rest IH]; intros s s' H Hreq Hlen Hinv;
    cbn [process] in H.
  - now injection H as <-.
  - destruct (grain_cycle k s gi) as [s1 | |] eqn:E; try discriminate H.
    inversion Hreq as [| ? ? Hgi Hrest]; subst.
    destruct (grain_cycle_bounded_error _ _ _ _ E Hgi Hlen Hinv)
      as [Hlen1 Hinv1].
    exact (IH _ _ H Hrest Hlen1 Hinv1).
Qed.

(** C8: for every call of [Grain::specify] that returns, on binary64
    inputs (request position, speed and pitch, previous position and
    previous position error) and with a request position that is not NaN,
    the resulting [analysis.positionError] is at most one half in
    magnitude, in the continuous and in the non-continuous branch alike;
    and the bound is an invariant of the stretcher: after any run of grains
    from construction, every grain of the ring whose request position is
    not NaN has [|analysis.positionError| <= 1/2]. *)
Theorem specify_position_error_bound
    (g : Grain) (r : Request) (previous : Grain) (sampleRates : SampleRates)
    (log2SynthesisHop : Z) (bufferStartPosition : double)
    (g' : Grain) (chunk : InputChunk) :
  specify g r previous sampleRates log2SynthesisHop bufferStartPosition
  = Some (g', chunk) ->
  binary64_request r ->
  binary64 (position (request previous)) ->
  binary64 (positionError (analysis previous)) ->
  isnan (position r) = false ->
  within_half (positionError (analysis g'))
  /\ (forall (k : Kernels) (rates : SampleRates) (channelCount hop : Z)
        (l : list GrainInput) (s' : Stretcher),
        Forall (fun gi => binary64_request (gi_request gi)) l ->
        process k (Stretcher_new rates channelCount hop) l = Done s' ->
        Forall (fun x : Grain =>
                  isnan (position (request x)) = false ->
                  within_half (positionError (analysis x)))
               (grains s')).
Proof.
  intros H Hreq Hprev Hpe Hnan. split.
  - destruct (specify_bounded_error _ _ _ _ _ _ _ _ H Hreq Hprev Hpe)
      as [_ [_ Hb]].
    apply Hb. unfold core. cbn [fst].
    destruct (specify_inv _ _ _ _ _ _ _ _ H) as [_ [-> _]]. exact Hnan.
  - intros k rates channelCount hop l s' Hl Hrun.
    assert (Hinit : Forall bounded_error
                      (map core (grains (Stretcher_new rates channelCount hop)))).
    { assert (B : bounded_error (core (Grain_new hop channelCount))).
      { unfold bounded_error, core. cbn [fst snd Grain_new request analysis
          position positionError].
        split; [reflexivity |]. split; [reflexivity |]. discriminate. }
      repeat (constructor; [exact B |]). constructor. }
    pose proof (process_bounded_error k l _ _ Hrun Hl eq_refl Hinit) as Hfin.
    clear - Hfin. induction (grains s') as [| x rest IH]; [constructor |].
    inversion Hfin as [| ? ? [_ [_ Hx]] Hrest]; subst.
    constructor; [exact Hx | apply IH; exact Hrest].
Qed.

(** C8, instance: after a grain at position 1000, the grain at position
    1512.5 has the hop 513 and the position error 1/2, which is within the
    bound. *)
Lemma specify_position_error_bound_witness :
  exists (previous g' : Grain) (c chunk : InputChunk),
    specify (Grain_new 9 1) (unit_request (of_int 1000)) (Grain_new 9 1)
            (mkSampleRates 48000 48000) 9 (S754_zero false)
    = Some (previous, c)
    /\ specify (Grain_new 9 1)
               (unit_request (ddiv (of_int 3025) (of_int 2))) previous
               (mkSampleRates 48000 48000) 9 (S754_zero false)
       = Some (g', chunk)
    /\ positionError (analysis g') = dhalf
    /\ within_half (positionError (analysis g')).
Proof.
  eexists. eexists. eexists. eexists.
  split; [vm_compute; reflexivity |].
  match goal with
  | |- ?S = Some (?a, ?b) /\ _ =>
      assert (E : S = Some (a, b)) by (vm_compute; reflexivity)
  end.
  split; [exact E |]. split; [vm_compute; reflexivity |].
  refine (proj1 (specify_position_error_bound _ _ _ _ _ _ _ _ E _ _ _ _)).
  - repeat split; vm_compute; reflexivity.
  - vm_compute; reflexivity.
  - vm_compute; reflexivity.
  - vm_compute; reflexivity.
Defined.

(** ** The sign of the half-width of the input chunk *)

Lemma binary_round_aux_sign (prec emax : Z) (s : bool) (m e : Z)
    (l : location) :
  sign_is s (binary_round_aux prec emax s m e l).
Proof.
  unfold binary_round_aux.
  destruct (shr_fexp prec emax m e l) as [mrs' e'].
  destruct (shr_fexp prec emax _ e' loc_Exact) as [mrs'' e''].
  destruct (shr_m mrs'') as [| p | p]; cbn; auto.
  destruct (e'' <=? emax - prec); reflexivity.
Qed.

Lemma binary_round_sign (prec emax : Z) (s : bool) (m : positive) (e : Z) :
  sign_is s (binary_round prec emax s m e).
Proof.
  unfold binary_round. destruct (shl_align _ _ _) as [mz ez].
  apply binary_round_aux_sign.
Qed.

Lemma dmul_sign (sx sy : bool) (x y : double) :
  sign_is sx x -> sign_is sy y -> sign_is (xorb sx sy) (dmul x y).
Proof.
  destruct x as [s1 | s1 | | s1 m1 e1], y as [s2 | s2 | | s2 m2 e2];
    cbn [sign_is]; intros; subst;
    [> try exact I; try reflexivity .. | ].
  unfold dmul. cbn [SFmul]. apply binary_round_aux_sign.
Qed.

Lemma ddiv_sign (sx sy : bool) (x y : double) :
  sign_is sx x -> sign_is sy y -> sign_is (xorb sx sy) (ddiv x y).
Proof.
  destruct x as [s1 | s1 | | s1 m1 e1], y as [s2 | s2 | | s2 m2 e2];
    cbn [sign_is]; intros; subst;
    [> try exact I; try reflexivity .. | ].
  unfold ddiv. cbn [SFdiv].
  destruct (SFdiv_core_binary dprec demax (Zpos m1) e1 (Zpos m2) e2)
    as [[mz ez] lz].
  apply binary_round_aux_sign.
Qed.

Lemma of_int_sign (z : Z) : 0 <= z -> sign_is false (of_int z).
Proof.
  intros H. unfold of_int. destruct z as [| p | p]; try lia;
    cbn [binary_normalize].
  - reflexivity.
  - apply binary_round_sign.
Qed.

Lemma round_sign (s : bool) (x : double) : sign_is s x -> sign_is s (round x).
Proof.
  destruct x as [s' | s' | | s' m e]; cbn [sign_is]; auto.
  intros ->. unfold round. destruct (0 <=? e); [reflexivity |].
  pose proof (Z.pow_pos_nonneg 2 (- e)) as P.
  assert (Hn : 0 <= (Zpos m + 2 ^ (- e - 1)) / 2 ^ (- e)).
  { destruct (Z_lt_le_dec (- e) 0) as [Hneg | Hpos].
    - rewrite (Z.pow_neg_r 2 (- e)) by lia. rewrite Z.div_0_r. lia.
    - apply Z.div_pos; [| lia].
      pose proof (Z.pow_nonneg 2 (- e - 1)). lia. }
  destruct ((Zpos m + 2 ^ (- e - 1)) / 2 ^ (- e)) as [| p | p]; try lia.
  - destruct s; reflexivity.
  - destruct s; cbn [cond_Zopp Z.opp binary_normalize];
      apply binary_round_sign.
Qed.

Lemma to_int_sign (x : double) (z : Z) :
  sign_is false x -> to_int x = Some z -> 0 <= z.
Proof.
  destruct x as [s | s | | s m e]; try discriminate.
  - intros _ [= <-]. lia.
  - cbn [sign_is]. intros ->. unfold to_int, trunc. cbn [bind cond_Zopp].
    intros H. apply int_Some in H. destruct H as [-> _].
    apply Z.shiftl_nonneg. lia.
Qed.

Lemma positive_sign (x : double) :
  dgtb x (S754_zero false) = true -> sign_is false x.
Proof.
  unfold dgtb, SFltb.
  destruct x as [s | s | | s m e]; cbn; try discriminate;
    destruct s; try discriminate; reflexivity.
Qed.

Lemma setup_input_ratio_sign (sampleRates : SampleRates) (pitch : double)
    (mode : ResampleMode) :
  dgtb pitch (S754_zero false) = true ->
  0 <= rate_input sampleRates -> 0 <= rate_output sampleRates ->
  sign_is false (ratio (input (fst (setup sampleRates pitch mode)))).
Proof.
  intros Hp Hin Hout.
  assert (Hr : sign_is false
                 (ddiv d1 (ddiv (dmul pitch (of_int (rate_input sampleRates)))
                                (of_int (rate_output sampleRates))))).
  { apply (ddiv_sign false false); [apply of_int_sign; lia |].
    apply (ddiv_sign false false); [| now apply of_int_sign].
    apply (dmul_sign false false);
      [now apply positive_sign | now apply of_int_sign]. }
  unfold setup.
  match goal with
  | |- context [let '(a, b) := ?X in _] => destruct X as [[fi |] [fo |]]
  end; cbn [fst input ratio]; try exact Hr; apply of_int_sign; lia.
Qed.

(** X10: for a positive pitch and sample rates that are not negative, the chunk
    [specify] leaves in the grain is not empty: [begin < end]. *)
Lemma specify_chunk_ordered
    (g : Grain) (r : Request) (previous : Grain) (sampleRates : SampleRates)
    (log2SynthesisHop : Z) (bufferStartPosition : double)
    (g' : Grain) (chunk : InputChunk) :
  specify g r previous sampleRates log2SynthesisHop bufferStartPosition
  = Some (g', chunk) ->
  dgtb (pitch r) (S754_zero false) = true ->
  0 <= rate_input sampleRates -> 0 <= rate_output sampleRates ->
  chunk_begin (inputChunk g') < chunk_end (inputChunk g').
Proof.
  intros H Hp Hin Hout.
  destruct (specify_inv _ _ _ _ _ _ _ _ H)
    as [Hrange [_ [_ [_ [_ [_ [_ [_ [_ [half [Hh [_ Hchunk]]]]]]]]]]]].
  pose proof (setup_input_ratio_sign sampleRates (pitch r) (resampleMode r)
                Hp Hin Hout) as Hs.
  assert (Hpow : 8 <= 2 ^ (log2SynthesisHop + 3)).
  { change 8 with (2 ^ 3). apply Z.pow_le_mono_r; lia. }
  assert (Hhalf0 : 0 <= 2 ^ (log2SynthesisHop + 3) ÷ 2).
  { apply Z.quot_pos; lia. }
  assert (Hhalf : 1 <= half).
  { destruct (negb (deqb _ d1)).
    - destruct Hh as [h [Hi ->]].
      assert (0 <= h); [| lia].
      apply (to_int_sign _ _ (round_sign false _
               (ddiv_sign false false _ _ (of_int_sign _ Hhalf0) Hs)) Hi).
    - subst half. rewrite Z.quot_div_nonneg by lia.
      apply Z.div_le_lower_bound; lia. }
  destruct (isnan (position r)).
  - destruct Hchunk as [_ ->]. cbn. lia.
  - destruct Hchunk as [offset [_ [-> ->]]]. cbn. lia.
Qed.

(** ** More on the selection of the resamplers *)

(** X1: for every sample-rate pair, pitch and mode, [Operations::setup] never
    engages both resamplers; a side that is not engaged has the ratio 1, an
    engaged input side has [1 / r] and an engaged output side [r]; neither
    side is engaged exactly when [r == 1] under a mode that is not forced;
    and the value returned is the quotient of the sample rates, divided by
    [r] when the output side is engaged. *)
Theorem setup_engages_at_most_one
    (sampleRates : SampleRates) (pitch : double) (mode : ResampleMode) :
  let r := resampleRatio sampleRates pitch in
  let ops := fst (setup sampleRates pitch mode) in
  let rates :=
    ddiv (of_int (rate_input sampleRates))
         (of_int (rate_output sampleRates)) in
  (function (input ops) = None \/ function (output ops) = None)
  /\ ratio (input ops)
     = match function (input ops) with
       | Some _ => ddiv d1 r
       | None => d1
       end
  /\ ratio (output ops)
     = match function (output ops) with
       | Some _ => r
       | None => d1
       end
  /\ (function (input ops) = None /\ function (output ops) = None
      <-> deqb r d1 = true
          /\ mode <> resampleMode_forceIn /\ mode <> resampleMode_forceOut)
  /\ snd (setup sampleRates pitch mode)
     = match function (output ops) with
       | Some _ => ddiv rates r
       | None => rates
       end.
Proof.
  cbv zeta. unfold setup. fold (resampleRatio sampleRates pitch).
  set (r := resampleRatio sampleRates pitch).
  destruct mode; cbn [ResampleMode_eqb andb];
    destruct (deqb r d1) eqn:E1;
    try destruct (dgtb r d1) eqn:E2;
    try destruct (dltb r d1) eqn:E3;
    cbn [fst snd input output function ratio];
    (split; [first [left; reflexivity | right; reflexivity] |]);
    (split; [reflexivity |]); (split; [reflexivity |]);
    (split; [| reflexivity]);
    (split;
     [ intros [Ha Hb]; try discriminate Ha; try discriminate Hb;
       repeat split; discriminate
     | intros [Ha [Hb Hc]]; try discriminate Ha; try congruence;
       split; reflexivity ]).
Qed.

(** ** Padding of the internal buffer *)

(** X2: for every alignment that is not negative, [padding] is a multiple of
    [align], at least 32 and less than [32 + align]; it is 32 whenever
    [align] divides 32, as for Eigen's alignments of 0, 16, 32 and 64
    bytes; and the unpadded block of a freshly constructed internal buffer
    starts at row [padding] and has exactly [maxFrameCount] rows. *)
Theorem padding_bounds (bytes maxFrameCount channelCount : Z)
    (contents : list float) :
  0 <= bytes ->
  1 <= align bytes
  /\ padding bytes mod align bytes = 0
  /\ 32 <= padding bytes < 32 + align bytes
  /\ (32 mod align bytes = 0 -> padding bytes = 32)
  /\ unpadded bytes (Internal_new bytes maxFrameCount channelCount contents)
     = (padding bytes, maxFrameCount).
Proof.
  intros Hb. unfold padding. set (a := align bytes).
  assert (Ha : 1 <= a) by (unfold a, align; lia).
  rewrite Z.quot_div_nonneg by lia.
  pose proof (Z.div_mod (32 + a - 1) a ltac:(lia)) as Hdm.
  pose proof (Z.mod_pos_bound (32 + a - 1) a ltac:(lia)) as Hmb.
  split; [exact Ha |].
  split; [apply Z.mod_mul; lia |].
  split; [nia |].
  split.
  - intros H32.
    apply Z.mod_divide in H32; [| lia]. destruct H32 as [q Hq].
    assert (Hq0 : 0 < q) by nia.
    replace (32 + a - 1) with ((q * a) + (a - 1)) by lia.
    rewrite Z.add_comm, Z.div_add by lia.
    rewrite Z.div_small by lia. lia.
  - unfold unpadded, Internal_new. cbn [array rows]. fold a.
    unfold padding. fold a. rewrite Z.quot_div_nonneg by lia.
    f_equal. lia.
Qed.

(** X2, instance: the alignment of 16 bytes. *)
Lemma padding_bounds_witness :
  padding 16 = 32 /\ unpadded 16 (Internal_new 16 4096 2 []) = (32, 4096).
Proof.
  destruct (padding_bounds 16 4096 2 [] ltac:(lia))
    as [_ [_ [_ [H32 Hu]]]].
  split; [apply H32; reflexivity |].
  rewrite Hu. rewrite (H32 eq_refl). reflexivity.
Defined.

(** ** The ring of grains under [Grains::rotate] *)

Lemma rotate_inv (vector vector' : list Grain) :
  Grains.rotate vector = Some vector' ->
  exists (g0 g1 : Grain) (middle : list Grain) (back : Grain),
    vector = g0 :: g1 :: middle ++ [back]
    /\ vector' = fst (Grains.swap_buffers back g1) :: g0
                 :: snd (Grains.swap_buffers back g1) :: middle.
Proof.
  unfold Grains.rotate. intros H.
  destruct (rev vector) as [| back others] eqn:Er; [discriminate H |].
  assert (Hv : vector = rev others ++ [back]).
  { rewrite <- (rev_involutive vector), Er. reflexivity. }
  destruct (rev others) as [| g0 [| g1 middle]] eqn:Eo;
    cbn [app] in H; try discriminate H.
  injection H as <-.
  exists g0, g1, middle, back. split; [exact Hv | reflexivity].
Qed.

(** X3: [Grains::rotate] is defined exactly for a ring of at least three
    grains.  It keeps the number of grains and shifts the members that
    travel with a grain by one slot, the last grain coming to the front. *)
Theorem rotate_cyclic_shift (vector : list Grain) :
  (Grains.rotate vector = None <-> (List.length vector < 3)%nat)
  /\ forall vector' : list Grain,
       Grains.rotate vector = Some vector' ->
       List.length vector' = List.length vector
       /\ exists (front : list Grain) (back : Grain),
            vector = front ++ [back]
            /\ map descriptor vector'
               = descriptor back :: map descriptor front.
Proof.
  split.
  - unfold Grains.rotate.
    destruct (rev vector) as [| back others] eqn:Er.
    + apply (f_equal (@List.length Grain)) in Er.
      rewrite length_rev in Er. simpl in Er. split; [lia | reflexivity].
    + assert (Hl : List.length vector = S (List.length (rev others))).
      { rewrite <- (length_rev vector), Er. simpl.
        now rewrite length_rev. }
      destruct (rev others) as [| g0 [| g1 middle]]; cbn [app];
        simpl in Hl; split; try reflexivity; try discriminate; lia.
  - intros vector' H. apply rotate_inv in H.
    destruct H as [g0 [g1 [middle [back [-> ->]]]]].
    split.
    + simpl. rewrite length_app. simpl. lia.
    + exists (g0 :: g1 :: middle), back. split; [reflexivity |].
      reflexivity.
Qed.

(** X4: after [Grains::rotate] the grain in slot 1 is the grain that was in
    slot 0, untouched, and the grain in slot 0 holds the four heavy buffers
    that were in slot 1: the two working sets of buffers change places.
    No buffer is lost or duplicated, and four rotations of a ring of four
    grains restore it exactly. *)
Theorem rotate_working_buffers (vector : list Grain) :
  (forall vector' : list Grain,
      Grains.rotate vector = Some vector' ->
      exists (new0 old0 old1 : Grain) (rest rest' : list Grain),
        vector = old0 :: old1 :: rest
        /\ vector' = new0 :: old0 :: rest'
        /\ buffers new0 = buffers old1
        /\ Permutation.Permutation (map buffers vector')
                                   (map buffers vector))
  /\ (List.length vector = 4%nat ->
      (v1 <- Grains.rotate vector ;; v2 <- Grains.rotate v1 ;;
       v3 <- Grains.rotate v2 ;; Grains.rotate v3) = Some vector).
Proof.
  split.
  - intros vector' H. apply rotate_inv in H.
    destruct H as [g0 [g1 [middle [back [-> ->]]]]].
    exists (fst (Grains.swap_buffers back g1)), g0, g1, (middle ++ [back]),
      (snd (Grains.swap_buffers back g1) :: middle).
    split; [reflexivity |]. split; [reflexivity |].
    split; [reflexivity |].
    cbn [map Grains.swap_buffers fst snd buffers phase energy rotation
         partials].
    rewrite map_app. cbn [map].
    eapply Permutation.Permutation_trans; [apply Permutation.perm_swap |].
    do 2 apply Permutation.perm_skip.
    apply Permutation.Permutation_cons_append.
  - intros Hlen.
    destruct vector as [| [] [| [] [| [] [| [] [| ]]]]];
      try discriminate Hlen.
    reflexivity.
Qed.

(** X4, instance: a ring of four fresh grains. *)
Lemma rotate_working_buffers_witness :
  let ring := [Grain_new 9 1; Grain_new 8 1; Grain_new 7 1; Grain_new 6 1] in
  (v1 <- Grains.rotate ring ;; v2 <- Grains.rotate v1 ;;
   v3 <- Grains.rotate v2 ;; Grains.rotate v3) = Some ring.
Proof.
  exact (proj2 (rotate_working_buffers
                  [Grain_new 9 1; Grain_new 8 1; Grain_new 7 1;
                   Grain_new 6 1]) eq_refl).
Defined.

(** X5: [Grains::rotate] does not change what [Grains::flushed] returns. *)
Theorem rotate_keeps_flushed (vector vector' : list Grain) :
  Grains.rotate vector = Some vector' ->
  Grains.flushed vector' = Grains.flushed vector.
Proof.
  intros H. apply rotate_inv in H.
  destruct H as [g0 [g1 [middle [back [-> ->]]]]].
  assert (Happ : forall (l : list Grain) (g : Grain),
            Grains.flushed (l ++ [g])
            = Grains.flushed l && isnan (position (request g))).
  { induction l as [| h t IH]; intros g; simpl.
    - destruct (isnan (position (request g))); reflexivity.
    - destruct (isnan (position (request h))); simpl; [apply IH | reflexivity]. }
  change (g0 :: g1 :: middle ++ [back])
    with ((g0 :: g1 :: middle) ++ [back]).
  rewrite Happ.
  cbn [Grains.flushed Grains.swap_buffers fst snd request].
  destruct (isnan (position (request back)));
    destruct (isnan (position (request g0)));
    destruct (isnan (position (request g1)));
    cbn [negb andb]; try reflexivity;
    destruct (Grains.flushed middle); reflexivity.
Qed.

(** X5, instance: a ring of three fresh grains. *)
Lemma rotate_keeps_flushed_witness :
  exists vector' : list Grain,
    Grains.rotate [Grain_new 9 1; Grain_new 9 1; Grain_new 9 1]
    = Some vector'
    /\ Grains.flushed vector' = true.
Proof.
  eexists. split; [reflexivity |].
  exact (rotate_keeps_flushed
           [Grain_new 9 1; Grain_new 9 1; Grain_new 9 1] _ eq_refl).
Defined.

(** ** More on the call-order guard *)

Lemma calls_app (l1 l2 : list Z) :
  forall i : Instrumentation,
    calls i (l1 ++ l2)
    = match calls i l1 with
      | (lines, Returns i') =>
          ((lines ++ fst (calls i' l2))%list, snd (calls i' l2))
      | (lines, Aborts) => (lines, Aborts)
      end.
Proof.
  induction l1 as [| s rest IH]; intros i; cbn [calls app].
  - destruct (calls i l2); reflexivity.
  - destruct (Call i s) as [lines [i' |]]; [| reflexivity].
    rewrite IH. destruct (calls i' rest) as [lines' [i'' |]].
    + cbn [fst snd]. now rewrite app_assoc.
    + reflexivity.
Qed.

(** X6: a sequence of guarded calls that returns has logged nothing, was the
    call cycle from the call expected first, and leaves the guard expecting
    the call that comes [length l] places further in the cycle;
    [enabled] and [firstGrain] are as before. *)
Theorem calls_that_return (l : list Z) :
  forall (i i' : Instrumentation) (lines : list string),
    0 <= expected i < 3 ->
    calls i l = (lines, Returns i') ->
    lines = []
    /\ l = cycle (List.length l) (expected i)
    /\ expected i' = (expected i + Z.of_nat (List.length l)) mod 3
    /\ enabled i' = enabled i
    /\ firstGrain i' = firstGrain i.
Proof.
  induction l as [| s rest IH]; intros i i' lines He H.
  - injection H as <- <-. cbn [List.length cycle Z.of_nat].
    rewrite Z.add_0_r, Z.mod_small by lia. repeat split.
  - cbn [calls] in H. unfold Call in H.
    destruct (s =? expected i) eqn:Es; cbn [negb] in H;
      [| discriminate H].
    apply Z.eqb_eq in Es. subst s.
    set (j := mkInstrumentation (enabled i) (Z.rem (expected i + 1) 3)
                                (firstGrain i)) in H.
    destruct (calls j rest) as [lines' o] eqn:Ec.
    injection H as <- ->.
    assert (Hj : expected j = (expected i + 1) mod 3).
    { unfold j. cbn [expected]. apply Z.rem_mod_nonneg; lia. }
    assert (Hjr : 0 <= expected j < 3).
    { rewrite Hj. apply Z.mod_pos_bound. lia. }
    destruct (IH j i' lines' Hjr Ec) as [-> [Hl [Hx [Hen Hfg]]]].
    split; [reflexivity |].
    split; [cbn [List.length cycle]; rewrite <- Hj, <- Hl; reflexivity |].
    split.
    + rewrite Hx, Hj. cbn [List.length]. rewrite Nat2Z.inj_succ.
      rewrite Zplus_mod_idemp_l. f_equal. lia.
    + split; [rewrite Hen | rewrite Hfg]; reflexivity.
Qed.

(** X6, instance: a fresh guard and two full cycles and one call more. *)
Lemma calls_that_return_witness :
  exists i' : Instrumentation,
    calls Instrumentation_new [0; 1; 2; 0; 1; 2; 0] = ([], Returns i')
    /\ expected i' = 1.
Proof.
  eexists. split; [reflexivity |].
  exact (proj1 (proj2 (proj2
           (calls_that_return [0; 1; 2; 0; 1; 2; 0] Instrumentation_new _ []
              ltac:(cbn; lia) eq_refl)))).
Defined.

(** X7: the guard logs at most one line over any sequence of calls, and none
    while instrumentation is disabled; it logs exactly one line when the
    sequence aborts with instrumentation enabled; and whether the sequence
    aborts does not depend on instrumentation being enabled. *)
Theorem guard_logs_at_most_once (i : Instrumentation) (l : list Z) :
  (List.length (fst (calls i l)) <= 1)%nat
  /\ (enabled i = false -> fst (calls i l) = [])
  /\ (enabled i = true -> snd (calls i l) = Aborts ->
      List.length (fst (calls i l)) = 1%nat)
  /\ (forall enable : bool,
        snd (calls (enableInstrumentation i enable) l) = Aborts
        <-> snd (calls i l) = Aborts).
Proof.
  revert i. induction l as [| s rest IH]; intros [en ex fg].
  - cbn [calls fst snd List.length].
    repeat split; try lia; discriminate.
  - cbn [calls]. unfold Call, enableInstrumentation.
    cbn [expected enabled firstGrain].
    destruct (s =? ex) eqn:Es; cbn [negb].
    + destruct (IH (mkInstrumentation en (Z.rem (s + 1) 3) fg))
        as [H1 [H2 [H3 H4]]].
      cbn [enabled] in H2, H3.
      destruct (calls (mkInstrumentation en (Z.rem (s + 1) 3) fg) rest)
        as [lines' o] eqn:Ec.
      cbn [fst snd app] in *.
      split; [exact H1 |]. split; [exact H2 |]. split; [exact H3 |].
      intros enable. specialize (H4 enable).
      unfold enableInstrumentation in H4.
      cbn [expected enabled firstGrain] in H4.
      destruct (calls (mkInstrumentation enable (Z.rem (s + 1) 3) fg) rest)
        as [lines'' o''].
      cbn [snd] in *. exact H4.
    + cbn [fst snd]. unfold log. cbn [enabled].
      split; [destruct en; simpl; lia |].
      split; [intros ->; reflexivity |].
      split; [intros ->; reflexivity |].
      intros enable. tauto.
Qed.

(** ** More on [Grain::specify] *)

Lemma dsub_nan_r (a : double) : dsub a S754_nan = S754_nan.
Proof. destruct a; reflexivity. Qed.

(** X8: a request with [reset] set makes [Grain::specify] forget the previous
    grain: its result is the same whatever the previous grain is. *)
Theorem specify_reset_forgets_previous
    (g : Grain) (r : Request) (previous previous' : Grain)
    (sampleRates : SampleRates) (log2SynthesisHop : Z)
    (bufferStartPosition : double) :
  reset r = true ->
  specify g r previous sampleRates log2SynthesisHop bufferStartPosition
  = specify g r previous' sampleRates log2SynthesisHop bufferStartPosition.
Proof.
  intros Hreset. unfold specify. rewrite Hreset.
  destruct (setup sampleRates (pitch r) (resampleMode r)) as [ops ret].
  destruct (shl1 log2SynthesisHop) as [sh |]; [| reflexivity].
  cbn [bind negb andb]. rewrite !orb_true_r. reflexivity.
Qed.

(** X8, instance: a reset request after a fresh grain and after a grain at
    position 1000. *)
Lemma specify_reset_forgets_previous_witness :
  let r := mkRequest (of_int 2000) d1 d1 true resampleMode_autoOut in
  let previous :=
    match specify (Grain_new 9 1) (unit_request (of_int 1000))
                  (Grain_new 9 1) (mkSampleRates 48000 48000) 9
                  (S754_zero false) with
    | Some (g, _) => g
    | None => Grain_new 9 1
    end in
  specify (Grain_new 9 1) r (Grain_new 9 1) (mkSampleRates 48000 48000) 9
          (S754_zero false)
  = specify (Grain_new 9 1) r previous (mkSampleRates 48000 48000) 9
            (S754_zero false).
Proof.
  cbv zeta.
  apply (specify_reset_forgets_previous (Grain_new 9 1)
           (mkRequest (of_int 2000) d1 d1 true resampleMode_autoOut)).
  reflexivity.
Defined.

(** ** The direction of a grain that restarts *)

Lemma to_int_sign_neg (x : double) (z : Z) :
  sign_is true x -> to_int x = Some z -> z <= 0.
Proof.
  destruct x as [s | s | | s m e]; try discriminate.
  - intros _ [= <-]. lia.
  - cbn [sign_is]. intros ->. unfold to_int, trunc. cbn [bind cond_Zopp].
    intros H. apply int_Some in H. destruct H as [-> _].
    pose proof (Z.shiftl_nonneg (Zpos m) e). lia.
Qed.

Lemma setup_output_ratio_sign (sampleRates : SampleRates) (pitch : double)
    (mode : ResampleMode) :
  dgtb pitch (S754_zero false) = true ->
  0 <= rate_input sampleRates -> 0 <= rate_output sampleRates ->
  sign_is false (ratio (output (fst (setup sampleRates pitch mode))))
  /\ sign_is false (snd (setup sampleRates pitch mode)).
Proof.
  intros Hp Hin Hout.
  assert (Hr : sign_is false
                 (ddiv (dmul pitch (of_int (rate_input sampleRates)))
                       (of_int (rate_output sampleRates)))).
  { apply (ddiv_sign false false); [| now apply of_int_sign].
    apply (dmul_sign false false);
      [now apply positive_sign | now apply of_int_sign]. }
  assert (Hq : sign_is false
                 (ddiv (of_int (rate_input sampleRates))
                       (of_int (rate_output sampleRates)))).
  { apply (ddiv_sign false false); now apply of_int_sign. }
  unfold setup.
  match goal with
  | |- context [let '(a, b) := ?X in _] => destruct X as [[fi |] [fo |]]
  end; cbn [fst snd output ratio]; split;
    try exact Hr; try exact Hq; try (apply of_int_sign; lia);
    apply (ddiv_sign false false); assumption.
Qed.

(** X9: a grain that is not continuous (a reset, or the first grain after an
    invalid one) takes its direction from the sign of [request.speed]: for a
    positive pitch and sample rates that are not negative, a speed that is
    not negative gives a hop that is not negative, so [reverse()] is false,
    and a negative speed gives a hop that is not positive. *)
Theorem specify_restart_direction
    (g : Grain) (r : Request) (previous : Grain) (sampleRates : SampleRates)
    (log2SynthesisHop : Z) (bufferStartPosition : double)
    (g' : Grain) (chunk : InputChunk) (s : bool) :
  specify g r previous sampleRates log2SynthesisHop bufferStartPosition
  = Some (g', chunk) ->
  continuous g' = false ->
  dgtb (pitch r) (S754_zero false) = true ->
  0 <= rate_input sampleRates -> 0 <= rate_output sampleRates ->
  sign_is s (speed r) ->
  if s then hop (analysis g') <= 0
  else 0 <= hop (analysis g') /\ reverse g' = false.
Proof.
  intros H Hcont Hp Hin Hout Hs.
  destruct (specify_inv _ _ _ _ _ _ _ _ H)
    as [Hrange [_ [_ [_ [Hc [_ [_ [Hpe _]]]]]]]].
  rewrite Hcont in Hc. rewrite <- Hc in Hpe. destruct Hpe as [Hhop _].
  assert (Hcond : isnan (dsub (position r) (position (request previous)))
                  || reset r = true).
  { symmetry in Hc. apply andb_false_iff in Hc. destruct Hc as [Hc | Hc].
    - apply negb_false_iff in Hc. rewrite Hc. apply orb_true_r.
    - apply negb_false_iff in Hc. apply isnan_true in Hc. rewrite Hc.
      rewrite dsub_nan_r. reflexivity. }
  rewrite Hcond in Hhop.
  destruct (setup_output_ratio_sign sampleRates (pitch r) (resampleMode r)
              Hp Hin Hout) as [_ Hret].
  pose proof (setup_input_ratio_sign sampleRates (pitch r) (resampleMode r)
                Hp Hin Hout) as Hratio.
  assert (H2 : 0 <= 2 ^ log2SynthesisHop) by (apply Z.pow_nonneg; lia).
  pose proof (round_sign _ _
                (dmul_sign _ false _ _
                   (dmul_sign _ false _ _ Hs
                      (dmul_sign false false _ _ (of_int_sign _ H2) Hret))
                   Hratio)) as Hsign.
  rewrite !xorb_false_r in Hsign.
  destruct s.
  - exact (to_int_sign_neg _ _ Hsign Hhop).
  - pose proof (to_int_sign _ _ Hsign Hhop) as Hge.
    split; [exact Hge |]. unfold reverse. apply Z.ltb_ge. exact Hge.
Qed.

(** X9, instance: the first grain of a fresh ring, at unit speed. *)
Lemma specify_restart_direction_witness :
  exists (g' : Grain) (chunk : InputChunk),
    specify (Grain_new 9 1) (unit_request (of_int 1000)) (Grain_new 9 1)
            (mkSampleRates 48000 48000) 9 (S754_zero false)
    = Some (g', chunk)
    /\ 0 <= hop (analysis g') /\ reverse g' = false.
Proof.
  destruct (specify (Grain_new 9 1) (unit_request (of_int 1000))
                    (Grain_new 9 1) (mkSampleRates 48000 48000) 9
                    (S754_zero false)) as [[g' chunk] |] eqn:E;
    [| vm_compute in E; discriminate E].
  exists g', chunk. split; [reflexivity |].
  apply (specify_restart_direction _ _ _ _ _ _ g' chunk false E).
  - vm_compute in E. injection E as <- _. reflexivity.
  - reflexivity.
  - simpl. lia.
  - simpl. lia.
  - reflexivity.
Defined.

(** X10, instance: the grain at position 1000 of a
    fresh ring gets a chunk that is not empty. *)
Lemma specify_chunk_ordered_witness :
  exists (g' : Grain) (chunk : InputChunk),
    specify (Grain_new 9 1) (unit_request (of_int 1000)) (Grain_new 9 1)
            (mkSampleRates 48000 48000) 9 (S754_zero false)
    = Some (g', chunk)
    /\ chunk_begin (inputChunk g') < chunk_end (inputChunk g').
Proof.
  destruct (specify (Grain_new 9 1) (unit_request (of_int 1000))
                    (Grain_new 9 1) (mkSampleRates 48000 48000) 9
                    (S754_zero false)) as [[g' chunk] |] eqn:E;
    [| vm_compute in E; discriminate E].
  exists g', chunk. split; [reflexivity |].
  apply (specify_chunk_ordered _ _ _ _ _ _ g' chunk E).
  - reflexivity.
  - simpl. lia.
  - simpl. lia.
Defined.

(** ** Mute counts computed by the callers *)

Lemma clamp_cases (v lo hi : Z) :
  lo <= hi ->
  (v < lo /\ clamp v lo hi = lo)
  \/ (hi < v /\ clamp v lo hi = hi)
  \/ (lo <= v <= hi /\ clamp v lo hi = v).
Proof.
  intros H. unfold clamp.
  destruct (v <? lo) eqn:E1; [left; lia |].
  destruct (hi <? v) eqn:E2; [right; left; lia | right; right; lia].
Qed.

(** X11: with the mute counts that the granular loop of [main] computes,
    whenever [Grain::inputChunkMap] returns, the rows of the chunk that it
    leaves unmuted are exactly the rows whose frame lies in the track, in
    [0, inputFrameCount). *)
Theorem main_unmuted_rows_are_the_track
    (g previous : Grain) (i : Instrumentation) (samples : list float)
    (stride inputFrameCount head tail : Z)
    (lines : list string) (g' : Grain) (m : Array) (head' tail' : Z) :
  Main.muteFrameCounts (inputChunk g) inputFrameCount = Some (head, tail) ->
  inputChunkMap g (Some samples) stride head tail previous i
  = Some (lines, Returns (g', m, head', tail')) ->
  rows m = chunk_end (inputChunk g) - chunk_begin (inputChunk g)
  /\ 0 <= rows m <= INT_MAX
  /\ forall row : Z,
       0 <= row < rows m ->
       (head' <= row < rows m - tail'
        <-> 0 <= chunk_begin (inputChunk g) + row < inputFrameCount).
Proof.
  intros Hm Hmap.
  unfold Main.muteFrameCounts in Hm.
  bind_step Hm nb Enb. bind_step Hm exc Eex. injection Hm as <- <-.
  apply int_Some in Enb. destruct Enb as [-> _].
  apply int_Some in Eex. destruct Eex as [-> _].
  destruct (inputChunkMap_returns _ _ _ _ _ _ _ _ _ _ _ _ Hmap)
    as [Hfc [-> [-> [-> _]]]].
  cbn [rows]. split; [reflexivity |]. split; [exact Hfc |].
  intros row Hrow.
  set (frameCount := chunk_end (inputChunk g) - chunk_begin (inputChunk g))
    in *.
  assert (Hfc0 : 0 <= frameCount) by lia.
  destruct (clamp_cases (Z.max 0 (- chunk_begin (inputChunk g))) 0
              frameCount Hfc0) as [[? ->] | [[? ->] | [? ->]]];
    destruct (clamp_cases
                (Z.max 0 (chunk_end (inputChunk g) - inputFrameCount)) 0
                frameCount Hfc0) as [[? ->] | [[? ->] | [? ->]]];
    unfold frameCount in *; lia.
Qed.

(** X11, instance: the chunk [-1048, 3048) of the grain at position 1000 and a
    track of 2000 frames, with instrumentation disabled: row 1048 is the
    first unmuted row and frame 0 of the track. *)
Lemma main_unmuted_rows_are_the_track_witness :
  let g := match specify (Grain_new 9 1) (unit_request (of_int 1000))
                         (Grain_new 9 1) (mkSampleRates 48000 48000) 9
                         (S754_zero false) with
           | Some (g, _) => g
           | None => Grain_new 9 1
           end in
  Main.muteFrameCounts (inputChunk g) 2000 = Some (1048, 1048)
  /\ exists m : Array,
       inputChunkMap g (Some []) 4096 1048 1048 (Grain_new 9 1)
                     Instrumentation_new
       = Some ([], Returns (g, m, 1048, 1048))
       /\ rows m = 4096
       /\ (1048 <= 1048 < rows m - 1048 <-> 0 <= -1048 + 1048 < 2000).
Proof.
  cbv zeta.
  set (g := match specify _ _ _ _ _ _ with Some (g, _) => g | None => _ end).
  assert (Hc : inputChunk g = mkInputChunk (-1048) 3048)
    by (vm_compute; reflexivity).
  clearbody g.
  assert (Hm : Main.muteFrameCounts (inputChunk g) 2000 = Some (1048, 1048))
    by (rewrite Hc; reflexivity).
  split; [exact Hm |].
  eexists.
  assert (Hmap :
    inputChunkMap g (Some []) 4096 1048 1048 (Grain_new 9 1)
                  Instrumentation_new
    = Some ([], Returns (g, mkArray [] 4096 (transformed_cols g) 4096,
                         1048, 1048)))
    by (unfold inputChunkMap; rewrite Hc; reflexivity).
  split; [exact Hmap |].
  destruct (main_unmuted_rows_are_the_track g (Grain_new 9 1)
              Instrumentation_new [] 4096 2000 1048 1048 _ _ _ _ _ Hm Hmap)
    as [Hrows [_ H]].
  split; [reflexivity |].
  specialize (H 1048). rewrite Hc in H. cbn [rows chunk_begin] in H |- *.
  apply H. lia.
Defined.

(** X12: whenever [Stream::InputBuffer::analyseGrain] makes its call and
    [Grain::inputChunkMap] returns for it, every row that is left unmuted is
    a frame the buffer holds, in [begin, end), and the element the stretcher
    reads for it lies in the channel's block of the buffer as long as the
    buffered frames fit the channel stride.  The mute counts do not depend
    on the samples, [samples], that the data pointer addresses. *)
Theorem stream_unmuted_rows_are_buffered
    (NDEBUG : bool) (b : Stream.InputBuffer) (g previous : Grain)
    (i : Instrumentation) (samples : list float)
    (data stride head tail : Z)
    (lines : list string) (g' : Grain) (m : Array) (head' tail' : Z) :
  inputChunk g = Stream.inputChunk b ->
  Stream.analyseGrain NDEBUG b = Some (Returns (data, stride, head, tail)) ->
  inputChunkMap g (Some samples) stride head tail previous i
  = Some (lines, Returns (g', m, head', tail')) ->
  stride = Stream.channelStride b
  /\ rows m = chunk_end (inputChunk g) - chunk_begin (inputChunk g)
  /\ forall row : Z,
       head' <= row < rows m - tail' ->
       Stream.buffer_begin b <= chunk_begin (inputChunk g) + row
       < Stream.buffer_end b
       /\ data + row
          = chunk_begin (inputChunk g) + row - Stream.buffer_begin b
       /\ forall c : Z,
            Stream.buffer_end b - Stream.buffer_begin b
            <= Stream.channelStride b ->
            0 <= c < Stream.channelCount b ->
            Z.of_nat (List.length (Stream.buffer b))
            = Stream.channelStride b * Stream.channelCount b ->
            0 <= data + row + c * stride
            < Z.of_nat (List.length (Stream.buffer b)).
Proof.
  intros Hchunk Ha Hmap.
  unfold Stream.analyseGrain in Ha. rewrite <- Hchunk in Ha.
  bind_step Ha mh Emh. bind_step Ha mt Emt.
  apply int_Some in Emh. destruct Emh as [-> _].
  apply int_Some in Emt. destruct Emt as [-> _].
  assert (Hargs :
    (data, stride, head, tail)
    = (- (Stream.buffer_begin b - chunk_begin (inputChunk g)),
       Stream.channelStride b,
       Stream.buffer_begin b - chunk_begin (inputChunk g),
       chunk_end (inputChunk g) - Stream.buffer_end b)).
  { destruct NDEBUG.
    - now injection Ha as <- <- <- <-.
    - bind_step Ha fc Efc. destruct (_ || _); [| discriminate Ha].
      now injection Ha as <- <- <- <-. }
  injection Hargs as -> -> -> ->.
  destruct (inputChunkMap_returns _ _ _ _ _ _ _ _ _ _ _ _ Hmap)
    as [Hfc [-> [-> [-> _]]]].
  cbn [rows]. split; [reflexivity |]. split; [reflexivity |].
  intros row Hrow.
  set (frameCount := chunk_end (inputChunk g) - chunk_begin (inputChunk g))
    in *.
  assert (Hfc0 : 0 <= frameCount) by lia.
  assert (Hin : Stream.buffer_begin b <= chunk_begin (inputChunk g) + row
                < Stream.buffer_end b).
  { destruct (clamp_cases
                (Stream.buffer_begin b - chunk_begin (inputChunk g)) 0
                frameCount Hfc0) as [[? E1] | [[? E1] | [? E1]]];
      destruct (clamp_cases
                  (chunk_end (inputChunk g) - Stream.buffer_end b) 0
                  frameCount Hfc0) as [[? E2] | [[? E2] | [? E2]]];
      rewrite E1, E2 in Hrow; unfold frameCount in *; lia. }
  split; [exact Hin |]. split; [lia |].
  intros c Hfit Hc Hlen. rewrite Hlen. nia.
Qed.

(** X12, instance: a buffer of one channel that holds the frames [0, 3000) and
    the chunk [-1048, 3048), with instrumentation disabled: row 1048 is
    frame 0, inside the buffer. *)
Lemma stream_unmuted_rows_are_buffered_witness :
  let g := match specify (Grain_new 9 1) (unit_request (of_int 1000))
                         (Grain_new 9 1) (mkSampleRates 48000 48000) 9
                         (S754_zero false) with
           | Some (g, _) => g
           | None => Grain_new 9 1
           end in
  let b := Stream.mkInputBuffer 5000 1 (repeat f0 5000) 0 3000
                                (mkInputChunk (-1048) 3048) in
  Stream.analyseGrain true b = Some (Returns (-1048, 5000, 1048, 48))
  /\ exists m : Array,
       inputChunkMap g (Some []) 5000 1048 48 (Grain_new 9 1)
                     Instrumentation_new
       = Some ([], Returns (g, m, 1048, 48))
       /\ 0 <= -1048 + 1048 < 3000.
Proof.
  cbv zeta.
  set (g := match specify _ _ _ _ _ _ with Some (g, _) => g | None => _ end).
  set (b := Stream.mkInputBuffer _ _ _ _ _ _).
  assert (Hg : inputChunk g = mkInputChunk (-1048) 3048)
    by (vm_compute; reflexivity).
  clearbody g.
  assert (Hc : inputChunk g = Stream.inputChunk b) by exact Hg.
  assert (Ha : Stream.analyseGrain true b
               = Some (Returns (-1048, 5000, 1048, 48))) by reflexivity.
  assert (Hmap :
    inputChunkMap g (Some []) 5000 1048 48 (Grain_new 9 1)
                  Instrumentation_new
    = Some ([], Returns (g, mkArray [] 4096 (transformed_cols g) 5000,
                         1048, 48)))
    by (unfold inputChunkMap; rewrite Hg; reflexivity).
  split; [exact Ha |]. eexists. split; [exact Hmap |].
  destruct (stream_unmuted_rows_are_buffered true b g (Grain_new 9 1)
              Instrumentation_new [] _ _ _ _ _ _ _ _ _ Hc Ha Hmap)
    as [_ [_ Hrows]].
  destruct (Hrows 1048) as [Hin _].
  - cbn [rows]. lia.
  - rewrite Hg in Hin. simpl in Hin. lia.
Defined.

(** ** The number of valid bins *)


(** What [Grain::specify] leaves alone, and the transform length it sets. *)
Lemma specify_frame
    (g : Grain) (r : Request) (previous : Grain) (sampleRates : SampleRates)
    (log2SynthesisHop : Z) (bufferStartPosition : double)
    (g' : Grain) (chunk : InputChunk) :
  specify g r previous sampleRates log2SynthesisHop bufferStartPosition
  = Some (g', chunk) ->
  log2TransformLength g' = log2SynthesisHop + 3
  /\ inputResampled_frameCount g' = 2 ^ (log2SynthesisHop + 3)
  /\ validBinCount g' = validBinCount g
  /\ muteFrameCountHead g' = muteFrameCountHead g
  /\ muteFrameCountTail g' = muteFrameCountTail g
  /\ buffers g' = buffers g.
Proof.
  intros H. unfold specify in H.
  destruct (setup sampleRates (pitch r) (resampleMode r)) as [ops ret].
  destruct (shl1 log2SynthesisHop) as [sh |] eqn:Esh; [| discriminate H].
  cbn [bind] in H.
  match type of H with bind ?o _ = _ =>
    destruct o as [[pe hp] |]; [| discriminate H] end.
  cbn [bind] in H.
  match type of H with bind ?o _ = _ =>
    destruct o as [p0 |]; [| discriminate H] end.
  cbn [bind] in H.
  destruct (int (log2SynthesisHop + 3)) as [l2t |] eqn:El2t;
    [| discriminate H].
  cbn [bind] in H. apply int_Some in El2t. destruct El2t as [-> _].
  destruct (shl1 (log2SynthesisHop + 3)) as [fc |] eqn:Efc;
    [| discriminate H].
  cbn [bind] in H. apply shl1_Some in Efc. destruct Efc as [-> _].
  match type of H with bind ?o _ = _ =>
    destruct o as [half |]; [| discriminate H] end.
  cbn [bind] in H.
  destruct (int (- half)) as [cb |]; [| discriminate H].
  cbn [bind] in H.
  destruct (isnan (position r)).
  - injection H as <- <-. repeat split.
  - bind_step H off Eoff. bind_step H cb' Eb. bind_step H ce' Ee.
    injection H as <- <-. repeat split.
Qed.

Lemma specifyGrain_inv (s s1 : Stretcher) (r : Request) (b : double)
    (c : InputChunk) :
  specifyGrain s r b = Done (s1, c) ->
  exists (fresh previous grain : Grain) (rest : list Grain),
    specify fresh r previous (sampleRates s) (log2SynthesisHop s) b
    = Some (grain, c)
    /\ grains s1 = grain :: previous :: rest
    /\ sampleRates s1 = sampleRates s
    /\ log2SynthesisHop s1 = log2SynthesisHop s.
Proof.
  intros H. unfold specifyGrain in H.
  destruct (Call (instrumentation s) 0) as [lines [call |]];
    [| discriminate H].
  destruct (Grains.rotate (grains s)) as [[| fresh [| previous rest]] |];
    try discriminate H.
  destruct (specify fresh r previous _ _ _) as [[grain c'] |] eqn:E;
    [| discriminate H].
  injection H as <- <-.
  exists fresh, previous, grain, rest. repeat split. exact E.
Qed.

Lemma analyseGrain_inv (k : Kernels) (s s' : Stretcher)
    (data : option (list float)) (stride head tail : Z)
    (grain : Grain) (others : list Grain) :
  analyseGrain k s data stride head tail = Done s' ->
  grains s = grain :: others ->
  exists grain' : Grain,
    grains s' = grain' :: others
    /\ request grain' = request grain
    /\ resampleOperations grain' = resampleOperations grain
    /\ muteFrameCountHead grain' = head
    /\ muteFrameCountTail grain' = tail
    /\ let n := Z.of_nat (binCount (log2TransformLength grain)) - 1 in
       if valid grain then
         exists c : Z,
           to_int (ceil (ddiv (of_int n)
                              (ratio (output (resampleOperations grain)))))
           = Some c
           /\ validBinCount grain' = Z.min c n + 1
       else
         validBinCount grain' = 0
         /\ log2TransformLength grain' = log2TransformLength grain
         /\ energy grain' = energy grain
         /\ phase grain' = phase grain
         /\ partials grain' = partials grain.
Proof.
  intros H Hring.
  destruct (analyseGrain_kept _ _ _ _ _ _ _ H)
    as [g0 [grain' [others' [Hs0 [Hs' [Hkept [Hh [Ht _]]]]]]]].
  rewrite Hring in Hs0. injection Hs0 as <- <-.
  destruct (analyseGrain_Done _ _ _ _ _ _ _ H)
    as [g1 [p [r0 [g' [Hs1 [Hs1' [_ [_ [_ [_ [_ Hg]]]]]]]]]]].
  rewrite Hring in Hs1. injection Hs1 as <- ->.
  rewrite Hs' in Hs1'. injection Hs1' as <-.
  exists grain'. split; [exact Hs' |].
  unfold kept_by_analysis in Hkept.
  split; [congruence |]. split; [congruence |].
  split; [exact Hh |]. split; [exact Ht |].
  cbv zeta in Hg |- *. destruct (valid grain).
  - destruct Hg as [lines [grain1 [m [h [t [c [_ [Hc [_ ->]]]]]]]]].
    exists c. split; [exact Hc |].
    destruct (analysis_kernel _ _ _ _ _ _ _ _ _ _) as [[[l e] pp] pa].
    reflexivity.
  - subst grain'. repeat split.
Qed.

Lemma ceil_sign (x : double) : sign_is false x -> sign_is false (ceil x).
Proof.
  destruct x as [s' | s' | | s' m e]; cbn [sign_is]; auto.
  intros ->. unfold ceil. destruct (0 <=? e); [reflexivity |].
  assert (Hn : 0 <= (Zpos m + 2 ^ (- e) - 1) / 2 ^ (- e)).
  { destruct (Z_lt_le_dec (- e) 0) as [Hneg | Hpos].
    - rewrite (Z.pow_neg_r 2 (- e)) by lia. rewrite Z.div_0_r. lia.
    - pose proof (Z.pow_pos_nonneg 2 (- e) ltac:(lia) Hpos).
      apply Z.div_pos; lia. }
  destruct ((Zpos m + 2 ^ (- e) - 1) / 2 ^ (- e)) as [| p | p]; try lia.
  - reflexivity.
  - cbn [cond_Zopp binary_normalize]. apply binary_round_sign.
Qed.

Lemma setup_output_pass_through (sampleRates : SampleRates) (pitch : double)
    (mode : ResampleMode) :
  let ops := fst (setup sampleRates pitch mode) in
  function (output ops) = None -> ratio (output ops) = d1.
Proof.
  cbv zeta. unfold setup.
  match goal with
  | |- context [let '(a, b) := ?X in _] => destruct X as [[fi |] [fo |]]
  end; cbn [fst output function ratio]; intros H;
    try discriminate H; reflexivity.
Qed.

(** Dividing the highest bin index of a transform by a ratio of 1 and
    rounding up gives the index back, for each transform length the hop
    allows. *)
Lemma ceil_div_one (log2TransformLength : Z) :
  3 <= log2TransformLength <= 30 ->
  to_int (ceil (ddiv (of_int (2 ^ log2TransformLength / 2)) d1))
  = Some (2 ^ log2TransformLength / 2).
Proof.
  intros H.
  assert (Hc : log2TransformLength = 3 \/ log2TransformLength = 4
               \/ log2TransformLength = 5 \/ log2TransformLength = 6
               \/ log2TransformLength = 7 \/ log2TransformLength = 8
               \/ log2TransformLength = 9 \/ log2TransformLength = 10
               \/ log2TransformLength = 11 \/ log2TransformLength = 12
               \/ log2TransformLength = 13 \/ log2TransformLength = 14
               \/ log2TransformLength = 15 \/ log2TransformLength = 16
               \/ log2TransformLength = 17 \/ log2TransformLength = 18
               \/ log2TransformLength = 19 \/ log2TransformLength = 20
               \/ log2TransformLength = 21 \/ log2TransformLength = 22
               \/ log2TransformLength = 23 \/ log2TransformLength = 24
               \/ log2TransformLength = 25 \/ log2TransformLength = 26
               \/ log2TransformLength = 27 \/ log2TransformLength = 28
               \/ log2TransformLength = 29 \/ log2TransformLength = 30)
    by lia.
  repeat (destruct Hc as [-> | Hc]; [vm_compute; reflexivity |]).
  subst. vm_compute. reflexivity.
Qed.

(** X13: after [specifyGrain] and [analyseGrain], the grain has no valid bin
    when its request position is NaN; otherwise its valid bin count is at
    most the number of bins of the transform, at least 1 for a positive
    pitch and sample rates that are not negative, and equal to the number
    of bins when the output resampler is not engaged. *)
Theorem analyseGrain_valid_bins
    (k : Kernels) (s s1 s2 : Stretcher) (r : Request) (b : double)
    (c : InputChunk) (data : option (list float)) (stride head tail : Z) :
  specifyGrain s r b = Done (s1, c) ->
  analyseGrain k s1 data stride head tail = Done s2 ->
  exists (g : Grain) (others : list Grain),
    grains s2 = g :: others
    /\ request g = r
    /\ let bins := Z.of_nat (binCount (log2SynthesisHop s + 3)) in
       (isnan (position r) = true -> validBinCount g = 0)
       /\ (isnan (position r) = false ->
           validBinCount g <= bins
           /\ (dgtb (pitch r) (S754_zero false) = true ->
               0 <= rate_input (sampleRates s) ->
               0 <= rate_output (sampleRates s) ->
               1 <= validBinCount g)
           /\ (function (output (resampleOperations g)) = None ->
               validBinCount g = bins)).
Proof.
  intros Hs Ha.
  destruct (specifyGrain_inv _ _ _ _ _ Hs)
    as [fresh [previous [grain [rest [Hsp [Hring _]]]]]].
  destruct (analyseGrain_inv _ _ _ _ _ _ _ _ _ Ha Hring)
    as [g [Hring' [Hreq [Hops [_ [_ Hv]]]]]].
  destruct (specify_inv _ _ _ _ _ _ _ _ Hsp) as [Hrange [Hr [Ho _]]].
  destruct (specify_frame _ _ _ _ _ _ _ _ Hsp) as [Hl _].
  exists g, (previous :: rest). split; [exact Hring' |].
  split; [congruence |]. cbv zeta in Hv |- *.
  unfold valid in Hv. rewrite Hr, Hl in Hv.
  assert (Hpow : 0 < 2 ^ (log2SynthesisHop s + 3))
    by (apply Z.pow_pos_nonneg; lia).
  assert (Hn : Z.of_nat (binCount (log2SynthesisHop s + 3)) - 1
               = 2 ^ (log2SynthesisHop s + 3) / 2).
  { unfold binCount. rewrite Z2Nat.id; [lia |].
    pose proof (Z.div_pos (2 ^ (log2SynthesisHop s + 3)) 2). lia. }
  assert (Hn0 : 0 <= 2 ^ (log2SynthesisHop s + 3) / 2)
    by (apply Z.div_pos; lia).
  rewrite Hn in Hv.
  split.
  - intros Hnan. rewrite Hnan in Hv. cbn [negb] in Hv. tauto.
  - intros Hnan. rewrite Hnan in Hv. cbn [negb] in Hv.
    destruct Hv as [cl [Hcl Hvalid]].
    split; [lia |]. split.
    + intros Hp Hin Hout.
      destruct (setup_output_ratio_sign (sampleRates s) (pitch r)
                  (resampleMode r) Hp Hin Hout) as [Hsign _].
      rewrite Ho in Hcl.
      pose proof (to_int_sign _ _
                    (ceil_sign _
                       (ddiv_sign false false _ _ (of_int_sign _ Hn0)
                          Hsign)) Hcl).
      lia.
    + intros Hnone. rewrite Hops, Ho in Hnone.
      rewrite Ho, (setup_output_pass_through _ _ _ Hnone) in Hcl.
      rewrite ceil_div_one in Hcl by lia.
      injection Hcl as <-. lia.
Qed.

(** X13, instance: the first grain of a fresh stretcher, at position 1000 and
    without resampling, has all 2049 bins valid. *)
Lemma analyseGrain_valid_bins_witness :
  exists (s1 s2 : Stretcher) (c : InputChunk) (g : Grain)
         (others : list Grain),
    specifyGrain (Stretcher_new (mkSampleRates 48000 48000) 1 9)
                 (unit_request (of_int 1000)) (S754_zero false)
    = Done (s1, c)
    /\ analyseGrain null_kernels s1 None 0 0 0 = Done s2
    /\ grains s2 = g :: others
    /\ validBinCount g = 2049.
Proof.
  pose (s0 := Stretcher_new (mkSampleRates 48000 48000) 1 9).
  destruct (specifyGrain s0 (unit_request (of_int 1000)) (S754_zero false))
    as [[s1 c] | |] eqn:E1;
    [| vm_compute in E1; discriminate E1 | vm_compute in E1; discriminate E1].
  destruct (analyseGrain null_kernels s1 None 0 0 0) as [s2 | |] eqn:E2.
  - destruct (analyseGrain_valid_bins null_kernels s0 s1 s2 _ _ c None 0 0 0
                E1 E2) as [g [others [Hring [_ [_ Hvalid]]]]].
    exists s1, s2, c, g, others.
    split; [exact E1 |]. split; [exact E2 |]. split; [exact Hring |].
    destruct (Hvalid eq_refl) as [_ [_ Hall]].
    rewrite Hall; [reflexivity |].
    vm_compute in E1. injection E1 as <- _.
    vm_compute in E2. injection E2 as <-.
    injection Hring as <- _. reflexivity.
  - exfalso. vm_compute in E1. injection E1 as <- _.
    vm_compute in E2. discriminate E2.
  - exfalso. vm_compute in E1. injection E1 as <- _.
    vm_compute in E2. discriminate E2.
Defined.

(** ** The requests of the output chunk *)

Lemma process_app (k : Kernels) (l1 l2 : list GrainInput) :
  forall s s' : Stretcher,
    process k s (l1 ++ l2) = Done s' ->
    exists s1 : Stretcher,
      process k s l1 = Done s1 /\ process k s1 l2 = Done s'.
Proof.
  induction l1 as [| x rest IH]; intros s s' H; cbn [app process] in *.
  - exists s. split; [reflexivity | exact H].
  - destruct (grain_cycle k s x) as [s1 | |]; try discriminate H.
    apply IH. exact H.
Qed.

Lemma grain_cycle_ring (k : Kernels) (s s' : Stretcher) (gi : GrainInput) :
  grain_cycle k s gi = Done s' ->
  List.length (grains s) = 4%nat ->
  List.length (grains s') = 4%nat
  /\ exists q0 q1 q2 q3 : Request,
       map request (grains s) = [q0; q1; q2; q3]
       /\ map request (grains s') = [gi_request gi; q0; q1; q2].
Proof.
  intros H Hlen.
  destruct (grains s) as [| g0 [| g1 [| g2 [| g3 [| g4 rest]]]]] eqn:Eg;
    try discriminate Hlen.
  assert (Hr : map request (grains s)
               = [request g0; request g1; request g2; request g3])
    by (rewrite Eg; reflexivity).
  pose proof (grain_cycle_requests _ _ _ _ _ _ _ _ H Hr) as Hr'.
  split.
  - rewrite <- (length_map request), Hr'. reflexivity.
  - exists (request g0), (request g1), (request g2), (request g3).
    rewrite <- Eg. split; [exact Hr | exact Hr'].
Qed.

Lemma process_ring (k : Kernels) (l : list GrainInput) :
  forall s s' : Stretcher,
    process k s l = Done s' ->
    List.length (grains s) = 4%nat ->
    List.length (grains s') = 4%nat.
Proof.
  induction l as [| x rest IH]; intros s s' H Hlen; cbn [process] in H.
  - now injection H as <-.
  - destruct (grain_cycle k s x) as [s1 | |] eqn:E; try discriminate H.
    apply (IH s1 s' H). exact (proj1 (grain_cycle_ring _ _ _ _ E Hlen)).
Qed.

(** X14: the output chunk that [synthesiseGrain] produces for a grain carries
    the requests of the two grains before it: [request[begin]] is the
    request made two grains earlier and [request[end]] the one made one
    grain earlier.  On a fresh stretcher the chunk of the first grain has
    NaN positions at both ends and the chunk of the second grain a NaN
    position at its beginning. *)
Theorem output_chunk_requests (k : Kernels) :
  (forall (s s' : Stretcher) (l : list GrainInput) (a b c : GrainInput),
      List.length (grains s) = 4%nat ->
      process k s (l ++ [a; b; c]) = Done s' ->
      outputChunk_request s' = Some (gi_request a, gi_request b))
  /\ (forall (rates : SampleRates) (channelCount hop : Z)
        (a : GrainInput) (s' : Stretcher),
        process k (Stretcher_new rates channelCount hop) [a] = Done s' ->
        exists q q' : Request,
          outputChunk_request s' = Some (q, q')
          /\ isnan (position q) = true /\ isnan (position q') = true)
  /\ (forall (rates : SampleRates) (channelCount hop : Z)
        (a b : GrainInput) (s' : Stretcher),
        process k (Stretcher_new rates channelCount hop) [a; b] = Done s' ->
        exists q : Request,
          outputChunk_request s' = Some (q, gi_request a)
          /\ isnan (position q) = true).
Proof.
  assert (Hout : forall (s : Stretcher) (q0 q1 q2 q3 : Request),
            map request (grains s) = [q0; q1; q2; q3] ->
            outputChunk_request s = Some (q2, q1)).
  { intros s q0 q1 q2 q3 H. unfold outputChunk_request.
    destruct (grains s) as [| g0 [| g1 [| g2 [| g3 rest]]]];
      try discriminate H.
    now injection H as _ <- <- _. }
  assert (Hstep : forall (s s' : Stretcher) (x : GrainInput),
            process k s [x] = Done s' -> grain_cycle k s x = Done s').
  { intros s s' x H. cbn [process] in H.
    destruct (grain_cycle k s x) as [s1 | |]; try discriminate H.
    now injection H as <-. }
  split; [| split].
  - intros s s' l a b c Hlen H.
    apply process_app in H. destruct H as [s0 [H0 H]].
    pose proof (process_ring _ _ _ _ H0 Hlen) as Hlen0.
    change [a; b; c] with ([a] ++ [b] ++ [c]) in H.
    apply process_app in H. destruct H as [sa [Ha H]].
    apply process_app in H. destruct H as [sb [Hb Hc]].
    apply Hstep in Ha, Hb, Hc.
    destruct (grain_cycle_ring _ _ _ _ Ha Hlen0)
      as [Hlena [q0 [q1 [q2 [q3 [_ Hra]]]]]].
    pose proof (grain_cycle_requests _ _ _ _ _ _ _ _ Hb Hra) as Hrb.
    pose proof (grain_cycle_requests _ _ _ _ _ _ _ _ Hc Hrb) as Hrc.
    exact (Hout _ _ _ _ _ Hrc).
  - intros rates channelCount hop a s' H. apply Hstep in H.
    assert (Hr0 : map request (grains (Stretcher_new rates channelCount hop))
                  = [request (Grain_new hop channelCount);
                     request (Grain_new hop channelCount);
                     request (Grain_new hop channelCount);
                     request (Grain_new hop channelCount)])
      by reflexivity.
    pose proof (grain_cycle_requests _ _ _ _ _ _ _ _ H Hr0) as Hr.
    eexists; eexists. split; [exact (Hout _ _ _ _ _ Hr) |].
    split; reflexivity.
  - intros rates channelCount hop a b s' H.
    change [a; b] with ([a] ++ [b]) in H.
    apply process_app in H. destruct H as [sa [Ha Hb]].
    apply Hstep in Ha, Hb.
    assert (Hr0 : map request (grains (Stretcher_new rates channelCount hop))
                  = [request (Grain_new hop channelCount);
                     request (Grain_new hop channelCount);
                     request (Grain_new hop channelCount);
                     request (Grain_new hop channelCount)])
      by reflexivity.
    pose proof (grain_cycle_requests _ _ _ _ _ _ _ _ Ha Hr0) as Hra.
    pose proof (grain_cycle_requests _ _ _ _ _ _ _ _ Hb Hra) as Hrb.
    eexists. split; [exact (Hout _ _ _ _ _ Hrb) |]. reflexivity.
Qed.

(** ** The resampling loop: position and sizes *)

Lemma update_length (l : list float) (n : nat) (v : float) :
  List.length (update l n v) = List.length l.
Proof.
  revert n. induction l as [| h t IH]; intros [| n]; simpl; auto.
Qed.

Lemma same_sizes_trans (a b c : list float * list float) :
  same_sizes a b -> same_sizes b c -> same_sizes a c.
Proof. unfold same_sizes. intros [H1 H2] [H3 H4]. split; congruence. Qed.

Lemma tap_sizes (mode : Mode) (first : bool) (coefficient gain : float)
    (i j : Z) (mem mem' : list float * list float) :
  tap mode first coefficient gain i j mem = Some mem' -> same_sizes mem mem'.
Proof.
  destruct mem as [il el]. rewrite tap_eq.
  destruct (load il i) as [vi |]; [| discriminate].
  destruct (load el j) as [ve |]; [| discriminate].
  intros [= <-]. split; cbn [fst snd]; apply update_length.
Qed.

Lemma Nearest_channels_sizes (mode : Mode) (integer : Z)
    (internalStride row externalStride : Z) (gain : float) (n : nat) :
  forall (c : Z) (mem mem' : list float * list float),
    Nearest_channels mode n c integer internalStride row externalStride
                     gain mem = Some mem' ->
    same_sizes mem mem'.
Proof.
  induction n as [| n IH]; intros c mem mem' H; cbn [Nearest_channels] in H.
  - injection H as <-. split; reflexivity.
  - match type of H with bind ?o _ = _ =>
      destruct o as [mem1 |] eqn:E; [cbn [bind] in H | discriminate H] end.
    exact (same_sizes_trans _ _ _ (tap_sizes _ _ _ _ _ _ _ _ E)
             (IH _ _ _ H)).
Qed.

Lemma Bilinear_channels_sizes (mode : Mode) (integer : Z) (fraction : float)
    (internalStride row externalStride : Z) (gain : float) (n : nat) :
  forall (c : Z) (mem mem' : list float * list float),
    Bilinear_channels mode n c integer fraction internalStride row
                      externalStride gain mem = Some mem' ->
    same_sizes mem mem'.
Proof.
  induction n as [| n IH]; intros c mem mem' H; cbn [Bilinear_channels] in H.
  - injection H as <-. split; reflexivity.
  - match type of H with bind ?o _ = _ =>
      destruct o as [mem1 |] eqn:E1; [cbn [bind] in H | discriminate H] end.
    match type of H with bind ?o _ = _ =>
      destruct o as [mem2 |] eqn:E2; [cbn [bind] in H | discriminate H] end.
    exact (same_sizes_trans _ _ _ (tap_sizes _ _ _ _ _ _ _ _ E1)
             (same_sizes_trans _ _ _ (tap_sizes _ _ _ _ _ _ _ _ E2)
                (IH _ _ _ H))).
Qed.

Lemma step_sizes (interpolation : Interpolation) (mode : Mode)
    (x gain : float) (channelCount internalStride row externalStride : Z)
    (mem mem' : list float * list float) :
  step interpolation mode x channelCount internalStride row externalStride
       gain mem = Some mem' ->
  same_sizes mem mem'.
Proof.
  unfold step. destruct interpolation; intros H.
  - match type of H with bind ?o _ = _ =>
      destruct o as [integer |]; [cbn [bind] in H | discriminate H] end.
    exact (Nearest_channels_sizes _ _ _ _ _ _ _ _ _ _ H).
  - match type of H with bind ?o _ = _ =>
      destruct o as [integer |]; [cbn [bind] in H | discriminate H] end.
    exact (Bilinear_channels_sizes _ _ _ _ _ _ _ _ _ _ _ H).
Qed.

Lemma iter_step_shift (n : nat) (rs : RatioState) :
  Nat.iter n RatioState_step (RatioState_step rs)
  = RatioState_step (Nat.iter n RatioState_step rs).
Proof. induction n as [| n IH]; simpl; congruence. Qed.

Lemma run_rows_state (interpolation : Interpolation) (mode : Mode)
    (external : External) (internalStride : Z) (n : nat) :
  forall (row0 : Z) (rs rs' : RatioState)
         (mem mem' : list float * list float),
    run_rows interpolation mode n row0 external internalStride rs mem
    = Some (rs', mem') ->
    rs' = Nat.iter n RatioState_step rs /\ same_sizes mem mem'.
Proof.
  induction n as [| n IH]; intros row0 rs rs' mem mem' H;
    cbn [run_rows] in H.
  - injection H as <- <-. repeat split.
  - match type of H with bind ?o _ = _ =>
      destruct o as [mem1 |] eqn:E; [cbn [bind] in H | discriminate H] end.
    destruct (IH _ _ _ _ _ H) as [-> Hs].
    split; [cbn [Nat.iter]; apply iter_step_shift |].
    refine (same_sizes_trans _ _ _ _ Hs).
    match type of E with (if ?b then _ else _) = _ => destruct b end.
    + exact (step_sizes _ _ _ _ _ _ _ _ _ _ E).
    + injection E as <-. split; reflexivity.
Qed.

(** What a run of the loop leaves as it was, in either mode. *)
Lemma run_shape (interpolation : Interpolation) (mode : Mode)
    (ratioState ratioState' : RatioState) (internal internal' : Internal)
    (external : External) (external' : Array) :
  run interpolation mode ratioState internal external
  = Some (ratioState', internal', external') ->
  ratioState'
  = Nat.iter (Z.to_nat (to_size_t (activeFrameCount external)))
             RatioState_step ratioState
  /\ (rows external', cols external', colStride external')
     = (rows (ref external), cols (ref external), colStride (ref external))
  /\ (rows (array internal'), cols (array internal'),
      colStride (array internal'))
     = (rows (array internal), cols (array internal),
        colStride (array internal))
  /\ frameCount internal' = frameCount internal
  /\ offset internal' = offset internal
  /\ List.length (data (array internal'))
     = List.length (data (array internal))
  /\ List.length (data external') = List.length (data (ref external)).
Proof.
  intros H. unfold run in H.
  match type of H with bind ?o _ = _ =>
    destruct o as [[rs1 [idata edata]] |] eqn:E;
      [cbn [bind] in H | discriminate H] end.
  injection H as <- <- <-.
  destruct (run_rows_state _ _ _ _ _ _ _ _ _ _ E) as [Hrs [Hi He]].
  cbn [fst snd] in Hi, He. cbn [array rows cols colStride data frameCount
                                offset].
  split; [exact Hrs |].
  destruct mode; cbn [setZero rows cols colStride data] in *;
    repeat split; try assumption.
  rewrite Hi. apply length_map.
Qed.

(** X15: a run of the resampling loop advances the resampling position once for
    every active row, muted or not: the ratio state it returns is the state
    stepped [activeFrameCount] times, whatever the buffers hold.  The run
    changes neither the shape nor the size of either buffer, and leaves the
    frame count and the offset of the internal buffer alone. *)
Theorem run_advances_every_row
    (interpolation : Interpolation) (mode : Mode)
    (ratioState ratioState' : RatioState) (internal internal' : Internal)
    (external : External) (external' : Array) :
  run interpolation mode ratioState internal external
  = Some (ratioState', internal', external') ->
  ratioState'
  = Nat.iter (Z.to_nat (to_size_t (activeFrameCount external)))
             RatioState_step ratioState
  /\ (rows external', cols external', colStride external')
     = (rows (ref external), cols (ref external), colStride (ref external))
  /\ (rows (array internal'), cols (array internal'),
      colStride (array internal'))
     = (rows (array internal), cols (array internal),
        colStride (array internal))
  /\ frameCount internal' = frameCount internal
  /\ offset internal' = offset internal
  /\ List.length (data (array internal'))
     = List.length (data (array internal))
  /\ List.length (data external') = List.length (data (ref external)).
Proof. apply run_shape. Qed.

(** X15, instance: the bilinear output-mode run over the example buffers, whose
    rows 0 and 3 are muted, ends four steps of ratio 1/2 after position 1,
    at position 3. *)
Lemma run_advances_every_row_witness :
  exists (ratioState' : RatioState) (internal' : Internal) (external' : Array),
    run Bilinear Output example_ratioState example_internal example_external
    = Some (ratioState', internal', external')
    /\ x ratioState' = of_int 3.
Proof.
  eexists. eexists. eexists.
  match goal with
  | |- ?R = Some (?a, ?b, ?c) /\ _ =>
      assert (E : R = Some (a, b, c)) by (vm_compute; reflexivity)
  end.
  split; [exact E |].
  rewrite (proj1 (run_advances_every_row _ _ _ _ _ _ _ _ E)).
  vm_compute. reflexivity.
Defined.

Lemma run_rows_muted (interpolation : Interpolation) (mode : Mode)
    (external : External) (internalStride : Z) (n : nat) :
  unmutedBegin external = unmutedEnd external ->
  forall (row0 : Z) (rs : RatioState) (mem : list float * list float),
    run_rows interpolation mode n row0 external internalStride rs mem
    = Some (Nat.iter n RatioState_step rs, mem).
Proof.
  intros Heq. induction n as [| n IH]; intros row0 rs mem;
    cbn [run_rows].
  - reflexivity.
  - rewrite Heq.
    replace ((to_size_t (unmutedEnd external) <=? row0)
             && (row0 <? to_size_t (unmutedEnd external))) with false
      by (symmetry; apply andb_false_iff;
          destruct (to_size_t (unmutedEnd external) <=? row0) eqn:E;
          [right; apply Z.ltb_ge; apply Z.leb_le in E; lia
          | left; reflexivity]).
    cbn [bind]. rewrite IH. cbn [Nat.iter].
    now rewrite iter_step_shift.
Qed.

(** X16: when no row is unmuted ([unmutedBegin == unmutedEnd]), a run of the
    loop is defined whatever the buffers and the position are: it reads and
    writes no sample of the external buffer, in input mode it leaves the
    internal buffer all zero, in output mode it leaves it as it was, and it
    still advances the position by [activeFrameCount] steps. *)
Theorem run_fully_muted
    (interpolation : Interpolation) (mode : Mode) (ratioState : RatioState)
    (internal : Internal) (external : External) :
  unmutedBegin external = unmutedEnd external ->
  run interpolation mode ratioState internal external
  = Some (Nat.iter (Z.to_nat (to_size_t (activeFrameCount external)))
                   RatioState_step ratioState,
          match mode with
          | Input =>
              mkInternal (setZero (array internal)) (frameCount internal)
                         (offset internal)
          | Output => internal
          end,
          ref external)
  /\ Forall (fun v => v = f0) (data (setZero (array internal))).
Proof.
  intros Heq. split.
  - unfold run. rewrite (run_rows_muted _ _ _ _ _ Heq). cbn [bind].
    destruct internal as [[d r c s] fc off].
    destruct external as [[d' r' c' s'] ub ue a].
    destruct mode; reflexivity.
  - cbn [setZero data]. apply Forall_forall. intros v Hv.
    apply in_map_iff in Hv. destruct Hv as [w [Hw _]]. now symmetry.
Qed.

(** X16, instance: the example buffers with every row muted, resampled in input
    mode from a position far outside the internal buffer. *)
Lemma run_fully_muted_witness :
  let external := mkExternal (ref example_external) 4 4 4 in
  let ratioState := RatioState_new true (of_int 1000000) d1 (S754_zero false) in
  exists ratioState' : RatioState,
    run Nearest Input ratioState example_internal external
    = Some (ratioState',
            mkInternal (mkArray (repeat f0 12) 6 2 6) 4 (S754_zero false),
            ref example_external).
Proof.
  cbv zeta. eexists.
  exact (proj1 (run_fully_muted Nearest Input
                  (RatioState_new true (of_int 1000000) d1 (S754_zero false))
                  example_internal
                  (mkExternal (ref example_external) 4 4 4) eq_refl)).
Defined.

(** ** [resample]: the rows it processes *)

Lemma d1e_2_eq : d1e_2 = ddiv d1 (of_int 100).
Proof. vm_compute. reflexivity. Qed.

Lemma d1_1_eq : d1_1 = ddiv (of_int 11) (of_int 10).
Proof. vm_compute. reflexivity. Qed.

Lemma run_frame (interpolation : Interpolation) (mode : Mode)
    (ratioState ratioState' : RatioState) (internal internal' : Internal)
    (external : External) (external' : Array) :
  run interpolation mode ratioState internal external
  = Some (ratioState', internal', external') ->
  check external ->
  activeFrameCount external < 2 ^ 63 ->
  rows (ref external) <= colStride (ref external) ->
  forall row c : Z,
    0 <= row < rows (ref external) ->
    ~ unmutedBegin external <= row < unmutedEnd external ->
    0 <= c < cols (ref external) ->
    load (data external') (row + c * colStride (ref external))
    = load (data (ref external)) (row + c * colStride (ref external)).
Proof.
  intros H Hcheck H63 Hstride row c Hrow Hout Hc.
  pose proof Hcheck as [H0 [H1 [H2 H3]]].
  unfold run in H.
  match type of H with bind ?o _ = _ =>
    destruct o as [[rs1 [idata edata]] |] eqn:E;
      [cbn [bind] in H | discriminate H] end.
  injection H as <- <- <-. cbn [data].
  apply (run_rows_frame _ _ _ _ _ _ _ _ _ _ _ E).
  intros row' c' Hrow' Hu Hc' Heq.
  apply (unmuted_range _ _ Hcheck H63) in Hu.
  assert (c = c') by nia. subst c'. lia.
Qed.

Lemma run_one_sided (interpolation : Interpolation) (mode : Mode)
    (ratioState ratioState' : RatioState) (internal internal' : Internal)
    (external : External) (external' : Array) :
  run interpolation mode ratioState internal external
  = Some (ratioState', internal', external') ->
  match mode with
  | Input => external' = ref external
  | Output => internal' = internal
  end.
Proof.
  intros H. unfold run in H.
  match type of H with bind ?o _ = _ =>
    destruct o as [[rs1 [idata edata]] |] eqn:E;
      [cbn [bind] in H | discriminate H] end.
  injection H as <- <- <-. destruct mode.
  - pose proof (run_rows_Input_agree interpolation external
                  (colStride (setZero (array internal)))
                  (data (ref external)) (data (ref external))
                  (Z.to_nat (to_size_t (activeFrameCount external))) 0
                  ratioState (data (setZero (array internal)))
                  (fun _ _ _ _ _ => eq_refl)) as Ha.
    rewrite E in Ha. cbn [agree_rows] in Ha. destruct Ha as [_ [_ [-> _]]].
    destruct (ref external) as [d r c s]. reflexivity.
  - pose proof (run_rows_Output_internal _ _ _ _ _ _ _ _ _ E) as Hi.
    cbn [fst] in Hi. subst idata.
    destruct internal as [[d r c s] fc off]. reflexivity.
Qed.

(** X17: [resample] never processes more rows than the external buffer has, and
    it repairs whatever mute range it is given: when it runs the loop, the
    unmuted range has been clamped into [0, activeFrameCount], the external
    buffer passes [External::check], every sample of the external buffer
    outside the unmuted rows is left as it was, output mode leaves the
    samples of the internal buffer alone and input mode those of the
    external one, and with [alignEnd] the offset left in the internal buffer
    is not above 1e-2 in magnitude.  When the frame count it arrives at is
    not positive it touches neither buffer, so that input mode does not
    clear the internal buffer. *)
Theorem resample_stays_in_range
    (bytes : Z) (interpolation : Interpolation) (mode : Mode)
    (internal internal' : Internal) (external external' : External)
    (ratioBegin ratioEnd : double) (alignEnd : bool) :
  resample bytes interpolation mode internal external ratioBegin ratioEnd
           alignEnd
  = Some (internal', external') ->
  activeFrameCount external <= rows (ref external) ->
  rows (ref external) < 2 ^ 63 ->
  let active := activeFrameCount external' in
  active <= rows (ref external)
  /\ (rows (ref external'), cols (ref external'), colStride (ref external'))
     = (rows (ref external), cols (ref external), colStride (ref external))
  /\ frameCount internal' = frameCount internal
  /\ (active <= 0 ->
      internal' = internal
      /\ ref external' = ref external
      /\ unmutedBegin external' = unmutedBegin external
      /\ unmutedEnd external' = unmutedEnd external)
  /\ (0 < active ->
      check external'
      /\ unmutedBegin external' = clamp (unmutedBegin external) 0 active
      /\ unmutedEnd external'
         = clamp (unmutedEnd external) (unmutedBegin external') active
      /\ match mode with
         | Input => ref external' = ref external
         | Output => array internal' = array internal
         end
      /\ (alignEnd = true ->
          dgtb (dabs (offset internal')) d1e_2 = false)
      /\ (rows (ref external) <= colStride (ref external) ->
          forall row c : Z,
            0 <= row < rows (ref external) ->
            ~ unmutedBegin external' <= row < unmutedEnd external' ->
            0 <= c < cols (ref external) ->
            load (data (ref external'))
                 (row + c * colStride (ref external))
            = load (data (ref external))
                   (row + c * colStride (ref external)))).
Proof.
  intros H Hactive H63. unfold resample in H.
  match type of H with bind ?o _ = _ =>
    destruct o as [ideal |] eqn:Eideal;
      [cbn [bind] in H | discriminate H] end.
  cbv zeta in H.
  remember (if negb (rows (ref external) <? ideal) then ideal
            else activeFrameCount external) as act eqn:Eact.
  assert (Hle : act <= rows (ref external)).
  { subst act. destruct (rows (ref external) <? ideal) eqn:Et;
      cbn [negb]; [exact Hactive | apply Z.ltb_ge in Et; lia]. }
  destruct (0 <? act) eqn:Epos.
  - apply Z.ltb_lt in Epos.
    unfold resampleSpecial in H. cbv zeta in H.
    match type of H with bind (bind ?o _) _ = _ =>
      destruct o as [[[rs1 i1] edata] |] eqn:Erun;
        [cbn [bind] in H | discriminate H] end.
    injection H as <- <-.
    cbn [activeFrameCount ref unmutedBegin unmutedEnd array frameCount
         offset].
    set (ub := clamp (unmutedBegin external) 0 act) in *.
    set (ue := clamp (unmutedEnd external) ub act) in *.
    pose proof (clamp_bounds (unmutedBegin external) 0 act ltac:(lia))
      as Hub. fold ub in Hub.
    pose proof (clamp_bounds (unmutedEnd external) ub act ltac:(lia))
      as Hue. fold ue in Hue.
    destruct (run_shape _ _ _ _ _ _ _ _ Erun)
      as [_ [Hshape [_ [Hfc _]]]].
    cbn [ref] in Hshape. injection Hshape as Hr Hc Hs.
    assert (Hcheck : check (mkExternal (ref external) ub ue act)).
    { unfold check. cbn [unmutedBegin unmutedEnd activeFrameCount ref].
      lia. }
    split; [exact Hle |].
    split; [rewrite Hr, Hc, Hs; reflexivity |].
    split; [exact Hfc |].
    split; [intros Hneg; lia |].
    intros _.
    split; [unfold check;
            cbn [unmutedBegin unmutedEnd activeFrameCount ref]; lia |].
    split; [reflexivity |]. split; [reflexivity |].
    split.
    { pose proof (run_one_sided _ _ _ _ _ _ _ _ Erun) as Hside.
      destruct mode; [exact Hside | now rewrite Hside]. }
    split.
    { intros ->.
      match goal with
      | |- dgtb (dabs (if ?b then _ else ?o)) _ = false =>
          destruct b eqn:Eb; [vm_compute; reflexivity | exact Eb]
      end. }
    intros Hstride row c Hrow Hout Hcol.
    apply (run_frame _ _ _ _ _ _ _ _ Erun Hcheck); cbn [ref activeFrameCount
      unmutedBegin unmutedEnd]; try assumption; lia.
  - apply Z.ltb_ge in Epos. injection H as <- <-.
    cbn [activeFrameCount ref unmutedBegin unmutedEnd].
    split; [exact Hle |]. split; [reflexivity |]. split; [reflexivity |].
    split; [intros _; repeat split |]. intros Hpos. lia.
Qed.

(** X17, instance: a padded internal buffer of four frames holding 1/2, and an
    external buffer of four rows holding 1 that is constructed with the
    mute counts -3 and 1; output mode leaves row 3 as it was. *)
Lemma resample_stays_in_range_witness :
  let internal :=
    mkInternal (mkArray (repeat fhalf 136) 68 2 68) 4 (S754_zero false) in
  let external := External_new (mkArray (repeat f1 8) 4 2 4) (-3) 1 in
  exists (internal' : Internal) (external' : External),
    resample 16 Bilinear Output internal external d1 d1 true
    = Some (internal', external')
    /\ unmutedBegin external' = 0
    /\ unmutedEnd external' = 3
    /\ load (data (ref external')) (3 + 0 * 4) = Some f1.
Proof.
  cbv zeta. eexists. eexists.
  match goal with
  | |- ?R = Some (?a, ?b) /\ _ =>
      assert (E : R = Some (a, b)) by (vm_compute; reflexivity)
  end.
  split; [exact E |].
  split; [reflexivity |]. split; [reflexivity |].
  destruct (resample_stays_in_range _ _ _ _ _ _ _ _ _ _ E
              ltac:(cbn; lia) ltac:(cbn; lia))
    as [_ [_ [_ [_ Hrun]]]].
  destruct (Hrun ltac:(cbn; lia)) as [_ [_ [_ [_ [_ Hrows]]]]].
  exact (Hrows ltac:(cbn; lia) 3 0 ltac:(cbn; lia) ltac:(cbn; lia)
           ltac:(cbn; lia)).
Defined.

(** ** The input buffer of [Stream] *)

Lemma load_in_range (l : list float) (i : Z) :
  0 <= i < Z.of_nat (List.length l) -> exists v : float, load l i = Some v.
Proof.
  intros H. unfold load.
  destruct (i <? 0) eqn:E; [lia |].
  destruct (nth_error l (Z.to_nat i)) as [v |] eqn:En; [now exists v |].
  apply nth_error_None in En. lia.
Qed.

Lemma store_in_range (l : list float) (i : Z) (v : float) :
  0 <= i < Z.of_nat (List.length l) ->
  store l i v = Some (update l (Z.to_nat i) v).
Proof.
  intros H. destruct (load_in_range l i H) as [old Hold].
  exact (store_Some _ _ _ _ Hold).
Qed.

Lemma nth_error_update_same (l : list float) (n : nat) (v : float) :
  (n < List.length l)%nat -> nth_error (update l n v) n = Some v.
Proof.
  revert n. induction l as [| h t IH]; intros [| n] H; simpl in *;
    try lia; [reflexivity | apply IH; lia].
Qed.

Lemma load_update_same (l : list float) (i : Z) (v : float) :
  0 <= i < Z.of_nat (List.length l) ->
  load (update l (Z.to_nat i) v) i = Some v.
Proof.
  intros H. unfold load. destruct (i <? 0) eqn:E; [lia |].
  apply nth_error_update_same. lia.
Qed.

Lemma load_nth (l : list float) (i : Z) :
  0 <= i < Z.of_nat (List.length l) ->
  load l i = Some (nth (Z.to_nat i) l f0).
Proof.
  intros H. unfold load. destruct (i <? 0) eqn:E; [lia |].
  apply nth_error_nth'. lia.
Qed.

Lemma element_in_range (buffer : list float) (i : Z) :
  0 <= i < Z.of_nat (List.length buffer) -> Stream.element buffer i = Some i.
Proof.
  intros H. unfold Stream.element.
  destruct (0 <=? i) eqn:E1; [| lia].
  destruct (i <? Z.of_nat (List.length buffer)) eqn:E2; [reflexivity | lia].
Qed.

Lemma int_in_range (z : Z) : INT_MIN <= z <= INT_MAX -> int z = Some z.
Proof.
  intros H. unfold int.
  destruct (INT_MIN <=? z) eqn:E1; [| lia].
  destruct (z <=? INT_MAX) eqn:E2; [reflexivity | lia].
Qed.

Lemma move_elements_spec (n : nat) :
  forall (buffer : list float) (first d : Z),
    0 <= d <= first ->
    first + Z.of_nat n <= Z.of_nat (List.length buffer) ->
    exists buffer' : list float,
      Stream.move_elements buffer first d n = Some buffer'
      /\ List.length buffer' = List.length buffer
      /\ (forall i : Z, 0 <= i < Z.of_nat n ->
                        load buffer' (d + i) = load buffer (first + i))
      /\ (forall j : Z, j < d \/ d + Z.of_nat n <= j ->
                        load buffer' j = load buffer j).
Proof.
  induction n as [| n IH]; intros buffer first d Hd Hlen;
    cbn [Stream.move_elements].
  - exists buffer. repeat split; intros; lia.
  - destruct (load_in_range buffer first ltac:(lia)) as [v Hv].
    rewrite Hv. cbn [bind].
    rewrite (store_in_range buffer d v) by lia. cbn [bind].
    set (buffer1 := update buffer (Z.to_nat d) v).
    assert (Hl1 : List.length buffer1 = List.length buffer)
      by apply update_length.
    destruct (IH buffer1 (first + 1) (d + 1) ltac:(lia)
                ltac:(rewrite Hl1; lia))
      as [buffer' [Hm [Hl [Hin Hout]]]].
    exists buffer'. split; [exact Hm |]. split; [congruence |]. split.
    + intros i Hi. destruct (Z.eq_dec i 0) as [-> | Hne].
      * rewrite Z.add_0_r, Hout by lia. unfold buffer1.
        rewrite load_update_same by lia. now rewrite Z.add_0_r.
      * replace (d + i) with (d + 1 + (i - 1)) by lia.
        rewrite Hin by lia. unfold buffer1.
        rewrite load_update_other by lia. f_equal. lia.
    + intros j Hj. rewrite Hout by lia. unfold buffer1.
      apply load_update_other; lia.
Qed.

Lemma copy_elements_spec (source : list float) (n : nat) :
  forall (buffer : list float) (first d : Z),
    0 <= first -> first + Z.of_nat n <= Z.of_nat (List.length source) ->
    0 <= d -> d + Z.of_nat n <= Z.of_nat (List.length buffer) ->
    exists buffer' : list float,
      Stream.copy_elements source first buffer d n = Some buffer'
      /\ List.length buffer' = List.length buffer
      /\ (forall i : Z, 0 <= i < Z.of_nat n ->
                        load buffer' (d + i)
                        = Some (nth (Z.to_nat (first + i)) source f0))
      /\ (forall j : Z, j < d \/ d + Z.of_nat n <= j ->
                        load buffer' j = load buffer j).
Proof.
  induction n as [| n IH]; intros buffer first d Hf Hs Hd Hlen;
    cbn [Stream.copy_elements].
  - exists buffer. repeat split; intros; lia.
  - rewrite (load_nth source first) by lia. cbn [bind].
    rewrite (store_in_range buffer d) by lia. cbn [bind].
    set (buffer1 := update buffer (Z.to_nat d) _).
    assert (Hl1 : List.length buffer1 = List.length buffer)
      by apply update_length.
    destruct (IH buffer1 (first + 1) (d + 1) ltac:(lia) ltac:(lia)
                ltac:(lia) ltac:(rewrite Hl1; lia))
      as [buffer' [Hm [Hl [Hin Hout]]]].
    exists buffer'. split; [exact Hm |]. split; [congruence |]. split.
    + intros i Hi. destruct (Z.eq_dec i 0) as [-> | Hne].
      * rewrite Z.add_0_r, Hout by lia. unfold buffer1.
        rewrite load_update_same by lia. now rewrite Z.add_0_r.
      * replace (d + i) with (d + 1 + (i - 1)) by lia.
        rewrite Hin by lia. do 3 f_equal. lia.
    + intros j Hj. rewrite Hout by lia. unfold buffer1.
      apply load_update_other; lia.
Qed.

Lemma fill_elements_spec (value : float) (n : nat) :
  forall (buffer : list float) (d : Z),
    0 <= d -> d + Z.of_nat n <= Z.of_nat (List.length buffer) ->
    exists buffer' : list float,
      Stream.fill_elements buffer d n value = Some buffer'
      /\ List.length buffer' = List.length buffer
      /\ (forall i : Z, 0 <= i < Z.of_nat n ->
                        load buffer' (d + i) = Some value)
      /\ (forall j : Z, j < d \/ d + Z.of_nat n <= j ->
                        load buffer' j = load buffer j).
Proof.
  induction n as [| n IH]; intros buffer d Hd Hlen;
    cbn [Stream.fill_elements].
  - exists buffer. repeat split; intros; lia.
  - rewrite (store_in_range buffer d) by lia. cbn [bind].
    set (buffer1 := update buffer (Z.to_nat d) value).
    assert (Hl1 : List.length buffer1 = List.length buffer)
      by apply update_length.
    destruct (IH buffer1 (d + 1) ltac:(lia) ltac:(rewrite Hl1; lia))
      as [buffer' [Hm [Hl [Hin Hout]]]].
    exists buffer'. split; [exact Hm |]. split; [congruence |]. split.
    + intros i Hi. destruct (Z.eq_dec i 0) as [-> | Hne].
      * rewrite Z.add_0_r, Hout by lia. unfold buffer1.
        apply load_update_same. lia.
      * replace (d + i) with (d + 1 + (i - 1)) by lia.
        apply Hin. lia.
    + intros j Hj. rewrite Hout by lia. unfold buffer1.
      apply load_update_other; lia.
Qed.

(** A freshly constructed input buffer holds no frame of any stream. *)
Lemma InputBuffer_new_holds (maxFrameCount channelCount : Z)
    (b : Stream.InputBuffer) (stream : Z -> Z -> float) :
  Stream.InputBuffer_new maxFrameCount channelCount = Some b ->
  1 <= maxFrameCount -> 0 <= channelCount ->
  holds b stream.
Proof.
  unfold Stream.InputBuffer_new. intros H Hm Hc.
  bind_step H size Es. apply int_Some in Es. destruct Es as [-> _].
  destruct (maxFrameCount * channelCount <? 0) eqn:E; [discriminate H |].
  injection H as <-. unfold holds.
  cbn [Stream.channelStride Stream.channelCount Stream.buffer
       Stream.buffer_begin Stream.buffer_end].
  rewrite repeat_length. apply Z.ltb_ge in E.
  repeat split; try lia; intros c f Hcr Hf; lia.
Qed.

Lemma int_bounds : INT_MIN = -2147483648 /\ INT_MAX = 2147483647.
Proof. split; reflexivity. Qed.

Section Append.

Variable b : Stream.InputBuffer.

Let stride : Z := Stream.channelStride b.
Let count : Z := Stream.channelCount b.
Let cb : Z := chunk_begin (Stream.inputChunk b).
Let bb : Z := Stream.buffer_begin b.
Let be : Z := Stream.buffer_end b.

Hypothesis Hstride : 1 <= stride.
Hypothesis Hcount : 0 <= count.
Hypothesis Hbegin : 0 <= bb <= be.
Hypothesis Hroom : be - bb < stride.

Lemma block_below (k c : Z) :
  0 <= k -> k < c -> k * stride + stride <= c * stride.
Proof. intros Hk Hc. nia. Qed.

Lemma compact_spec (m : nat) :
  bb < cb < be ->
  be + stride * count <= INT_MAX ->
  forall (fuel : nat) (k : Z) (buffer : list float),
    (m <= fuel)%nat -> 0 <= k -> k + Z.of_nat m = count ->
    Z.of_nat (List.length buffer) = stride * count ->
    exists buffer' : list float,
      Stream.compact fuel b (k * stride) buffer = Some buffer'
      /\ List.length buffer' = List.length buffer
      /\ (forall c i : Z,
             k <= c < count -> 0 <= i < be - cb ->
             load buffer' (c * stride + i)
             = load buffer (c * stride + (cb - bb) + i))
      /\ (forall j : Z, j < k * stride -> load buffer' j = load buffer j).
Proof.
  intros Hc Hint. destruct int_bounds as [Hmin Hmax].
  induction m as [| m IH]; intros fuel k buffer Hfuel Hk Hkm Hlen.
  - assert (k = count) by lia. subst k.
    exists buffer.
    split.
    { destruct fuel; cbn [Stream.compact];
        (destruct (count * stride <? Z.of_nat (List.length buffer)) eqn:E;
         [apply Z.ltb_lt in E; lia | reflexivity]). }
    split; [reflexivity |]. split; [intros; lia | reflexivity].
  - destruct fuel as [| fuel]; [lia |].
    assert (Hx : 0 <= k * stride /\ k * stride + stride <= stride * count)
      by nia.
    cbn [Stream.compact].
    destruct (k * stride <? Z.of_nat (List.length buffer)) eqn:E;
      [| apply Z.ltb_ge in E; lia].
    fold cb bb be stride.
    rewrite (int_in_range (k * stride + cb)) by lia. cbn [bind].
    rewrite (int_in_range (k * stride + cb - bb)) by lia. cbn [bind].
    rewrite (element_in_range buffer (k * stride + cb - bb)) by lia.
    cbn [bind].
    rewrite (int_in_range (k * stride + be)) by lia. cbn [bind].
    rewrite (int_in_range (k * stride + be - bb)) by lia. cbn [bind].
    rewrite (element_in_range buffer (k * stride + be - bb)) by lia.
    cbn [bind].
    rewrite (element_in_range buffer (k * stride)) by lia. cbn [bind].
    unfold Stream.std_move.
    destruct (k * stride + be - bb <? k * stride + cb - bb) eqn:E2;
      [apply Z.ltb_lt in E2; lia |].
    destruct (move_elements_spec
                (Z.to_nat (k * stride + be - bb - (k * stride + cb - bb)))
                buffer (k * stride + cb - bb) (k * stride)
                ltac:(lia) ltac:(lia))
      as [buffer1 [Hm [Hl1 [Hin1 Hout1]]]].
    rewrite Hm. cbn [bind].
    rewrite (int_in_range (k * stride + stride)) by lia. cbn [bind].
    replace (k * stride + stride) with ((k + 1) * stride) by lia.
    destruct (IH fuel (k + 1) buffer1 ltac:(lia) ltac:(lia) ltac:(lia)
                ltac:(rewrite Hl1; exact Hlen))
      as [buffer' [Hcomp [Hl [Hin Hout]]]].
    exists buffer'. split; [exact Hcomp |]. split; [congruence |]. split.
    + intros c i Hcr Hi.
      destruct (Z.eq_dec c k) as [-> | Hne].
      * rewrite Hout by lia.
        rewrite (Hin1 i) by lia. f_equal. lia.
      * rewrite Hin by lia.
        pose proof (block_below k c Hk ltac:(lia)).
        apply Hout1. right. lia.
    + intros j Hj. rewrite Hout by lia. apply Hout1. left. lia.
Qed.

Variables (begin discard inputFrameCount : Z).
Variable inputPointers : option (list (list float)).

Let held : Z := be - begin.

Hypothesis Hheld : 0 <= held.
Hypothesis Hdiscard : 0 <= discard <= inputFrameCount.
Hypothesis Hfit : held + (inputFrameCount - discard) < stride.
Hypothesis Hbegin' : 0 <= begin.
Hypothesis Hint : be + inputFrameCount + stride * count <= INT_MAX.
Hypothesis Hpointers :
  match inputPointers with
  | Some pointers =>
      Z.of_nat (List.length pointers) = count
      /\ Forall (fun a => inputFrameCount <= Z.of_nat (List.length a))
                pointers
  | None => True
  end.

Lemma append_channels_spec (m : nat) :
  forall (c : Z) (buffer : list float),
    0 <= c -> c + Z.of_nat m = count ->
    Z.of_nat (List.length buffer) = stride * count ->
    exists buffer' : list float,
      Stream.append_channels m c b begin discard inputFrameCount
                             inputPointers buffer
      = Some buffer'
      /\ List.length buffer' = List.length buffer
      /\ (forall c' t : Z,
             c <= c' < count -> 0 <= t < inputFrameCount - discard ->
             load buffer' (held + c' * stride + t)
             = Some (input_sample inputPointers c' (discard + t)))
      /\ (forall j : Z,
             (forall c' t : Z,
                 c <= c' < count -> 0 <= t < inputFrameCount - discard ->
                 j <> held + c' * stride + t) ->
             load buffer' j = load buffer j).
Proof.
  destruct int_bounds as [Hmin Hmax].
  induction m as [| m IH]; intros c buffer Hc Hcm Hlen.
  - exists buffer. split; [reflexivity |]. split; [reflexivity |].
    split; [intros; lia | reflexivity].
  - assert (Hx : 0 <= c * stride /\ c * stride + stride <= stride * count)
      by nia.
    cbn [Stream.append_channels]. fold be stride. fold held.
    rewrite (int_in_range held) by lia. cbn [bind].
    rewrite (int_in_range (c * stride)) by lia. cbn [bind].
    rewrite (int_in_range (held + c * stride)) by lia. cbn [bind].
    assert (Hstep : exists buffer1 : list float,
              match inputPointers with
              | Some pointers =>
                  source <- nth_error pointers (Z.to_nat c) ;;
                  d_first <- Stream.element buffer (held + c * stride) ;;
                  Stream.std_copy source discard inputFrameCount buffer
                                  d_first
              | None =>
                  first <- Stream.element buffer (held + c * stride) ;;
                  count <- int (inputFrameCount - discard) ;;
                  j <- int (held + c * stride + count) ;;
                  last <- Stream.element buffer j ;;
                  Stream.std_fill buffer first last f0
              end = Some buffer1
              /\ List.length buffer1 = List.length buffer
              /\ (forall t : Z,
                     0 <= t < inputFrameCount - discard ->
                     load buffer1 (held + c * stride + t)
                     = Some (input_sample inputPointers c (discard + t)))
              /\ (forall j : Z,
                     j < held + c * stride
                     \/ held + c * stride + (inputFrameCount - discard) <= j ->
                     load buffer1 j = load buffer j)).
    { destruct inputPointers as [pointers |].
      - destruct Hpointers as [Hpl Hpa].
        destruct (nth_error pointers (Z.to_nat c)) as [source |] eqn:En;
          [| apply nth_error_None in En; lia].
        cbn [bind].
        rewrite (element_in_range buffer (held + c * stride)) by lia.
        cbn [bind]. unfold Stream.std_copy.
        destruct (inputFrameCount <? discard) eqn:E;
          [apply Z.ltb_lt in E; lia |].
        assert (Hsrc : inputFrameCount <= Z.of_nat (List.length source)).
        { rewrite Forall_forall in Hpa. apply Hpa.
          apply (nth_error_In _ _ En). }
        destruct (copy_elements_spec source
                    (Z.to_nat (inputFrameCount - discard)) buffer discard
                    (held + c * stride) ltac:(lia) ltac:(lia) ltac:(lia)
                    ltac:(lia))
          as [buffer1 [Hm [Hl1 [Hin1 Hout1]]]].
        exists buffer1. split; [exact Hm |]. split; [exact Hl1 |]. split.
        + intros t Ht. rewrite Hin1 by lia. cbn [input_sample].
          rewrite (nth_error_nth _ _ _ En). reflexivity.
        + intros j Hj. apply Hout1. lia.
      - rewrite (element_in_range buffer (held + c * stride)) by lia.
        cbn [bind].
        rewrite (int_in_range (inputFrameCount - discard)) by lia.
        cbn [bind].
        rewrite (int_in_range (held + c * stride
                               + (inputFrameCount - discard))) by lia.
        cbn [bind].
        rewrite (element_in_range buffer
                   (held + c * stride + (inputFrameCount - discard)))
          by lia.
        cbn [bind]. unfold Stream.std_fill.
        destruct (held + c * stride + (inputFrameCount - discard)
                  <? held + c * stride) eqn:E;
          [apply Z.ltb_lt in E; lia |].
        destruct (fill_elements_spec f0
                    (Z.to_nat (held + c * stride
                               + (inputFrameCount - discard)
                               - (held + c * stride)))
                    buffer (held + c * stride) ltac:(lia) ltac:(lia))
          as [buffer1 [Hm [Hl1 [Hin1 Hout1]]]].
        exists buffer1. split; [exact Hm |]. split; [exact Hl1 |]. split.
        + intros t Ht. rewrite Hin1 by lia. reflexivity.
        + intros j Hj. apply Hout1. lia. }
    destruct Hstep as [buffer1 [Hs [Hl1 [Hin1 Hout1]]]].
    rewrite Hs. cbn [bind].
    destruct (IH (c + 1) buffer1 ltac:(lia) ltac:(lia)
                ltac:(rewrite Hl1; exact Hlen))
      as [buffer' [Happ [Hl [Hin Hout]]]].
    exists buffer'. split; [exact Happ |]. split; [congruence |]. split.
    + intros c' t Hc' Ht.
      destruct (Z.eq_dec c' c) as [-> | Hne].
      * rewrite Hout; [apply Hin1; lia |].
        intros c'' t' Hc'' Ht'.
        pose proof (block_below c c'' Hc ltac:(lia)). lia.
      * apply Hin; lia.
    + intros j Hj. rewrite Hout.
      * apply Hout1.
        destruct (Z_lt_le_dec j (held + c * stride)) as [Hlt | Hge];
          [left; exact Hlt | right].
        destruct (Z_lt_le_dec j (held + c * stride
                                 + (inputFrameCount - discard)))
          as [Hlt' | Hge']; [| exact Hge'].
        exfalso. apply (Hj c (j - (held + c * stride))); lia.
      * intros c' t Hc' Ht. apply Hj; lia.
Qed.

End Append.

(** X18: [InputBuffer::append] keeps the stream: from a buffer that holds the
    frames [begin, end) of a stream, with room for what is kept and the
    [inputFrameCount] frames that come (and positions that stay in the
    range of [int]), it returns without a failed assertion, the buffer then
    holds the frames from [kept_from] to [end + inputFrameCount] of the
    stream with the new frames appended (zeros for [nullptr]), and the
    chunk is left as it was.  While the chunk begins before [end], the first
    frame kept is the later of [begin] and the chunk's beginning, so that no
    frame of the chunk that was held is dropped. *)
Theorem append_keeps_the_stream
    (NDEBUG : bool) (b : Stream.InputBuffer) (inputFrameCount : Z)
    (inputPointers : option (list (list float)))
    (stream : Z -> Z -> float) :
  holds b stream ->
  0 <= inputFrameCount ->
  chunk_begin (Stream.inputChunk b) <= INT_MAX ->
  match inputPointers with
  | Some pointers =>
      Z.of_nat (List.length pointers) = Stream.channelCount b
      /\ Forall (fun a => inputFrameCount <= Z.of_nat (List.length a))
                pointers
  | None => True
  end ->
  Stream.buffer_end b + inputFrameCount - kept_from b inputFrameCount
  < Stream.channelStride b ->
  Stream.buffer_end b + inputFrameCount
  + Stream.channelStride b * Stream.channelCount b <= INT_MAX ->
  exists b' : Stream.InputBuffer,
    Stream.append NDEBUG b inputFrameCount inputPointers = Some (Returns b')
    /\ holds b' (appended b inputPointers stream)
    /\ Stream.buffer_begin b' = kept_from b inputFrameCount
    /\ Stream.buffer_end b' = Stream.buffer_end b + inputFrameCount
    /\ Stream.inputChunk b' = Stream.inputChunk b.
Proof.
  intros [Hstride [Hcount [Hlen [Hbegin [Hroom Hdata]]]]] Hn Hcb Hp Hcap Hint.
  destruct int_bounds as [Hmin Hmax].
  set (stride := Stream.channelStride b) in *.
  set (count := Stream.channelCount b) in *.
  set (cb := chunk_begin (Stream.inputChunk b)) in *.
  set (bb := Stream.buffer_begin b) in *.
  set (be := Stream.buffer_end b) in *.
  assert (Hsize : 0 <= stride * count) by nia.
  unfold Stream.append. fold cb bb be stride count.
  match goal with
  | |- exists b', bind ?F _ = _ /\ _ =>
      assert (H0 : exists (buffer0 : list float) (begin0 discard : Z),
                F = Some (buffer0, begin0, discard)
                /\ Z.of_nat (List.length buffer0) = stride * count
                /\ 0 <= begin0 <= be
                /\ 0 <= discard <= inputFrameCount
                /\ (0 < discard -> begin0 = be)
                /\ begin0 + discard = kept_from b inputFrameCount
                /\ forall c f : Z,
                     0 <= c < count -> begin0 <= f < be ->
                     load buffer0 (f - begin0 + c * stride)
                     = Some (stream c f))
  end.
  { unfold kept_from. fold cb bb be.
    destruct (cb <? be) eqn:E1.
    - apply Z.ltb_lt in E1. destruct (bb <? cb) eqn:E2.
      + apply Z.ltb_lt in E2.
        destruct (compact_spec b Hstride Hcount Hbegin Hroom
                    (Z.to_nat count) ltac:(fold cb bb be; lia)
                    ltac:(fold be stride count; lia)
                    (S (List.length (Stream.buffer b))) 0
                    (Stream.buffer b) ltac:(nia) ltac:(lia)
                    ltac:(fold count; lia) Hlen)
          as [buffer0 [Hc [Hl0 [Hin0 _]]]].
        change (0 * Stream.channelStride b) with 0 in Hc.
        rewrite Hc. cbn [bind].
        exists buffer0, cb, 0. split; [reflexivity |].
        split; [rewrite Hl0; exact Hlen |].
        split; [lia |]. split; [lia |]. split; [lia |].
        split; [lia |].
        intros c f Hcr Hf. fold stride cb bb be count in Hin0.
        replace (f - cb + c * stride) with (c * stride + (f - cb)) by lia.
        rewrite Hin0 by lia. rewrite <- (Hdata c f) by lia.
        f_equal. lia.
      + apply Z.ltb_ge in E2.
        exists (Stream.buffer b), bb, 0. split; [reflexivity |].
        split; [exact Hlen |].
        split; [lia |]. split; [lia |]. split; [lia |].
        split; [lia |]. exact Hdata.
    - apply Z.ltb_ge in E1.
      rewrite (int_in_range (cb - bb)) by lia. cbn [bind].
      exists (Stream.buffer b), be, (Z.min (cb - bb) inputFrameCount).
      split; [reflexivity |]. split; [exact Hlen |].
      split; [lia |]. split; [lia |]. split; [reflexivity |].
      split; [reflexivity |]. intros c f Hcr Hf. lia. }
  destruct H0 as [buffer0 [begin0 [discard [-> [Hl0 [Hb0 [Hd [Hd0 [Hk Hdata0]]]]]]]]].
  cbn [bind]. rewrite <- Hk in Hcap |- *.
  destruct (append_channels_spec b Hstride Hcount Hbegin Hroom begin0
              discard inputFrameCount inputPointers
              ltac:(fold be; lia) Hd ltac:(fold be stride; lia)
              ltac:(lia) ltac:(fold be stride count; lia) Hp
              (Z.to_nat count) 0 buffer0 ltac:(lia)
              ltac:(fold count; lia) Hl0)
    as [buffer1 [Ha [Hl1 [Hin1 Hout1]]]].
  fold be stride count in Hin1, Hout1.
  rewrite Ha. cbn [bind].
  rewrite (int_in_range (begin0 + discard)) by lia. cbn [bind].
  rewrite (int_in_range (be + inputFrameCount)) by lia. cbn [bind].
  eexists. split.
  { destruct NDEBUG; [reflexivity |].
    destruct (begin0 + discard <=? be + inputFrameCount) eqn:E1;
      [| apply Z.leb_gt in E1; lia].
    cbn [negb].
    rewrite (int_in_range (be + inputFrameCount - (begin0 + discard)))
      by lia.
    cbn [bind].
    destruct (be + inputFrameCount - (begin0 + discard) <=? stride) eqn:E2;
      [reflexivity | apply Z.leb_gt in E2; lia]. }
  split; [| repeat split].
  unfold holds.
  cbn [Stream.channelStride Stream.channelCount Stream.buffer
       Stream.buffer_begin Stream.buffer_end].
  fold stride count.
  split; [exact Hstride |]. split; [exact Hcount |].
  split; [rewrite Hl1; exact Hl0 |].
  split; [lia |]. split; [lia |].
  intros c f Hc Hf. unfold appended. fold be.
  destruct (f <? be) eqn:Ef.
  - apply Z.ltb_lt in Ef.
    assert (discard = 0) by lia. subst discard.
    rewrite Z.add_0_r in *.
    rewrite Hout1; [apply Hdata0; lia |].
    intros c' t Hc' Ht.
    destruct (Z.compare_spec c' c) as [-> | Hlt | Hgt].
    + lia.
    + pose proof (block_below b Hstride c' c ltac:(lia) Hlt) as Hb.
      fold stride in Hb. lia.
    + pose proof (block_below b Hstride c c' ltac:(lia) Hgt) as Hb.
      fold stride in Hb. lia.
  - apply Z.ltb_ge in Ef.
    replace (f - (begin0 + discard) + c * stride)
      with (be - begin0 + c * stride + (f - be - discard)) by lia.
    rewrite Hin1 by lia. do 2 f_equal. lia.
Qed.

(** X18, instance: a freshly constructed buffer of two channels takes five
    frames; the chunk then begins at frame 2, and two frames of silence are
    appended. *)
Lemma append_keeps_the_stream_witness :
  let input :=
    Some [[f1; f1; f1; f1; f1]; [fhalf; fhalf; fhalf; fhalf; fhalf]] in
  exists b0 b1 b2 : Stream.InputBuffer,
    Stream.InputBuffer_new 8 2 = Some b0
    /\ Stream.append true b0 5 input = Some (Returns b1)
    /\ Stream.append true (with_chunk b1 (mkInputChunk 2 10)) 2 None
       = Some (Returns b2)
    /\ Stream.buffer_begin b2 = 2
    /\ Stream.buffer_end b2 = 7
    /\ load (Stream.buffer b2) (4 - 2 + 1 * 8) = Some fhalf
    /\ load (Stream.buffer b2) (6 - 2 + 1 * 8) = Some f0.
Proof.
  cbv zeta.
  set (input := Some [[f1; f1; f1; f1; f1];
                      [fhalf; fhalf; fhalf; fhalf; fhalf]]).
  destruct (Stream.InputBuffer_new 8 2) as [b0 |] eqn:E0;
    [| discriminate E0].
  pose proof (InputBuffer_new_holds 8 2 b0 (fun _ _ => f0) E0
                ltac:(lia) ltac:(lia)) as Hh0.
  vm_compute in E0. injection E0 as <-.
  match type of Hh0 with holds ?b _ => set (b0 := b) in * end.
  destruct int_bounds as [Hmin Hmax].
  destruct (append_keeps_the_stream true b0 5 input (fun _ _ => f0) Hh0
              ltac:(lia) ltac:(cbn; lia)
              ltac:(split; [reflexivity | repeat constructor; cbn; lia])
              ltac:(vm_compute; reflexivity) ltac:(cbn; lia))
    as [b1 [E1 [Hh1 _]]].
  vm_compute in E1. injection E1 as <-.
  match type of Hh1 with holds ?b _ => set (b1 := b) in * end.
  assert (Hh1' : holds (with_chunk b1 (mkInputChunk 2 10))
                       (appended b0 input (fun _ _ => f0))) by exact Hh1.
  destruct (append_keeps_the_stream true (with_chunk b1 (mkInputChunk 2 10))
              2 None _ Hh1' ltac:(lia) ltac:(cbn; lia) I
              ltac:(vm_compute; reflexivity) ltac:(cbn; lia))
    as [b2 [E2 [Hh2 _]]].
  vm_compute in E2. injection E2 as <-.
  destruct Hh2 as [_ [_ [_ [_ [_ Hdata]]]]].
  eexists. eexists. eexists.
  split; [reflexivity |].
  split; [vm_compute; reflexivity |].
  split; [vm_compute; reflexivity |].
  split; [reflexivity |]. split; [reflexivity |].
  split.
  - exact (Hdata 1 4 ltac:(cbn; lia) ltac:(cbn; lia)).
  - exact (Hdata 1 6 ltac:(cbn; lia) ltac:(cbn; lia)).
Defined.

(** ** Grain cycles and the guard *)

Lemma Call_expected (i i' : Instrumentation) (sequence : Z)
    (lines : list string) :
  Call i sequence = (lines, Returns i') ->
  0 <= sequence < 3 ->
  expected i = sequence /\ expected i' = (sequence + 1) mod 3.
Proof.
  unfold Call. intros H Hs.
  destruct (sequence =? expected i) eqn:E; cbn [negb] in H;
    [| discriminate H].
  apply Z.eqb_eq in E. injection H as _ <-. cbn [expected].
  split; [now symmetry | apply Z.rem_mod_nonneg; lia].
Qed.

Lemma specifyGrain_expected (s s' : Stretcher) (r : Request) (b : double)
    (c : InputChunk) :
  specifyGrain s r b = Done (s', c) ->
  expected (instrumentation s) = 0 /\ expected (instrumentation s') = 1.
Proof.
  intros H. unfold specifyGrain in H.
  destruct (Call (instrumentation s) 0) as [lines [call |]] eqn:Ec;
    [| discriminate H].
  destruct (Call_expected _ _ _ _ Ec ltac:(lia)) as [H0 H1].
  destruct (Grains.rotate (grains s)) as [[| g [| p rest]] |];
    try discriminate H.
  destruct (specify _ _ _ _ _ _) as [[g' c'] |]; [| discriminate H].
  injection H as <- _. cbn [instrumentation]. split; assumption.
Qed.

Lemma specifyGrain_enabled (s s' : Stretcher) (r : Request) (b : double)
    (c : InputChunk) :
  specifyGrain s r b = Done (s', c) ->
  enabled (instrumentation s') = enabled (instrumentation s).
Proof.
  intros H. unfold specifyGrain, Call in H.
  destruct (negb (0 =? expected (instrumentation s))); [discriminate H |].
  destruct (Grains.rotate (grains s)) as [[| g [| p rest]] |];
    try discriminate H.
  destruct (specify _ _ _ _ _ _) as [[g' c'] |]; [| discriminate H].
  injection H as <- _. reflexivity.
Qed.

Lemma analyseGrain_expected (k : Kernels) (s s' : Stretcher)
    (data : option (list float)) (stride head tail : Z) :
  analyseGrain k s data stride head tail = Done s' ->
  expected (instrumentation s) = 1 /\ expected (instrumentation s') = 2.
Proof.
  intros H.
  destruct (analyseGrain_Done _ _ _ _ _ _ _ H)
    as [g [p [r0 [g' [_ [_ [H1 [-> _]]]]]]]].
  split; [exact H1 | reflexivity].
Qed.

Lemma synthesiseGrain_expected (k : Kernels) (s s' : Stretcher) :
  synthesiseGrain k s = Done s' ->
  expected (instrumentation s) = 2 /\ expected (instrumentation s') = 0.
Proof.
  intros H.
  destruct (synthesiseGrain_Done _ _ _ H)
    as [g [p [r0 [_ [_ [H2 [-> _]]]]]]].
  split; [exact H2 | reflexivity].
Qed.

(** *** NaN in the input audio *)

Lemma In_upto (n z : Z) : In z (upto n) <-> 0 <= z < n.
Proof.
  unfold upto. rewrite in_map_iff. split.
  - intros [i [<- Hi]]. apply in_seq in Hi. lia.
  - intros Hz. exists (Z.to_nat z). split; [lia |]. apply in_seq. lia.
Qed.

Lemma gather_In (l : list (option float)) :
  forall vs : list float,
    gather l = Some vs ->
    forall v : float, In v vs <-> In (Some v) l.
Proof.
  induction l as [| o l IH]; intros vs H v; cbn [gather] in H.
  - injection H as <-. tauto.
  - destruct o as [x |]; [cbn [bind] in H | discriminate H].
    destruct (gather l) as [xs |]; [cbn [bind] in H | discriminate H].
    injection H as <-. cbn [In]. rewrite (IH xs eq_refl v).
    split; intros [E | E]; auto; left; congruence.
Qed.

(** The copy that [overlapCheck] makes has a NaN exactly when an unmuted
    coefficient of the input is NaN. *)
Lemma overlapCheck_copy_hasNaN (input : Array)
    (frameCount head tail activeRows : Z) (copy : Array) :
  overlapCheck_copy input frameCount head tail activeRows = Some copy ->
  (hasNaN (data copy) = true
   <-> exists (row c : Z) (v : float),
         head <= row < head + activeRows
         /\ 0 <= row < frameCount
         /\ 0 <= c < cols input
         /\ load (data input) (row + c * colStride input) = Some v
         /\ isnan v = true).
Proof.
  unfold overlapCheck_copy. intros H.
  destruct (_ || _); [discriminate H |].
  bind_step H coefficients Eg. injection H as <-. cbn [data].
  unfold hasNaN. rewrite existsb_exists. split.
  - intros [v [Hin Hnan]].
    apply (gather_In _ _ Eg) in Hin. apply in_flat_map in Hin.
    destruct Hin as [c [Hc Hin]]. apply in_map_iff in Hin.
    destruct Hin as [row [Hv Hrow]].
    apply In_upto in Hc. apply In_upto in Hrow.
    destruct ((head <=? row) && (row <? head + activeRows)) eqn:E.
    + apply andb_true_iff in E. exists row, c, v.
      repeat split; try lia; assumption.
    + injection Hv as <-. discriminate Hnan.
  - intros [row [c [v [Hact [Hrow [Hc [Hv Hnan]]]]]]].
    exists v. split; [| exact Hnan].
    apply (gather_In _ _ Eg). apply in_flat_map.
    exists c. split; [apply In_upto; exact Hc |].
    apply in_map_iff. exists row. split; [| apply In_upto; exact Hrow].
    replace ((head <=? row) && (row <? head + activeRows)) with true;
      [exact Hv |].
    symmetry. apply andb_true_iff. lia.
Qed.

(** [overlapCheck] aborts exactly when, of the cases in which it is
    defined, an unmuted coefficient of the input is NaN. *)
Lemma overlapCheck_NaN (g : Grain) (input : Array) (head tail : Z)
    (previous : Grain) (i : Instrumentation) (lines : list string)
    (o : Outcome Grain) :
  overlapCheck g input head tail previous i = Some (lines, o) ->
  let frameCount := chunk_end (inputChunk g) - chunk_begin (inputChunk g) in
  (o = Aborts
   <-> exists (row c : Z) (v : float),
         head <= row < frameCount - tail
         /\ 0 <= c < cols input
         /\ load (data input) (row + c * colStride input) = Some v
         /\ isnan v = true).
Proof.
  intros H frameCount. unfold overlapCheck in H. fold frameCount in H.
  bind_step H fc Efc. apply int_Some in Efc. destruct Efc as [-> _].
  bind_step H a0 Ea0. apply int_Some in Ea0. destruct Ea0 as [-> _].
  bind_step H a1 Ea1. apply int_Some in Ea1. destruct Ea1 as [-> _].
  bind_step H copy Ecopy.
  pose proof (overlapCheck_copy_hasNaN _ _ _ _ _ _ Ecopy) as Hnan.
  assert (Hhead : 0 <= head).
  { unfold overlapCheck_copy in Ecopy.
    destruct (head <? 0) eqn:E; [| apply Z.ltb_ge in E; exact E].
    rewrite !orb_true_r in Ecopy. cbn [orb] in Ecopy. discriminate Ecopy. }
  assert (Htail : 0 <= tail).
  { unfold overlapCheck_copy in Ecopy.
    destruct (tail <? 0) eqn:E; [| apply Z.ltb_ge in E; exact E].
    rewrite !orb_true_r in Ecopy. cbn [orb] in Ecopy. discriminate Ecopy. }
  assert (Hiff :
    (exists (row c : Z) (v : float),
        head <= row < head + (frameCount - head - tail)
        /\ 0 <= row < frameCount
        /\ 0 <= c < cols input
        /\ load (data input) (row + c * colStride input) = Some v
        /\ isnan v = true)
    <-> exists (row c : Z) (v : float),
          head <= row < frameCount - tail
          /\ 0 <= c < cols input
          /\ load (data input) (row + c * colStride input) = Some v
          /\ isnan v = true).
  { split; intros [row [c [v Hx]]]; exists row, c, v; repeat split;
      try tauto; lia. }
  rewrite <- Hiff, <- Hnan.
  destruct (hasNaN (data copy)).
  - injection H as _ <-. tauto.
  - split; [| discriminate].
    intros ->. exfalso. cbv zeta in H.
    match type of H with bind ?x _ = _ =>
      destruct x; [cbn [bind] in H | discriminate H] end.
    destruct (_ && _).
    + repeat match type of H with bind ?x _ = _ =>
        destruct x; [cbn [bind] in H | discriminate H] end.
      destruct (negb (_ =? _)); [discriminate H |].
      destruct (negb (all_equal _ _)); discriminate H.
    + discriminate H.
Qed.

Lemma clamp_max_min (v n : Z) : 0 <= n -> clamp v 0 n = Z.max 0 (Z.min v n).
Proof.
  intros Hn. unfold clamp.
  destruct (v <? 0) eqn:E1; [apply Z.ltb_lt in E1; lia |].
  apply Z.ltb_ge in E1.
  destruct (n <? v) eqn:E2;
    [apply Z.ltb_lt in E2 | apply Z.ltb_ge in E2]; lia.
Qed.

(** [inputChunkMap] aborts exactly when, of the cases in which it is
    defined, instrumentation is enabled and an unmuted sample of the input
    is NaN. *)
Lemma inputChunkMap_NaN (g : Grain) (data : option (list float))
    (stride head tail : Z) (previous : Grain) (i : Instrumentation)
    (lines : list string) (o : Outcome (Grain * Array * Z * Z)) :
  inputChunkMap g data stride head tail previous i = Some (lines, o) ->
  let frameCount := chunk_end (inputChunk g) - chunk_begin (inputChunk g) in
  (o = Aborts
   <-> enabled i = true
       /\ exists (samples : list float) (row c : Z) (v : float),
            data = Some samples
            /\ Z.max 0 (Z.min head frameCount) <= row
               < frameCount - Z.max 0 (Z.min tail frameCount)
            /\ 0 <= c < transformed_cols g
            /\ load samples (row + c * stride) = Some v
            /\ isnan v = true).
Proof.
  intros H frameCount. unfold inputChunkMap in H. fold frameCount in H.
  bind_step H fc Efc. apply int_Some in Efc. destruct Efc as [-> _].
  destruct (frameCount <? 0) eqn:Eneg.
  { destruct data; discriminate H. }
  apply Z.ltb_ge in Eneg.
  destruct (clamp_top frameCount Eneg) as [Htop Hzero].
  destruct (enabled i).
  - destruct data as [samples |]; cbv iota beta zeta in H.
    + destruct (overlapCheck _ _ _ _ _ _) as [[lines0 o0] |] eqn:Eo;
        [| discriminate H].
      pose proof (overlapCheck_NaN _ _ _ _ _ _ _ _ Eo) as Hnan.
      cbv zeta in Hnan. fold frameCount in Hnan.
      cbn [cols data colStride] in Hnan.
      rewrite !clamp_max_min in Hnan by exact Eneg.
      destruct o0 as [g0 |].
      * injection H as _ <-. split; [discriminate |].
        intros [_ [samples' [row [c [v [[= <-] Hx]]]]]].
        assert (Ha : @Returns Grain g0 = Aborts)
          by (apply Hnan; exists row, c, v; exact Hx).
        discriminate Ha.
      * injection H as _ <-. split; [| reflexivity]. intros _.
        split; [reflexivity |].
        destruct (proj1 Hnan eq_refl) as [row [c [v Hx]]].
        exists samples, row, c, v. split; [reflexivity | exact Hx].
    + rewrite Htop, Hzero in H.
      destruct (overlapCheck _ _ _ _ _ _) as [[lines0 o0] |] eqn:Eo;
        [| discriminate H].
      pose proof (overlapCheck_NaN _ _ _ _ _ _ _ _ Eo) as Hnan.
      cbv zeta in Hnan. fold frameCount in Hnan.
      destruct o0 as [g0 |].
      * injection H as _ <-. split; [discriminate |].
        intros [_ [samples' [row [c [v [Hd _]]]]]]. discriminate Hd.
      * exfalso. destruct (proj1 Hnan eq_refl) as [row [c [v [Hr _]]]]. lia.
  - assert (Ho : o <> Aborts)
      by (destruct data; cbv iota beta zeta in H; injection H as _ <-;
          discriminate).
    split; [contradiction |]. intros [Hf _]. discriminate Hf.
Qed.

(** [analyseGrain] called in its turn aborts exactly when, of the cases in
    which it is defined, instrumentation is enabled, grain 0 is valid and an
    unmuted sample of the input is NaN. *)
Lemma analyseGrain_NaN (k : Kernels) (s : Stretcher)
    (data : option (list float)) (stride head tail : Z)
    (grain : Grain) (others : list Grain) :
  grains s = grain :: others ->
  expected (instrumentation s) = 1 ->
  analyseGrain k s data stride head tail <> Undefined ->
  let frameCount :=
    chunk_end (inputChunk grain) - chunk_begin (inputChunk grain) in
  (analyseGrain k s data stride head tail = Abort
   <-> enabled (instrumentation s) = true
       /\ valid grain = true
       /\ exists (samples : list float) (row c : Z) (v : float),
            data = Some samples
            /\ Z.max 0 (Z.min head frameCount) <= row
               < frameCount - Z.max 0 (Z.min tail frameCount)
            /\ 0 <= c < transformed_cols grain
            /\ load samples (row + c * stride) = Some v
            /\ isnan v = true).
Proof.
  intros Hring H1 Hdef frameCount.
  unfold analyseGrain, Call in Hdef |- *.
  rewrite H1 in Hdef |- *. cbn [Z.eqb Pos.eqb negb] in Hdef |- *.
  rewrite Hring in Hdef |- *.
  destruct others as [| previous rest]; [contradiction |].
  set (grain0 := analysed grain head tail 0 (log2TransformLength grain)
                          (energy grain) (phase grain) (partials grain))
    in *.
  change (valid grain0) with (valid grain) in *.
  destruct (valid grain).
  - destruct (inputChunkMap grain0 data stride head tail previous _)
      as [[lines o] |] eqn:Em; [| contradiction].
    pose proof (inputChunkMap_NaN _ _ _ _ _ _ _ _ _ Em) as Hnan.
    cbv zeta in Hnan. cbn [enabled] in Hnan.
    change (inputChunk grain0) with (inputChunk grain) in Hnan.
    change (transformed_cols grain0) with (transformed_cols grain) in Hnan.
    fold frameCount in Hnan.
    destruct o as [[[[grain1 m] h] t] |].
    + split.
      * intros Habort. exfalso.
        destruct (resampleInput_mute grain1 h t) as [h' t'].
        destruct (to_int _) as [c |]; [| discriminate Habort].
        destruct (int _) as [v |]; [| discriminate Habort].
        destruct (analysis_kernel _ _ _ _ _ _ _ _ _ _) as [[[l e] p] pa].
        discriminate Habort.
      * intros [He [_ Hx]].
        assert (Ha : @Returns (Grain * Array * Z * Z) (grain1, m, h, t)
                     = Aborts) by (apply Hnan; split; assumption).
        discriminate Ha.
    + split; [| reflexivity]. intros _.
      destruct (proj1 Hnan eq_refl) as [He Hx].
      split; [exact He |]. split; [reflexivity | exact Hx].
  - split; [discriminate |]. intros [_ [Hv _]]. discriminate Hv.
Qed.

(** X19: on a stretcher whose guard expects [specifyGrain] and whose
    instrumentation is disabled, as on a fresh one, a run of grains that
    makes the three calls in their order never aborts, and it leaves the
    guard expecting [specifyGrain] and the instrumentation disabled.  With
    instrumentation enabled, [analyseGrain] called in its turn aborts, of
    the cases in which it is defined, exactly when grain 0 is valid and an
    unmuted sample of the input is NaN.  A second [specifyGrain] straight
    after one that returned does abort, and so does [synthesiseGrain]
    straight after [specifyGrain]. *)
Theorem grain_cycles_never_abort (k : Kernels) :
  (forall (l : list GrainInput) (s : Stretcher),
      expected (instrumentation s) = 0 ->
      enabled (instrumentation s) = false ->
      process k s l <> Abort
      /\ forall s' : Stretcher,
           process k s l = Done s' ->
           expected (instrumentation s') = 0
           /\ enabled (instrumentation s') = false)
  /\ (forall (s : Stretcher) (data : option (list float))
        (stride head tail : Z) (grain : Grain) (others : list Grain),
        grains s = grain :: others ->
        expected (instrumentation s) = 1 ->
        analyseGrain k s data stride head tail <> Undefined ->
        let frameCount :=
          chunk_end (inputChunk grain) - chunk_begin (inputChunk grain) in
        (analyseGrain k s data stride head tail = Abort
         <-> enabled (instrumentation s) = true
             /\ valid grain = true
             /\ exists (samples : list float) (row c : Z) (v : float),
                  data = Some samples
                  /\ Z.max 0 (Z.min head frameCount) <= row
                     < frameCount - Z.max 0 (Z.min tail frameCount)
                  /\ 0 <= c < transformed_cols grain
                  /\ load samples (row + c * stride) = Some v
                  /\ isnan v = true))
  /\ (forall (s s1 : Stretcher) (r r' : Request) (b b' : double)
        (c : InputChunk),
        specifyGrain s r b = Done (s1, c) ->
        specifyGrain s1 r' b' = Abort /\ synthesiseGrain k s1 = Abort).
Proof.
  split; [| split].
  - induction l as [| gi rest IH]; intros s H0 He; cbn [process].
    + split; [discriminate |]. intros s' [= <-]. split; assumption.
    + assert (Hcycle : grain_cycle k s gi <> Abort
                       /\ forall s1, grain_cycle k s gi = Done s1 ->
                                     expected (instrumentation s1) = 0
                                     /\ enabled (instrumentation s1) = false).
      { unfold grain_cycle.
        destruct (specifyGrain s _ _) as [[s1 c] | |] eqn:E1.
        - destruct (specifyGrain_expected _ _ _ _ _ E1) as [_ H1].
          pose proof (specifyGrain_enabled _ _ _ _ _ E1) as He1.
          rewrite He in He1.
          destruct (analyseGrain k s1 _ _ _ _) as [s2 | |] eqn:E2.
          + destruct (analyseGrain_Done _ _ _ _ _ _ _ E2)
              as [g [p [r0 [g' [_ [_ [_ [Hi2 _]]]]]]]].
            split.
            * intros Habort. apply synthesiseGrain_guard in Habort.
              rewrite Hi2 in Habort. cbn [expected] in Habort. lia.
            * intros s3 E3.
              destruct (synthesiseGrain_Done _ _ _ E3)
                as [g3 [p3 [r3 [_ [_ [_ [-> _]]]]]]].
              cbn [expected enabled]. rewrite Hi2. cbn [enabled].
              split; [reflexivity | exact He1].
          + exfalso.
            destruct (grains s1) as [| grain others] eqn:Eg.
            * unfold analyseGrain, Call in E2. rewrite H1, Eg in E2.
              discriminate E2.
            * assert (Hdef : analyseGrain k s1 (gi_data gi) (gi_stride gi)
                               (gi_muteHead gi) (gi_muteTail gi)
                             <> Undefined) by (rewrite E2; discriminate).
              destruct (proj1 (analyseGrain_NaN _ _ _ _ _ _ _ _ Eg H1 Hdef)
                          E2) as [Hen _].
              congruence.
          + split; [discriminate | discriminate].
        - apply specifyGrain_guard in E1. contradiction.
        - split; [discriminate | discriminate]. }
      destruct Hcycle as [Hna Hdone].
      destruct (grain_cycle k s gi) as [s1 | |]; try contradiction.
      * destruct (Hdone s1 eq_refl) as [Hx Hy]. apply IH; assumption.
      * split; discriminate.
  - intros s data stride head tail grain others Hring H1 Hdef.
    exact (analyseGrain_NaN k s data stride head tail grain others Hring H1
             Hdef).
  - intros s s1 r r' b b' c H.
    destruct (specifyGrain_expected _ _ _ _ _ H) as [_ H1].
    split.
    + apply specifyGrain_guard. lia.
    + apply synthesiseGrain_guard. lia.
Qed.

(** X19, instance: a fresh stretcher with instrumentation enabled takes a
    grain at position 1000 and audio of which the one unmuted row, the last
    of the 4096, is NaN: [analyseGrain] aborts. *)
Lemma grain_cycles_never_abort_witness :
  exists (s1 : Stretcher) (c : InputChunk),
    specifyGrain
      (with_instrumentation
         (Stretcher_new (mkSampleRates 48000 48000) 1 9) true)
      (unit_request (of_int 1000)) (S754_zero false)
    = Done (s1, c)
    /\ analyseGrain null_kernels s1 (Some (repeat quiet_NaN 4096)) 4096
                    4095 0
       = Abort.
Proof.
  pose (s0 := with_instrumentation
                (Stretcher_new (mkSampleRates 48000 48000) 1 9) true).
  destruct (specifyGrain s0 (unit_request (of_int 1000)) (S754_zero false))
    as [[s1 c] | |] eqn:E1;
    [| vm_compute in E1; discriminate E1 | vm_compute in E1; discriminate E1].
  exists s1, c. split; [exact E1 |].
  destruct (specifyGrain_expected _ _ _ _ _ E1) as [_ H1].
  destruct (grains s1) as [| grain others] eqn:Eg;
    [vm_compute in E1; injection E1 as <- _; discriminate Eg |].
  assert (Hfacts :
    enabled (instrumentation s1) = true
    /\ valid grain = true
    /\ inputChunk grain = mkInputChunk (-1048) 3048
    /\ transformed_cols grain = 1)
    by (vm_compute in E1; injection E1 as <- _; injection Eg as <- _;
        repeat split).
  destruct Hfacts as [Hen [Hv [Hchunk Hcols]]].
  assert (Hdef : analyseGrain null_kernels s1 (Some (repeat quiet_NaN 4096))
                              4096 4095 0 <> Undefined)
    by (vm_compute in E1; injection E1 as <- _; vm_compute; discriminate).
  apply (proj1 (proj2 (grain_cycles_never_abort null_kernels)) s1 _ _ _ _
               grain others Eg H1 Hdef).
  split; [exact Hen |]. split; [exact Hv |].
  exists (repeat quiet_NaN 4096), 4095, 0, quiet_NaN.
  rewrite Hchunk, Hcols. cbn [chunk_begin chunk_end].
  split; [reflexivity |]. split; [lia |]. split; [lia |].
  split; reflexivity.
Defined.

(** ** A chunk without audio *)

(** X20: with [data == nullptr], [Grain::inputChunkMap] mutes the whole chunk
    and the external buffer is constructed with the mute counts
    [(rows, 0)].  When its frame count can be computed, input-mode
    [resample] of such a buffer is defined whatever the storage of the
    external buffer is, even none at all: it reads no sample of it, leaves
    it as it is, and, when it runs the loop, leaves only zeros in the
    internal buffer. *)
Theorem resample_of_muted_chunk
    (bytes : Z) (interpolation : Interpolation) (internal : Internal)
    (ref : Array) (ratioBegin ratioEnd : double) (alignEnd : bool)
    (idealFrameCount : Z) :
  0 <= rows ref ->
  to_ptrdiff
    (round (ddiv (dmul (of_int 2)
                       (dsub (of_int (frameCount internal))
                             (offset internal)))
                 (dadd ratioBegin ratioEnd)))
  = Some idealFrameCount ->
  exists (internal' : Internal) (external' : External),
    resample bytes interpolation Input internal
             (External_new ref (rows ref) 0) ratioBegin ratioEnd alignEnd
    = Some (internal', external')
    /\ Resample.ref external' = ref
    /\ (0 < activeFrameCount external' ->
        Forall (fun v => v = f0) (data (array internal')))
    /\ (activeFrameCount external' <= 0 -> internal' = internal).
Proof.
  intros Hrows Hideal. unfold resample. rewrite Hideal. cbn [bind].
  cbv zeta. unfold External_new.
  cbn [Resample.ref activeFrameCount unmutedBegin unmutedEnd].
  rewrite Z.sub_0_r.
  remember (if negb (rows ref <? idealFrameCount) then idealFrameCount
            else rows ref) as act eqn:Eact.
  assert (Hle : act <= rows ref).
  { subst act. destruct (rows ref <? idealFrameCount) eqn:Et;
      cbn [negb]; [lia | apply Z.ltb_ge in Et; lia]. }
  destruct (0 <? act) eqn:Epos.
  - apply Z.ltb_lt in Epos.
    assert (Hub : clamp (rows ref) 0 act = act).
    { unfold clamp. destruct (rows ref <? 0) eqn:E1; [lia |].
      destruct (act <? rows ref) eqn:E2; lia. }
    rewrite Hub.
    assert (Hue : clamp (rows ref) act act = act).
    { unfold clamp. destruct (rows ref <? act) eqn:E1; [lia |].
      destruct (act <? rows ref) eqn:E2; lia. }
    rewrite Hue.
    unfold resampleSpecial. cbv zeta.
    match goal with
    | |- context [run interpolation Input ?rs internal ?e] =>
        destruct (run_fully_muted interpolation Input rs internal e
                    eq_refl) as [Hrun Hzero];
        rewrite Hrun
    end.
    cbn [bind]. eexists. eexists. split; [reflexivity |].
    cbn [Resample.ref activeFrameCount array].
    split; [reflexivity |]. split; [intros _; exact Hzero | lia].
  - apply Z.ltb_ge in Epos. eexists. eexists. split; [reflexivity |].
    cbn [Resample.ref activeFrameCount].
    split; [reflexivity |]. split; [lia | reflexivity].
Qed.

(** X20, instance: a padded internal buffer of four frames and an external
    buffer of four rows that has no storage. *)
Lemma resample_of_muted_chunk_witness :
  let internal :=
    mkInternal (mkArray (repeat fhalf 136) 68 2 68) 4 (S754_zero false) in
  exists (internal' : Internal) (external' : External),
    resample 16 Bilinear Input internal
             (External_new (mkArray [] 4 2 4) 4 0) d1 d1 false
    = Some (internal', external')
    /\ Forall (fun v => v = f0) (data (array internal')).
Proof.
  cbv zeta.
  destruct (resample_of_muted_chunk 16 Bilinear
              (mkInternal (mkArray (repeat fhalf 136) 68 2 68) 4
                          (S754_zero false))
              (mkArray [] 4 2 4) d1 d1 false 4 ltac:(cbn; lia)
              ltac:(vm_compute; reflexivity))
    as [internal' [external' [E [_ [Hzero _]]]]].
  exists internal', external'. split; [exact E |].
  apply Hzero. vm_compute in E. injection E as _ <-. reflexivity.
Defined.

(** ** Output mode overwrites *)

Lemma load_Some_range (l : list float) (j : Z) (v : float) :
  load l j = Some v -> 0 <= j < Z.of_nat (List.length l).
Proof.
  intros H. apply load_Some_nonneg in H. destruct H as [H0 Hn].
  assert (Hlt : (Z.to_nat j < List.length l)%nat)
    by (apply nth_error_Some; congruence).
  lia.
Qed.

Lemma agree_on_weaken (W W' : Z -> Prop) (e1 e2 : list float) :
  agree_on W e1 e2 -> (forall p : Z, W' p -> W p) -> agree_on W' e1 e2.
Proof. intros [Hl Ha] Hw. split; [exact Hl | auto]. Qed.

Lemma tap_Output_overwrite (W : Z -> Prop) (first : bool)
    (coefficient gain : float) (i j : Z) (il e1 e2 il' e1' : list float) :
  agree_on W e1 e2 -> first = true \/ W j ->
  tap Output first coefficient gain i j (il, e1) = Some (il', e1') ->
  exists e2' : list float,
    tap Output first coefficient gain i j (il, e2) = Some (il', e2')
    /\ agree_on (fun p => W p \/ p = j) e1' e2'.
Proof.
  intros [Hl Ha] Hj H. rewrite tap_eq in H. rewrite tap_eq.
  destruct (load il i) as [vi |]; [| discriminate H].
  destruct (load e1 j) as [v1 |] eqn:E1; [| discriminate H].
  pose proof (load_Some_range _ _ _ E1) as Hr1.
  destruct (load_in_range e2 j ltac:(rewrite <- Hl; exact Hr1))
    as [v2 E2].
  rewrite E2.
  assert (Hv : first = false -> v1 = v2).
  { intros ->. destruct Hj as [Hj | Hw]; [discriminate Hj |].
    rewrite (Ha j Hw) in E1. congruence. }
  assert (Hnew : forall (w : float) (e1'' e2'' : list float),
            e1'' = update e1 (Z.to_nat j) w ->
            e2'' = update e2 (Z.to_nat j) w ->
            agree_on (fun p => W p \/ p = j) e1'' e2'').
  { intros w e1'' e2'' -> ->. split.
    - rewrite !update_length. exact Hl.
    - intros p [Hp | ->].
      + destruct (Z.eq_dec p j) as [-> | Hne].
        * rewrite !load_update_same by lia. reflexivity.
        * rewrite !load_update_other by lia. apply Ha. exact Hp.
      + rewrite !load_update_same by lia. reflexivity. }
  destruct first; cbn [filterTap fst snd] in H |- *.
  - injection H as <- <-. eexists. split; [reflexivity |].
    eapply Hnew; reflexivity.
  - rewrite <- (Hv eq_refl). injection H as <- <-.
    eexists. split; [reflexivity |]. eapply Hnew; reflexivity.
Qed.

Section Overwrite.

Variables (internalStride row externalStride : Z) (gain : float).

Lemma Nearest_channels_overwrite (integer : Z) (n : nat) :
  forall (c : Z) (W : Z -> Prop) (il e1 e2 il' e1' : list float),
    agree_on W e1 e2 ->
    Nearest_channels Output n c integer internalStride row externalStride
                     gain (il, e1) = Some (il', e1') ->
    exists e2' : list float,
      Nearest_channels Output n c integer internalStride row externalStride
                       gain (il, e2) = Some (il', e2')
      /\ agree_on (fun p => W p \/ exists c' : Z,
                                     c <= c' < c + Z.of_nat n
                                     /\ p = row + c' * externalStride)
                  e1' e2'.
Proof.
  induction n as [| n IH]; intros c W il e1 e2 il' e1' Hag H;
    cbn [Nearest_channels] in *.
  - injection H as <- <-. exists e2. split; [reflexivity |].
    apply (agree_on_weaken W); [exact Hag |].
    intros p [Hp | [c' [Hc' _]]]; [exact Hp | lia].
  - match type of H with bind ?o _ = _ =>
      destruct o as [[il1 e11] |] eqn:E; [cbn [bind] in H | discriminate H]
    end.
    destruct (tap_Output_overwrite W true _ _ _ _ _ _ _ _ _ Hag
                (or_introl eq_refl) E) as [e21 [E' Hag1]].
    rewrite E'. cbn [bind].
    destruct (IH _ _ _ _ _ _ _ Hag1 H) as [e2' [H' Hag2]].
    exists e2'. split; [exact H' |].
    apply (agree_on_weaken _ _ _ _ Hag2).
    intros p [Hp | [c' [Hc' ->]]].
    + left. left. exact Hp.
    + destruct (Z.eq_dec c' c) as [-> | Hne].
      * left. right. reflexivity.
      * right. exists c'. split; [lia | reflexivity].
Qed.

Lemma Bilinear_channels_overwrite (integer : Z) (fraction : float)
    (n : nat) :
  forall (c : Z) (W : Z -> Prop) (il e1 e2 il' e1' : list float),
    agree_on W e1 e2 ->
    Bilinear_channels Output n c integer fraction internalStride row
                      externalStride gain (il, e1) = Some (il', e1') ->
    exists e2' : list float,
      Bilinear_channels Output n c integer fraction internalStride row
                        externalStride gain (il, e2) = Some (il', e2')
      /\ agree_on (fun p => W p \/ exists c' : Z,
                                     c <= c' < c + Z.of_nat n
                                     /\ p = row + c' * externalStride)
                  e1' e2'.
Proof.
  induction n as [| n IH]; intros c W il e1 e2 il' e1' Hag H;
    cbn [Bilinear_channels] in *.
  - injection H as <- <-. exists e2. split; [reflexivity |].
    apply (agree_on_weaken W); [exact Hag |].
    intros p [Hp | [c' [Hc' _]]]; [exact Hp | lia].
  - match type of H with bind ?o _ = _ =>
      destruct o as [[il1 e11] |] eqn:E1;
        [cbn [bind] in H | discriminate H]
    end.
    match type of H with bind ?o _ = _ =>
      destruct o as [[il2 e12] |] eqn:E2;
        [cbn [bind] in H | discriminate H]
    end.
    destruct (tap_Output_overwrite W true _ _ _ _ _ _ _ _ _ Hag
                (or_introl eq_refl) E1) as [e21 [E1' Hag1]].
    rewrite E1'. cbn [bind].
    destruct (tap_Output_overwrite _ false _ _ _ _ _ _ _ _ _ Hag1
                (or_intror (or_intror eq_refl)) E2) as [e22 [E2' Hag2]].
    rewrite E2'. cbn [bind].
    destruct (IH _ _ _ _ _ _ _ Hag2 H) as [e2' [H' Hag3]].
    exists e2'. split; [exact H' |].
    apply (agree_on_weaken _ _ _ _ Hag3).
    intros p [Hp | [c' [Hc' ->]]].
    + left. left. left. exact Hp.
    + destruct (Z.eq_dec c' c) as [-> | Hne].
      * left. left. right. reflexivity.
      * right. exists c'. split; [lia | reflexivity].
Qed.

End Overwrite.

Lemma step_overwrite (interpolation : Interpolation) (x gain : float)
    (channelCount internalStride row externalStride : Z) (W : Z -> Prop)
    (il e1 e2 il' e1' : list float) :
  agree_on W e1 e2 ->
  step interpolation Output x channelCount internalStride row externalStride
       gain (il, e1) = Some (il', e1') ->
  exists e2' : list float,
    step interpolation Output x channelCount internalStride row
         externalStride gain (il, e2) = Some (il', e2')
    /\ agree_on (fun p => W p \/ exists c' : Z,
                                   0 <= c' < channelCount
                                   /\ p = row + c' * externalStride)
                e1' e2'.
Proof.
  intros Hag H. unfold step in *. destruct interpolation.
  - match type of H with bind ?o _ = _ =>
      destruct o as [integer |]; [cbn [bind] in H | discriminate H] end.
    cbn [bind].
    destruct (Nearest_channels_overwrite _ _ _ _ _ _ _ _ _ _ _ _ _ Hag H)
      as [e2' [H' Hag']].
    exists e2'. split; [exact H' |].
    apply (agree_on_weaken _ _ _ _ Hag').
    intros p [Hp | [c' [Hc' ->]]]; [left; exact Hp | right].
    exists c'. split; [lia | reflexivity].
  - match type of H with bind ?o _ = _ =>
      destruct o as [integer |]; [cbn [bind] in H | discriminate H] end.
    cbn [bind].
    destruct (Bilinear_channels_overwrite _ _ _ _ _ _ _ _ _ _ _ _ _ _ Hag H)
      as [e2' [H' Hag']].
    exists e2'. split; [exact H' |].
    apply (agree_on_weaken _ _ _ _ Hag').
    intros p [Hp | [c' [Hc' ->]]]; [left; exact Hp | right].
    exists c'. split; [lia | reflexivity].
Qed.

Lemma run_rows_overwrite (interpolation : Interpolation)
    (external : External) (other : list float) (internalStride : Z)
    (n : nat) :
  forall (row0 : Z) (rs rs' : RatioState) (W : Z -> Prop)
         (il e1 e2 il' e1' : list float),
    agree_on W e1 e2 ->
    run_rows interpolation Output n row0 external internalStride rs (il, e1)
    = Some (rs', (il', e1')) ->
    exists e2' : list float,
      run_rows interpolation Output n row0 (with_data external other)
               internalStride rs (il, e2)
      = Some (rs', (il', e2'))
      /\ agree_on (fun p => W p \/ exists row c' : Z,
                                     row0 <= row < row0 + Z.of_nat n
                                     /\ unmuted external row = true
                                     /\ 0 <= c' < cols (ref external)
                                     /\ p = row
                                            + c' * colStride (ref external))
                  e1' e2'.
Proof.
  induction n as [| n IH]; intros row0 rs rs' W il e1 e2 il' e1' Hag H;
    cbn [run_rows] in *.
  - injection H as <- <- <-. exists e2. split; [reflexivity |].
    apply (agree_on_weaken W); [exact Hag |].
    intros p [Hp | [row [c' [Hr _]]]]; [exact Hp | lia].
  - cbn [with_data unmutedBegin unmutedEnd ref cols colStride].
    fold (unmuted external row0) in H |- *.
    destruct (unmuted external row0) eqn:Eu.
    + match type of H with bind ?o _ = _ =>
        destruct o as [[il1 e11] |] eqn:E;
          [cbn [bind] in H | discriminate H]
      end.
      destruct (step_overwrite _ _ _ _ _ _ _ _ _ _ _ _ _ Hag E)
        as [e21 [E' Hag1]].
      rewrite E'. cbn [bind].
      destruct (IH _ _ _ _ _ _ _ _ _ Hag1 H) as [e2' [H' Hag2]].
      exists e2'. split; [exact H' |].
      apply (agree_on_weaken _ _ _ _ Hag2).
      intros p [Hp | [row [c' [Hr [Hu [Hc' ->]]]]]].
      * left. left. exact Hp.
      * destruct (Z.eq_dec row row0) as [-> | Hne].
        -- left. right. exists c'. split; [exact Hc' | reflexivity].
        -- right. exists row, c'. repeat split; try assumption; lia.
    + cbn [bind] in H |- *.
      destruct (IH _ _ _ _ _ _ _ _ _ Hag H) as [e2' [H' Hag2]].
      exists e2'. split; [exact H' |].
      apply (agree_on_weaken _ _ _ _ Hag2).
      intros p [Hp | [row [c' [Hr [Hu [Hc' ->]]]]]].
      * left. exact Hp.
      * destruct (Z.eq_dec row row0) as [-> | Hne]; [congruence |].
        right. exists row, c'. repeat split; try assumption; lia.
Qed.

(** X21: an output-mode run of the loop overwrites the unmuted rows: what the
    external buffer held in them has no effect.  Over any other external
    storage of the same size the run is defined as well, ends in the same
    ratio state, leaves the same internal buffer, and writes the same
    samples in every unmuted row. *)
Theorem run_output_overwrites
    (interpolation : Interpolation) (ratioState ratioState' : RatioState)
    (internal internal' : Internal) (external : External)
    (external' : Array) (other : list float) :
  run interpolation Output ratioState internal external
  = Some (ratioState', internal', external') ->
  List.length other = List.length (data (ref external)) ->
  check external ->
  activeFrameCount external < 2 ^ 63 ->
  exists external'' : Array,
    run interpolation Output ratioState internal (with_data external other)
    = Some (ratioState', internal', external'')
    /\ forall row c : Z,
         unmutedBegin external <= row < unmutedEnd external ->
         0 <= c < cols (ref external) ->
         load (data external'') (row + c * colStride (ref external))
         = load (data external') (row + c * colStride (ref external)).
Proof.
  intros H Hlen Hcheck H63. unfold run in *.
  match type of H with bind ?o _ = _ =>
    destruct o as [[rs1 [idata edata]] |] eqn:E;
      [cbn [bind] in H | discriminate H] end.
  injection H as <- <- <-.
  assert (Hag : agree_on (fun _ => False) (data (ref external)) other).
  { split; [now symmetry | intros j []]. }
  destruct (run_rows_overwrite interpolation external other _ _ _ _ _ _ _
              _ _ _ _ Hag E) as [e2' [E' Hag']].
  cbn [with_data activeFrameCount ref data rows cols colStride].
  rewrite E'. cbn [bind]. eexists. split; [reflexivity |].
  intros row c Hrow Hc. cbn [data]. symmetry.
  apply (proj2 Hag'). right. exists row, c.
  pose proof Hcheck as [H0 [H1 [H2 H3]]].
  assert (2 ^ 63 < 2 ^ 64) by (apply Z.pow_lt_mono_r; lia).
  split.
  - unfold to_size_t. rewrite Z.mod_small by lia.
    rewrite Z2Nat.id by lia. lia.
  - split; [apply (unmuted_of_range _ _ Hcheck H63 Hrow) |].
    split; [exact Hc | reflexivity].
Qed.

(** X21, instance: the bilinear output-mode run over the example buffers, and
    over an external buffer that holds 1/2 instead of 1. *)
Lemma run_output_overwrites_witness :
  exists (ratioState' : RatioState) (internal' : Internal)
         (external' external'' : Array),
    run Bilinear Output example_ratioState example_internal example_external
    = Some (ratioState', internal', external')
    /\ run Bilinear Output example_ratioState example_internal
           (with_data example_external (repeat fhalf 8))
       = Some (ratioState', internal', external'')
    /\ load (data external'') (1 + 1 * 4) = load (data external') (1 + 1 * 4).
Proof.
  destruct (run Bilinear Output example_ratioState example_internal
                example_external) as [[[rs' i'] e'] |] eqn:E;
    [| vm_compute in E; discriminate E].
  destruct (run_output_overwrites Bilinear example_ratioState rs'
              example_internal i' example_external e' (repeat fhalf 8) E
              eq_refl ltac:(unfold check; cbn; lia) ltac:(cbn; lia))
    as [e'' [E' Hrows]].
  exists rs', i', e', e''. split; [reflexivity |]. split; [exact E' |].
  apply (Hrows 1 1); cbn; lia.
Defined.

(** ** Invalid grains and the kernels *)



(** ** What output mode writes *)

Lemma tap_Output_value (first : bool) (coefficient gain : float) (i j : Z)
    (il el il' el' : list float) :
  tap Output first coefficient gain i j (il, el) = Some (il', el') ->
  il' = il
  /\ exists vi ve : float,
       load il i = Some vi /\ load el j = Some ve
       /\ load el' j
          = Some (if first then fmul vi coefficient
                  else fadd ve (fmul vi coefficient)).
Proof.
  intros H. rewrite tap_eq in H.
  destruct (load il i) as [vi |] eqn:Ei; [| discriminate H].
  destruct (load el j) as [ve |] eqn:Ej; [| discriminate H].
  pose proof (load_Some_range _ _ _ Ej) as Hr.
  pose proof (load_Some_nonneg _ _ _ Ei) as [_ Hn].
  destruct first; cbn [filterTap fst snd] in H; injection H as <- <-.
  - split; [apply update_same; exact Hn |].
    exists vi, ve. repeat split. apply load_update_same. exact Hr.
  - split; [apply update_same; exact Hn |].
    exists vi, ve. repeat split. apply load_update_same. exact Hr.
Qed.

Lemma distinct_channels (row externalStride c c' : Z) :
  externalStride <> 0 -> c <> c' ->
  row + c * externalStride <> row + c' * externalStride.
Proof. intros Hs Hc Heq. apply Hc. nia. Qed.

Section Values.

Variables (internalStride row externalStride : Z) (gain : float).
Hypothesis Hstride : externalStride <> 0.

Lemma Nearest_channels_value (integer : Z) (n : nat) :
  forall (c0 : Z) (il el il' el' : list float),
    Nearest_channels Output n c0 integer internalStride row externalStride
                     gain (il, el) = Some (il', el') ->
    forall c : Z,
      c0 <= c < c0 + Z.of_nat n ->
      load el' (row + c * externalStride)
      = (v <- load il (integer + c * internalStride) ;; Some (fmul v f1)).
Proof.
  induction n as [| n IH]; intros c0 il el il' el' H c Hc;
    cbn [Nearest_channels] in H; [lia |].
  match type of H with bind ?o _ = _ =>
    destruct o as [[il1 el1] |] eqn:E; [cbn [bind] in H | discriminate H]
  end.
  destruct (tap_Output_value _ _ _ _ _ _ _ _ _ E)
    as [-> [vi [ve [Hvi [_ Hnew]]]]].
  destruct (Z.eq_dec c c0) as [-> | Hne].
  - rewrite (Nearest_channels_frame _ _ _ _ _ _ _ _ _ _ _ H)
      by (intros c' Hc'; apply distinct_channels; [exact Hstride | lia]).
    cbn [snd]. rewrite Hnew, Hvi. reflexivity.
  - apply (IH _ _ _ _ _ H). lia.
Qed.

Lemma Bilinear_channels_value (integer : Z) (fraction : float) (n : nat) :
  forall (c0 : Z) (il el il' el' : list float),
    Bilinear_channels Output n c0 integer fraction internalStride row
                      externalStride gain (il, el) = Some (il', el') ->
    forall c : Z,
      c0 <= c < c0 + Z.of_nat n ->
      load el' (row + c * externalStride)
      = (v1 <- load il (integer + 1 + c * internalStride) ;;
         v0 <- load il (integer + 0 + c * internalStride) ;;
         Some (fadd (fmul v1 fraction) (fmul v0 (fsub f1 fraction)))).
Proof.
  induction n as [| n IH]; intros c0 il el il' el' H c Hc;
    cbn [Bilinear_channels] in H; [lia |].
  match type of H with bind ?o _ = _ =>
    destruct o as [[il1 el1] |] eqn:E1; [cbn [bind] in H | discriminate H]
  end.
  match type of H with bind ?o _ = _ =>
    destruct o as [[il2 el2] |] eqn:E2; [cbn [bind] in H | discriminate H]
  end.
  destruct (tap_Output_value _ _ _ _ _ _ _ _ _ E1)
    as [-> [v1 [ve [Hv1 [_ Hnew1]]]]].
  destruct (tap_Output_value _ _ _ _ _ _ _ _ _ E2)
    as [-> [v0 [ve' [Hv0 [Hold Hnew2]]]]].
  rewrite Hnew1 in Hold. injection Hold as <-.
  destruct (Z.eq_dec c c0) as [-> | Hne].
  - rewrite (Bilinear_channels_frame _ _ _ _ _ _ _ _ _ _ _ _ H)
      by (intros c' Hc'; apply distinct_channels; [exact Hstride | lia]).
    cbn [snd]. rewrite Hnew2, Hv1, Hv0. reflexivity.
  - apply (IH _ _ _ _ _ H). lia.
Qed.

End Values.

Lemma step_value (interpolation : Interpolation) (x gain : float)
    (channelCount internalStride row externalStride : Z)
    (il el il' el' : list float) (shape : Z * Z) :
  step interpolation Output x channelCount internalStride row externalStride
       gain (il, el) = Some (il', el') ->
  externalStride <> 0 ->
  forall c : Z,
    0 <= c < channelCount ->
    load el' (row + c * externalStride)
    = interpolated interpolation
        (mkArray il (fst shape) (snd shape) internalStride) x c.
Proof.
  intros H Hs c Hc. unfold step in H. unfold interpolated.
  cbn [data colStride]. destruct interpolation.
  - match type of H with bind ?o _ = _ =>
      destruct o as [integer |]; [cbn [bind] in H | discriminate H] end.
    cbn [bind].
    apply (Nearest_channels_value _ _ _ _ Hs _ _ _ _ _ _ _ H). lia.
  - match type of H with bind ?o _ = _ =>
      destruct o as [integer |]; [cbn [bind] in H | discriminate H] end.
    cbn [bind].
    apply (Bilinear_channels_value _ _ _ _ Hs _ _ _ _ _ _ _ _ H). lia.
Qed.

Lemma run_rows_value (interpolation : Interpolation) (external : External)
    (internalStride : Z) (shape : Z * Z) (n : nat) :
  check external ->
  activeFrameCount external < 2 ^ 63 ->
  rows (ref external) <= colStride (ref external) ->
  forall (row0 : Z) (rs rs' : RatioState) (il el il' el' : list float),
    run_rows interpolation Output n row0 external internalStride rs (il, el)
    = Some (rs', (il', el')) ->
    forall row c : Z,
      row0 <= row < row0 + Z.of_nat n ->
      unmutedBegin external <= row < unmutedEnd external ->
      0 <= c < cols (ref external) ->
      load el' (row + c * colStride (ref external))
      = interpolated interpolation
          (mkArray il (fst shape) (snd shape) internalStride)
          (to_float (x (Nat.iter (Z.to_nat (row - row0)) RatioState_step rs)))
          c.
Proof.
  intros Hcheck H63 Hstride. pose proof Hcheck as [H0 [H1 [H2 H3]]].
  induction n as [| n IH];
    intros row0 rs rs' il el il' el' H row c Hrow Hin Hc;
    cbn [run_rows] in H; [lia |].
  fold (unmuted external row0) in H.
  match type of H with bind ?o _ = _ =>
    destruct o as [[il1 el1] |] eqn:E; [cbn [bind] in H | discriminate H]
  end.
  destruct (Z.eq_dec row row0) as [-> | Hne].
  - rewrite (unmuted_of_range _ _ Hcheck H63 Hin) in E.
    pose proof (run_rows_frame _ _ _ _ (row0 + c * colStride (ref external))
                  _ _ _ _ _ _ H) as Hframe.
    cbn [snd] in Hframe. rewrite Hframe.
    + rewrite Z.sub_diag. cbn [Z.to_nat Nat.iter].
      apply (step_value _ _ _ _ _ _ _ _ _ _ _ shape E); lia.
    + intros row' c' Hrow' Hu Hc' Heq.
      apply (unmuted_range _ _ Hcheck H63) in Hu.
      assert (c = c') by nia. subst c'. lia.
  - assert (Hil : il1 = il).
    { destruct (unmuted external row0).
      - exact (step_Output_internal _ _ _ _ _ _ _ _ _ E).
      - now injection E as <- _. }
    subst il1.
    rewrite (IH _ _ _ _ _ _ _ H row c) by (try assumption; lia).
    replace (Z.to_nat (row - row0)) with (S (Z.to_nat (row - (row0 + 1))))
      by lia.
    cbn [Nat.iter]. now rewrite iter_step_shift.
Qed.

(** X23: an output-mode run of the loop computes every unmuted sample from
    the internal buffer alone: the sample of row [row] and channel [c] is
    the one interpolated at the position the ratio state reaches after
    [row] steps, that is the nearest internal sample, or the two internal
    samples around the position weighted by [fraction] and
    [1 - fraction]. *)
Theorem run_output_interpolates
    (interpolation : Interpolation) (ratioState ratioState' : RatioState)
    (internal internal' : Internal) (external : External)
    (external' : Array) :
  run interpolation Output ratioState internal external
  = Some (ratioState', internal', external') ->
  check external ->
  activeFrameCount external < 2 ^ 63 ->
  rows (ref external) <= colStride (ref external) ->
  forall row c : Z,
    unmutedBegin external <= row < unmutedEnd external ->
    0 <= c < cols (ref external) ->
    load (data external') (row + c * colStride (ref external))
    = interpolated interpolation (array internal)
        (to_float (x (Nat.iter (Z.to_nat row) RatioState_step ratioState)))
        c.
Proof.
  intros H Hcheck H63 Hstride row c Hrow Hc.
  pose proof Hcheck as [H0 [H1 [H2 H3]]].
  unfold run in H.
  match type of H with bind ?o _ = _ =>
    destruct o as [[rs1 [idata edata]] |] eqn:E;
      [cbn [bind] in H | discriminate H] end.
  injection H as <- <- <-. cbn [data].
  assert (2 ^ 63 < 2 ^ 64) by (apply Z.pow_lt_mono_r; lia).
  rewrite (run_rows_value interpolation external
             (colStride (array internal))
             (rows (array internal), cols (array internal))
             _ Hcheck H63 Hstride _ _ _ _ _ _ _ E row c);
    try assumption.
  - rewrite Z.sub_0_r. cbn [fst snd].
    destruct (array internal) as [d r cl s]. reflexivity.
  - unfold to_size_t. rewrite Z.mod_small by lia.
    rewrite Z2Nat.id by lia. lia.
Qed.

(** X23, instance: the bilinear output-mode run over the example buffers
    writes in row 1, at position 3/2, the mean of two samples that are
    1/2. *)
Lemma run_output_interpolates_witness :
  exists (ratioState' : RatioState) (internal' : Internal)
         (external' : Array),
    run Bilinear Output example_ratioState example_internal example_external
    = Some (ratioState', internal', external')
    /\ load (data external') (1 + 1 * 4)
       = Some (fadd (fmul fhalf fhalf) (fmul fhalf (fsub f1 fhalf))).
Proof.
  destruct (run Bilinear Output example_ratioState example_internal
                example_external) as [[[rs' i'] e'] |] eqn:E;
    [| vm_compute in E; discriminate E].
  exists rs', i', e'. split; [reflexivity |].
  pose proof (run_output_interpolates Bilinear example_ratioState rs'
                example_internal i' example_external e' E
                ltac:(unfold check; cbn; lia) ltac:(cbn; lia)
                ltac:(cbn; lia) 1 1 ltac:(cbn; lia) ltac:(cbn; lia)) as H.
  change (colStride (ref example_external)) with 4 in H.
  rewrite H. vm_compute. reflexivity.
Defined.
